(** * cs231n layer kernels: a shallow embedding and its verification

    The development embeds the layer functions of
    [assignment2/utils/layers.py], [assignment2/utils/cnn.py] and
    [assignment3/utils/rnn_layers.py].

    Conventions of the embedding.
    - A NumPy array is a shape together with its elements, addressed by a
      multi-index; the elements are real numbers (the IEEE doubles of the
      source are idealised as reals, so rounding, overflow and NaN are out of
      scope).
    - Python integers are [Z]; array dimensions and loop counters that range
      over [range(n)] are [nat].
    - Python exceptions are values of [exn]; a function that can raise
      returns in the [res] monad.
    - Parameter dictionaries live in a store and are passed by reference, as
      Python does; NumPy's global random generator is part of the same
      store. *)

From Stdlib Require Import Reals Lra Lia ZArith QArith List FunctionalExtensionality.
From stdpp Require Import base strings gmap.
Import ListNotations.
Local Open Scope R_scope.

(** ** Python exceptions and the error monad *)

Inductive exn : Type :=
| KeyError (key : string)
| ValueError (msg : string)
| TypeError (msg : string)
| ZeroDivisionError
| IndexError
| AttributeError (msg : string).

Inductive res (A : Type) : Type :=
| Ok (a : A)
| Raise (e : exn).
Arguments Ok {A} a.
Arguments Raise {A} e.

Definition res_bind {A B : Type} (m : res A) (k : A -> res B) : res B :=
  match m with
  | Ok a => k a
  | Raise e => Raise e
  end.

Notation "'let*' x ':=' m 'in' k" := (res_bind m (fun x => k))
  (at level 10, x pattern, m at level 100, k at level 200).

(** ** The fragment of NumPy used by the layers *)

Module Np.

Record ndarray : Type := mk_ndarray { shape : list nat; data : list nat -> R }.

(** [rsum n f] is the sum of [f 0 .. f (n-1)]. *)
Fixpoint rsum (n : nat) (f : nat -> R) : R :=
  match n with
  | O => 0
  | S k => rsum k f + f k
  end.

(** Sum of [f] over every multi-index below [dims]. *)
Fixpoint sum_over (dims : list nat) (f : list nat -> R) : R :=
  match dims with
  | [] => f []
  | d :: ds => rsum d (fun i => sum_over ds (fun idx => f (i :: idx)))
  end.

Definition size_of (sh : list nat) : nat := fold_right Nat.mul 1%nat sh.

(** Row-major (C order) flat offset of a multi-index and its inverse. *)
Fixpoint ravel (sh idx : list nat) : nat :=
  match sh, idx with
  | _ :: ds, i :: rest => (i * size_of ds + ravel ds rest)%nat
  | _, _ => 0%nat
  end.

Fixpoint unravel (sh : list nat) (k : nat) : list nat :=
  match sh with
  | [] => []
  | _ :: ds => (k / size_of ds)%nat :: unravel ds (k mod size_of ds)
  end.

Definition scalar (r : R) : ndarray := {| shape := []; data := fun _ => r |}.

(** [np.zeros(shape)] and [np.zeros_like(a)]. *)
Definition zeros (sh : list nat) : ndarray := {| shape := sh; data := fun _ => 0 |}.
Definition zeros_like (a : ndarray) : ndarray := zeros (shape a).

(** [a.shape[i]].  Where the source unpacks a shape, as in
    [N, C, H, W = x.shape], the sizes are read with [dim]; the unpacking
    raises [ValueError] on an array of another rank, so the statements about
    what such a function returns or raises fix the shapes of the arrays it
    unpacks. *)
Definition dim (a : ndarray) (i : nat) : nat := nth i (shape a) 0%nat.

(** [a.reshape(spec)].  A negative entry of [spec] is the unknown dimension.
    NumPy raises [ValueError] when there is more than one unknown dimension,
    when the unknown one cannot be inferred (the known ones multiply to 0, or
    do not divide the size) and when the sizes differ. *)
Definition reshape_dims (total : nat) (spec : list Z) : res (list nat) :=
  let known := size_of (map Z.to_nat (List.filter (fun z => (0 <=? z)%Z) spec)) in
  match length (List.filter (fun z => (z <? 0)%Z) spec) with
  | O => if (total =? known)%nat then Ok (map Z.to_nat spec)
         else Raise (ValueError "cannot reshape array")
  | S O => if ((known =? 0) || negb (total mod known =? 0))%nat
           then Raise (ValueError "cannot reshape array")
           else Ok (map (fun z => if (z <? 0)%Z then (total / known)%nat else Z.to_nat z) spec)
  | _ => Raise (ValueError "can only specify one unknown dimension")
  end.

Definition reshape (a : ndarray) (spec : list Z) : res ndarray :=
  let* sh := reshape_dims (size_of (shape a)) spec in
  Ok {| shape := sh; data := fun idx => data a (unravel (shape a) (ravel sh idx)) |}.

(** [a.T]: the axes reversed. *)
Definition transpose (a : ndarray) : ndarray :=
  {| shape := rev (shape a); data := fun idx => data a (rev idx) |}.

(** [a.transpose(axes)]: axis [i] of the result is axis [axes[i]] of [a]. *)
Fixpoint position (j : nat) (axes : list nat) : nat :=
  match axes with
  | [] => 0%nat
  | p :: r => if (p =? j)%nat then 0%nat else S (position j r)
  end.

Definition transpose_axes (a : ndarray) (axes : list nat) : ndarray :=
  {| shape := map (fun p => nth p (shape a) 0%nat) axes;
     data := fun idx =>
       data a (map (fun j => nth (position j axes) idx 0%nat) (seq 0 (length axes))) |}.

(** [np.dot] of two matrices. *)
Definition dot (a b : ndarray) : ndarray :=
  {| shape := [dim a 0; dim b 1];
     data := fun idx =>
       rsum (dim a 1) (fun k => data a [nth 0 idx 0%nat; k] * data b [k; nth 1 idx 0%nat]) |}.

(** Broadcasting: shapes are aligned on the right, a dimension of size 1 is
    stretched. *)
Definition bdim (d1 d2 : nat) : nat := if (d1 =? 1)%nat then d2 else d1.

Definition lpad1 (r : nat) (s : list nat) : list nat := repeat 1%nat (r - length s) ++ s.

Definition broadcast_shapes (s1 s2 : list nat) : list nat :=
  let r := Nat.max (length s1) (length s2) in
  zip_with bdim (lpad1 r s1) (lpad1 r s2).

Definition bidx (d i : nat) : nat := if (d =? 1)%nat then 0%nat else i.

Definition bindex (s idx : list nat) : list nat :=
  zip_with bidx s (skipn (length idx - length s) idx).

Definition map2 (op : R -> R -> R) (a b : ndarray) : ndarray :=
  {| shape := broadcast_shapes (shape a) (shape b);
     data := fun idx => op (data a (bindex (shape a) idx)) (data b (bindex (shape b) idx)) |}.

Definition map1 (op : R -> R) (a : ndarray) : ndarray :=
  {| shape := shape a; data := fun idx => op (data a idx) |}.

Definition add := map2 Rplus.
Definition sub := map2 Rminus.
Definition mul := map2 Rmult.
Definition div := map2 Rdiv.

(** Elementwise functions: [np.tanh], [np.exp], [np.sqrt], [a ** 2], [-a]. *)
Definition np_tanh : ndarray -> ndarray := map1 tanh.
Definition np_exp : ndarray -> ndarray := map1 exp.
Definition np_sqrt : ndarray -> ndarray := map1 sqrt.
Definition square : ndarray -> ndarray := map1 (fun v => v ^ 2).
Definition neg : ndarray -> ndarray := map1 Ropp.

(** [np.ones_like(a)]. *)
Definition ones_like (a : ndarray) : ndarray := {| shape := shape a; data := fun _ => 1 |}.

(** The comparisons [a >= c], [a < c] and [a > c] with a number give boolean
    arrays, held as 1 and 0. *)
Definition greater_equal (a : ndarray) (c : R) : ndarray := map1 (fun v => if Rle_dec c v then 1 else 0) a.
Definition less (a : ndarray) (c : R) : ndarray := map1 (fun v => if Rlt_dec v c then 1 else 0) a.
Definition greater (a : ndarray) (c : R) : ndarray := map1 (fun v => if Rlt_dec c v then 1 else 0) a.

(** [a[mask] = v[mask]] for a boolean [mask] of the shape of [a]. *)
Definition set_masked (a mask v : ndarray) : ndarray :=
  {| shape := shape a;
     data := fun idx => if Req_dec_T (data mask idx) 0 then data a idx else data v idx |}.

(** [np.hstack] of matrices: the columns side by side. *)
Fixpoint hstack_data (l : list ndarray) (i j : nat) : R :=
  match l with
  | [] => 0
  | a :: r => if (j <? dim a 1)%nat then data a [i; j] else hstack_data r i (j - dim a 1)
  end.

Definition hstack (l : list ndarray) : ndarray :=
  {| shape := [dim (hd (zeros []) l) 0; fold_right (fun a s => (dim a 1 + s)%nat) 0%nat l];
     data := fun idx => hstack_data l (nth 0 idx 0%nat) (nth 1 idx 0%nat) |}.

(** [np.sum(a)]. *)
Definition sum (a : ndarray) : R := sum_over (shape a) (data a).

(** [np.sum(a, axis=axes)]: [mask] marks the reduced axes. *)
Definition axis_mask (rank : nat) (axes : list nat) : list bool :=
  map (fun i => existsb (Nat.eqb i) axes) (seq 0 rank).

Fixpoint pick (b : bool) (mask : list bool) (l : list nat) : list nat :=
  match mask, l with
  | m :: mask', x :: l' => if Bool.eqb m b then x :: pick b mask' l' else pick b mask' l'
  | _, _ => []
  end.

Fixpoint merge_index (mask : list bool) (kept red : list nat) : list nat :=
  match mask with
  | [] => []
  | true :: mask' => hd 0%nat red :: merge_index mask' kept (tl red)
  | false :: mask' => hd 0%nat kept :: merge_index mask' (tl kept) red
  end.

Definition sum_axes (a : ndarray) (axes : list nat) : ndarray :=
  let mask := axis_mask (length (shape a)) axes in
  {| shape := pick false mask (shape a);
     data := fun idx =>
       sum_over (pick true mask (shape a)) (fun red => data a (merge_index mask idx red)) |}.

(** The same reduction that keeps the reduced axes with length one
    ([keepdims=True]). *)
Definition keep_shape (mask : list bool) (sh : list nat) : list nat :=
  zip_with (fun (m : bool) d => if m then 1%nat else d) mask sh.

Definition sum_axes_keep (a : ndarray) (axes : list nat) : ndarray :=
  let mask := axis_mask (length (shape a)) axes in
  {| shape := keep_shape mask (shape a);
     data := fun idx =>
       sum_over (pick true mask (shape a))
         (fun red => data a (merge_index mask (pick false mask idx) red)) |}.

(** [np.mean(a, axis=axes, keepdims=True)] and [np.std] with the same
    arguments, the square root of the mean squared deviation. *)
Definition np_mean (a : ndarray) (axes : list nat) : ndarray :=
  let mask := axis_mask (length (shape a)) axes in
  div (sum_axes_keep a axes) (scalar (INR (size_of (pick true mask (shape a))))).

Definition np_std (a : ndarray) (axes : list nat) : ndarray :=
  np_sqrt (np_mean (square (sub a (np_mean a axes))) axes).

(** [rmax n f] is the largest of [f 0 .. f (n-1)], for [n >= 1]. *)
Fixpoint rmax (n : nat) (f : nat -> R) : R :=
  match n with
  | O => 0
  | S k =>
      match k with
      | O => f 0%nat
      | S _ => Rmax (rmax k f) (f k)
      end
  end.

Fixpoint max_over (dims : list nat) (f : list nat -> R) : R :=
  match dims with
  | [] => f []
  | d :: ds => rmax d (fun i => max_over ds (fun idx => f (i :: idx)))
  end.

(** [np.max(a, axis=axes, keepdims=keepdims)].  The maximum has no identity:
    NumPy raises [ValueError] when a reduced axis has length zero. *)
Definition np_max (a : ndarray) (axes : list nat) (keepdims : bool) : res ndarray :=
  let mask := axis_mask (length (shape a)) axes in
  if existsb (Nat.eqb 0) (pick true mask (shape a))
  then Raise (ValueError "zero-size array to reduction operation maximum which has no identity")
  else Ok {| shape := if keepdims then keep_shape mask (shape a)
                      else pick false mask (shape a);
             data := fun idx =>
               max_over (pick true mask (shape a))
                 (fun red =>
                    data a (merge_index mask
                              (if keepdims then pick false mask idx else idx) red)) |}.

(** [a == b], a boolean array held as 1 and 0. *)
Definition equal : ndarray -> ndarray -> ndarray :=
  map2 (fun u v => if Req_dec_T u v then 1 else 0).

(** Indexing.  One [index] per subscript position: [:], [lo:hi], an
    integer, [np.newaxis] or a list of integers.  Negative integers count
    from the end; slice bounds are clipped to the dimension. *)
Inductive index : Type :=
| IAll
| ISlice (lo hi : Z)
| IInt (i : Z)
| INew
| IList (l : list Z)
| ISliceTo (hi : Z)
| ISliceFrom (lo : Z).

Definition from_end (d : nat) (i : Z) : Z := if (i <? 0)%Z then (i + Z.of_nat d)%Z else i.
Definition wrap (d : nat) (i : Z) : nat := Z.to_nat (from_end d i).
Definition clip (d : nat) (i : Z) : nat :=
  Z.to_nat (Z.max 0 (Z.min (Z.of_nat d) (from_end d i))).

(** Shape of [a[ixs]]. *)
Fixpoint index_shape (ixs : list index) (sh : list nat) : list nat :=
  match ixs with
  | [] => sh
  | INew :: r => 1%nat :: index_shape r sh
  | ix :: r =>
      match sh with
      | [] => []
      | d :: sh' =>
          match ix with
          | IAll => d :: index_shape r sh'
          | ISlice lo hi => (clip d hi - clip d lo)%nat :: index_shape r sh'
          | IInt _ => index_shape r sh'
          | IList l => length l :: index_shape r sh'
          | ISliceTo hi => clip d hi :: index_shape r sh'
          | ISliceFrom lo => (d - clip d lo)%nat :: index_shape r sh'
          | INew => []
          end
      end
  end.

(** The element of [a] that [a[ixs]] shows at position [idx]. *)
Fixpoint index_source (ixs : list index) (sh idx : list nat) : list nat :=
  match ixs with
  | [] => idx
  | INew :: r => index_source r sh (tl idx)
  | ix :: r =>
      match sh with
      | [] => []
      | d :: sh' =>
          match ix with
          | IAll => hd 0%nat idx :: index_source r sh' (tl idx)
          | ISlice lo _ => (clip d lo + hd 0%nat idx)%nat :: index_source r sh' (tl idx)
          | IInt i => wrap d i :: index_source r sh' idx
          | IList l => wrap d (nth (hd 0%nat idx) l 0%Z) :: index_source r sh' (tl idx)
          | ISliceTo _ => hd 0%nat idx :: index_source r sh' (tl idx)
          | ISliceFrom lo => (clip d lo + hd 0%nat idx)%nat :: index_source r sh' (tl idx)
          | INew => []
          end
      end
  end.

Definition getitem (a : ndarray) (ixs : list index) : ndarray :=
  {| shape := index_shape ixs (shape a);
     data := fun idx => data a (index_source ixs (shape a) idx) |}.

(** Where the element [idx] of [a] sits inside the selection [a[ixs]], if it
    is selected.  Assignments in the layers use slices and integers only. *)
Fixpoint index_target (ixs : list index) (sh idx : list nat) : option (list nat) :=
  match ixs with
  | [] => Some idx
  | ix :: r =>
      match sh, idx with
      | d :: sh', i :: idx' =>
          match ix with
          | IAll => option_map (cons i) (index_target r sh' idx')
          | ISlice lo hi =>
              if ((clip d lo <=? i) && (i <? clip d hi))%nat
              then option_map (cons (i - clip d lo)%nat) (index_target r sh' idx')
              else None
          | IInt k => if (i =? wrap d k)%nat then index_target r sh' idx' else None
          | ISliceTo hi =>
              if (i <? clip d hi)%nat
              then option_map (cons i) (index_target r sh' idx')
              else None
          | ISliceFrom lo =>
              if (clip d lo <=? i)%nat
              then option_map (cons (i - clip d lo)%nat) (index_target r sh' idx')
              else None
          | INew | IList _ => None
          end
      | _, _ => None
      end
  end.

(** [a[ixs] = v], with [v] broadcast to the selection. *)
Definition setitem (a : ndarray) (ixs : list index) (v : ndarray) : ndarray :=
  {| shape := shape a;
     data := fun idx =>
       match index_target ixs (shape a) idx with
       | Some tgt => data v (bindex (shape v) tgt)
       | None => data a idx
       end |}.

(** Integer subscripts outside [-d, d) raise [IndexError]. *)
Definition index_in_range (d : nat) (i : Z) : bool :=
  ((- Z.of_nat d <=? i) && (i <? Z.of_nat d))%Z.

Fixpoint indices_ok (ixs : list index) (sh : list nat) : bool :=
  match ixs with
  | [] => true
  | INew :: r => indices_ok r sh
  | ix :: r =>
      match sh with
      | [] => false
      | d :: sh' =>
          match ix with
          | IInt i => index_in_range d i && indices_ok r sh'
          | IList l => forallb (index_in_range d) l && indices_ok r sh'
          | _ => indices_ok r sh'
          end
      end
  end.

Definition np_getitem (a : ndarray) (ixs : list index) : res ndarray :=
  if indices_ok ixs (shape a) then Ok (getitem a ixs) else Raise IndexError.

Definition np_setitem (a : ndarray) (ixs : list index) (v : ndarray) : res ndarray :=
  if indices_ok ixs (shape a) then Ok (setitem a ixs v) else Raise IndexError.

(** [a[ixs] += v]. *)
Definition additem (a : ndarray) (ixs : list index) (v : ndarray) : ndarray :=
  setitem a ixs (add (getitem a ixs) v).

(** [np.lib.pad(a, widths, 'constant')]: zeros around [a]. *)
Fixpoint pad_shape (widths : list (nat * nat)) (sh : list nat) : list nat :=
  match widths, sh with
  | (lo, hi) :: ws, d :: sh' => (lo + d + hi)%nat :: pad_shape ws sh'
  | _, _ => []
  end.

Fixpoint pad_source (widths : list (nat * nat)) (sh idx : list nat) : option (list nat) :=
  match widths, sh, idx with
  | [], [], [] => Some []
  | (lo, _) :: ws, d :: sh', i :: idx' =>
      if ((lo <=? i) && (i <? lo + d))%nat
      then option_map (cons (i - lo)%nat) (pad_source ws sh' idx')
      else None
  | _, _, _ => None
  end.

Definition pad_constant (a : ndarray) (widths : list (nat * nat)) : ndarray :=
  {| shape := pad_shape widths (shape a);
     data := fun idx =>
       match pad_source widths (shape a) idx with
       | Some src => data a src
       | None => 0
       end |}.

(** [np.lib.pad] refuses negative widths. *)
Definition np_pad (a : ndarray) (widths : list (Z * Z)) : res ndarray :=
  if forallb (fun p => (0 <=? fst p)%Z && (0 <=? snd p)%Z) widths
  then Ok (pad_constant a (map (fun p => (Z.to_nat (fst p), Z.to_nat (snd p))) widths))
  else Raise (ValueError "index can't contain negative values").

(** [np.zeros(dims)] refuses negative dimensions. *)
Definition np_zeros (dims : list Z) : res ndarray :=
  if forallb (fun d => (0 <=? d)%Z) dims
  then Ok (zeros (map Z.to_nat dims))
  else Raise (ValueError "negative dimensions are not allowed").

(** [for i in range(n): s = body i s]. *)
Fixpoint for_range {A : Type} (n : nat) (body : nat -> A -> A) (s : A) : A :=
  match n with
  | O => s
  | S k => body k (for_range k body s)
  end.

(** The same loop with a body that can raise. *)
Fixpoint for_range_res {A : Type} (n : nat) (body : nat -> A -> res A) (s : A) : res A :=
  match n with
  | O => Ok s
  | S k => let* s' := for_range_res k body s in body k s'
  end.

(** [range(lo, hi)] as a list. *)
Definition py_range (lo hi : Z) : list Z :=
  map (fun k => (lo + Z.of_nat k)%Z) (seq 0 (Z.to_nat (hi - lo))).

End Np.

(** ** Finite sums and index arithmetic *)

Module NpFacts.
Import Np.

Lemma rsum_ext (n : nat) (f g : nat -> R) :
  (forall k, (k < n)%nat -> f k = g k) -> rsum n f = rsum n g.
Proof.
  induction n as [|n IH]; intros H; simpl; [reflexivity|].
  rewrite IH by (intros; apply H; lia).
  rewrite H by lia. reflexivity.
Qed.

Lemma rsum_zero (n : nat) : rsum n (fun _ => 0) = 0.
Proof. induction n as [|n IH]; simpl; [|rewrite IH]; lra. Qed.

Lemma rsum_zero_ext (n : nat) (f : nat -> R) :
  (forall k, (k < n)%nat -> f k = 0) -> rsum n f = 0.
Proof. intros H. rewrite (rsum_ext n f (fun _ => 0)) by exact H. apply rsum_zero. Qed.

Lemma rsum_plus (n : nat) (f g : nat -> R) :
  rsum n (fun k => f k + g k) = rsum n f + rsum n g.
Proof. induction n as [|n IH]; simpl; [|rewrite IH]; lra. Qed.

Lemma rsum_scal_l (n : nat) (c : R) (f : nat -> R) :
  rsum n (fun k => c * f k) = c * rsum n f.
Proof. induction n as [|n IH]; simpl; [|rewrite IH]; lra. Qed.

Lemma rsum_scal_r (n : nat) (c : R) (f : nat -> R) :
  rsum n (fun k => f k * c) = rsum n f * c.
Proof. induction n as [|n IH]; simpl; [|rewrite IH]; lra. Qed.

Lemma rsum_swap (n m : nat) (f : nat -> nat -> R) :
  rsum n (fun i => rsum m (fun j => f i j)) = rsum m (fun j => rsum n (fun i => f i j)).
Proof.
  induction n as [|n IH]; simpl.
  - symmetry. apply rsum_zero.
  - rewrite IH, <- rsum_plus. reflexivity.
Qed.

Lemma rsum_app (n m : nat) (f : nat -> R) :
  rsum (n + m) f = rsum n f + rsum m (fun k => f (n + k)%nat).
Proof.
  induction m as [|m IH].
  - rewrite Nat.add_0_r. simpl. lra.
  - rewrite Nat.add_succ_r. simpl. rewrite IH. lra.
Qed.

(** A sum whose terms vanish away from [k0] keeps the term at [k0]. *)
Lemma rsum_single (n k0 : nat) (f : nat -> R) :
  (k0 < n)%nat -> (forall k, (k < n)%nat -> k <> k0 -> f k = 0) -> rsum n f = f k0.
Proof.
  induction n as [|n IH]; intros Hk H; [lia|]. simpl.
  destruct (Nat.eq_dec k0 n) as [->|Hne].
  - rewrite rsum_zero_ext; [lra|]. intros k Hkn. apply H; lia.
  - rewrite IH by (try lia; intros; apply H; lia).
    rewrite (H n) by lia. lra.
Qed.

Lemma rsum_mul (d m : nat) (h : nat -> nat -> R) :
  rsum (d * m) (fun k => h (k / m)%nat (k mod m)%nat) = rsum d (fun i => rsum m (fun j => h i j)).
Proof.
  induction d as [|d IH]; [reflexivity|].
  replace (S d * m)%nat with (d * m + m)%nat by lia.
  rewrite rsum_app, IH. simpl. f_equal.
  apply rsum_ext. intros k Hk.
  assert (Hm : m <> 0%nat) by lia.
  replace (d * m + k)%nat with (k + d * m)%nat by lia.
  rewrite Nat.div_add, Nat.Div0.mod_add by exact Hm.
  rewrite Nat.div_small, Nat.mod_small by exact Hk.
  reflexivity.
Qed.

Lemma sum_over_ext (dims : list nat) (f g : list nat -> R) :
  (forall idx, Forall2 lt idx dims -> f idx = g idx) -> sum_over dims f = sum_over dims g.
Proof.
  revert f g. induction dims as [|d ds IH]; intros f g H; simpl.
  - apply H. constructor.
  - apply rsum_ext. intros i Hi. apply IH. intros idx Hidx.
    apply H. constructor; assumption.
Qed.

Lemma sum_over_zero (dims : list nat) : sum_over dims (fun _ => 0) = 0.
Proof.
  induction dims as [|d ds IH]; simpl; [reflexivity|].
  apply rsum_zero_ext. intros. exact IH.
Qed.

Lemma sum_over_plus (dims : list nat) (f g : list nat -> R) :
  sum_over dims (fun idx => f idx + g idx) = sum_over dims f + sum_over dims g.
Proof.
  revert f g. induction dims as [|d ds IH]; intros f g; simpl; [reflexivity|].
  rewrite <- rsum_plus. apply rsum_ext. intros i _. apply IH.
Qed.

Lemma sum_over_unravel (dims : list nat) (f : list nat -> R) :
  sum_over dims f = rsum (size_of dims) (fun k => f (unravel dims k)).
Proof.
  revert f. induction dims as [|d ds IH]; intros f; simpl.
  - lra.
  - rewrite (rsum_mul d (size_of ds) (fun i j => f (i :: unravel ds j))).
    apply rsum_ext. intros i _. apply IH.
Qed.

(** ** Multi-indices inside a shape *)

Definition in_bounds (sh idx : list nat) : Prop := Forall2 lt idx sh.

Lemma ravel_lt (sh idx : list nat) : in_bounds sh idx -> (ravel sh idx < size_of sh)%nat.
Proof.
  intros H. induction H as [|i d idx sh Hi _ IH]; simpl; [lia|].
  change (fold_right Nat.mul 1%nat sh) with (size_of sh). nia.
Qed.

Lemma unravel_ravel (sh idx : list nat) : in_bounds sh idx -> unravel sh (ravel sh idx) = idx.
Proof.
  intros H. induction H as [|i d idx sh Hi Hb IH]; simpl; [reflexivity|].
  pose proof (ravel_lt sh idx Hb) as Hlt.
  assert (Hne : size_of sh <> 0%nat) by lia.
  replace (i * size_of sh + ravel sh idx)%nat with (ravel sh idx + i * size_of sh)%nat by lia.
  rewrite Nat.div_add, Nat.Div0.mod_add by exact Hne.
  rewrite Nat.div_small, Nat.mod_small by exact Hlt.
  simpl. rewrite IH. reflexivity.
Qed.

Lemma unravel_in_bounds (sh : list nat) (k : nat) :
  (k < size_of sh)%nat -> in_bounds sh (unravel sh k).
Proof.
  revert k. induction sh as [|d ds IH]; intros k Hk; simpl.
  - constructor.
  - simpl in Hk. change (fold_right Nat.mul 1%nat ds) with (size_of ds) in Hk.
    assert (Hne : size_of ds <> 0%nat) by nia.
    constructor.
    + apply Nat.Div0.div_lt_upper_bound. lia.
    + apply IH. apply Nat.mod_upper_bound. exact Hne.
Qed.

Lemma ravel_unravel (sh : list nat) (k : nat) :
  (k < size_of sh)%nat -> ravel sh (unravel sh k) = k.
Proof.
  revert k. induction sh as [|d ds IH]; intros k Hk; simpl.
  - simpl in Hk. lia.
  - simpl in Hk. change (fold_right Nat.mul 1%nat ds) with (size_of ds) in Hk.
    assert (Hne : size_of ds <> 0%nat) by nia.
    rewrite IH by (apply Nat.mod_upper_bound; exact Hne).
    pose proof (Nat.div_mod_eq k (size_of ds)). lia.
Qed.

Lemma in_bounds_length (sh idx : list nat) : in_bounds sh idx -> length idx = length sh.
Proof. intros H. induction H; simpl; congruence. Qed.

(** ** Adjoint identities for matrix products *)

Lemma dot_adjoint_l (n d m : nat) (G X' W : nat -> nat -> R) :
  rsum n (fun i => rsum m (fun j => G i j * rsum d (fun k => X' i k * W k j))) =
  rsum n (fun i => rsum d (fun k => rsum m (fun j => G i j * W k j) * X' i k)).
Proof.
  apply rsum_ext. intros i _.
  rewrite (rsum_ext m _ (fun j => rsum d (fun k => G i j * W k j * X' i k))).
  2:{ intros j _. rewrite <- rsum_scal_l. apply rsum_ext. intros; lra. }
  rewrite rsum_swap. apply rsum_ext. intros k _. apply rsum_scal_r.
Qed.

Lemma dot_adjoint_r (n d m : nat) (G X W' : nat -> nat -> R) :
  rsum n (fun i => rsum m (fun j => G i j * rsum d (fun k => X i k * W' k j))) =
  rsum d (fun k => rsum m (fun j => rsum n (fun i => X i k * G i j) * W' k j)).
Proof.
  rewrite (rsum_ext n _ (fun i => rsum d (fun k => rsum m (fun j => X i k * G i j * W' k j)))).
  2:{ intros i _. rewrite rsum_swap. apply rsum_ext. intros j _.
      rewrite <- rsum_scal_l. apply rsum_ext. intros; lra. }
  rewrite rsum_swap. apply rsum_ext. intros k _.
  rewrite rsum_swap. apply rsum_ext. intros j _. apply rsum_scal_r.
Qed.

Lemma bias_adjoint (n m : nat) (G : nat -> nat -> R) (B' : nat -> R) :
  rsum n (fun i => rsum m (fun j => G i j * B' j)) =
  rsum m (fun j => rsum n (fun i => G i j) * B' j).
Proof.
  rewrite rsum_swap. apply rsum_ext. intros j _. apply rsum_scal_r.
Qed.

(** ** Broadcasting *)

Lemma bdim_1_r (d : nat) : bdim d 1 = d.
Proof. unfold bdim. destruct (Nat.eqb_spec d 1); congruence. Qed.

Lemma bdim_diag (d : nat) : bdim d d = d.
Proof. unfold bdim. destruct (d =? 1)%nat; reflexivity. Qed.

Lemma bidx_lt (d i : nat) : (i < d)%nat -> bidx d i = i.
Proof. intros H. unfold bidx. destruct (Nat.eqb_spec d 1); [lia|reflexivity]. Qed.

Lemma unravel_cons (d : nat) (ds : list nat) (n k : nat) :
  (k < size_of ds)%nat -> unravel (d :: ds) (n * size_of ds + k) = n :: unravel ds k.
Proof.
  intros Hk. simpl. change (fold_right Nat.mul 1%nat ds) with (size_of ds).
  assert (Hne : size_of ds <> 0%nat) by lia.
  replace (n * size_of ds + k)%nat with (k + n * size_of ds)%nat by lia.
  rewrite Nat.div_add, Nat.Div0.mod_add by exact Hne.
  rewrite Nat.div_small, Nat.mod_small by exact Hk. reflexivity.
Qed.

Lemma ravel_pair (d1 d2 i j : nat) : ravel [d1; d2] [i; j] = (i * d2 + j)%nat.
Proof. simpl. lia. Qed.

Lemma unravel_single (d k : nat) : unravel [d] k = [k].
Proof. cbn [unravel size_of fold_right]. rewrite Nat.div_1_r. reflexivity. Qed.

Lemma unravel_pair (d1 d2 i j : nat) :
  (j < d2)%nat -> unravel [d1; d2] (i * d2 + j) = [i; j].
Proof.
  intros Hj. assert (E : size_of [d2] = d2) by (simpl; lia).
  rewrite <- E at 2. rewrite unravel_cons by lia.
  rewrite unravel_single. reflexivity.
Qed.

End NpFacts.

(** Unfolds the array operations down to shapes and element functions,
    leaving sums and flat offsets folded. *)
Ltac np_unfold :=
  cbn [Np.shape Np.data Np.add Np.sub Np.mul Np.div Np.map2 Np.map1 Np.dot Np.transpose
       Np.dim Np.zeros Np.zeros_like Np.scalar Np.sum Np.sum_axes Np.axis_mask Np.pick
       Np.merge_index Np.sum_over
       Np.broadcast_shapes Np.lpad1 Np.bindex nth length Nat.max Nat.sub repeat app
       zip_with skipn rev seq map existsb Nat.eqb orb Bool.eqb hd tl fst snd res_bind].

(** ** Gradients

    The gradient of a scalar function [L] of an array at [a] is the array of
    the partial derivatives of [L] with respect to the entries of [a]: the
    entry at [idx] is the derivative at [a[idx]] of [L] as a function of that
    entry alone. *)

Module Gradient.
Import Np NpFacts.

(** [a] with the entry at [idx] replaced by [t]. *)
Definition set_entry (a : ndarray) (idx : list nat) (t : R) : ndarray :=
  {| shape := shape a;
     data := fun j => if decide (j = idx) then t else data a j |}.

Definition gradient_at (L : ndarray -> R) (a g : ndarray) : Prop :=
  shape g = shape a /\
  forall idx, in_bounds (shape a) idx ->
    derivable_pt_lim (fun t => L (set_entry a idx t)) (data a idx) (data g idx).

(** A path of arrays of a fixed shape whose entries are differentiable at
    [t0], with the entrywise derivative [a']. *)
Definition tangent (a : R -> ndarray) (t0 : R) (a' : list nat -> R) : Prop :=
  (forall t, shape (a t) = shape (a t0)) /\
  forall idx, derivable_pt_lim (fun t => data (a t) idx) t0 (a' idx).

Definition indicator (idx : list nat) : list nat -> R :=
  fun j => if decide (j = idx) then 1 else 0.

(** The pairing of a gradient with a tangent. *)
Definition inner (g : ndarray) (v : list nat -> R) : R :=
  sum_over (shape g) (fun idx => data g idx * v idx).

Lemma dlim_ext (f g : R -> R) (x l l' : R) :
  (forall t, f t = g t) -> l = l' -> derivable_pt_lim f x l -> derivable_pt_lim g x l'.
Proof.
  intros Hfg -> H.
  assert (E : f = g) by (apply functional_extensionality; exact Hfg).
  rewrite <- E. exact H.
Qed.

Lemma dlim_rsum (n : nat) (f : nat -> R -> R) (f' : nat -> R) (x : R) :
  (forall k, (k < n)%nat -> derivable_pt_lim (f k) x (f' k)) ->
  derivable_pt_lim (fun t => rsum n (fun k => f k t)) x (rsum n f').
Proof.
  induction n as [|n IH]; intros H; simpl.
  - apply derivable_pt_lim_const.
  - apply (derivable_pt_lim_plus (fun t => rsum n (fun k => f k t)) (f n)).
    + apply IH. intros; apply H; lia.
    + apply H; lia.
Qed.

Lemma dlim_sum_over (dims : list nat) (f : list nat -> R -> R) (f' : list nat -> R) (x : R) :
  (forall idx, in_bounds dims idx -> derivable_pt_lim (f idx) x (f' idx)) ->
  derivable_pt_lim (fun t => sum_over dims (fun idx => f idx t)) x (sum_over dims f').
Proof.
  revert f f'. induction dims as [|d ds IH]; intros f f' H; simpl.
  - apply H. constructor.
  - apply (dlim_rsum d (fun i t => sum_over ds (fun idx => f (i :: idx) t))
             (fun i => sum_over ds (fun idx => f' (i :: idx)))).
    intros i Hi. apply (IH (fun idx => f (i :: idx)) (fun idx => f' (i :: idx))).
    intros idx Hidx. apply H. constructor; assumption.
Qed.

Lemma dlim_scal_l (c : R) (f : R -> R) (x l : R) :
  derivable_pt_lim f x l -> derivable_pt_lim (fun t => c * f t) x (c * l).
Proof. intros H. exact (derivable_pt_lim_scal f c x l H). Qed.

Lemma dlim_mult (f g : R -> R) (x lf lg : R) :
  derivable_pt_lim f x lf -> derivable_pt_lim g x lg ->
  derivable_pt_lim (fun t => f t * g t) x (lf * g x + f x * lg).
Proof. intros Hf Hg. exact (derivable_pt_lim_mult f g x lf lg Hf Hg). Qed.

Lemma dlim_plus (f g : R -> R) (x lf lg : R) :
  derivable_pt_lim f x lf -> derivable_pt_lim g x lg ->
  derivable_pt_lim (fun t => f t + g t) x (lf + lg).
Proof. intros Hf Hg. exact (derivable_pt_lim_plus f g x lf lg Hf Hg). Qed.

Lemma dlim_eq (f g : R -> R) (x l l' : R) :
  derivable_pt_lim f x l -> (forall t, g t = f t) -> l' = l -> derivable_pt_lim g x l'.
Proof. intros H Hfg Hl. apply (dlim_ext f g x l l'); [intros; symmetry; apply Hfg|congruence|exact H]. Qed.

(** The logistic function. *)
Definition logistic (u : R) : R := / (1 + exp (- u)).

Lemma exp_neg_mul (u : R) : exp u * exp (- u) = 1.
Proof. rewrite <- exp_plus, Rplus_opp_r. apply exp_0. Qed.

Lemma cosh_gt_0 (u : R) : 0 < cosh u.
Proof. unfold cosh. pose proof (exp_pos u). pose proof (exp_pos (- u)). lra. Qed.

Lemma cosh_sinh_sq (u : R) : cosh u * cosh u - sinh u * sinh u = 1.
Proof.
  unfold cosh, sinh. pose proof (exp_neg_mul u) as E.
  replace ((exp u + exp (- u)) / 2 * ((exp u + exp (- u)) / 2) -
           (exp u - exp (- u)) / 2 * ((exp u - exp (- u)) / 2))
    with (exp u * exp (- u)) by field.
  exact E.
Qed.

Lemma dlim_tanh (u : R) : derivable_pt_lim tanh u (1 - tanh u ^ 2).
Proof.
  pose proof (cosh_gt_0 u) as Hc.
  apply (dlim_eq (div_fct sinh cosh) tanh u
           ((cosh u * cosh u - sinh u * sinh u) / (cosh u)²)).
  - apply derivable_pt_lim_div.
    + apply derivable_pt_lim_sinh.
    + apply derivable_pt_lim_cosh.
    + lra.
  - intros t. reflexivity.
  - unfold tanh, Rsqr. pose proof (cosh_sinh_sq u). field. lra.
Qed.

Lemma dlim_logistic (u : R) : derivable_pt_lim logistic u (logistic u * (1 - logistic u)).
Proof.
  pose proof (exp_pos (- u)) as He.
  assert (Hne : 1 + exp (- u) <> 0) by lra.
  assert (Hd : derivable_pt_lim (fun t => 1 + exp (- t)) u (0 + exp (- u) * (-1))).
  { apply (derivable_pt_lim_plus (fun _ => 1) (fun t => exp (- t))).
    - apply derivable_pt_lim_const.
    - apply (derivable_pt_lim_comp (fun t => - t) exp).
      + apply (dlim_eq (opp_fct id) (fun t => - t) u (- 1)); [|reflexivity|reflexivity].
        apply derivable_pt_lim_opp. apply derivable_pt_lim_id.
      + apply derivable_pt_lim_exp. }
  apply (dlim_eq (div_fct (fct_cte 1) (fun t => 1 + exp (- t))) logistic u
           ((0 * (1 + exp (- u)) - (0 + exp (- u) * (-1)) * fct_cte 1 u) / (1 + exp (- u))²)).
  - apply (derivable_pt_lim_div (fct_cte 1) (fun t => 1 + exp (- t)) u 0 _).
    + apply derivable_pt_lim_const.
    + exact Hd.
    + exact Hne.
  - intros t. unfold logistic, div_fct, fct_cte. field.
    pose proof (exp_pos (- t)). lra.
  - unfold logistic, Rsqr, fct_cte. field. exact Hne.
Qed.

Lemma dlim_comp_tanh (f : R -> R) (x l : R) :
  derivable_pt_lim f x l ->
  derivable_pt_lim (fun t => tanh (f t)) x ((1 - tanh (f x) ^ 2) * l).
Proof. intros H. exact (derivable_pt_lim_comp f tanh x l _ H (dlim_tanh (f x))). Qed.

Lemma dlim_comp_logistic (f : R -> R) (x l : R) :
  derivable_pt_lim f x l ->
  derivable_pt_lim (fun t => logistic (f t)) x (logistic (f x) * (1 - logistic (f x)) * l).
Proof. intros H. exact (derivable_pt_lim_comp f logistic x l _ H (dlim_logistic (f x))). Qed.

Lemma tangent_const (a : ndarray) (t0 : R) : tangent (fun _ => a) t0 (fun _ => 0).
Proof. split; [reflexivity|]. intros idx. apply derivable_pt_lim_const. Qed.

Lemma tangent_set_entry (a : ndarray) (idx : list nat) (t0 : R) :
  tangent (set_entry a idx) t0 (indicator idx).
Proof.
  split; [reflexivity|]. intros j. unfold set_entry, indicator; simpl.
  destruct (decide (j = idx)).
  - apply derivable_pt_lim_id.
  - apply derivable_pt_lim_const.
Qed.

Lemma set_entry_same (a : ndarray) (idx : list nat) : set_entry a idx (data a idx) = a.
Proof.
  destruct a as [sh d]. unfold set_entry; simpl. f_equal.
  apply functional_extensionality. intros j.
  destruct (decide (j = idx)) as [->|]; reflexivity.
Qed.

Lemma inner_zero (g : ndarray) : inner g (fun _ => 0) = 0.
Proof.
  unfold inner. rewrite (sum_over_ext _ _ (fun _ => 0)); [apply sum_over_zero|].
  intros; lra.
Qed.

Lemma sum_over_indicator (sh idx : list nat) (f : list nat -> R) :
  in_bounds sh idx -> sum_over sh (fun j => f j * indicator idx j) = f idx.
Proof.
  intros H. revert f. induction H as [|i d idx sh Hi Hb IH]; intros f; simpl.
  - unfold indicator. destruct (decide ([] = [])); [lra|congruence].
  - rewrite (rsum_single d i); [ | exact Hi | ].
    2:{ intros k _ Hk. rewrite (sum_over_ext _ _ (fun _ => 0)); [apply sum_over_zero|].
        intros j _. unfold indicator.
        destruct (decide (k :: j = i :: idx)) as [E|]; [congruence|lra]. }
    rewrite <- (IH (fun j => f (i :: j))).
    apply sum_over_ext. intros j _. unfold indicator.
    destruct (decide (i :: j = i :: idx)), (decide (j = idx)); congruence || lra.
Qed.

Lemma inner_indicator (g : ndarray) (idx : list nat) :
  in_bounds (shape g) idx -> inner g (indicator idx) = data g idx.
Proof. intros H. unfold inner. apply (sum_over_indicator _ _ (data g) H). Qed.

End Gradient.

(** Differentiates sums and products of entries of paths with a known
    [tangent]; the derivative is built as the rules apply. *)
Ltac dlim :=
  lazymatch goal with
  | |- derivable_pt_lim (fun _ => ?c) _ _ => apply derivable_pt_lim_const
  | |- derivable_pt_lim (fun t => t) _ _ => apply derivable_pt_lim_id
  | |- derivable_pt_lim (fun t => Np.rsum ?n (fun k => @?f k t)) _ _ =>
      eapply (Gradient.dlim_rsum n f); intros ? ?; dlim
  | |- derivable_pt_lim (fun t => @?f t + @?g t) _ _ =>
      eapply (Gradient.dlim_plus f g); dlim
  | |- derivable_pt_lim (fun t => @?f t * @?g t) _ _ =>
      eapply (Gradient.dlim_mult f g); dlim
  | |- derivable_pt_lim (fun t => tanh (@?f t)) _ _ =>
      eapply (Gradient.dlim_comp_tanh f); dlim
  | |- derivable_pt_lim (fun t => Gradient.logistic (@?f t)) _ _ =>
      eapply (Gradient.dlim_comp_logistic f); dlim
  | |- derivable_pt_lim (fun t => Np.data (@?A t) ?idx) ?t0 _ =>
      match goal with
      | H : Gradient.tangent ?A' t0 _ |- _ => unify A A'; apply (proj2 H idx)
      end
  | |- derivable_pt_lim ?f _ _ =>
      let f' := eval cbv beta in f in
      progress change f with f'; dlim
  end.

(** ** Python values, dictionaries and the store *)

Inductive pyval : Type :=
| PNone
| PBool (b : bool)
| PInt (z : Z)
| PFloat (r : R)
| PStr (s : string)
| PArr (a : Np.ndarray).

(** NumPy's global random generator is not part of the repository.  Its
    state is an opaque integer; [seed_state s] is the state installed by
    [np.random.seed(s)], [rand] and [randn] draw an array of the requested
    shape and advance the state.  [np.random.seed(None)] installs a state
    read from the entropy of the operating system: [fresh_state] stands for
    that read.  It belongs to the run and not to the program: two runs of
    the same program are two generators that agree on [seed_state], [rand]
    and [randn] and may differ in [fresh_state]. *)
Record generator : Type := {
  seed_state : Z -> Z;
  fresh_state : Z -> Z;
  rand : Z -> list nat -> Np.ndarray * Z;
  randn : Z -> list nat -> Np.ndarray * Z;
  rand_shape : forall g sh, Np.shape (fst (rand g sh)) = sh;
  randn_shape : forall g sh, Np.shape (fst (randn g sh)) = sh
}.

(** The store: the dictionaries, by identity, and the generator state. *)
Record store : Type := { dicts : gmap nat (gmap string pyval); rng : Z }.

Definition Py (A : Type) : Type := store -> res A * store.

Definition py_ret {A : Type} (a : A) : Py A := fun st => (Ok a, st).

Definition py_raise {A : Type} (e : exn) : Py A := fun st => (Raise e, st).

Definition py_bind {A B : Type} (m : Py A) (k : A -> Py B) : Py B :=
  fun st =>
    match m st with
    | (Ok a, st') => k a st'
    | (Raise e, st') => (Raise e, st')
    end.

Definition lift {A : Type} (r : res A) : Py A := fun st => (r, st).

Notation "'let!' x ':=' m 'in' k" := (py_bind m (fun x => k))
  (at level 10, x pattern, m at level 100, k at level 200).

Definition the_dict (st : store) (d : nat) : gmap string pyval :=
  default ∅ (dicts st !! d).

(** [d[k]] *)
Definition dict_getitem (d : nat) (k : string) : Py pyval :=
  fun st =>
    match the_dict st d !! k with
    | Some v => (Ok v, st)
    | None => (Raise (KeyError k), st)
    end.

(** [d.get(k, dflt)] *)
Definition dict_get (d : nat) (k : string) (dflt : pyval) : Py pyval :=
  fun st => (Ok (default dflt (the_dict st d !! k)), st).

(** [k in d] *)
Definition dict_contains (d : nat) (k : string) : Py bool :=
  fun st => (Ok (bool_decide (is_Some (the_dict st d !! k))), st).

(** [d[k] = v] *)
Definition dict_setitem (d : nat) (k : string) (v : pyval) : Py unit :=
  fun st => (Ok tt, {| dicts := <[d := <[k := v]> (the_dict st d)]> (dicts st);
                       rng := rng st |}).

(** Uses of a dictionary value as an integer, a float or an array. *)
Definition as_int (v : pyval) : res Z :=
  match v with
  | PInt z => Ok z
  | PBool b => Ok (if b then 1%Z else 0%Z)
  | _ => Raise (TypeError "an integer is required")
  end.

Definition as_float (v : pyval) : res R :=
  match v with
  | PFloat r => Ok r
  | PInt z => Ok (IZR z)
  | PBool b => Ok (if b then 1 else 0)
  | _ => Raise (TypeError "a number is required")
  end.

Definition as_array (v : pyval) : res Np.ndarray :=
  match v with
  | PArr a => Ok a
  | PFloat r => Ok (Np.scalar r)
  | PInt z => Ok (Np.scalar (IZR z))
  | PBool b => Ok (Np.scalar (if b then 1 else 0))
  | _ => Raise (TypeError "unsupported operand type")
  end.

(** [v == s] for a string literal [s]. *)
Definition eq_str (v : pyval) (s : string) : bool :=
  match v with
  | PStr s' => bool_decide (s' = s)
  | _ => false
  end.

(** Integer arithmetic of Python 3: [a / b] is the exact quotient, [int]
    truncates towards zero, [a // b] rounds down. *)
Definition truediv (a b : Z) : res Q :=
  if (b =? 0)%Z then Raise ZeroDivisionError
  else if (0 <? b)%Z then Ok (Qmake a (Z.to_pos b))
  else Ok (Qmake (- a) (Z.to_pos (- b))).

Definition int_of (q : Q) : Z := Z.quot (Qnum q) (Zpos (Qden q)).

Definition floordiv (a b : Z) : res Z :=
  if (b =? 0)%Z then Raise ZeroDivisionError else Ok (a / b)%Z.

Section Random.

Variable G : generator.

(** [np.random.seed(s)] for an integer [s] *)
Definition random_seed (s : Z) : Py unit :=
  fun st => (Ok tt, {| dicts := dicts st; rng := seed_state G s |}).

(** [np.random.seed(v)]: an integer seed has to lie in [0, 2**32). *)
Definition np_random_seed (v : pyval) : Py unit :=
  match v with
  | PNone => fun st => (Ok tt, {| dicts := dicts st; rng := fresh_state G (rng st) |})
  | PInt _ | PBool _ =>
      let! s := lift (as_int v) in
      if ((0 <=? s) && (s <? 2 ^ 32))%Z then random_seed s
      else py_raise (ValueError "Seed must be between 0 and 2**32 - 1")
  | _ => py_raise (TypeError "Cannot cast scalar to an unsigned integer")
  end.

(** [np.random.rand] called with the dimensions [sh] *)
Definition random_rand (sh : list nat) : Py Np.ndarray :=
  fun st => let '(a, g) := rand G (rng st) sh in
            (Ok a, {| dicts := dicts st; rng := g |}).

(** [np.random.randn] called with the dimensions [sh] *)
Definition random_randn (sh : list nat) : Py Np.ndarray :=
  fun st => let '(a, g) := randn G (rng st) sh in
            (Ok a, {| dicts := dicts st; rng := g |}).

(** [np.random.randn] refuses negative dimensions. *)
Definition np_random_randn (dims : list Z) : Py Np.ndarray :=
  if forallb (fun d => (0 <=? d)%Z) dims
  then random_randn (map Z.to_nat dims)
  else py_raise (ValueError "negative dimensions are not allowed").

End Random.

Lemma truediv_pos (a b : Z) : (0 < b)%Z -> truediv a b = Ok (Qmake a (Z.to_pos b)).
Proof.
  intros Hb. unfold truediv.
  destruct (Z.eqb_spec b 0); [lia|].
  destruct (Z.ltb_spec 0 b); [reflexivity|lia].
Qed.

(** [int(a / b + 1)] when [b] divides [a >= 0]. *)
Lemma int_of_quotient_succ (k b : Z) :
  (0 < b)%Z -> (0 <= k)%Z ->
  int_of (Qplus (Qmake (k * b) (Z.to_pos b)) 1) = (k + 1)%Z.
Proof.
  intros Hb Hk. unfold int_of, Qplus. cbn [Qnum Qden].
  rewrite Pos.mul_1_r, Z.mul_1_r, Z.mul_1_l, Z2Pos.id by exact Hb.
  replace (k * b + b)%Z with ((k + 1) * b)%Z by lia.
  apply Z.quot_mul. lia.
Qed.

(** * assignment2/utils/layers.py *)

Import Np NpFacts Gradient.

(** ** Affine layer *)

Definition affine_cache : Type := (ndarray * ndarray * ndarray)%type.

Definition affine_forward (x w b : ndarray) : res (ndarray * affine_cache) :=
  let n := dim x 0 in
  let* xr := reshape x [Z.of_nat n; (-1)%Z] in
  let* br := reshape b [1%Z; Z.of_nat (dim w 1)] in
  let out := add (dot xr w) br in
  let cache := (x, w, b) in
  Ok (out, cache).

Definition affine_backward (dout : ndarray) (cache : affine_cache)
  : res (ndarray * ndarray * ndarray) :=
  let '(x, w, b) := cache in
  let* dx := reshape (dot dout (transpose w)) (map Z.of_nat (shape x)) in
  let* xr := reshape x [Z.of_nat (dim x 0); (-1)%Z] in
  let dw := dot (transpose xr) dout in
  let db := sum_axes dout [0%nat] in
  Ok (dx, dw, db).

(** The scalar [np.sum(dout * out)] of a forward result, the loss whose
    gradients the backward pass returns. *)
Definition upstream_loss {C : Type} (dout : ndarray) (r : res (ndarray * C)) : R :=
  match r with
  | Ok (out, _) => sum (mul dout out)
  | Raise _ => 0
  end.

Section ReshapeFacts.

Lemma filter_nonneg_of_nat (l : list nat) :
  List.filter (fun z => (0 <=? z)%Z) (map Z.of_nat l) = map Z.of_nat l.
Proof.
  induction l as [|a l IH]; simpl; [reflexivity|].
  destruct (Z.leb_spec 0 (Z.of_nat a)); [rewrite IH; reflexivity|lia].
Qed.

Lemma filter_neg_of_nat (l : list nat) :
  List.filter (fun z => (z <? 0)%Z) (map Z.of_nat l) = [].
Proof.
  induction l as [|a l IH]; simpl; [reflexivity|].
  destruct (Z.ltb_spec (Z.of_nat a) 0); [lia|exact IH].
Qed.

Lemma to_nat_of_nat_map (l : list nat) : map Z.to_nat (map Z.of_nat l) = l.
Proof.
  induction l as [|a l IH]; simpl; [reflexivity|].
  rewrite Nat2Z.id, IH. reflexivity.
Qed.

(** Reshaping to explicit dimensions of the same size. *)
Lemma reshape_exact (a : ndarray) (sh : list nat) :
  size_of (shape a) = size_of sh ->
  reshape a (map Z.of_nat sh) =
  Ok {| shape := sh; data := fun idx => data a (unravel (shape a) (ravel sh idx)) |}.
Proof.
  intros Hsz. unfold reshape, reshape_dims.
  rewrite filter_neg_of_nat, filter_nonneg_of_nat, to_nat_of_nat_map. simpl.
  rewrite Hsz, Nat.eqb_refl. reflexivity.
Qed.

(** [a.reshape(n, -1)] for an array whose first dimension is [n > 0]. *)
Lemma reshape_rows (a : ndarray) (n : nat) (ds : list nat) :
  shape a = n :: ds -> (0 < n)%nat ->
  reshape a [Z.of_nat n; (-1)%Z] =
  Ok {| shape := [n; size_of ds];
        data := fun idx => data a (unravel (n :: ds) (ravel [n; size_of ds] idx)) |}.
Proof.
  intros Hsh Hn. unfold reshape, reshape_dims. rewrite Hsh.
  cbn [List.filter map length size_of fold_right].
  destruct (Z.leb_spec 0 (Z.of_nat n)); [|lia].
  destruct (Z.ltb_spec (Z.of_nat n) 0); [lia|].
  cbn [List.filter map length size_of fold_right Z.leb Z.ltb Z.compare Z.to_nat res_bind].
  rewrite Nat2Z.id, Nat.mul_1_r.
  change (fold_right Nat.mul 1%nat ds) with (size_of ds).
  assert (Hn0 : n <> 0%nat) by lia.
  destruct (n =? 0)%nat eqn:E3; [apply Nat.eqb_eq in E3; lia|].
  rewrite (Nat.mul_comm n), Nat.Div0.mod_mul, Nat.div_mul by exact Hn0.
  reflexivity.
Qed.

(** With an empty batch the unknown dimension cannot be inferred. *)
Lemma reshape_rows_empty (a : ndarray) (ds : list nat) :
  shape a = 0%nat :: ds ->
  reshape a [0%Z; (-1)%Z] = Raise (ValueError "cannot reshape array").
Proof. intros Hsh. unfold reshape, reshape_dims. rewrite Hsh. reflexivity. Qed.

End ReshapeFacts.


Section Affine.

Variables (N M : nat) (ds : list nat).
Hypothesis HN : (0 < N)%nat.

Section Values.
Variables x w b : ndarray.
Hypothesis Hx : shape x = N :: ds.
Hypothesis Hw : shape w = [size_of ds; M].
Hypothesis Hb : shape b = [M].

(** The element-wise content of [x.reshape(N, D)]. *)
Lemma reshape_batch_value :
  exists xr, reshape x [Z.of_nat N; Z.of_nat (size_of ds)] = Ok xr /\
    shape xr = [N; size_of ds] /\
    forall n d, (d < size_of ds)%nat -> data xr [n; d] = data x (n :: unravel ds d).
Proof.
  eexists. split; [|split].
  - apply (reshape_exact x [N; size_of ds]). rewrite Hx. simpl. lia.
  - reflexivity.
  - intros n d Hd. cbn [data]. rewrite Hx, ravel_pair, unravel_cons by exact Hd. reflexivity.
Qed.

Lemma affine_forward_value :
  exists out,
    affine_forward x w b = Ok (out, (x, w, b)) /\
    shape out = [N; M] /\
    forall n m, (n < N)%nat -> (m < M)%nat ->
      data out [n; m] =
      rsum (size_of ds) (fun d => data x (n :: unravel ds d) * data w [d; m]) + data b [m].
Proof.
  eexists. split; [|split].
  - unfold affine_forward, dim. rewrite Hx, Hw. cbn [nth].
    rewrite (reshape_rows x N ds Hx HN). cbn [res_bind].
    change [1%Z; Z.of_nat M] with (map Z.of_nat [1%nat; M]).
    rewrite (reshape_exact b [1%nat; M]) by (rewrite Hb; simpl; lia).
    cbn [res_bind]. reflexivity.
  - np_unfold. unfold dim. rewrite Hw. np_unfold. rewrite bdim_1_r, bdim_diag. reflexivity.
  - intros n m Hn Hm. np_unfold. unfold dim. rewrite Hb, Hw. np_unfold.
    rewrite !bidx_lt by lia. cbn [bidx Nat.eqb].
    rewrite !ravel_pair, unravel_single. cbn [Nat.mul Nat.add]. f_equal.
    apply rsum_ext. intros d Hd. rewrite ravel_pair, unravel_cons by exact Hd. reflexivity.
Qed.

Variable dout : ndarray.
Hypothesis Hdout : shape dout = [N; M].

Lemma affine_backward_value :
  exists dx dw db,
    affine_backward dout (x, w, b) = Ok (dx, dw, db) /\
    shape dx = shape x /\ shape dw = shape w /\ shape db = shape b /\
    (forall n idx, in_bounds ds idx ->
       data dx (n :: idx) = rsum M (fun m => data dout [n; m] * data w [ravel ds idx; m])) /\
    (forall d m, (d < size_of ds)%nat ->
       data dw [d; m] = rsum N (fun n => data x (n :: unravel ds d) * data dout [n; m])) /\
    (forall m, data db [m] = rsum N (fun n => data dout [n; m])).
Proof.
  eexists. eexists. eexists. split; [|split; [|split; [|split; [|split; [|split]]]]].
  - unfold affine_backward, dim. rewrite Hx. cbn [nth].
    rewrite (reshape_rows x N ds Hx HN). 
    rewrite (reshape_exact _ (N :: ds)).
    2:{ np_unfold. unfold dim. rewrite Hdout, Hw. simpl. lia. }
    cbn [res_bind]. reflexivity.
  - cbn [shape]. symmetry. exact Hx.
  - np_unfold. unfold dim. rewrite Hdout. np_unfold. rewrite Hw. reflexivity.
  - np_unfold. rewrite Hdout. np_unfold. rewrite Hb. reflexivity.
  - intros n idx Hidx. np_unfold. unfold dim. rewrite Hdout, Hw. np_unfold.
    cbn [ravel]. rewrite unravel_pair by (apply ravel_lt; exact Hidx). reflexivity.
  - intros d m Hd. np_unfold. unfold dim. cbn [shape nth]. 
    apply rsum_ext. intros n Hn. rewrite ravel_pair, unravel_cons by exact Hd. reflexivity.
  - intros m. np_unfold. rewrite Hdout. np_unfold. reflexivity.
Qed.

(** [np.sum(dout * out)] written out. *)
Lemma affine_loss_value :
  upstream_loss dout (affine_forward x w b) =
  rsum N (fun n => rsum M (fun m =>
    data dout [n; m] *
    (rsum (size_of ds) (fun d => data x (n :: unravel ds d) * data w [d; m]) + data b [m]))).
Proof.
  destruct affine_forward_value as (out & -> & Hsh & Hval).
  unfold upstream_loss. np_unfold. rewrite Hdout, Hsh. np_unfold.
  rewrite !bdim_diag. np_unfold.
  apply rsum_ext. intros n Hn. apply rsum_ext. intros m Hm.
  rewrite !bidx_lt by lia. rewrite Hval by lia. reflexivity.
Qed.

End Values.

Section Derivative.

Variables (X W B : R -> ndarray) (X' W' B' : list nat -> R) (t0 : R).
Hypothesis HX : tangent X t0 X'.
Hypothesis HW : tangent W t0 W'.
Hypothesis HB : tangent B t0 B'.
Hypothesis Hx : shape (X t0) = N :: ds.
Hypothesis Hw : shape (W t0) = [size_of ds; M].
Hypothesis Hb : shape (B t0) = [M].
Variable dout : ndarray.
Hypothesis Hdout : shape dout = [N; M].

Lemma affine_loss_dlim dx dw db :
  affine_backward dout (X t0, W t0, B t0) = Ok (dx, dw, db) ->
  derivable_pt_lim (fun t => upstream_loss dout (affine_forward (X t) (W t) (B t))) t0
    (inner dx X' + inner dw W' + inner db B').
Proof.
  intros Hbw.
  eapply dlim_eq.
  2:{ intros t. apply affine_loss_value.
      - rewrite (proj1 HX). exact Hx.
      - rewrite (proj1 HW). exact Hw.
      - rewrite (proj1 HB). exact Hb.
      - exact Hdout. }
  - dlim.
  - destruct (affine_backward_value (X t0) (W t0) (B t0) Hx Hw Hb dout Hdout)
      as (dx0 & dw0 & db0 & E & Hsx & Hsw & Hsb & Hdx & Hdw & Hdb).
    rewrite E in Hbw. injection Hbw as <- <- <-.
    rewrite (rsum_ext N _ (fun n =>
      rsum M (fun m => data dout [n; m] *
                rsum (size_of ds) (fun d => X' (n :: unravel ds d) * data (W t0) [d; m])) +
      (rsum M (fun m => data dout [n; m] *
                rsum (size_of ds) (fun d => data (X t0) (n :: unravel ds d) * W' [d; m])) +
       rsum M (fun m => data dout [n; m] * B' [m])))).
    2:{ intros n _. rewrite <- !rsum_plus. apply rsum_ext. intros m _.
        rewrite rsum_plus. lra. }
    rewrite !rsum_plus.
    rewrite (dot_adjoint_l N (size_of ds) M (fun n m => data dout [n; m])
               (fun n d => X' (n :: unravel ds d)) (fun d m => data (W t0) [d; m])).
    rewrite (dot_adjoint_r N (size_of ds) M (fun n m => data dout [n; m])
               (fun n d => data (X t0) (n :: unravel ds d)) (fun d m => W' [d; m])).
    rewrite (bias_adjoint N M (fun n m => data dout [n; m]) (fun m => B' [m])).
    unfold inner. rewrite Hsx, Hsw, Hsb, Hx, Hw, Hb. cbn [sum_over].
    rewrite <- Rplus_assoc. f_equal; [f_equal|].
    + apply rsum_ext. intros n _. rewrite sum_over_unravel.
      apply rsum_ext. intros d Hd.
      rewrite Hdx by (apply unravel_in_bounds; exact Hd).
      rewrite ravel_unravel by exact Hd. reflexivity.
    + apply rsum_ext. intros d Hd. apply rsum_ext. intros m _.
      rewrite Hdw by exact Hd. reflexivity.
    + apply rsum_ext. intros m _. rewrite Hdb. reflexivity.
Qed.

End Derivative.

Section Gradients.

Variables x w b dout : ndarray.
Hypothesis Hx : shape x = N :: ds.
Hypothesis Hw : shape w = [size_of ds; M].
Hypothesis Hb : shape b = [M].
Hypothesis Hdout : shape dout = [N; M].
Variables dx dw db : ndarray.
Hypothesis Hbw : affine_backward dout (x, w, b) = Ok (dx, dw, db).

Lemma affine_backward_shapes : shape dx = shape x /\ shape dw = shape w /\ shape db = shape b.
Proof.
  destruct (affine_backward_value x w b Hx Hw Hb dout Hdout)
    as (dx0 & dw0 & db0 & E & Hsx & Hsw & Hsb & _).
  rewrite E in Hbw. injection Hbw as <- <- <-. auto.
Qed.

Lemma affine_gradient_x :
  gradient_at (fun x' => upstream_loss dout (affine_forward x' w b)) x dx.
Proof.
  split; [apply affine_backward_shapes|]. intros idx Hidx.
  eapply dlim_eq.
  - apply (affine_loss_dlim (set_entry x idx) (fun _ => w) (fun _ => b)
             (indicator idx) (fun _ => 0) (fun _ => 0) (data x idx)
             (tangent_set_entry _ _ _) (tangent_const _ _) (tangent_const _ _)
             Hx Hw Hb dout Hdout dx dw db).
    rewrite set_entry_same. exact Hbw.
  - reflexivity.
  - rewrite !inner_zero, inner_indicator; [lra|].
    rewrite (proj1 affine_backward_shapes). exact Hidx.
Qed.

Lemma affine_gradient_w :
  gradient_at (fun w' => upstream_loss dout (affine_forward x w' b)) w dw.
Proof.
  split; [apply affine_backward_shapes|]. intros idx Hidx.
  eapply dlim_eq.
  - apply (affine_loss_dlim (fun _ => x) (set_entry w idx) (fun _ => b)
             (fun _ => 0) (indicator idx) (fun _ => 0) (data w idx)
             (tangent_const _ _) (tangent_set_entry _ _ _) (tangent_const _ _)
             Hx Hw Hb dout Hdout dx dw db).
    rewrite set_entry_same. exact Hbw.
  - reflexivity.
  - rewrite !inner_zero, inner_indicator; [lra|].
    rewrite (proj1 (proj2 affine_backward_shapes)). exact Hidx.
Qed.

Lemma affine_gradient_b :
  gradient_at (fun b' => upstream_loss dout (affine_forward x w b')) b db.
Proof.
  split; [apply affine_backward_shapes|]. intros idx Hidx.
  eapply dlim_eq.
  - apply (affine_loss_dlim (fun _ => x) (fun _ => w) (set_entry b idx)
             (fun _ => 0) (fun _ => 0) (indicator idx) (data b idx)
             (tangent_const _ _) (tangent_const _ _) (tangent_set_entry _ _ _)
             Hx Hw Hb dout Hdout dx dw db).
    rewrite set_entry_same. exact Hbw.
  - reflexivity.
  - rewrite !inner_zero, inner_indicator; [lra|].
    rewrite (proj2 (proj2 affine_backward_shapes)). exact Hidx.
Qed.

End Gradients.
End Affine.

(** C4, for a batch of at least one example: for [x] of shape
    [(N, d_1, ..., d_k)] with [N >= 1], [w] of shape [(D, M)] with
    [D = d_1 * ... * d_k] and [b] of shape [(M,)], [affine_forward] returns
    [out] of shape [(N, M)] with [out = reshape(x, (N, D)).w + b] and the
    cache [(x, w, b)]; for every [dout] of shape [(N, M)], [affine_backward]
    returns [dx = (dout.w^T)] reshaped to the shape of [x],
    [dw = reshape(x, (N, D))^T.dout] and [db] the column-wise sum of [dout],
    and these are the gradients of [np.sum(dout * out)] with respect to [x],
    [w] and [b]. *)
Theorem affine_forward_backward_correct (N M : nat) (ds : list nat) (x w b : ndarray) :
  (0 < N)%nat -> shape x = N :: ds -> shape w = [size_of ds; M] -> shape b = [M] ->
  exists xr out,
    reshape x [Z.of_nat N; Z.of_nat (size_of ds)] = Ok xr /\
    affine_forward x w b = Ok (out, (x, w, b)) /\
    shape out = [N; M] /\
    (forall n m, (n < N)%nat -> (m < M)%nat ->
       data out [n; m] = rsum (size_of ds) (fun d => data xr [n; d] * data w [d; m]) + data b [m]) /\
    forall dout, shape dout = [N; M] ->
      exists dx dw db,
        affine_backward dout (x, w, b) = Ok (dx, dw, db) /\
        reshape (dot dout (transpose w)) (map Z.of_nat (shape x)) = Ok dx /\
        dw = dot (transpose xr) dout /\
        db = sum_axes dout [0%nat] /\
        gradient_at (fun x' => upstream_loss dout (affine_forward x' w b)) x dx /\
        gradient_at (fun w' => upstream_loss dout (affine_forward x w' b)) w dw /\
        gradient_at (fun b' => upstream_loss dout (affine_forward x w b')) b db.
Proof.
  intros HN Hx Hw Hb.
  destruct (reshape_batch_value N ds HN x Hx) as (xr & Hxr & Hsxr & Hvxr).
  destruct (affine_forward_value N M ds HN x w b Hx Hw Hb) as (out & Hfw & Hso & Hvo).
  exists xr, out. repeat split; try assumption.
  - intros n m Hn Hm. rewrite Hvo by assumption. f_equal.
    apply rsum_ext. intros d Hd. rewrite Hvxr by exact Hd. reflexivity.
  - intros dout Hdout.
    destruct (affine_backward_value N M ds HN x w b Hx Hw Hb dout Hdout)
      as (dx & dw & db & Hbw & _).
    exists dx, dw, db.
    pose proof Hbw as Hbw'. unfold affine_backward in Hbw'.
    destruct (reshape (dot dout (transpose w)) (map Z.of_nat (shape x))) as [dx'|] eqn:E1;
      [|discriminate].
    cbn [res_bind] in Hbw'. unfold dim in Hbw'. rewrite Hx in Hbw'. cbn [nth] in Hbw'.
    rewrite (reshape_rows x N ds Hx HN) in Hbw'. cbn [res_bind] in Hbw'.
    injection Hbw' as <- Hdw Hdb.
    change [Z.of_nat N; Z.of_nat (size_of ds)] with (map Z.of_nat [N; size_of ds]) in Hxr.
    rewrite (reshape_exact x [N; size_of ds]) in Hxr by (rewrite Hx; simpl; lia).
    injection Hxr as Hxr. rewrite Hx in Hxr.
    repeat split.
    + exact Hbw.
    + rewrite <- Hdw, <- Hxr. reflexivity.
    + symmetry. exact Hdb.
    + apply (affine_backward_shapes N M ds HN x w b dout Hx Hw Hb Hdout _ _ _ Hbw).
    + apply (affine_gradient_x N M ds HN x w b dout Hx Hw Hb Hdout _ _ _ Hbw).
    + apply (affine_backward_shapes N M ds HN x w b dout Hx Hw Hb Hdout _ _ _ Hbw).
    + apply (affine_gradient_w N M ds HN x w b dout Hx Hw Hb Hdout _ _ _ Hbw).
    + apply (affine_backward_shapes N M ds HN x w b dout Hx Hw Hb Hdout _ _ _ Hbw).
    + apply (affine_gradient_b N M ds HN x w b dout Hx Hw Hb Hdout _ _ _ Hbw).
Qed.

Definition affine_x0 : ndarray :=
  {| shape := [2; 1; 3]%nat; data := fun idx => INR (ravel [2; 1; 3]%nat idx) |}.
Definition affine_w0 : ndarray :=
  {| shape := [3; 2]%nat; data := fun idx => INR (ravel [3; 2]%nat idx) - 1 |}.
Definition affine_b0 : ndarray :=
  {| shape := [2]%nat; data := fun idx => INR (ravel [2]%nat idx) |}.

Lemma affine_forward_backward_correct_witness :
  exists xr out,
    reshape affine_x0 [2%Z; 3%Z] = Ok xr /\
    affine_forward affine_x0 affine_w0 affine_b0 = Ok (out, (affine_x0, affine_w0, affine_b0)) /\
    shape out = [2; 2]%nat /\
    (forall n m, (n < 2)%nat -> (m < 2)%nat ->
       data out [n; m] =
       rsum 3 (fun d => data xr [n; d] * data affine_w0 [d; m]) + data affine_b0 [m]) /\
    forall dout, shape dout = [2; 2]%nat ->
      exists dx dw db,
        affine_backward dout (affine_x0, affine_w0, affine_b0) = Ok (dx, dw, db) /\
        reshape (dot dout (transpose affine_w0)) [2%Z; 1%Z; 3%Z] = Ok dx /\
        dw = dot (transpose xr) dout /\
        db = sum_axes dout [0%nat] /\
        gradient_at (fun x' => upstream_loss dout (affine_forward x' affine_w0 affine_b0))
          affine_x0 dx /\
        gradient_at (fun w' => upstream_loss dout (affine_forward affine_x0 w' affine_b0))
          affine_w0 dw /\
        gradient_at (fun b' => upstream_loss dout (affine_forward affine_x0 affine_w0 b'))
          affine_b0 db.
Proof.
  apply (affine_forward_backward_correct 2 2 [1; 3]%nat affine_x0 affine_w0 affine_b0);
    [lia | reflexivity | reflexivity | reflexivity].
Defined.

(** With an empty batch [x.reshape(0, -1)] cannot infer the second dimension
    and the forward pass raises. *)
Lemma affine_forward_empty_batch :
  shape (zeros [0; 3]%nat) = [0; 3]%nat /\
  affine_forward (zeros [0; 3]%nat) (zeros [3; 2]%nat) (zeros [2]%nat) =
    Raise (ValueError "cannot reshape array") /\
  ~ exists out cache,
      affine_forward (zeros [0; 3]%nat) (zeros [3; 2]%nat) (zeros [2]%nat) = Ok (out, cache).
Proof.
  split; [reflexivity|]. split; [reflexivity|].
  intros (out & cache & H). discriminate H.
Qed.

(** ** Convolution layer *)

Definition conv_cache : Type := (ndarray * ndarray * ndarray * nat)%type.

(** [d[k]] used as an integer. *)
Definition getitem_int (d : nat) (k : string) : Py Z :=
  let! v := dict_getitem d k in lift (as_int v).

Definition conv_forward_naive (x w b : ndarray) (conv_param : nat) : Py (ndarray * conv_cache) :=
  let N := dim x 0 in let C := dim x 1 in let H := dim x 2 in let W := dim x 3 in
  let F := dim w 0 in let HH := dim w 2 in let WW := dim w 3 in
  let! stride := getitem_int conv_param "stride" in
  let! pad := getitem_int conv_param "pad" in
  let! qh := lift (truediv (Z.of_nat H + 2 * pad - Z.of_nat HH) stride) in
  let H1 := int_of (qh + 1)%Q in
  let! qw := lift (truediv (Z.of_nat W + 2 * pad - Z.of_nat WW) stride) in
  let W1 := int_of (qw + 1)%Q in
  let! x1 := lift (np_pad x [(0, 0); (0, 0); (pad, pad); (pad, pad)]%Z) in
  let! out := lift (np_zeros [Z.of_nat N; Z.of_nat F; H1; W1]) in
  let x1 := getitem x1 [IAll; INew; IAll; IAll; IAll] in
  let w1 := getitem w [INew; IAll; IAll; IAll; IAll] in
  let! b1 := lift (reshape b [1; Z.of_nat F; 1; 1]%Z) in
  let out :=
    for_range (Z.to_nat H1) (fun h out =>
      for_range (Z.to_nat W1) (fun w_i out =>
        setitem out [IAll; IAll; IInt (Z.of_nat h); IInt (Z.of_nat w_i)]
          (sum_axes
             (mul (getitem x1 [IAll; IAll; IAll;
                               ISlice (Z.of_nat h * stride) (Z.of_nat h * stride + Z.of_nat HH);
                               ISlice (Z.of_nat w_i * stride) (Z.of_nat w_i * stride + Z.of_nat WW)])
                  w1)
             [2; 3; 4]%nat)) out) out in
  let out := add out b1 in
  let cache := (x, w, b, conv_param) in
  py_ret (out, cache).

Definition conv_backward_naive (dout : ndarray) (cache : conv_cache)
  : Py (ndarray * ndarray * ndarray) :=
  let '(x, w, b, conv_param) := cache in
  let H := dim x 2 in let W := dim x 3 in
  let HH := dim w 2 in let WW := dim w 3 in
  let H1 := dim dout 2 in let W1 := dim dout 3 in
  let! stride := getitem_int conv_param "stride" in
  let! pad := getitem_int conv_param "pad" in
  let dx := zeros_like x in
  let dw := zeros_like w in
  let db := zeros_like b in
  let! x1 := lift (np_pad x [(0, 0); (0, 0); (pad, pad); (pad, pad)]%Z) in
  let x2 := getitem x1 [IAll; INew; IAll; IAll; IAll] in
  let w1 := getitem w [INew; IAll; IAll; IAll; IAll] in
  let dout1 := getitem dout [IAll; IAll; INew; IAll; IAll] in
  let dw :=
    for_range HH (fun i dw =>
      for_range WW (fun j dw =>
        setitem dw [IAll; IAll; IInt (Z.of_nat i); IInt (Z.of_nat j)]
          (sum_axes
             (mul (getitem
                     (getitem x2 [IAll; IAll; IAll;
                                  IList (map (fun k => k * stride + Z.of_nat i)%Z
                                           (py_range 0 (Z.of_nat H1)));
                                  IAll])
                     [IAll; IAll; IAll; IAll;
                      IList (map (fun k => k * stride + Z.of_nat j)%Z (py_range 0 (Z.of_nat W1)))])
                  dout1)
             [0; 3; 4]%nat)) dw) dw in
  let! dx := lift (
    for_range_res H (fun i dx =>
      for_range_res W (fun j dx =>
        let* q := floordiv (Z.of_nat i + pad - Z.of_nat HH) stride in
        let H_k_min := (q + 1)%Z in
        let* H_k_max := floordiv (Z.of_nat i + pad) stride in
        let* q := floordiv (Z.of_nat j + pad - Z.of_nat WW) stride in
        let W_k_min := (q + 1)%Z in
        let* W_k_max := floordiv (Z.of_nat j + pad) stride in
        let ks := py_range (Z.max 0 H_k_min) (Z.min (Z.of_nat H1) (H_k_max + 1)) in
        let ls := py_range (Z.max 0 W_k_min) (Z.min (Z.of_nat W1) (W_k_max + 1)) in
        let w_patch :=
          getitem
            (getitem w1 [IAll; IAll; IAll;
                         IList (map (fun k => Z.of_nat i + pad - stride * k)%Z ks); IAll])
            [IAll; IAll; IAll; IAll; IList (map (fun k => Z.of_nat j + pad - stride * k)%Z ls)] in
        let dout_patch :=
          getitem (getitem dout1 [IAll; IAll; IAll; IList ks; IAll])
                  [IAll; IAll; IAll; IAll; IList ls] in
        Ok (setitem dx [IAll; IAll; IInt (Z.of_nat i); IInt (Z.of_nat j)]
              (sum_axes (mul w_patch dout_patch) [1; 3; 4]%nat))) dx) dx) in
  let db := sum_axes dout [0; 2; 3]%nat in
  py_ret (dx, dw, db).

(** The loss [np.sum(dout * out)] of a forward pass run in a store. *)
Definition upstream_loss_in {C : Type} (dout : ndarray) (r : res (ndarray * C) * store) : R :=
  upstream_loss dout (fst r).

(** Index normalisation on in-range values. *)
Lemma wrap_of_nat (d i : nat) : wrap d (Z.of_nat i) = i.
Proof.
  unfold wrap, from_end. destruct (Z.ltb_spec (Z.of_nat i) 0); lia.
Qed.

Lemma clip_of_nat (d i : nat) : (i <= d)%nat -> clip d (Z.of_nat i) = i.
Proof.
  intros H. unfold clip, from_end. destruct (Z.ltb_spec (Z.of_nat i) 0); lia.
Qed.

Section LoopStore.

Variables (V : nat -> nat -> ndarray) (d0 d1 d2 d3 : nat).

Let store_at (h w_i : nat) (a : ndarray) : ndarray :=
  setitem a [IAll; IAll; IInt (Z.of_nat h); IInt (Z.of_nat w_i)] (V h w_i).

Lemma store_at_value (h w_i : nat) (a : ndarray) :
  shape a = [d0; d1; d2; d3] ->
  shape (store_at h w_i a) = [d0; d1; d2; d3] /\
  forall n f i j,
    data (store_at h w_i a) [n; f; i; j] =
    if ((i =? h) && (j =? w_i))%nat then data (V h w_i) (bindex (shape (V h w_i)) [n; f])
    else data a [n; f; i; j].
Proof.
  intros Ha. split; [exact Ha|]. intros n f i j.
  unfold store_at, setitem. cbn [data]. rewrite Ha.
  cbn [index_target]. rewrite !wrap_of_nat.
  destruct (i =? h)%nat; [|reflexivity].
  destruct (j =? w_i)%nat; reflexivity.
Qed.

Lemma inner_loop_value (h n2 : nat) (a : ndarray) :
  shape a = [d0; d1; d2; d3] ->
  shape (for_range n2 (store_at h) a) = [d0; d1; d2; d3] /\
  forall n f i j,
    data (for_range n2 (store_at h) a) [n; f; i; j] =
    if ((i =? h) && (j <? n2))%nat then data (V h j) (bindex (shape (V h j)) [n; f])
    else data a [n; f; i; j].
Proof.
  intros Ha. induction n2 as [|k [IHs IHd]]; cbn [for_range].
  - split; [exact Ha|]. intros. rewrite andb_false_r. reflexivity.
  - destruct (store_at_value h k _ IHs) as [Hs Hd]. split; [exact Hs|].
    intros n f i j. rewrite Hd, IHd.
    destruct (Nat.eqb_spec i h) as [->|]; cbn [andb]; [|reflexivity].
    destruct (Nat.eqb_spec j k) as [->|].
    + destruct (Nat.ltb_spec k (S k)); [reflexivity|lia].
    + destruct (Nat.ltb_spec j k), (Nat.ltb_spec j (S k)); try lia; reflexivity.
Qed.

Lemma nested_loop_value (n1 n2 : nat) (a : ndarray) :
  shape a = [d0; d1; d2; d3] ->
  shape (for_range n1 (fun h a => for_range n2 (store_at h) a) a) = [d0; d1; d2; d3] /\
  forall n f i j,
    data (for_range n1 (fun h a => for_range n2 (store_at h) a) a) [n; f; i; j] =
    if ((i <? n1) && (j <? n2))%nat then data (V i j) (bindex (shape (V i j)) [n; f])
    else data a [n; f; i; j].
Proof.
  intros Ha. induction n1 as [|k [IHs IHd]]; cbn [for_range].
  - split; [exact Ha|]. intros. reflexivity.
  - destruct (inner_loop_value k n2 _ IHs) as [Hs Hd]. split; [exact Hs|].
    intros n f i j. rewrite Hd, IHd.
    destruct (Nat.eqb_spec i k) as [->|]; cbn [andb].
    + destruct (Nat.ltb_spec k (S k)); [|lia]. cbn [andb].
      destruct (j <? n2)%nat; [reflexivity|].
      destruct (Nat.ltb_spec k k); [lia|reflexivity].
    + destruct (Nat.ltb_spec i k), (Nat.ltb_spec i (S k)); try lia; reflexivity.
Qed.

End LoopStore.

Lemma getitem_int_value (st : store) (cp : nat) (d : gmap string pyval) (k : string) (z : Z) :
  dicts st !! cp = Some d -> d !! k = Some (PInt z) ->
  getitem_int cp k st = (Ok z, st).
Proof.
  intros Hd Hk. unfold getitem_int, py_bind, dict_getitem, the_dict.
  rewrite Hd. simpl. rewrite Hk. reflexivity.
Qed.

Lemma np_pad_of_nat (a : ndarray) (widths : list (nat * nat)) :
  np_pad a (map (fun p => (Z.of_nat (fst p), Z.of_nat (snd p))) widths) =
  Ok (pad_constant a widths).
Proof.
  unfold np_pad.
  assert (E1 : forallb (fun p : Z * Z => (0 <=? fst p)%Z && (0 <=? snd p)%Z)
            (map (fun p : nat * nat => (Z.of_nat (fst p), Z.of_nat (snd p))) widths) = true).
  { induction widths as [|[lo hi] l IH]; [reflexivity|]. cbn [map forallb fst snd].
    rewrite IH. destruct (Z.leb_spec 0 (Z.of_nat lo)), (Z.leb_spec 0 (Z.of_nat hi));
      first [reflexivity | lia]. }
  assert (E2 : map (fun p : Z * Z => (Z.to_nat (fst p), Z.to_nat (snd p)))
            (map (fun p : nat * nat => (Z.of_nat (fst p), Z.of_nat (snd p))) widths) = widths).
  { clear E1. induction widths as [|[lo hi] l IH]; [reflexivity|]. cbn [map fst snd].
    rewrite !Nat2Z.id, IH. reflexivity. }
  rewrite E1, E2. reflexivity.
Qed.

Lemma np_zeros_of_nat (dims : list nat) : np_zeros (map Z.of_nat dims) = Ok (zeros dims).
Proof.
  unfold np_zeros.
  assert (E1 : forallb (fun d => (0 <=? d)%Z) (map Z.of_nat dims) = true).
  { induction dims as [|d l IH]; [reflexivity|]. cbn [map forallb]. rewrite IH.
    destruct (Z.leb_spec 0 (Z.of_nat d)); [reflexivity|lia]. }
  rewrite E1, to_nat_of_nat_map. reflexivity.
Qed.

Ltac bidx_simpl :=
  cbn [bidx bdim Nat.eqb];
  repeat match goal with
         | |- context [bidx ?d ?i] => rewrite (bidx_lt d i) by lia
         end.

Ltac py_step := unfold py_bind at 1, lift at 1; cbn beta iota.

Section ConvForward.

Variables (N C H W F HH WW S P kh kw : nat).
Hypothesis HS : (1 <= S)%nat.
Hypothesis Hkh : (H + 2 * P = HH + kh * S)%nat.
Hypothesis Hkw : (W + 2 * P = WW + kw * S)%nat.
Variables (st : store) (conv_param : nat) (cp : gmap string pyval).
Hypothesis Hcp : dicts st !! conv_param = Some cp.
Hypothesis Hstride : cp !! "stride" = Some (PInt (Z.of_nat S)).
Hypothesis Hpad : cp !! "pad" = Some (PInt (Z.of_nat P)).

Definition zero_pad (x : ndarray) : ndarray :=
  pad_constant x [(0, 0); (0, 0); (P, P); (P, P)]%nat.

Variables x w b : ndarray.
Hypothesis Hx : shape x = [N; C; H; W].
Hypothesis Hw : shape w = [F; C; HH; WW].
Hypothesis Hb : shape b = [F].

Lemma conv_forward_value :
  exists out,
    conv_forward_naive x w b conv_param st = (Ok (out, (x, w, b, conv_param)), st) /\
    shape out = [N; F; (1 + kh)%nat; (1 + kw)%nat] /\
    forall n f i j, (n < N)%nat -> (f < F)%nat -> (i < 1 + kh)%nat -> (j < 1 + kw)%nat ->
      data out [n; f; i; j] =
      rsum C (fun c => rsum HH (fun p => rsum WW (fun q =>
        data (zero_pad x) [n; c; (i * S + p)%nat; (j * S + q)%nat] * data w [f; c; p; q])))
      + data b [f].
Proof.
  eexists. split; [|split].
  - unfold conv_forward_naive.
    unfold py_bind at 1. rewrite (getitem_int_value st conv_param cp "stride" _ Hcp Hstride).
    unfold py_bind at 1. rewrite (getitem_int_value st conv_param cp "pad" _ Hcp Hpad).
    unfold dim. rewrite Hx, Hw. cbn [nth].
    replace (Z.of_nat H + 2 * Z.of_nat P - Z.of_nat HH)%Z with (Z.of_nat kh * Z.of_nat S)%Z by lia.
    replace (Z.of_nat W + 2 * Z.of_nat P - Z.of_nat WW)%Z with (Z.of_nat kw * Z.of_nat S)%Z by lia.
    rewrite !truediv_pos by lia.
    py_step. py_step.
    rewrite !int_of_quotient_succ by lia.
    replace (Z.of_nat kh + 1)%Z with (Z.of_nat (1 + kh)) by lia.
    replace (Z.of_nat kw + 1)%Z with (Z.of_nat (1 + kw)) by lia.
    rewrite !Nat2Z.id.
    change [(0%Z, 0%Z); (0%Z, 0%Z); (Z.of_nat P, Z.of_nat P); (Z.of_nat P, Z.of_nat P)]
      with (map (fun p => (Z.of_nat (fst p), Z.of_nat (snd p))) [(0, 0); (0, 0); (P, P); (P, P)]%nat).
    rewrite np_pad_of_nat. py_step.
    change [Z.of_nat N; Z.of_nat F; Z.of_nat (1 + kh); Z.of_nat (1 + kw)]
      with (map Z.of_nat [N; F; (1 + kh); (1 + kw)]%nat).
    rewrite np_zeros_of_nat. py_step.
    change [1%Z; Z.of_nat F; 1%Z; 1%Z] with (map Z.of_nat [1; F; 1; 1]%nat).
    rewrite (reshape_exact b [1; F; 1; 1]%nat) by (rewrite Hb; simpl; lia).
    py_step. unfold py_ret. reflexivity.
  - match goal with |- context [for_range _ (fun h out => for_range _ (fun w_i out0 => setitem out0 _ (@?V h w_i)) out) ?a0] =>
      destruct (nested_loop_value V N F (1 + kh) (1 + kw) (1 + kh) (1 + kw) a0 eq_refl) as [Hs Hd]
    end.
    unfold add, map2. cbn [shape]. rewrite Hs. np_unfold.
    rewrite !bdim_1_r, bdim_diag. reflexivity.
  - intros n f i j Hn Hf Hi Hj.
    match goal with |- context [for_range _ (fun h out => for_range _ (fun w_i out0 => setitem out0 _ (@?V h w_i)) out) ?a0] =>
      destruct (nested_loop_value V N F (1 + kh) (1 + kw) (1 + kh) (1 + kw) a0 eq_refl) as [Hs Hd]
    end.
    unfold add, map2. cbn [data shape]. rewrite Hs. np_unfold.
    rewrite !bidx_lt by lia. cbn [bidx Nat.eqb]. rewrite Hd.
    destruct (Nat.ltb_spec i (1 + kh)); [|lia]. destruct (Nat.ltb_spec j (1 + kw)); [|lia].
    cbn [andb]. f_equal.
    2:{ rewrite Hb, unravel_single. f_equal. cbn [ravel size_of fold_right]. f_equal. lia. }
    clear Hs Hd.
    fold (zero_pad x).
    assert (Hxp : shape (zero_pad x) = [N; C; (H + 2 * P)%nat; (W + 2 * P)%nat]).
    { unfold zero_pad, pad_constant. cbn [shape]. rewrite Hx. cbn [pad_shape].
      repeat (f_equal; try lia). }
    set (x1 := getitem (zero_pad x) [IAll; INew; IAll; IAll; IAll]).
    assert (Hx1 : shape x1 = [N; 1; C; (H + 2 * P); (W + 2 * P)]%nat).
    { unfold x1, getitem. cbn [shape]. rewrite Hxp. reflexivity. }
    rewrite <- !Nat2Z.inj_mul, <- !Nat2Z.inj_add.
    set (win := getitem x1 _).
    assert (Hwin : shape win = [N; 1; C; HH; WW]%nat).
    { unfold win, getitem. cbn [shape]. rewrite Hx1. cbn [index_shape].
      rewrite !clip_of_nat by nia. repeat (f_equal; try lia). }
    set (w1 := getitem w _).
    assert (Hw1 : shape w1 = [1; F; C; HH; WW]%nat).
    { unfold w1, getitem. cbn [shape]. rewrite Hw. reflexivity. }
    assert (Hprod : shape (mul win w1) = [N; F; C; HH; WW]).
    { unfold mul, map2. cbn [shape]. rewrite Hwin, Hw1. np_unfold.
      rewrite !bdim_diag, bdim_1_r. reflexivity. }
    unfold sum_axes. cbn [shape data]. rewrite Hprod. np_unfold.
    rewrite !bidx_lt by lia.
    apply rsum_ext. intros c Hc. apply rsum_ext. intros p Hp. apply rsum_ext. intros q Hq.
    unfold mul, map2. cbn [data]. rewrite Hwin, Hw1. np_unfold.
    rewrite !bidx_lt by lia. cbn [bidx Nat.eqb].
    f_equal.
    + unfold win, getitem. cbn [data]. rewrite Hx1. cbn [index_source hd tl].
      rewrite !clip_of_nat by nia.
      unfold x1, getitem. cbn [data]. rewrite Hxp. cbn [index_source hd tl].
      bidx_simpl. reflexivity.
    + unfold w1, getitem. cbn [data]. rewrite Hw. cbn [index_source hd tl].
      bidx_simpl. reflexivity.
Qed.

End ConvForward.

Lemma for_range_res_ok {A : Type} (n : nat) (body : nat -> A -> res A) (body' : nat -> A -> A) (s : A) :
  (forall k a, (k < n)%nat -> body k a = Ok (body' k a)) ->
  for_range_res n body s = Ok (for_range n body' s).
Proof.
  induction n as [|n IH]; intros H; cbn [for_range_res for_range]; [reflexivity|].
  rewrite IH by (intros; apply H; lia). cbn [res_bind]. apply H. lia.
Qed.

Lemma floordiv_pos (a b : Z) : (0 < b)%Z -> floordiv a b = Ok (a / b)%Z.
Proof. intros Hb. unfold floordiv. destruct (Z.eqb_spec b 0); [lia|reflexivity]. Qed.

Lemma length_py_range (lo hi : Z) : length (py_range lo hi) = Z.to_nat (hi - lo).
Proof. unfold py_range. rewrite length_map, length_seq. reflexivity. Qed.

Lemma nth_py_range (lo hi : Z) (u : nat) :
  (u < Z.to_nat (hi - lo))%nat -> nth u (py_range lo hi) 0%Z = (lo + Z.of_nat u)%Z.
Proof.
  intros Hu. unfold py_range.
  rewrite (nth_indep _ 0%Z ((fun k => (lo + Z.of_nat k)%Z) 0%nat))
    by (rewrite length_map, length_seq; exact Hu).
  rewrite (map_nth (fun k => (lo + Z.of_nat k)%Z)), seq_nth by exact Hu. reflexivity.
Qed.

Lemma nth_map_lt {A B : Type} (g : A -> B) (l : list A) (u : nat) (d : A) (d' : B) :
  (u < length l)%nat -> nth u (map g l) d' = g (nth u l d).
Proof.
  intros Hu. rewrite (nth_indep _ d' (g d)) by (rewrite length_map; exact Hu).
  apply map_nth.
Qed.

Ltac loop_facts d0 d1 d2 d3 Hs Hd :=
  match goal with
  | |- context [for_range ?n1 (fun h out => for_range ?n2 (fun w_i out0 => setitem out0 _ (@?V h w_i)) out) ?a0] =>
      let Ha := fresh "Ha" in
      assert (Ha : shape a0 = [d0; d1; d2; d3]) by (unfold zeros_like, zeros; cbn [shape]; assumption);
      destruct (nested_loop_value V d0 d1 d2 d3 n1 n2 a0 Ha) as [Hs Hd]; clear Ha
  end.

Section ConvBackward.

Variables (N C H W F HH WW S P kh kw : nat).
Hypothesis HS : (1 <= S)%nat.
Hypothesis Hkh : (H + 2 * P = HH + kh * S)%nat.
Hypothesis Hkw : (W + 2 * P = WW + kw * S)%nat.
Variables (st : store) (conv_param : nat) (cp : gmap string pyval).
Hypothesis Hcp : dicts st !! conv_param = Some cp.
Hypothesis Hstride : cp !! "stride" = Some (PInt (Z.of_nat S)).
Hypothesis Hpad : cp !! "pad" = Some (PInt (Z.of_nat P)).

Variables x w b dout : ndarray.
Hypothesis Hx : shape x = [N; C; H; W].
Hypothesis Hw : shape w = [F; C; HH; WW].
Hypothesis Hb : shape b = [F].
Hypothesis Hdout : shape dout = [N; F; (1 + kh)%nat; (1 + kw)%nat].

(** The window positions [range(max(0, k_min), min(n1, k_max + 1))] that
    cover the input coordinate [a], for a filter extent [hh]. *)
Definition covering (a hh n1 : nat) : list Z :=
  py_range (Z.max 0 ((Z.of_nat a + Z.of_nat P - Z.of_nat hh) / Z.of_nat S + 1))
           (Z.min (Z.of_nat n1) ((Z.of_nat a + Z.of_nat P) / Z.of_nat S + 1)).

Lemma conv_backward_value :
  exists dx dw db,
    conv_backward_naive dout (x, w, b, conv_param) st = (Ok (dx, dw, db), st) /\
    shape dx = shape x /\ shape dw = shape w /\ shape db = shape b /\
    (forall n c a a', (n < N)%nat -> (c < C)%nat -> (a < H)%nat -> (a' < W)%nat ->
       data dx [n; c; a; a'] =
       rsum F (fun f =>
         rsum (length (covering a HH (1 + kh))) (fun u =>
           rsum (length (covering a' WW (1 + kw))) (fun v =>
             data w [f; c;
                     wrap HH (nth u (map (fun k => Z.of_nat a + Z.of_nat P - Z.of_nat S * k)%Z
                                       (covering a HH (1 + kh))) 0%Z);
                     wrap WW (nth v (map (fun k => Z.of_nat a' + Z.of_nat P - Z.of_nat S * k)%Z
                                       (covering a' WW (1 + kw))) 0%Z)] *
             data dout [n; f; wrap (1 + kh) (nth u (covering a HH (1 + kh)) 0%Z);
                        wrap (1 + kw) (nth v (covering a' WW (1 + kw)) 0%Z)])))) /\
    (forall f c p q, (f < F)%nat -> (c < C)%nat -> (p < HH)%nat -> (q < WW)%nat ->
       data dw [f; c; p; q] =
       rsum N (fun n => rsum (1 + kh) (fun k => rsum (1 + kw) (fun l =>
         data (zero_pad P x) [n; c; (k * S + p)%nat; (l * S + q)%nat] * data dout [n; f; k; l])))) /\
    (forall f, (f < F)%nat ->
       data db [f] =
       rsum N (fun n => rsum (1 + kh) (fun k => rsum (1 + kw) (fun l => data dout [n; f; k; l])))).
Proof.
  eexists. eexists. eexists. split; [|split; [|split; [|split; [|split; [|split]]]]].
  - unfold conv_backward_naive.
    unfold py_bind at 1. rewrite (getitem_int_value st conv_param cp "stride" _ Hcp Hstride).
    unfold py_bind at 1. rewrite (getitem_int_value st conv_param cp "pad" _ Hcp Hpad).
    unfold dim. rewrite Hx, Hw, Hdout. cbn [nth].
    change [(0%Z, 0%Z); (0%Z, 0%Z); (Z.of_nat P, Z.of_nat P); (Z.of_nat P, Z.of_nat P)]
      with (map (fun p => (Z.of_nat (fst p), Z.of_nat (snd p))) [(0, 0); (0, 0); (P, P); (P, P)]%nat).
    rewrite np_pad_of_nat. py_step.
    erewrite (for_range_res_ok H).
    2:{ intros i dx Hi. erewrite (for_range_res_ok W).
        2:{ intros j dx' Hj. rewrite !floordiv_pos by lia. cbn [res_bind]. reflexivity. }
        reflexivity. }
    py_step. unfold py_ret. reflexivity.
  - loop_facts N C H W Hs Hd. rewrite Hs, Hx. reflexivity.
  - loop_facts F C HH WW Hs Hd. rewrite Hs, Hw. reflexivity.
  - unfold sum_axes. cbn [shape]. rewrite Hdout, Hb. reflexivity.
  - intros n c a a' Hn Hc Ha Ha'.
    loop_facts N C H W Hs Hd. rewrite Hd. clear Hs Hd.
    destruct (Nat.ltb_spec a H); [|lia]. destruct (Nat.ltb_spec a' W); [|lia]. cbn [andb].
    fold (covering a HH (1 + kh)). fold (covering a' WW (1 + kw)).
    set (K := covering a HH (1 + kh)). set (L := covering a' WW (1 + kw)).
    set (w1 := getitem w [INew; IAll; IAll; IAll; IAll]).
    assert (Hw1 : shape w1 = [1; F; C; HH; WW]%nat).
    { unfold w1, getitem. cbn [shape]. rewrite Hw. reflexivity. }
    set (dout1 := getitem dout [IAll; IAll; INew; IAll; IAll]).
    assert (Hdout1 : shape dout1 = [N; F; 1; (1 + kh); (1 + kw)]%nat).
    { unfold dout1, getitem. cbn [shape]. rewrite Hdout. reflexivity. }
    set (wp1 := getitem w1 _).
    assert (Hwp1 : shape wp1 = [1; F; C; length K; WW]%nat).
    { unfold wp1, getitem. cbn [shape]. rewrite Hw1. cbn [index_shape].
      rewrite length_map. reflexivity. }
    set (wp := getitem wp1 _).
    assert (Hwp : shape wp = [1; F; C; length K; length L]%nat).
    { unfold wp, getitem. cbn [shape]. rewrite Hwp1. cbn [index_shape].
      rewrite length_map. reflexivity. }
    set (dp1 := getitem dout1 _).
    assert (Hdp1 : shape dp1 = [N; F; 1; length K; (1 + kw)]%nat).
    { unfold dp1, getitem. cbn [shape]. rewrite Hdout1. reflexivity. }
    set (dp := getitem dp1 _).
    assert (Hdp : shape dp = [N; F; 1; length K; length L]%nat).
    { unfold dp, getitem. cbn [shape]. rewrite Hdp1. reflexivity. }
    assert (Hprod : shape (mul wp dp) = [N; F; C; length K; length L]).
    { unfold mul, map2. cbn [shape]. rewrite Hwp, Hdp. np_unfold.
      rewrite !bdim_diag, bdim_1_r. reflexivity. }
    unfold sum_axes. cbn [shape data]. rewrite Hprod. np_unfold. bidx_simpl.
    apply rsum_ext. intros f Hf. apply rsum_ext. intros u Hu. apply rsum_ext. intros v Hv.
    unfold mul, map2. cbn [data]. rewrite Hwp, Hdp. np_unfold. bidx_simpl.
    f_equal.
    + unfold wp, getitem. cbn [data]. rewrite Hwp1. cbn [index_source hd tl].
      unfold wp1, getitem. cbn [data]. rewrite Hw1. cbn [index_source hd tl].
      unfold w1, getitem. cbn [data]. rewrite Hw. cbn [index_source hd tl].
      reflexivity.
    + unfold dp, getitem. cbn [data]. rewrite Hdp1. cbn [index_source hd tl].
      unfold dp1, getitem. cbn [data]. rewrite Hdout1. cbn [index_source hd tl].
      unfold dout1, getitem. cbn [data]. rewrite Hdout. cbn [index_source hd tl].
      reflexivity.
  - intros f c p q Hf Hc Hp Hq.
    loop_facts F C HH WW Hs Hd. rewrite Hd. clear Hs Hd.
    destruct (Nat.ltb_spec p HH); [|lia]. destruct (Nat.ltb_spec q WW); [|lia]. cbn [andb].
    fold (zero_pad P x).
    assert (Hxp : shape (zero_pad P x) = [N; C; (H + 2 * P)%nat; (W + 2 * P)%nat]).
    { unfold zero_pad, pad_constant. cbn [shape]. rewrite Hx. cbn [pad_shape].
      repeat (f_equal; try lia). }
    set (x2 := getitem (zero_pad P x) [IAll; INew; IAll; IAll; IAll]).
    assert (Hx2 : shape x2 = [N; 1; C; (H + 2 * P); (W + 2 * P)]%nat).
    { unfold x2, getitem. cbn [shape]. rewrite Hxp. reflexivity. }
    set (dout1 := getitem dout [IAll; IAll; INew; IAll; IAll]).
    assert (Hdout1 : shape dout1 = [N; F; 1; (1 + kh); (1 + kw)]%nat).
    { unfold dout1, getitem. cbn [shape]. rewrite Hdout. reflexivity. }
    assert (Hlk : length (py_range 0 (Z.of_nat (1 + kh))) = (1 + kh)%nat)
      by (rewrite length_py_range; lia).
    assert (Hll : length (py_range 0 (Z.of_nat (1 + kw))) = (1 + kw)%nat)
      by (rewrite length_py_range; lia).
    set (s1 := getitem x2 _).
    assert (Hs1 : shape s1 = [N; 1; C; (1 + kh); (W + 2 * P)]%nat).
    { unfold s1, getitem. cbn [shape]. rewrite Hx2. cbn [index_shape].
      rewrite length_map, Hlk. reflexivity. }
    set (s2 := getitem s1 _).
    assert (Hs2 : shape s2 = [N; 1; C; (1 + kh); (1 + kw)]%nat).
    { unfold s2, getitem. cbn [shape]. rewrite Hs1. cbn [index_shape].
      rewrite length_map, Hll. reflexivity. }
    assert (Hprod : shape (mul s2 dout1) = [N; F; C; (1 + kh); (1 + kw)]%nat).
    { unfold mul, map2. cbn [shape]. rewrite Hs2, Hdout1. np_unfold.
      rewrite !bdim_diag, bdim_1_r. reflexivity. }
    unfold sum_axes. cbn [shape data]. rewrite Hprod. np_unfold. bidx_simpl.
    apply rsum_ext. intros n Hn. apply rsum_ext. intros k Hk. apply rsum_ext. intros l Hl.
    unfold mul, map2. cbn [data]. rewrite Hs2, Hdout1. np_unfold. bidx_simpl.
    f_equal.
    + unfold s2, getitem. cbn [data]. rewrite Hs1. cbn [index_source hd tl].
      unfold s1, getitem. cbn [data]. rewrite Hx2. cbn [index_source hd tl].
      unfold x2, getitem. cbn [data]. rewrite Hxp. cbn [index_source hd tl].
      rewrite !(nth_map_lt _ _ _ 0%Z) by lia.
      rewrite !nth_py_range by lia.
      replace (0 + Z.of_nat k)%Z with (Z.of_nat k) by lia.
      replace (0 + Z.of_nat l)%Z with (Z.of_nat l) by lia.
      rewrite <- !Nat2Z.inj_mul, <- !Nat2Z.inj_add, !wrap_of_nat. reflexivity.
    + unfold dout1, getitem. cbn [data]. rewrite Hdout. cbn [index_source hd tl].
      reflexivity.
  - intros f Hf. unfold sum_axes. cbn [shape data]. rewrite Hdout. np_unfold. reflexivity.
Qed.

End ConvBackward.

(** A sum restricted to an interval of indices. *)
Lemma rsum_interval (n lo hi : nat) (g : nat -> R) :
  (hi <= n)%nat ->
  rsum n (fun i => if ((lo <=? i) && (i <? hi))%nat then g i else 0) =
  rsum (hi - lo) (fun u => g (lo + u)%nat).
Proof.
  intros Hhi. destruct (Nat.le_gt_cases lo hi) as [Hle|Hgt].
  - replace n with (lo + ((hi - lo) + (n - hi)))%nat at 1 by lia.
    rewrite !rsum_app.
    rewrite rsum_zero_ext.
    2:{ intros k Hk. destruct (Nat.leb_spec lo k); [lia|reflexivity]. }
    rewrite (rsum_zero_ext (n - hi)).
    2:{ intros k Hk. destruct (Nat.leb_spec lo (lo + (hi - lo + k))); [|reflexivity].
        destruct (Nat.ltb_spec (lo + (hi - lo + k)) hi); [lia|reflexivity]. }
    rewrite Rplus_0_l, Rplus_0_r. apply rsum_ext. intros u Hu.
    destruct (Nat.leb_spec lo (lo + u)); [|lia].
    destruct (Nat.ltb_spec (lo + u) hi); [reflexivity|lia].
  - replace (hi - lo)%nat with 0%nat by lia. cbn [rsum].
    apply rsum_zero_ext. intros k Hk.
    destruct (Nat.leb_spec lo k); [|reflexivity].
    destruct (Nat.ltb_spec k hi); [lia|reflexivity].
Qed.

Section Covering.

Variables (S P : nat).
Hypothesis HS : (1 <= S)%nat.

(** The windows [i < n1] of extent [hh] and stride [S] that contain the
    padded coordinate [a + P] are the ones listed by [covering]. *)
Lemma rsum_covering (a hh n1 : nat) (phi : nat -> nat -> R) :
  rsum n1 (fun i => rsum hh (fun p =>
    if (i * S + p =? a + P)%nat then phi i p else 0)) =
  rsum (length (covering S P a hh n1)) (fun u =>
    phi (wrap n1 (nth u (covering S P a hh n1) 0%Z))
        (wrap hh (nth u (map (fun k => Z.of_nat a + Z.of_nat P - Z.of_nat S * k)%Z
                           (covering S P a hh n1)) 0%Z))).
Proof.
  unfold covering.
  set (A := (a + P)%nat).
  set (lo := Z.max 0 ((Z.of_nat a + Z.of_nat P - Z.of_nat hh) / Z.of_nat S + 1)).
  set (hi := Z.min (Z.of_nat n1) ((Z.of_nat a + Z.of_nat P) / Z.of_nat S + 1)).
  assert (HSz : (0 < Z.of_nat S)%Z) by lia.
  pose proof (Z.div_mod (Z.of_nat a + Z.of_nat P) (Z.of_nat S) ltac:(lia)) as Hdm1.
  pose proof (Z.mod_pos_bound (Z.of_nat a + Z.of_nat P) (Z.of_nat S) HSz) as Hmb1.
  pose proof (Z.div_mod (Z.of_nat a + Z.of_nat P - Z.of_nat hh) (Z.of_nat S) ltac:(lia)) as Hdm2.
  pose proof (Z.mod_pos_bound (Z.of_nat a + Z.of_nat P - Z.of_nat hh) (Z.of_nat S) HSz) as Hmb2.
  set (q1 := ((Z.of_nat a + Z.of_nat P) / Z.of_nat S)%Z) in *.
  set (q2 := ((Z.of_nat a + Z.of_nat P - Z.of_nat hh) / Z.of_nat S)%Z) in *.
  assert (Hlo0 : (0 <= lo)%Z) by (unfold lo; lia).
  (* each row keeps at most the term p = A - i*S *)
  rewrite (rsum_ext n1 _ (fun i =>
    if ((Z.to_nat lo <=? i) && (i <? Z.to_nat hi))%nat then phi i (A - i * S)%nat else 0)).
  2:{ intros i Hi.
      destruct (Nat.leb_spec (Z.to_nat lo) i) as [Hl|Hl];
        destruct (Nat.ltb_spec i (Z.to_nat hi)) as [Hh|Hh]; cbn [andb].
      - (* covered: i*S <= A < i*S + hh *)
        assert (Hc1 : (i * S <= A)%nat) by (unfold A, hi in *; nia).
        assert (Hc2 : (A - i * S < hh)%nat) by (unfold A, lo in *; nia).
        rewrite (rsum_single hh (A - i * S)%nat).
        + destruct (Nat.eqb_spec (i * S + (A - i * S)) A); [reflexivity|lia].
        + exact Hc2.
        + intros p Hp Hne. destruct (Nat.eqb_spec (i * S + p) A); [lia|reflexivity].
      - apply rsum_zero_ext. intros p Hp.
        destruct (Nat.eqb_spec (i * S + p) A); [|reflexivity].
        exfalso. unfold A, hi in *. nia.
      - apply rsum_zero_ext. intros p Hp.
        destruct (Nat.eqb_spec (i * S + p) A); [|reflexivity].
        exfalso. unfold A, lo in *. nia.
      - apply rsum_zero_ext. intros p Hp.
        destruct (Nat.eqb_spec (i * S + p) A); [|reflexivity].
        exfalso. unfold A, lo in *. nia. }
  rewrite rsum_interval by (unfold hi; lia).
  rewrite length_py_range.
  replace (Z.to_nat (hi - lo)) with (Z.to_nat hi - Z.to_nat lo)%nat by lia.
  apply rsum_ext. intros u Hu.
  rewrite (nth_map_lt _ _ _ 0%Z) by (rewrite length_py_range; lia).
  rewrite nth_py_range by lia.
  assert (Hu1 : (Z.to_nat lo + u < Z.to_nat hi)%nat) by lia.
  assert (Hc1 : ((Z.to_nat lo + u) * S <= A)%nat) by (unfold A, hi in *; nia).
  f_equal.
  - unfold wrap, from_end. destruct (Z.ltb_spec (lo + Z.of_nat u) 0); lia.
  - unfold wrap, from_end.
    destruct (Z.ltb_spec (Z.of_nat a + Z.of_nat P - Z.of_nat S * (lo + Z.of_nat u)) 0);
      unfold A in *; nia.
Qed.

End Covering.

(** The tangent of a padded path is the padded tangent. *)
Definition pad_tangent (widths : list (nat * nat)) (sh : list nat) (X' : list nat -> R)
  : list nat -> R :=
  fun idx => match pad_source widths sh idx with
             | Some src => X' src
             | None => 0
             end.

Lemma tangent_pad (X : R -> ndarray) (t0 : R) (X' : list nat -> R) (widths : list (nat * nat)) :
  tangent X t0 X' ->
  tangent (fun t => pad_constant (X t) widths) t0 (pad_tangent widths (shape (X t0)) X').
Proof.
  intros [Hsh Hd]. split.
  - intros t. unfold pad_constant. cbn [shape]. rewrite Hsh. reflexivity.
  - intros idx. unfold pad_constant, pad_tangent. cbn [data].
    apply (dlim_eq (fun t => match pad_source widths (shape (X t0)) idx with
                             | Some src => data (X t) src
                             | None => 0
                             end) _ t0
                   (match pad_source widths (shape (X t0)) idx with
                    | Some src => X' src
                    | None => 0
                    end)).
    + destruct (pad_source widths (shape (X t0)) idx).
      * apply Hd.
      * apply derivable_pt_lim_const.
    + intros t. rewrite Hsh. reflexivity.
    + reflexivity.
Qed.

Section ConvGradient.

Variables (N C H W F HH WW S P kh kw : nat).
Hypothesis HS : (1 <= S)%nat.
Hypothesis Hkh : (H + 2 * P = HH + kh * S)%nat.
Hypothesis Hkw : (W + 2 * P = WW + kw * S)%nat.
Variables (st : store) (conv_param : nat) (cp : gmap string pyval).
Hypothesis Hcp : dicts st !! conv_param = Some cp.
Hypothesis Hstride : cp !! "stride" = Some (PInt (Z.of_nat S)).
Hypothesis Hpad : cp !! "pad" = Some (PInt (Z.of_nat P)).
Variable dout : ndarray.
Hypothesis Hdout : shape dout = [N; F; (1 + kh)%nat; (1 + kw)%nat].

(** [np.sum(dout * out)] written out. *)
Lemma conv_loss_value (x w b : ndarray) :
  shape x = [N; C; H; W] -> shape w = [F; C; HH; WW] -> shape b = [F] ->
  upstream_loss_in dout (conv_forward_naive x w b conv_param st) =
  rsum N (fun n => rsum F (fun f => rsum (1 + kh) (fun i => rsum (1 + kw) (fun j =>
    data dout [n; f; i; j] *
    (rsum C (fun c => rsum HH (fun p => rsum WW (fun q =>
       data (zero_pad P x) [n; c; (i * S + p)%nat; (j * S + q)%nat] * data w [f; c; p; q])))
     + data b [f]))))).
Proof.
  intros Hx Hw Hb.
  destruct (conv_forward_value N C H W F HH WW S P kh kw HS Hkh Hkw st conv_param cp
              Hcp Hstride Hpad x w b Hx Hw Hb) as (out & -> & Hsh & Hval).
  unfold upstream_loss_in, upstream_loss. cbn [fst].
  unfold sum, mul, map2. cbn [shape data]. rewrite Hdout, Hsh. np_unfold.
  rewrite !bdim_diag. cbn [sum_over].
  apply rsum_ext. intros n Hn. apply rsum_ext. intros f Hf.
  apply rsum_ext. intros i Hi. apply rsum_ext. intros j Hj.
  bidx_simpl. rewrite Hval by lia. reflexivity.
Qed.

(** The three parts of the derivative of the loss along a path. *)
Definition conv_dloss_x (w : ndarray) (XP' : list nat -> R) : R :=
  rsum N (fun n => rsum F (fun f => rsum (1 + kh) (fun i => rsum (1 + kw) (fun j =>
    data dout [n; f; i; j] *
    rsum C (fun c => rsum HH (fun p => rsum WW (fun q =>
      XP' [n; c; (i * S + p)%nat; (j * S + q)%nat] * data w [f; c; p; q]))))))).

Definition conv_dloss_w (x : ndarray) (W' : list nat -> R) : R :=
  rsum N (fun n => rsum F (fun f => rsum (1 + kh) (fun i => rsum (1 + kw) (fun j =>
    data dout [n; f; i; j] *
    rsum C (fun c => rsum HH (fun p => rsum WW (fun q =>
      data (zero_pad P x) [n; c; (i * S + p)%nat; (j * S + q)%nat] * W' [f; c; p; q]))))))).

Definition conv_dloss_b (B' : list nat -> R) : R :=
  rsum N (fun n => rsum F (fun f => rsum (1 + kh) (fun i => rsum (1 + kw) (fun j =>
    data dout [n; f; i; j] * B' [f])))).

Section Derivative.
Variables (X Wt B : R -> ndarray) (X' W' B' : list nat -> R) (t0 : R).
Hypothesis HX : tangent X t0 X'.
Hypothesis HW : tangent Wt t0 W'.
Hypothesis HB : tangent B t0 B'.
Hypothesis Hx : shape (X t0) = [N; C; H; W].
Hypothesis Hw : shape (Wt t0) = [F; C; HH; WW].
Hypothesis Hb : shape (B t0) = [F].

Lemma conv_loss_dlim :
  derivable_pt_lim
    (fun t => upstream_loss_in dout (conv_forward_naive (X t) (Wt t) (B t) conv_param st)) t0
    (conv_dloss_x (Wt t0) (pad_tangent [(0, 0); (0, 0); (P, P); (P, P)]%nat [N; C; H; W] X')
     + conv_dloss_w (X t0) W' + conv_dloss_b B').
Proof.
  pose proof (tangent_pad X t0 X' [(0, 0); (0, 0); (P, P); (P, P)]%nat HX) as HXP.
  fold (zero_pad P) in HXP. rewrite Hx in HXP.
  eapply dlim_eq.
  2:{ intros t. apply conv_loss_value.
      - rewrite (proj1 HX). exact Hx.
      - rewrite (proj1 HW). exact Hw.
      - rewrite (proj1 HB). exact Hb. }
  - dlim.
  - unfold conv_dloss_x, conv_dloss_w, conv_dloss_b.
    rewrite <- !rsum_plus. apply rsum_ext. intros n _.
    rewrite <- !rsum_plus. apply rsum_ext. intros f _.
    rewrite <- !rsum_plus. apply rsum_ext. intros i _.
    rewrite <- !rsum_plus. apply rsum_ext. intros j _.
    rewrite <- !Rmult_plus_distr_l, Rmult_0_l, Rplus_0_l. f_equal. f_equal.
    rewrite <- !rsum_plus. apply rsum_ext. intros c _.
    rewrite <- !rsum_plus. apply rsum_ext. intros p _.
    rewrite <- !rsum_plus. reflexivity.
Qed.

End Derivative.

Ltac vanish :=
  repeat (apply rsum_zero_ext; intros);
  unfold indicator;
  match goal with
  | |- context [decide (?a = ?b)] =>
      let E := fresh "E" in
      destruct (decide (a = b)) as [E|E]; [injection E; intros; subst; lia || congruence|lra]
  end.

Lemma conv_dloss_b_indicator (f0 : nat) :
  (f0 < F)%nat ->
  conv_dloss_b (indicator [f0]) =
  rsum N (fun n => rsum (1 + kh) (fun k => rsum (1 + kw) (fun l => data dout [n; f0; k; l]))).
Proof.
  intros Hf0. unfold conv_dloss_b. apply rsum_ext. intros n _.
  rewrite (rsum_single F f0); [|exact Hf0|intros; vanish].
  apply rsum_ext. intros k _. apply rsum_ext. intros l _.
  unfold indicator. destruct (decide ([f0] = [f0])); [lra|congruence].
Qed.

Lemma conv_dloss_w_indicator (x : ndarray) (f0 c0 p0 q0 : nat) :
  (f0 < F)%nat -> (c0 < C)%nat -> (p0 < HH)%nat -> (q0 < WW)%nat ->
  conv_dloss_w x (indicator [f0; c0; p0; q0]) =
  rsum N (fun n => rsum (1 + kh) (fun k => rsum (1 + kw) (fun l =>
    data (zero_pad P x) [n; c0; (k * S + p0)%nat; (l * S + q0)%nat] * data dout [n; f0; k; l]))).
Proof.
  intros Hf0 Hc0 Hp0 Hq0. unfold conv_dloss_w. apply rsum_ext. intros n _.
  rewrite (rsum_single F f0); [|exact Hf0|].
  2:{ intros f Hf Hne. apply rsum_zero_ext. intros i _. apply rsum_zero_ext. intros j _.
      rewrite (rsum_zero_ext C); [lra|]. intros; vanish. }
  apply rsum_ext. intros k _. apply rsum_ext. intros l _.
  rewrite (rsum_single C c0); [|exact Hc0|intros; vanish].
  rewrite (rsum_single HH p0); [|exact Hp0|intros; vanish].
  rewrite (rsum_single WW q0); [|exact Hq0|intros; vanish].
  unfold indicator. destruct (decide ([f0; c0; p0; q0] = [f0; c0; p0; q0])); [lra|congruence].
Qed.

Lemma conv_dloss_w_zero (x : ndarray) : conv_dloss_w x (fun _ => 0) = 0.
Proof.
  unfold conv_dloss_w. repeat (apply rsum_zero_ext; intros).
  rewrite (rsum_zero_ext C); [lra|]. intros. repeat (apply rsum_zero_ext; intros). lra.
Qed.

Lemma conv_dloss_b_zero : conv_dloss_b (fun _ => 0) = 0.
Proof. unfold conv_dloss_b. repeat (apply rsum_zero_ext; intros). lra. Qed.

Lemma conv_dloss_x_zero (w : ndarray) (ws : list (nat * nat)) (sh : list nat) :
  conv_dloss_x w (pad_tangent ws sh (fun _ => 0)) = 0.
Proof.
  unfold conv_dloss_x. repeat (apply rsum_zero_ext; intros).
  rewrite (rsum_zero_ext C); [lra|]. intros. repeat (apply rsum_zero_ext; intros).
  unfold pad_tangent. destruct (pad_source ws sh _); lra.
Qed.

(** The padded tangent of a unit perturbation of [x[n0, c0, a0, b0]]. *)
Lemma pad_tangent_indicator (n0 c0 a0 b0 n c a b : nat) :
  (n0 < N)%nat -> (c0 < C)%nat -> (a0 < H)%nat -> (b0 < W)%nat ->
  pad_tangent [(0, 0); (0, 0); (P, P); (P, P)]%nat [N; C; H; W] (indicator [n0; c0; a0; b0])
    [n; c; a; b] =
  if ((n =? n0) && (c =? c0) && (a =? a0 + P) && (b =? b0 + P))%nat then 1 else 0.
Proof.
  intros Hn0 Hc0 Ha0 Hb0. unfold pad_tangent. cbn [pad_source].
  destruct (Nat.eqb_spec n n0), (Nat.eqb_spec c c0), (Nat.eqb_spec a (a0 + P)),
    (Nat.eqb_spec b (b0 + P)); cbn [andb]; subst;
  repeat match goal with
         | |- context [Nat.leb ?u ?v] => destruct (Nat.leb_spec u v); cbn [andb option_map]
         | |- context [Nat.ltb ?u ?v] => destruct (Nat.ltb_spec u v); cbn [andb option_map]
         end;
  try lia; try reflexivity;
  unfold indicator;
  match goal with
  | |- context [decide (?u = ?v)] =>
      let E := fresh "E" in
      destruct (decide (u = v)) as [E|E];
      [try reflexivity; injection E; intros; lia
      |try reflexivity; exfalso; apply E; repeat f_equal; lia]
  end.
Qed.

Lemma conv_dloss_x_indicator (w : ndarray) (n0 c0 a0 b0 : nat) :
  (n0 < N)%nat -> (c0 < C)%nat -> (a0 < H)%nat -> (b0 < W)%nat ->
  conv_dloss_x w
    (pad_tangent [(0, 0); (0, 0); (P, P); (P, P)]%nat [N; C; H; W] (indicator [n0; c0; a0; b0])) =
  rsum F (fun f =>
    rsum (length (covering S P a0 HH (1 + kh))) (fun u =>
      rsum (length (covering S P b0 WW (1 + kw))) (fun v =>
        data w [f; c0;
                wrap HH (nth u (map (fun k => Z.of_nat a0 + Z.of_nat P - Z.of_nat S * k)%Z
                                  (covering S P a0 HH (1 + kh))) 0%Z);
                wrap WW (nth v (map (fun k => Z.of_nat b0 + Z.of_nat P - Z.of_nat S * k)%Z
                                  (covering S P b0 WW (1 + kw))) 0%Z)] *
        data dout [n0; f; wrap (1 + kh) (nth u (covering S P a0 HH (1 + kh)) 0%Z);
                   wrap (1 + kw) (nth v (covering S P b0 WW (1 + kw)) 0%Z)]))).
Proof.
  intros Hn0 Hc0 Ha0 Hb0. unfold conv_dloss_x.
  (* only the image n0 and the channel c0 contribute *)
  rewrite (rsum_single N n0); [|exact Hn0|].
  2:{ intros n Hn Hne. repeat (apply rsum_zero_ext; intros).
      rewrite (rsum_zero_ext C); [lra|]. intros. repeat (apply rsum_zero_ext; intros).
      rewrite pad_tangent_indicator by assumption.
      destruct (Nat.eqb_spec n n0); [lia|]. cbn [andb]. lra. }
  apply rsum_ext. intros f Hf.
  transitivity (rsum (1 + kh) (fun i => rsum HH (fun p =>
    if (i * S + p =? a0 + P)%nat
    then rsum (1 + kw) (fun j => rsum WW (fun q =>
           if (j * S + q =? b0 + P)%nat
           then data w [f; c0; p; q] * data dout [n0; f; i; j] else 0))
    else 0))).
  - apply rsum_ext. intros i Hi.
    transitivity (rsum (1 + kw) (fun j => rsum HH (fun p =>
      rsum WW (fun q =>
        if ((i * S + p =? a0 + P) && (j * S + q =? b0 + P))%nat
        then data w [f; c0; p; q] * data dout [n0; f; i; j] else 0)))).
    + apply rsum_ext. intros j Hj.
      rewrite (rsum_single C c0); [|exact Hc0|].
      2:{ intros c Hc Hne. repeat (apply rsum_zero_ext; intros).
          rewrite pad_tangent_indicator by assumption.
          destruct (Nat.eqb_spec c c0); [lia|]. rewrite andb_false_r. cbn [andb]. lra. }
      rewrite <- rsum_scal_l. apply rsum_ext. intros p Hp.
      rewrite <- rsum_scal_l. apply rsum_ext. intros q Hq.
      rewrite pad_tangent_indicator by assumption.
      rewrite !Nat.eqb_refl. cbn [andb].
      destruct ((i * S + p =? a0 + P)%nat && (j * S + q =? b0 + P)%nat); lra.
    + rewrite rsum_swap. apply rsum_ext. intros p Hp.
      destruct (i * S + p =? a0 + P)%nat; cbn [andb]; [reflexivity|].
      repeat (apply rsum_zero_ext; intros). reflexivity.
  - rewrite (rsum_covering S P HS a0 HH (1 + kh)).
    apply rsum_ext. intros u Hu.
    rewrite (rsum_covering S P HS b0 WW (1 + kw)). reflexivity.
Qed.

Section Gradients.
Variables x w b dx dw db : ndarray.
Hypothesis Hx : shape x = [N; C; H; W].
Hypothesis Hw : shape w = [F; C; HH; WW].
Hypothesis Hb : shape b = [F].
Hypothesis Hbw : conv_backward_naive dout (x, w, b, conv_param) st = (Ok (dx, dw, db), st).

Lemma conv_backward_facts :
  shape dx = shape x /\ shape dw = shape w /\ shape db = shape b /\
  (forall n0 c0 a0 b0, (n0 < N)%nat -> (c0 < C)%nat -> (a0 < H)%nat -> (b0 < W)%nat ->
     data dx [n0; c0; a0; b0] =
     conv_dloss_x w (pad_tangent [(0, 0); (0, 0); (P, P); (P, P)]%nat [N; C; H; W]
                       (indicator [n0; c0; a0; b0]))) /\
  (forall f0 c0 p0 q0, (f0 < F)%nat -> (c0 < C)%nat -> (p0 < HH)%nat -> (q0 < WW)%nat ->
     data dw [f0; c0; p0; q0] = conv_dloss_w x (indicator [f0; c0; p0; q0])) /\
  (forall f0, (f0 < F)%nat -> data db [f0] = conv_dloss_b (indicator [f0])).
Proof.
  destruct (conv_backward_value N C H W F HH WW S P kh kw HS Hkh Hkw st conv_param cp
              Hcp Hstride Hpad x w b dout Hx Hw Hb Hdout)
    as (dx0 & dw0 & db0 & E & Hsx & Hsw & Hsb & Hdx & Hdw & Hdb).
  rewrite E in Hbw. injection Hbw as <- <- <-.
  repeat split; try assumption.
  - intros. rewrite conv_dloss_x_indicator by assumption. apply Hdx; assumption.
  - intros. rewrite conv_dloss_w_indicator by assumption. apply Hdw; assumption.
  - intros. rewrite conv_dloss_b_indicator by assumption. apply Hdb; assumption.
Qed.

Lemma conv_gradient_x :
  gradient_at (fun x' => upstream_loss_in dout (conv_forward_naive x' w b conv_param st)) x dx.
Proof.
  destruct conv_backward_facts as (Hsx & _ & _ & Hdx & _).
  split; [exact Hsx|]. intros idx Hidx. rewrite Hx in Hidx.
  inversion Hidx as [|n0 ? ? ? Hn0 Hi1]; subst. inversion Hi1 as [|c0 ? ? ? Hc0 Hi2]; subst.
  inversion Hi2 as [|a0 ? ? ? Ha0 Hi3]; subst. inversion Hi3 as [|b0 ? ? ? Hb0 Hi4]; subst.
  inversion Hi4; subst.
  eapply dlim_eq.
  - apply (conv_loss_dlim (set_entry x [n0; c0; a0; b0]) (fun _ => w) (fun _ => b)
             (indicator [n0; c0; a0; b0]) (fun _ => 0) (fun _ => 0) (data x [n0; c0; a0; b0])
             (tangent_set_entry _ _ _) (tangent_const _ _) (tangent_const _ _) Hx Hw Hb).
  - reflexivity.
  - rewrite conv_dloss_w_zero, conv_dloss_b_zero, Hdx by assumption. lra.
Qed.

Lemma conv_gradient_w :
  gradient_at (fun w' => upstream_loss_in dout (conv_forward_naive x w' b conv_param st)) w dw.
Proof.
  destruct conv_backward_facts as (_ & Hsw & _ & _ & Hdw & _).
  split; [exact Hsw|]. intros idx Hidx. rewrite Hw in Hidx.
  inversion Hidx as [|f0 ? ? ? Hf0 Hi1]; subst. inversion Hi1 as [|c0 ? ? ? Hc0 Hi2]; subst.
  inversion Hi2 as [|p0 ? ? ? Hp0 Hi3]; subst. inversion Hi3 as [|q0 ? ? ? Hq0 Hi4]; subst.
  inversion Hi4; subst.
  eapply dlim_eq.
  - apply (conv_loss_dlim (fun _ => x) (set_entry w [f0; c0; p0; q0]) (fun _ => b)
             (fun _ => 0) (indicator [f0; c0; p0; q0]) (fun _ => 0) (data w [f0; c0; p0; q0])
             (tangent_const _ _) (tangent_set_entry _ _ _) (tangent_const _ _) Hx Hw Hb).
  - reflexivity.
  - rewrite conv_dloss_x_zero, conv_dloss_b_zero, Hdw by assumption. lra.
Qed.

Lemma conv_gradient_b :
  gradient_at (fun b' => upstream_loss_in dout (conv_forward_naive x w b' conv_param st)) b db.
Proof.
  destruct conv_backward_facts as (_ & _ & Hsb & _ & _ & Hdb).
  split; [exact Hsb|]. intros idx Hidx. rewrite Hb in Hidx.
  inversion Hidx as [|f0 ? ? ? Hf0 Hi1]; subst. inversion Hi1; subst.
  eapply dlim_eq.
  - apply (conv_loss_dlim (fun _ => x) (fun _ => w) (set_entry b [f0])
             (fun _ => 0) (fun _ => 0) (indicator [f0]) (data b [f0])
             (tangent_const _ _) (tangent_const _ _) (tangent_set_entry _ _ _) Hx Hw Hb).
  - reflexivity.
  - rewrite conv_dloss_x_zero, conv_dloss_w_zero, Hdb by assumption. lra.
Qed.

End Gradients.
End ConvGradient.

(** The zero padding of [x] by [P] pixels on each spatial side, element by
    element. *)
Lemma zero_pad_value (N C H W P : nat) (x : ndarray) (n c a b : nat) :
  shape x = [N; C; H; W] -> (n < N)%nat -> (c < C)%nat ->
  data (zero_pad P x) [n; c; a; b] =
  if ((P <=? a) && (a <? P + H) && (P <=? b) && (b <? P + W))%nat
  then data x [n; c; (a - P)%nat; (b - P)%nat] else 0.
Proof.
  intros Hx Hn Hc. unfold zero_pad, pad_constant. cbn [data]. rewrite Hx. cbn [pad_source].
  destruct (Nat.leb_spec 0 n); [|lia]. destruct (Nat.ltb_spec n (0 + N)); [|lia].
  destruct (Nat.leb_spec 0 c); [|lia]. destruct (Nat.ltb_spec c (0 + C)); [|lia].
  cbn [andb option_map]. rewrite !Nat.sub_0_r.
  destruct (P <=? a)%nat, (a <? P + H)%nat, (P <=? b)%nat, (b <? P + W)%nat; reflexivity.
Qed.

(** C1: for [x] of shape [(N, C, H, W)], [w] of shape [(F, C, HH, WW)], [b]
    of shape [(F,)] and a stride [S >= 1] and pad [P] with
    [H + 2P - HH = kh * S] and [W + 2P - WW = kw * S], [conv_forward_naive]
    returns [out] of shape [(N, F, 1 + kh, 1 + kw)] whose entry
    [(n, f, i, j)] is [b[f]] plus the sum over [c, p, q] of
    [x_pad[n, c, i*S + p, j*S + q] * w[f, c, p, q]], [x_pad] being [x] padded
    with [P] zeros on each spatial side; and for every [dout] of the shape of
    [out], [conv_backward_naive] returns the gradients of [np.sum(dout * out)]
    with respect to [x], [w] and [b]. *)
Theorem conv_naive_forward_backward_correct
    (N C H W F HH WW S P kh kw : nat) (x w b : ndarray)
    (st : store) (conv_param : nat) (cp : gmap string pyval) :
  (1 <= S)%nat ->
  (H + 2 * P = HH + kh * S)%nat -> (W + 2 * P = WW + kw * S)%nat ->
  dicts st !! conv_param = Some cp ->
  cp !! "stride" = Some (PInt (Z.of_nat S)) -> cp !! "pad" = Some (PInt (Z.of_nat P)) ->
  shape x = [N; C; H; W] -> shape w = [F; C; HH; WW] -> shape b = [F] ->
  exists out,
    conv_forward_naive x w b conv_param st = (Ok (out, (x, w, b, conv_param)), st) /\
    shape out = [N; F; (1 + kh)%nat; (1 + kw)%nat] /\
    (forall n f i j, (n < N)%nat -> (f < F)%nat -> (i < 1 + kh)%nat -> (j < 1 + kw)%nat ->
       data out [n; f; i; j] =
       data b [f] +
       rsum C (fun c => rsum HH (fun p => rsum WW (fun q =>
         data (zero_pad P x) [n; c; (i * S + p)%nat; (j * S + q)%nat] * data w [f; c; p; q])))) /\
    (forall n c a a', (n < N)%nat -> (c < C)%nat ->
       data (zero_pad P x) [n; c; a; a'] =
       if ((P <=? a) && (a <? P + H) && (P <=? a') && (a' <? P + W))%nat
       then data x [n; c; (a - P)%nat; (a' - P)%nat] else 0) /\
    forall dout, shape dout = [N; F; (1 + kh)%nat; (1 + kw)%nat] ->
      exists dx dw db,
        conv_backward_naive dout (x, w, b, conv_param) st = (Ok (dx, dw, db), st) /\
        gradient_at
          (fun x' => upstream_loss_in dout (conv_forward_naive x' w b conv_param st)) x dx /\
        gradient_at
          (fun w' => upstream_loss_in dout (conv_forward_naive x w' b conv_param st)) w dw /\
        gradient_at
          (fun b' => upstream_loss_in dout (conv_forward_naive x w b' conv_param st)) b db.
Proof.
  intros HS Hkh Hkw Hcp Hstride Hpad Hx Hw Hb.
  destruct (conv_forward_value N C H W F HH WW S P kh kw HS Hkh Hkw st conv_param cp
              Hcp Hstride Hpad x w b Hx Hw Hb) as (out & Hfw & Hsh & Hval).
  exists out. split; [exact Hfw|]. split; [exact Hsh|]. split; [|split].
  - intros n f i j Hn Hf Hi Hj. rewrite Hval by assumption. apply Rplus_comm.
  - intros n c a a' Hn Hc. apply (zero_pad_value N C H W P x n c a a' Hx Hn Hc).
  - intros dout Hdout.
    destruct (conv_backward_value N C H W F HH WW S P kh kw HS Hkh Hkw st conv_param cp
                Hcp Hstride Hpad x w b dout Hx Hw Hb Hdout) as (dx & dw & db & Hbw & _).
    exists dx, dw, db. split; [exact Hbw|]. split; [|split].
    + exact (conv_gradient_x N C H W F HH WW S P kh kw HS Hkh Hkw st conv_param cp
               Hcp Hstride Hpad dout Hdout x w b dx dw db Hx Hw Hb Hbw).
    + exact (conv_gradient_w N C H W F HH WW S P kh kw HS Hkh Hkw st conv_param cp
               Hcp Hstride Hpad dout Hdout x w b dx dw db Hx Hw Hb Hbw).
    + exact (conv_gradient_b N C H W F HH WW S P kh kw HS Hkh Hkw st conv_param cp
               Hcp Hstride Hpad dout Hdout x w b dx dw db Hx Hw Hb Hbw).
Qed.

Definition conv_x0 : ndarray :=
  {| shape := [1; 1; 3; 3]%nat; data := fun idx => INR (ravel [1; 1; 3; 3]%nat idx) |}.
Definition conv_w0 : ndarray :=
  {| shape := [1; 1; 3; 3]%nat; data := fun idx => 1 - INR (ravel [1; 1; 3; 3]%nat idx) |}.
Definition conv_b0 : ndarray := {| shape := [1]%nat; data := fun _ => 2 |}.
Definition conv_param0 : gmap string pyval := <["stride" := PInt 2]> (<["pad" := PInt 1]> ∅).
Definition conv_store0 : store := {| dicts := <[0%nat := conv_param0]> ∅; rng := 0 |}.

Lemma conv_naive_forward_backward_correct_witness :
  exists out,
    conv_forward_naive conv_x0 conv_w0 conv_b0 0 conv_store0 =
      (Ok (out, (conv_x0, conv_w0, conv_b0, 0%nat)), conv_store0) /\
    shape out = [1; 1; 2; 2]%nat /\
    forall dout, shape dout = [1; 1; 2; 2]%nat ->
      exists dx dw db,
        conv_backward_naive dout (conv_x0, conv_w0, conv_b0, 0%nat) conv_store0 =
          (Ok (dx, dw, db), conv_store0) /\
        gradient_at
          (fun x' => upstream_loss_in dout (conv_forward_naive x' conv_w0 conv_b0 0 conv_store0))
          conv_x0 dx.
Proof.
  destruct (conv_naive_forward_backward_correct 1 1 3 3 1 3 3 2 1 1 1
              conv_x0 conv_w0 conv_b0 conv_store0 0 conv_param0)
    as (out & Hfw & Hsh & _ & _ & Hbw);
    [lia | lia | lia | reflexivity | reflexivity | reflexivity
    | reflexivity | reflexivity | reflexivity |].
  exists out. split; [exact Hfw|]. split; [exact Hsh|].
  intros dout Hdout. destruct (Hbw dout Hdout) as (dx & dw & db & H1 & H2 & _).
  exists dx, dw, db. split; assumption.
Defined.

(** * assignment3/utils/rnn_layers.py *)

(** ** Vanilla RNN, one step *)

Definition rnn_step_cache : Type := (ndarray * ndarray * ndarray * ndarray * ndarray)%type.

Definition rnn_step_forward (x prev_h Wx Wh b : ndarray) : ndarray * rnn_step_cache :=
  let next_h := np_tanh (add (add (dot x Wx) (dot prev_h Wh)) b) in
  let cache := (x, prev_h, Wx, Wh, next_h) in
  (next_h, cache).

Definition rnn_step_backward (dnext_h : ndarray) (cache : rnn_step_cache)
  : ndarray * ndarray * ndarray * ndarray * ndarray :=
  let '(x, prev_h, Wx, Wh, next_h) := cache in
  let dH := mul dnext_h (sub (scalar 1) (square next_h)) in
  let dx := dot dH (transpose Wx) in
  let dprev_h := dot dH (transpose Wh) in
  let dWx := dot (transpose x) dH in
  let dWh := dot (transpose prev_h) dH in
  let db := sum_axes dH [0%nat] in
  (dx, dprev_h, dWx, dWh, db).

(** ** LSTM, one step *)

(** The numerically stable logistic sigmoid of the source: [exp] is only
    applied to non-positive arguments. *)
Definition sigmoid (x : ndarray) : ndarray :=
  let pos_mask := greater_equal x 0 in
  let neg_mask := less x 0 in
  let z := zeros_like x in
  let z := set_masked z pos_mask (np_exp (neg x)) in
  let z := set_masked z neg_mask (np_exp x) in
  let top := ones_like x in
  let top := set_masked top neg_mask z in
  div top (add (scalar 1) z).

Definition lstm_step_cache : Type :=
  (ndarray * ndarray * ndarray * ndarray * ndarray * ndarray * ndarray * ndarray)%type.

Definition lstm_step_forward (x prev_h prev_c Wx Wh b : ndarray)
  : ndarray * ndarray * lstm_step_cache :=
  let H := Z.of_nat (dim prev_h 1) in
  let A := add (add (dot x Wx) (dot prev_h Wh)) b in
  let i := sigmoid (getitem A [IAll; ISliceTo H]) in
  let f := sigmoid (getitem A [IAll; ISlice H (2 * H)]) in
  let o := sigmoid (getitem A [IAll; ISlice (2 * H) (3 * H)]) in
  let g := np_tanh (getitem A [IAll; ISliceFrom (3 * H)]) in
  let next_c := add (mul f prev_c) (mul i g) in
  let next_h := mul o (np_tanh next_c) in
  let cache := (x, prev_h, prev_c, Wx, Wh, b, next_h, next_c) in
  (next_h, next_c, cache).

Definition lstm_step_backward (dnext_h dnext_c : ndarray) (cache : lstm_step_cache)
  : ndarray * ndarray * ndarray * ndarray * ndarray * ndarray :=
  let '(x, prev_h, prev_c, Wx, Wh, b, next_h, next_c) := cache in
  let H := Z.of_nat (dim dnext_h 1) in
  let A := add (add (dot x Wx) (dot prev_h Wh)) b in
  let i := sigmoid (getitem A [IAll; ISliceTo H]) in
  let f := sigmoid (getitem A [IAll; ISlice H (2 * H)]) in
  let o := sigmoid (getitem A [IAll; ISlice (2 * H) (3 * H)]) in
  let g := np_tanh (getitem A [IAll; ISliceFrom (3 * H)]) in
  let do := mul dnext_h (np_tanh next_c) in
  let dnext_c := add dnext_c (mul (mul dnext_h o) (sub (scalar 1) (square (np_tanh next_c)))) in
  let dprev_c := mul dnext_c f in
  let df := mul dnext_c prev_c in
  let di := mul dnext_c g in
  let dg := mul dnext_c i in
  let dW := hstack [mul (mul di i) (sub (scalar 1) i);
                    mul (mul df f) (sub (scalar 1) f);
                    mul (mul do o) (sub (scalar 1) o);
                    mul dg (sub (scalar 1) (square g))] in
  let dx := dot dW (transpose Wx) in
  let dWx := dot (transpose x) dW in
  let dprev_h := dot dW (transpose Wh) in
  let dWh := dot (transpose prev_h) dW in
  let db := sum_axes dW [0%nat] in
  (dx, dprev_h, dprev_c, dWx, dWh, db).

(** The source's sigmoid is the logistic function. *)
Lemma sigmoid_value (x : ndarray) (n m i j : nat) :
  shape x = [n; m] -> (i < n)%nat -> (j < m)%nat ->
  data (sigmoid x) [i; j] = logistic (data x [i; j]).
Proof.
  intros Hx Hi Hj. unfold sigmoid, div, add, map2, set_masked, less, greater_equal,
    np_exp, neg, map1, zeros_like, zeros, ones_like, scalar.
  cbn [shape data]. rewrite Hx. np_unfold. bidx_simpl.
  unfold logistic. set (v := data x [i; j]).
  pose proof (exp_pos v) as Hp. pose proof (exp_pos (- v)) as Hn.
  pose proof (exp_neg_mul v) as Hm.
  destruct (Rlt_dec v 0) as [Hlt|Hge]; destruct (Rle_dec 0 v) as [Hle|Hnle]; try lra;
    (destruct (Req_dec_T 1 0) as [E1|_]; [lra|]);
    (destruct (Req_dec_T 0 0) as [_|E0]; [|lra]).
  - unfold v. rewrite exp_Ropp. fold v. field. lra.
  - unfold Rdiv. rewrite Rmult_1_l. reflexivity.
Qed.

Lemma sigmoid_shape (x : ndarray) (n m : nat) : shape x = [n; m] -> shape (sigmoid x) = [n; m].
Proof.
  intros Hx. unfold sigmoid, div, add, map2, set_masked, ones_like, zeros_like, zeros, scalar.
  cbn [shape]. rewrite Hx. np_unfold. rewrite !bdim_diag. reflexivity.
Qed.

Section LstmForward.

Variables (N D H : nat).

(** The entry [(n, k)] of [A = x.Wx + prev_h.Wh + b]. *)
Definition lstm_preact (x prev_h Wx Wh b : ndarray) (n k : nat) : R :=
  rsum D (fun d => data x [n; d] * data Wx [d; k]) +
  rsum H (fun j => data prev_h [n; j] * data Wh [j; k]) + data b [k].

Section Forward.
Variables x prev_h prev_c Wx Wh b : ndarray.
Hypothesis Hx : shape x = [N; D].
Hypothesis Hph : shape prev_h = [N; H].
Hypothesis Hpc : shape prev_c = [N; H].
Hypothesis HWx : shape Wx = [D; (4 * H)%nat].
Hypothesis HWh : shape Wh = [H; (4 * H)%nat].
Hypothesis Hb : shape b = [(4 * H)%nat].

Let A := add (add (dot x Wx) (dot prev_h Wh)) b.

Lemma lstm_A_shape : shape A = [N; (4 * H)%nat].
Proof.
  unfold A, add, map2, dot, dim. cbn [shape]. rewrite Hx, Hph, HWx, HWh, Hb. np_unfold.
  rewrite !bdim_diag, bdim_1_r. reflexivity.
Qed.

Lemma lstm_A_value (n k : nat) :
  (n < N)%nat -> (k < 4 * H)%nat -> data A [n; k] = lstm_preact x prev_h Wx Wh b n k.
Proof.
  intros Hn Hk. unfold A, add, map2, dot, dim, lstm_preact. cbn [shape data].
  rewrite Hx, Hph, HWx, HWh, Hb. np_unfold. bidx_simpl. rewrite !bdim_diag. bidx_simpl.
  reflexivity.
Qed.

Lemma lstm_gates :
  let Hz := Z.of_nat H in
  (shape (getitem A [IAll; ISliceTo Hz]) = [N; H] /\
   shape (getitem A [IAll; ISlice Hz (2 * Hz)]) = [N; H] /\
   shape (getitem A [IAll; ISlice (2 * Hz) (3 * Hz)]) = [N; H] /\
   shape (getitem A [IAll; ISliceFrom (3 * Hz)]) = [N; H]) /\
  forall n h, (n < N)%nat -> (h < H)%nat ->
    data (getitem A [IAll; ISliceTo Hz]) [n; h] = lstm_preact x prev_h Wx Wh b n h /\
    data (getitem A [IAll; ISlice Hz (2 * Hz)]) [n; h] = lstm_preact x prev_h Wx Wh b n (H + h) /\
    data (getitem A [IAll; ISlice (2 * Hz) (3 * Hz)]) [n; h] =
      lstm_preact x prev_h Wx Wh b n (2 * H + h) /\
    data (getitem A [IAll; ISliceFrom (3 * Hz)]) [n; h] =
      lstm_preact x prev_h Wx Wh b n (3 * H + h).
Proof.
  cbn zeta. pose proof lstm_A_shape as HA.
  replace (2 * Z.of_nat H)%Z with (Z.of_nat (2 * H)) by lia.
  replace (3 * Z.of_nat H)%Z with (Z.of_nat (3 * H)) by lia.
  unfold getitem. cbn [shape data]. rewrite HA. cbn [index_shape index_source hd tl].
  rewrite !clip_of_nat by lia.
  split.
  - repeat split; repeat (f_equal; try lia).
  - intros n h Hn Hh. repeat split; rewrite <- lstm_A_value by lia; reflexivity.
Qed.

Lemma lstm_step_forward_value :
  exists next_h next_c,
    lstm_step_forward x prev_h prev_c Wx Wh b =
      (next_h, next_c, (x, prev_h, prev_c, Wx, Wh, b, next_h, next_c)) /\
    shape next_h = [N; H] /\ shape next_c = [N; H] /\
    forall n h, (n < N)%nat -> (h < H)%nat ->
      data next_c [n; h] =
        logistic (lstm_preact x prev_h Wx Wh b n (H + h)) * data prev_c [n; h] +
        logistic (lstm_preact x prev_h Wx Wh b n h) *
        tanh (lstm_preact x prev_h Wx Wh b n (3 * H + h)) /\
      data next_h [n; h] =
        logistic (lstm_preact x prev_h Wx Wh b n (2 * H + h)) * tanh (data next_c [n; h]).
Proof.
  eexists. eexists. split; [reflexivity|].
  unfold dim. rewrite Hph. cbn [nth]. fold A.
  destruct lstm_gates as [(Hsi & Hsf & Hso & Hsg) Hv]. cbn zeta in *.
  set (gi := getitem A [IAll; ISliceTo (Z.of_nat H)]) in *.
  set (gf := getitem A [IAll; ISlice (Z.of_nat H) (2 * Z.of_nat H)]) in *.
  set (go := getitem A [IAll; ISlice (2 * Z.of_nat H) (3 * Z.of_nat H)]) in *.
  set (gg := getitem A [IAll; ISliceFrom (3 * Z.of_nat H)]) in *.
  pose proof (sigmoid_shape gi N H Hsi) as Hsi'.
  pose proof (sigmoid_shape gf N H Hsf) as Hsf'.
  pose proof (sigmoid_shape go N H Hso) as Hso'.
  assert (Hc : shape (add (mul (sigmoid gf) prev_c) (mul (sigmoid gi) (np_tanh gg))) = [N; H]).
  { unfold add, mul, map2, np_tanh, map1. cbn [shape]. rewrite Hsf', Hsi', Hsg, Hpc.
    np_unfold. rewrite !bdim_diag. reflexivity. }
  set (nc := add (mul (sigmoid gf) prev_c) (mul (sigmoid gi) (np_tanh gg))) in *.
  split; [|split; [exact Hc|]].
  - unfold mul, map2, np_tanh, map1. cbn [shape]. rewrite Hso', Hc. np_unfold.
    rewrite !bdim_diag. reflexivity.
  - intros n h Hn Hh. destruct (Hv n h Hn Hh) as (Vi & Vf & Vo & Vg).
    assert (Ec : data nc [n; h] =
                 logistic (lstm_preact x prev_h Wx Wh b n (H + h)) * data prev_c [n; h] +
                 logistic (lstm_preact x prev_h Wx Wh b n h) *
                 tanh (lstm_preact x prev_h Wx Wh b n (3 * H + h))).
    { unfold nc, add, mul, map2, np_tanh, map1. cbn [shape data]. rewrite Hsf', Hsi', Hsg, Hpc.
      np_unfold. rewrite !bdim_diag. bidx_simpl.
      rewrite (sigmoid_value gf N H n h Hsf Hn Hh), (sigmoid_value gi N H n h Hsi Hn Hh).
      rewrite Vi, Vf, Vg. reflexivity. }
    split; [exact Ec|].
    unfold mul, map2, np_tanh, map1. cbn [shape data].
    rewrite Hso', Hc. np_unfold. bidx_simpl.
    rewrite (sigmoid_value go N H n h Hso Hn Hh), Vo. reflexivity.
Qed.
End Forward.
End LstmForward.

(** Four blocks of [H] columns side by side. *)
Lemma hstack4_value (N H : nat) (a0 a1 a2 a3 : ndarray) :
  shape a0 = [N; H] -> shape a1 = [N; H] -> shape a2 = [N; H] -> shape a3 = [N; H] ->
  shape (hstack [a0; a1; a2; a3]) = [N; (4 * H)%nat] /\
  forall n h, (h < H)%nat ->
    data (hstack [a0; a1; a2; a3]) [n; h] = data a0 [n; h] /\
    data (hstack [a0; a1; a2; a3]) [n; (H + h)%nat] = data a1 [n; h] /\
    data (hstack [a0; a1; a2; a3]) [n; (2 * H + h)%nat] = data a2 [n; h] /\
    data (hstack [a0; a1; a2; a3]) [n; (3 * H + h)%nat] = data a3 [n; h].
Proof.
  intros H0 H1 H2 H3. split.
  - unfold hstack, dim. cbn [shape hd fold_right]. rewrite H0, H1, H2, H3. cbn [nth].
    reflexivity.
  - intros n h Hh. unfold hstack. cbn [data nth hstack_data]. unfold dim.
    rewrite H0, H1, H2, H3. cbn [nth].
    repeat split.
    + destruct (Nat.ltb_spec h H); [reflexivity|lia].
    + destruct (Nat.ltb_spec (H + h) H); [lia|].
      replace (H + h - H)%nat with h by lia.
      destruct (Nat.ltb_spec h H); [reflexivity|lia].
    + destruct (Nat.ltb_spec (2 * H + h) H); [lia|].
      destruct (Nat.ltb_spec (2 * H + h - H) H); [lia|].
      replace (2 * H + h - H - H)%nat with h by lia.
      destruct (Nat.ltb_spec h H); [reflexivity|lia].
    + destruct (Nat.ltb_spec (3 * H + h) H); [lia|].
      destruct (Nat.ltb_spec (3 * H + h - H) H); [lia|].
      destruct (Nat.ltb_spec (3 * H + h - H - H) H); [lia|].
      replace (3 * H + h - H - H - H)%nat with h by lia.
      destruct (Nat.ltb_spec h H); [reflexivity|lia].
Qed.

(** A sum over [4 * H] columns, block by block. *)
Lemma rsum_blocks4 (H : nat) (f : nat -> R) :
  rsum (4 * H) f =
  rsum H (fun h => f h + f (H + h)%nat + f (2 * H + h)%nat + f (3 * H + h)%nat).
Proof.
  replace (4 * H)%nat with (H + (H + (H + H)))%nat by lia.
  rewrite !rsum_app, !rsum_plus.
  rewrite (rsum_ext H (fun k => f (H + (H + k))%nat) (fun h => f (2 * H + h)%nat))
    by (intros; f_equal; lia).
  rewrite (rsum_ext H (fun k => f (H + (H + (H + k)))%nat) (fun h => f (3 * H + h)%nat))
    by (intros; f_equal; lia).
  lra.
Qed.

(** The adjoint of [A = x.Wx + prev_h.Wh + b] with respect to all five
    arguments. *)
Lemma preact_adjoint (N D H K : nat) (G : nat -> nat -> R)
      (x X' ph PH' : nat -> nat -> R) (Wx WX' Wh WH' : nat -> nat -> R) (B' : nat -> R) :
  rsum N (fun n => rsum K (fun k =>
    G n k * (rsum D (fun d => X' n d * Wx d k + x n d * WX' d k) +
             rsum H (fun j => PH' n j * Wh j k + ph n j * WH' j k) + B' k))) =
  rsum N (fun n => rsum D (fun d => rsum K (fun k => G n k * Wx d k) * X' n d)) +
  rsum D (fun d => rsum K (fun k => rsum N (fun n => x n d * G n k) * WX' d k)) +
  rsum N (fun n => rsum H (fun j => rsum K (fun k => G n k * Wh j k) * PH' n j)) +
  rsum H (fun j => rsum K (fun k => rsum N (fun n => ph n j * G n k) * WH' j k)) +
  rsum K (fun k => rsum N (fun n => G n k) * B' k).
Proof.
  rewrite <- (dot_adjoint_l N D K G X' Wx), <- (dot_adjoint_r N D K G x WX').
  rewrite <- (dot_adjoint_l N H K G PH' Wh), <- (dot_adjoint_r N H K G ph WH').
  rewrite <- (bias_adjoint N K G B').
  rewrite <- !rsum_plus. apply rsum_ext. intros n _.
  rewrite <- !rsum_plus. apply rsum_ext. intros k _.
  rewrite !rsum_plus. lra.
Qed.

(** ** Elementwise operations on matrices of equal shape *)

Section Elementwise.
Variables (N H : nat).

Lemma map2_shape_2d (op : R -> R -> R) (a b : ndarray) :
  shape a = [N; H] -> shape b = [N; H] -> shape (map2 op a b) = [N; H].
Proof.
  intros Ha Hb. unfold map2. cbn [shape]. rewrite Ha, Hb. np_unfold.
  rewrite !bdim_diag. reflexivity.
Qed.

Lemma map2_value_2d (op : R -> R -> R) (a b : ndarray) (n h : nat) :
  shape a = [N; H] -> shape b = [N; H] -> (n < N)%nat -> (h < H)%nat ->
  data (map2 op a b) [n; h] = op (data a [n; h]) (data b [n; h]).
Proof.
  intros Ha Hb Hn Hh. unfold map2. cbn [data]. rewrite Ha, Hb. np_unfold. bidx_simpl.
  reflexivity.
Qed.

Lemma map2_scalar_shape (op : R -> R -> R) (c : R) (b : ndarray) :
  shape b = [N; H] -> shape (map2 op (scalar c) b) = [N; H].
Proof. intros Hb. unfold map2, scalar. cbn [shape]. rewrite Hb. reflexivity. Qed.

Lemma map2_scalar_value (op : R -> R -> R) (c : R) (b : ndarray) (n h : nat) :
  shape b = [N; H] -> (n < N)%nat -> (h < H)%nat ->
  data (map2 op (scalar c) b) [n; h] = op c (data b [n; h]).
Proof.
  intros Hb Hn Hh. unfold map2, scalar. cbn [shape data]. rewrite Hb. np_unfold. bidx_simpl.
  reflexivity.
Qed.

Lemma map1_shape (f : R -> R) (a : ndarray) : shape a = [N; H] -> shape (map1 f a) = [N; H].
Proof. intros Ha. exact Ha. Qed.

End Elementwise.

(** Shapes of elementwise expressions on matrices. *)
Ltac shape2d :=
  unfold add, sub, mul, div, np_tanh, np_exp, square, neg;
  repeat lazymatch goal with
         | Hs : shape ?a = ?s |- shape ?a = ?s => exact Hs
         | |- shape (map2 _ (scalar _) _) = _ => apply map2_scalar_shape
         | |- shape (map2 _ _ _) = _ => apply map2_shape_2d
         | |- shape (map1 _ _) = _ => apply map1_shape
         | |- shape (sigmoid _) = _ => apply sigmoid_shape
         end.

Ltac ew_side :=
  lazymatch goal with
  | |- (_ < _)%nat => assumption || lia
  | |- shape _ = _ => shape2d
  end.

(** Rewrites the entries of elementwise expressions on [N x H] matrices. *)
Ltac ew_simpl N H :=
  unfold add, sub, mul, div, np_tanh, np_exp, square, neg;
  repeat first
    [ progress cbn [map1 data]
    | rewrite (map2_scalar_value N H) by ew_side
    | rewrite (map2_value_2d N H) by ew_side
    | rewrite (sigmoid_value _ N H) by ew_side ].

Section LstmBackward.

Variables (N D H : nat).
Variables x prev_h prev_c Wx Wh b next_h next_c dnext_h dnext_c : ndarray.
Hypothesis Hx : shape x = [N; D].
Hypothesis Hph : shape prev_h = [N; H].
Hypothesis Hpc : shape prev_c = [N; H].
Hypothesis HWx : shape Wx = [D; (4 * H)%nat].
Hypothesis HWh : shape Wh = [H; (4 * H)%nat].
Hypothesis Hb : shape b = [(4 * H)%nat].
Hypothesis Hnc : shape next_c = [N; H].
Hypothesis Hdh : shape dnext_h = [N; H].
Hypothesis Hdc : shape dnext_c = [N; H].

Let A := lstm_preact D H x prev_h Wx Wh b.

Lemma lstm_step_backward_value :
  exists dx dprev_h dprev_c dWx dWh db dW,
    lstm_step_backward dnext_h dnext_c (x, prev_h, prev_c, Wx, Wh, b, next_h, next_c) =
      (dx, dprev_h, dprev_c, dWx, dWh, db) /\
    (shape dx = [N; D] /\ shape dprev_h = [N; H] /\ shape dprev_c = [N; H] /\
     shape dWx = [D; (4 * H)%nat] /\ shape dWh = [H; (4 * H)%nat] /\ shape db = [(4 * H)%nat]) /\
    (forall n h, (n < N)%nat -> (h < H)%nat ->
       let gi := logistic (A n h) in
       let gf := logistic (A n (H + h)%nat) in
       let go := logistic (A n (2 * H + h)%nat) in
       let gg := tanh (A n (3 * H + h)%nat) in
       let dc := data dnext_c [n; h] +
                 data dnext_h [n; h] * go * (1 - tanh (data next_c [n; h]) ^ 2) in
       data dW [n; h] = dc * gg * gi * (1 - gi) /\
       data dW [n; (H + h)%nat] = dc * data prev_c [n; h] * gf * (1 - gf) /\
       data dW [n; (2 * H + h)%nat] =
         data dnext_h [n; h] * tanh (data next_c [n; h]) * go * (1 - go) /\
       data dW [n; (3 * H + h)%nat] = dc * gi * (1 - gg ^ 2) /\
       data dprev_c [n; h] = dc * gf) /\
    (forall n d, data dx [n; d] = rsum (4 * H) (fun k => data dW [n; k] * data Wx [d; k])) /\
    (forall d k, data dWx [d; k] = rsum N (fun n => data x [n; d] * data dW [n; k])) /\
    (forall n j, data dprev_h [n; j] = rsum (4 * H) (fun k => data dW [n; k] * data Wh [j; k])) /\
    (forall j k, data dWh [j; k] = rsum N (fun n => data prev_h [n; j] * data dW [n; k])) /\
    (forall k, data db [k] = rsum N (fun n => data dW [n; k])).
Proof.
  unfold lstm_step_backward, dim. rewrite Hdh. cbn [nth]. lazy zeta.
  destruct (lstm_gates N D H x prev_h Wx Wh b Hx Hph HWx HWh Hb)
    as [(Hsi & Hsf & Hso & Hsg) Hv]. cbn zeta in Hsi, Hsf, Hso, Hsg, Hv.
  set (Aarr := add (add (dot x Wx) (dot prev_h Wh)) b) in *.
  set (gi := getitem Aarr [IAll; ISliceTo (Z.of_nat H)]) in *.
  set (gf := getitem Aarr [IAll; ISlice (Z.of_nat H) (2 * Z.of_nat H)]) in *.
  set (go := getitem Aarr [IAll; ISlice (2 * Z.of_nat H) (3 * Z.of_nat H)]) in *.
  set (gg := getitem Aarr [IAll; ISliceFrom (3 * Z.of_nat H)]) in *.
  set (do := mul dnext_h (np_tanh next_c)).
  set (dc := add dnext_c (mul (mul dnext_h (sigmoid go)) (sub (scalar 1) (square (np_tanh next_c))))).
  assert (Hsdo : shape do = [N; H]) by (unfold do; shape2d).
  assert (Hsdc : shape dc = [N; H]) by (unfold dc; shape2d).
  set (b0 := mul (mul (mul dc (np_tanh gg)) (sigmoid gi)) (sub (scalar 1) (sigmoid gi))).
  set (b1 := mul (mul (mul dc prev_c) (sigmoid gf)) (sub (scalar 1) (sigmoid gf))).
  set (b2 := mul (mul do (sigmoid go)) (sub (scalar 1) (sigmoid go))).
  set (b3 := mul (mul dc (sigmoid gi)) (sub (scalar 1) (square (np_tanh gg)))).
  assert (Hs0 : shape b0 = [N; H]) by (unfold b0; shape2d).
  assert (Hs1 : shape b1 = [N; H]) by (unfold b1; shape2d).
  assert (Hs2 : shape b2 = [N; H]) by (unfold b2; shape2d).
  assert (Hs3 : shape b3 = [N; H]) by (unfold b3; shape2d).
  destruct (hstack4_value N H b0 b1 b2 b3 Hs0 Hs1 Hs2 Hs3) as [HsW HvW].
  set (dW := hstack [b0; b1; b2; b3]) in *.
  eexists. eexists. eexists. eexists. eexists. eexists. exists dW.
  split; [reflexivity|]. clearbody dW.
  split; [|split; [|split; [|split; [|split; [|split]]]]].
  - repeat split.
    + unfold dot, transpose, dim. cbn [shape]. rewrite HsW, HWx. reflexivity.
    + unfold dot, transpose, dim. cbn [shape]. rewrite HsW, HWh. reflexivity.
    + shape2d.
    + unfold dot, transpose, dim. cbn [shape]. rewrite HsW, Hx. reflexivity.
    + unfold dot, transpose, dim. cbn [shape]. rewrite HsW, Hph. reflexivity.
    + unfold sum_axes. cbn [shape]. rewrite HsW. reflexivity.
  - intros n h Hn Hh. cbn zeta.
    destruct (HvW n h Hh) as (E0 & E1 & E2 & E3). rewrite E0, E1, E2, E3.
    destruct (Hv n h Hn Hh) as (Vi & Vf & Vo & Vg). fold A in Vi, Vf, Vo, Vg.
    assert (Edc : data dc [n; h] =
              data dnext_c [n; h] +
              data dnext_h [n; h] * logistic (A n (2 * H + h)%nat) *
              (1 - tanh (data next_c [n; h]) ^ 2)).
    { unfold dc. ew_simpl N H. rewrite Vo. reflexivity. }
    unfold b0, b1, b2, b3, do. ew_simpl N H.
    fold dc. rewrite Edc, Vi, Vf, Vo, Vg. repeat split; reflexivity.
  - intros n d. unfold dot, transpose, dim. cbn [shape data nth rev app]. rewrite HsW.
    cbn [nth]. reflexivity.
  - intros d k. unfold dot, transpose, dim. cbn [shape data nth rev app]. rewrite Hx.
    cbn [nth rev app]. reflexivity.
  - intros n j. unfold dot, transpose, dim. cbn [shape data nth rev app]. rewrite HsW.
    cbn [nth]. reflexivity.
  - intros j k. unfold dot, transpose, dim. cbn [shape data nth rev app]. rewrite Hph.
    cbn [nth rev app]. reflexivity.
  - intros k. unfold sum_axes. cbn [shape data]. rewrite HsW. np_unfold. reflexivity.
Qed.
End LstmBackward.

(** The loss [np.sum(dnext_h * next_h + dnext_c * next_c)] of a step. *)
Definition lstm_step_loss (dnext_h dnext_c : ndarray)
    (r : ndarray * ndarray * lstm_step_cache) : R :=
  let '(next_h, next_c, _) := r in
  sum (add (mul dnext_h next_h) (mul dnext_c next_c)).

Section PreactTangent.

Variables (D H : nat).
Variables (X PH WX WH B : R -> ndarray) (X' PH' WX' WH' B' : list nat -> R) (t0 : R).
Hypothesis HX : tangent X t0 X'.
Hypothesis HPH : tangent PH t0 PH'.
Hypothesis HWX : tangent WX t0 WX'.
Hypothesis HWH : tangent WH t0 WH'.
Hypothesis HB : tangent B t0 B'.

(** The pre-activation along a path, as a path of matrices, and its
    tangent. *)
Definition preact_path (sh : list nat) (t : R) : ndarray :=
  {| shape := sh;
     data := fun idx =>
       lstm_preact D H (X t) (PH t) (WX t) (WH t) (B t) (nth 0 idx 0%nat) (nth 1 idx 0%nat) |}.

Definition preact_tangent (idx : list nat) : R :=
  let n := nth 0 idx 0%nat in
  let k := nth 1 idx 0%nat in
  rsum D (fun d => X' [n; d] * data (WX t0) [d; k] + data (X t0) [n; d] * WX' [d; k]) +
  rsum H (fun j => PH' [n; j] * data (WH t0) [j; k] + data (PH t0) [n; j] * WH' [j; k]) +
  B' [k].

Lemma preact_path_tangent (sh : list nat) : tangent (preact_path sh) t0 preact_tangent.
Proof.
  split; [reflexivity|]. intros idx. unfold preact_path, preact_tangent, lstm_preact.
  cbn [data]. cbn zeta.
  dlim.
Qed.

End PreactTangent.

Section LstmDerivative.

Variables (N D H : nat).
Variables (X PH PC WX WH B : R -> ndarray) (X' PH' PC' WX' WH' B' : list nat -> R) (t0 : R).
Hypothesis HX : tangent X t0 X'.
Hypothesis HPH : tangent PH t0 PH'.
Hypothesis HPC : tangent PC t0 PC'.
Hypothesis HWX : tangent WX t0 WX'.
Hypothesis HWH : tangent WH t0 WH'.
Hypothesis HB : tangent B t0 B'.
Hypothesis Hx : shape (X t0) = [N; D].
Hypothesis Hph : shape (PH t0) = [N; H].
Hypothesis Hpc : shape (PC t0) = [N; H].
Hypothesis HWx : shape (WX t0) = [D; (4 * H)%nat].
Hypothesis HWh : shape (WH t0) = [H; (4 * H)%nat].
Hypothesis Hb : shape (B t0) = [(4 * H)%nat].
Variables dnext_h dnext_c : ndarray.
Hypothesis Hdh : shape dnext_h = [N; H].
Hypothesis Hdc : shape dnext_c = [N; H].

Lemma lstm_step_loss_value (x prev_h prev_c Wx Wh b : ndarray) :
  shape x = [N; D] -> shape prev_h = [N; H] -> shape prev_c = [N; H] ->
  shape Wx = [D; (4 * H)%nat] -> shape Wh = [H; (4 * H)%nat] -> shape b = [(4 * H)%nat] ->
  lstm_step_loss dnext_h dnext_c (lstm_step_forward x prev_h prev_c Wx Wh b) =
  rsum N (fun n => rsum H (fun h =>
    data dnext_h [n; h] *
      (logistic (lstm_preact D H x prev_h Wx Wh b n (2 * H + h)) *
       tanh (logistic (lstm_preact D H x prev_h Wx Wh b n (H + h)) * data prev_c [n; h] +
             logistic (lstm_preact D H x prev_h Wx Wh b n h) *
             tanh (lstm_preact D H x prev_h Wx Wh b n (3 * H + h)))) +
    data dnext_c [n; h] *
      (logistic (lstm_preact D H x prev_h Wx Wh b n (H + h)) * data prev_c [n; h] +
       logistic (lstm_preact D H x prev_h Wx Wh b n h) *
       tanh (lstm_preact D H x prev_h Wx Wh b n (3 * H + h))))).
Proof.
  intros Sx Sph Spc SWx SWh Sb.
  destruct (lstm_step_forward_value N D H x prev_h prev_c Wx Wh b Sx Sph Spc SWx SWh Sb)
    as (nh & nc & -> & Snh & Snc & Hv).
  unfold lstm_step_loss, sum.
  assert (Ssum : shape (add (mul dnext_h nh) (mul dnext_c nc)) = [N; H]) by shape2d.
  rewrite Ssum. cbn [sum_over].
  apply rsum_ext. intros n Hn. apply rsum_ext. intros h Hh.
  ew_simpl N H. destruct (Hv n h Hn Hh) as [Ec Eh]. rewrite Eh, Ec. reflexivity.
Qed.


Lemma lstm_step_loss_dlim dx dprev_h dprev_c dWx dWh db nh nc cache :
  lstm_step_forward (X t0) (PH t0) (PC t0) (WX t0) (WH t0) (B t0) = (nh, nc, cache) ->
  lstm_step_backward dnext_h dnext_c cache = (dx, dprev_h, dprev_c, dWx, dWh, db) ->
  derivable_pt_lim
    (fun t => lstm_step_loss dnext_h dnext_c
                (lstm_step_forward (X t) (PH t) (PC t) (WX t) (WH t) (B t))) t0
    (inner dx X' + inner dprev_h PH' + inner dprev_c PC' +
     inner dWx WX' + inner dWh WH' + inner db B').
Proof.
  intros Hfw Hbw.
  pose proof (preact_path_tangent D H X PH WX WH B X' PH' WX' WH' B' t0 HX HPH HWX HWH HB
                [N; (4 * H)%nat]) as HA.
  set (Ap := preact_path D H X PH WX WH B [N; (4 * H)%nat]) in HA.
  set (A' := preact_tangent D H X PH WX WH X' PH' WX' WH' B' t0) in HA.
  eapply (dlim_eq (fun t => rsum N (fun n => rsum H (fun h =>
    data dnext_h [n; h] *
      (logistic (data (Ap t) [n; (2 * H + h)%nat]) *
       tanh (logistic (data (Ap t) [n; (H + h)%nat]) * data (PC t) [n; h] +
             logistic (data (Ap t) [n; h]) * tanh (data (Ap t) [n; (3 * H + h)%nat]))) +
    data dnext_c [n; h] *
      (logistic (data (Ap t) [n; (H + h)%nat]) * data (PC t) [n; h] +
       logistic (data (Ap t) [n; h]) * tanh (data (Ap t) [n; (3 * H + h)%nat])))))).
  - dlim.
  - intros t. rewrite lstm_step_loss_value.
    + reflexivity.
    + rewrite (proj1 HX). exact Hx.
    + rewrite (proj1 HPH). exact Hph.
    + rewrite (proj1 HPC). exact Hpc.
    + rewrite (proj1 HWX). exact HWx.
    + rewrite (proj1 HWH). exact HWh.
    + rewrite (proj1 HB). exact Hb.
  - destruct (lstm_step_forward_value N D H _ _ _ _ _ _ Hx Hph Hpc HWx HWh Hb)
      as (nh0 & nc0 & Efw & Snh & Snc & Vfw).
    rewrite Efw in Hfw. injection Hfw as <- <- <-.
    destruct (lstm_step_backward_value N D H _ _ _ _ _ _ nh0 nc0 dnext_h dnext_c
                Hx Hph Hpc HWx HWh Hb Snc Hdh Hdc)
      as (dx0 & dph0 & dpc0 & dWx0 & dWh0 & db0 & dW & Ebw & Hsh & VW & Vdx & VdWx & Vdph & VdWh & Vdb).
    rewrite Ebw in Hbw. injection Hbw as <- <- <- <- <- <-.
    destruct Hsh as (Sdx & Sdph & Sdpc & SdWx & SdWh & Sdb).
    (* the derivative, gate by gate *)
    rewrite (rsum_ext N _ (fun n =>
      rsum (4 * H) (fun k => data dW [n; k] * A' [n; k]) +
      rsum H (fun h => data dpc0 [n; h] * PC' [n; h]))).
    2:{ intros n Hn. rewrite rsum_blocks4, <- rsum_plus. apply rsum_ext. intros h Hh.
        destruct (VW n h Hn Hh) as (E0 & E1 & E2 & E3 & E4). cbn zeta in E0, E1, E2, E3, E4.
        destruct (Vfw n h Hn Hh) as (Ec & _).
        rewrite E0, E1, E2, E3, E4, Ec.
        unfold Ap, preact_path. cbn [data nth]. ring. }
    rewrite rsum_plus.
    unfold A', preact_tangent. cbn [nth]. cbn zeta.
    rewrite (preact_adjoint N D H (4 * H) (fun n k => data dW [n; k])
               (fun n d => data (X t0) [n; d]) (fun n d => X' [n; d])
               (fun n j => data (PH t0) [n; j]) (fun n j => PH' [n; j])
               (fun d k => data (WX t0) [d; k]) (fun d k => WX' [d; k])
               (fun j k => data (WH t0) [j; k]) (fun j k => WH' [j; k])
               (fun k => B' [k])).
    unfold inner. rewrite Sdx, Sdph, Sdpc, SdWx, SdWh, Sdb. cbn [sum_over].
    rewrite (rsum_ext N (fun i => rsum D (fun i0 => data dx0 [i; i0] * X' [i; i0]))
               (fun n => rsum D (fun d =>
                  rsum (4 * H) (fun k => data dW [n; k] * data (WX t0) [d; k]) * X' [n; d])))
      by (intros; apply rsum_ext; intros; rewrite Vdx; reflexivity).
    rewrite (rsum_ext N (fun i => rsum H (fun i0 => data dph0 [i; i0] * PH' [i; i0]))
               (fun n => rsum H (fun j =>
                  rsum (4 * H) (fun k => data dW [n; k] * data (WH t0) [j; k]) * PH' [n; j])))
      by (intros; apply rsum_ext; intros; rewrite Vdph; reflexivity).
    rewrite (rsum_ext D (fun i => rsum (4 * H) (fun i0 => data dWx0 [i; i0] * WX' [i; i0]))
               (fun d => rsum (4 * H) (fun k =>
                  rsum N (fun n => data (X t0) [n; d] * data dW [n; k]) * WX' [d; k])))
      by (intros; apply rsum_ext; intros; rewrite VdWx; reflexivity).
    rewrite (rsum_ext H (fun i => rsum (4 * H) (fun i0 => data dWh0 [i; i0] * WH' [i; i0]))
               (fun j => rsum (4 * H) (fun k =>
                  rsum N (fun n => data (PH t0) [n; j] * data dW [n; k]) * WH' [j; k])))
      by (intros; apply rsum_ext; intros; rewrite VdWh; reflexivity).
    rewrite (rsum_ext (4 * H) (fun i => data db0 [i] * B' [i])
               (fun k => rsum N (fun n => data dW [n; k]) * B' [k]))
      by (intros; rewrite Vdb; reflexivity).
    lra.
Qed.
End LstmDerivative.

Section LstmGradients.

Variables (N D H : nat).
Variables x prev_h prev_c Wx Wh b dnext_h dnext_c : ndarray.
Hypothesis Hx : shape x = [N; D].
Hypothesis Hph : shape prev_h = [N; H].
Hypothesis Hpc : shape prev_c = [N; H].
Hypothesis HWx : shape Wx = [D; (4 * H)%nat].
Hypothesis HWh : shape Wh = [H; (4 * H)%nat].
Hypothesis Hb : shape b = [(4 * H)%nat].
Hypothesis Hdh : shape dnext_h = [N; H].
Hypothesis Hdc : shape dnext_c = [N; H].
Variables nh nc dx dprev_h dprev_c dWx dWh db : ndarray.
Variable cache : lstm_step_cache.
Hypothesis Hfw : lstm_step_forward x prev_h prev_c Wx Wh b = (nh, nc, cache).
Hypothesis Hbw :
  lstm_step_backward dnext_h dnext_c cache = (dx, dprev_h, dprev_c, dWx, dWh, db).

Lemma lstm_step_backward_shapes :
  shape dx = shape x /\ shape dprev_h = shape prev_h /\ shape dprev_c = shape prev_c /\
  shape dWx = shape Wx /\ shape dWh = shape Wh /\ shape db = shape b.
Proof.
  destruct (lstm_step_forward_value N D H _ _ _ _ _ _ Hx Hph Hpc HWx HWh Hb)
    as (nh0 & nc0 & Efw & Snh & Snc & Vfw).
  rewrite Efw in Hfw. injection Hfw as <- <- <-.
  destruct (lstm_step_backward_value N D H _ _ _ _ _ _ nh0 nc0 dnext_h dnext_c
              Hx Hph Hpc HWx HWh Hb Snc Hdh Hdc)
    as (dx0 & dph0 & dpc0 & dWx0 & dWh0 & db0 & dW & Ebw & Hsh & _).
  rewrite Ebw in Hbw. injection Hbw as <- <- <- <- <- <-.
  rewrite Hx, Hph, Hpc, HWx, HWh, Hb. exact Hsh.
Qed.

Let loss := lstm_step_loss dnext_h dnext_c.

Ltac lstm_partial X PH PC WX WH B X' PH' PC' WX' WH' B' t0 :=
  eapply dlim_eq; [ | intros; unfold loss; reflexivity | ];
  [ eapply (lstm_step_loss_dlim N D H X PH PC WX WH B X' PH' PC' WX' WH' B' t0);
    lazymatch goal with
    | |- tangent (set_entry _ _) _ _ => apply tangent_set_entry
    | |- tangent _ _ _ => apply tangent_const
    | |- shape _ = _ => cbn [shape set_entry]; assumption
    | |- lstm_step_forward _ _ _ _ _ _ = _ =>
        cbn beta; rewrite ?set_entry_same; exact Hfw
    | |- lstm_step_backward _ _ _ = _ => exact Hbw
    end
  | rewrite !inner_zero, inner_indicator; [lra|] ].

Lemma lstm_gradient_x :
  gradient_at (fun x' => loss (lstm_step_forward x' prev_h prev_c Wx Wh b)) x dx.
Proof.
  destruct lstm_step_backward_shapes as (S1 & S2 & S3 & S4 & S5 & S6).
  split; [exact S1|]. intros idx Hidx.
  lstm_partial (set_entry x idx) (fun _ : R => prev_h) (fun _ : R => prev_c)
    (fun _ : R => Wx) (fun _ : R => Wh) (fun _ : R => b)
    (indicator idx) (fun _ : list nat => 0) (fun _ : list nat => 0)
    (fun _ : list nat => 0) (fun _ : list nat => 0) (fun _ : list nat => 0) (data x idx).
  rewrite S1. exact Hidx.
Qed.

Lemma lstm_gradient_prev_h :
  gradient_at (fun h' => loss (lstm_step_forward x h' prev_c Wx Wh b)) prev_h dprev_h.
Proof.
  destruct lstm_step_backward_shapes as (S1 & S2 & S3 & S4 & S5 & S6).
  split; [exact S2|]. intros idx Hidx.
  lstm_partial (fun _ : R => x) (set_entry prev_h idx) (fun _ : R => prev_c)
    (fun _ : R => Wx) (fun _ : R => Wh) (fun _ : R => b)
    (fun _ : list nat => 0) (indicator idx) (fun _ : list nat => 0)
    (fun _ : list nat => 0) (fun _ : list nat => 0) (fun _ : list nat => 0) (data prev_h idx).
  rewrite S2. exact Hidx.
Qed.

Lemma lstm_gradient_prev_c :
  gradient_at (fun c' => loss (lstm_step_forward x prev_h c' Wx Wh b)) prev_c dprev_c.
Proof.
  destruct lstm_step_backward_shapes as (S1 & S2 & S3 & S4 & S5 & S6).
  split; [exact S3|]. intros idx Hidx.
  lstm_partial (fun _ : R => x) (fun _ : R => prev_h) (set_entry prev_c idx)
    (fun _ : R => Wx) (fun _ : R => Wh) (fun _ : R => b)
    (fun _ : list nat => 0) (fun _ : list nat => 0) (indicator idx)
    (fun _ : list nat => 0) (fun _ : list nat => 0) (fun _ : list nat => 0) (data prev_c idx).
  rewrite S3. exact Hidx.
Qed.

Lemma lstm_gradient_Wx :
  gradient_at (fun W' => loss (lstm_step_forward x prev_h prev_c W' Wh b)) Wx dWx.
Proof.
  destruct lstm_step_backward_shapes as (S1 & S2 & S3 & S4 & S5 & S6).
  split; [exact S4|]. intros idx Hidx.
  lstm_partial (fun _ : R => x) (fun _ : R => prev_h) (fun _ : R => prev_c)
    (set_entry Wx idx) (fun _ : R => Wh) (fun _ : R => b)
    (fun _ : list nat => 0) (fun _ : list nat => 0) (fun _ : list nat => 0)
    (indicator idx) (fun _ : list nat => 0) (fun _ : list nat => 0) (data Wx idx).
  rewrite S4. exact Hidx.
Qed.

Lemma lstm_gradient_Wh :
  gradient_at (fun W' => loss (lstm_step_forward x prev_h prev_c Wx W' b)) Wh dWh.
Proof.
  destruct lstm_step_backward_shapes as (S1 & S2 & S3 & S4 & S5 & S6).
  split; [exact S5|]. intros idx Hidx.
  lstm_partial (fun _ : R => x) (fun _ : R => prev_h) (fun _ : R => prev_c)
    (fun _ : R => Wx) (set_entry Wh idx) (fun _ : R => b)
    (fun _ : list nat => 0) (fun _ : list nat => 0) (fun _ : list nat => 0)
    (fun _ : list nat => 0) (indicator idx) (fun _ : list nat => 0) (data Wh idx).
  rewrite S5. exact Hidx.
Qed.

Lemma lstm_gradient_b :
  gradient_at (fun b' => loss (lstm_step_forward x prev_h prev_c Wx Wh b')) b db.
Proof.
  destruct lstm_step_backward_shapes as (S1 & S2 & S3 & S4 & S5 & S6).
  split; [exact S6|]. intros idx Hidx.
  lstm_partial (fun _ : R => x) (fun _ : R => prev_h) (fun _ : R => prev_c)
    (fun _ : R => Wx) (fun _ : R => Wh) (set_entry b idx)
    (fun _ : list nat => 0) (fun _ : list nat => 0) (fun _ : list nat => 0)
    (fun _ : list nat => 0) (fun _ : list nat => 0) (indicator idx) (data b idx).
  rewrite S6. exact Hidx.
Qed.

End LstmGradients.

(** C2: for [x] of shape [(N, D)], [prev_h] and [prev_c] of shape [(N, H)],
    [Wx] of shape [(D, 4H)], [Wh] of shape [(H, 4H)] and [b] of shape
    [(4H,)], [lstm_step_forward] computes [A = x.Wx + prev_h.Wh + b], the
    gates [i], [f], [o] (sigmoids of the first three blocks of [H] columns of
    [A]) and [g] ([tanh] of the fourth), and returns
    [next_c = f * prev_c + i * g] and [next_h = o * tanh(next_c)]; for every
    [dnext_h] and [dnext_c] of shape [(N, H)], [lstm_step_backward] applied
    to the forward cache returns the gradients of
    [np.sum(dnext_h * next_h + dnext_c * next_c)] with respect to [x],
    [prev_h], [prev_c], [Wx], [Wh] and [b]. *)
Theorem lstm_step_forward_backward_correct
    (N D H : nat) (x prev_h prev_c Wx Wh b : ndarray) :
  shape x = [N; D] -> shape prev_h = [N; H] -> shape prev_c = [N; H] ->
  shape Wx = [D; (4 * H)%nat] -> shape Wh = [H; (4 * H)%nat] -> shape b = [(4 * H)%nat] ->
  exists next_h next_c cache,
    lstm_step_forward x prev_h prev_c Wx Wh b = (next_h, next_c, cache) /\
    shape next_h = [N; H] /\ shape next_c = [N; H] /\
    (forall n h, (n < N)%nat -> (h < H)%nat ->
       let A := fun k =>
         rsum D (fun d => data x [n; d] * data Wx [d; k]) +
         rsum H (fun j => data prev_h [n; j] * data Wh [j; k]) + data b [k] in
       let i := logistic (A h) in
       let f := logistic (A (H + h)%nat) in
       let o := logistic (A (2 * H + h)%nat) in
       let g := tanh (A (3 * H + h)%nat) in
       data next_c [n; h] = f * data prev_c [n; h] + i * g /\
       data next_h [n; h] = o * tanh (data next_c [n; h])) /\
    forall dnext_h dnext_c, shape dnext_h = [N; H] -> shape dnext_c = [N; H] ->
      exists dx dprev_h dprev_c dWx dWh db,
        lstm_step_backward dnext_h dnext_c cache = (dx, dprev_h, dprev_c, dWx, dWh, db) /\
        let loss := lstm_step_loss dnext_h dnext_c in
        gradient_at (fun x' => loss (lstm_step_forward x' prev_h prev_c Wx Wh b)) x dx /\
        gradient_at (fun h' => loss (lstm_step_forward x h' prev_c Wx Wh b)) prev_h dprev_h /\
        gradient_at (fun c' => loss (lstm_step_forward x prev_h c' Wx Wh b)) prev_c dprev_c /\
        gradient_at (fun W' => loss (lstm_step_forward x prev_h prev_c W' Wh b)) Wx dWx /\
        gradient_at (fun W' => loss (lstm_step_forward x prev_h prev_c Wx W' b)) Wh dWh /\
        gradient_at (fun b' => loss (lstm_step_forward x prev_h prev_c Wx Wh b')) b db.
Proof.
  intros Hx Hph Hpc HWx HWh Hb.
  destruct (lstm_step_forward_value N D H x prev_h prev_c Wx Wh b Hx Hph Hpc HWx HWh Hb)
    as (nh & nc & Hfw & Snh & Snc & Vfw).
  exists nh, nc, (x, prev_h, prev_c, Wx, Wh, b, nh, nc).
  split; [exact Hfw|]. split; [exact Snh|]. split; [exact Snc|]. split.
  - intros n h Hn Hh. cbn zeta. exact (Vfw n h Hn Hh).
  - intros dnext_h dnext_c Hdh Hdc.
    destruct (lstm_step_backward_value N D H x prev_h prev_c Wx Wh b nh nc dnext_h dnext_c
                Hx Hph Hpc HWx HWh Hb Snc Hdh Hdc)
      as (dx & dph & dpc & dWx & dWh & db & dW & Hbw & _).
    exists dx, dph, dpc, dWx, dWh, db. split; [exact Hbw|]. cbn zeta.
    repeat split.
    + apply (lstm_step_backward_shapes N D H x prev_h prev_c Wx Wh b dnext_h dnext_c
               Hx Hph Hpc HWx HWh Hb Hdh Hdc nh nc dx dph dpc dWx dWh db _ Hfw Hbw).
    + apply (lstm_gradient_x N D H x prev_h prev_c Wx Wh b dnext_h dnext_c
               Hx Hph Hpc HWx HWh Hb Hdh Hdc nh nc dx dph dpc dWx dWh db _ Hfw Hbw).
    + apply (lstm_step_backward_shapes N D H x prev_h prev_c Wx Wh b dnext_h dnext_c
               Hx Hph Hpc HWx HWh Hb Hdh Hdc nh nc dx dph dpc dWx dWh db _ Hfw Hbw).
    + apply (lstm_gradient_prev_h N D H x prev_h prev_c Wx Wh b dnext_h dnext_c
               Hx Hph Hpc HWx HWh Hb Hdh Hdc nh nc dx dph dpc dWx dWh db _ Hfw Hbw).
    + apply (lstm_step_backward_shapes N D H x prev_h prev_c Wx Wh b dnext_h dnext_c
               Hx Hph Hpc HWx HWh Hb Hdh Hdc nh nc dx dph dpc dWx dWh db _ Hfw Hbw).
    + apply (lstm_gradient_prev_c N D H x prev_h prev_c Wx Wh b dnext_h dnext_c
               Hx Hph Hpc HWx HWh Hb Hdh Hdc nh nc dx dph dpc dWx dWh db _ Hfw Hbw).
    + apply (lstm_step_backward_shapes N D H x prev_h prev_c Wx Wh b dnext_h dnext_c
               Hx Hph Hpc HWx HWh Hb Hdh Hdc nh nc dx dph dpc dWx dWh db _ Hfw Hbw).
    + apply (lstm_gradient_Wx N D H x prev_h prev_c Wx Wh b dnext_h dnext_c
               Hx Hph Hpc HWx HWh Hb Hdh Hdc nh nc dx dph dpc dWx dWh db _ Hfw Hbw).
    + apply (lstm_step_backward_shapes N D H x prev_h prev_c Wx Wh b dnext_h dnext_c
               Hx Hph Hpc HWx HWh Hb Hdh Hdc nh nc dx dph dpc dWx dWh db _ Hfw Hbw).
    + apply (lstm_gradient_Wh N D H x prev_h prev_c Wx Wh b dnext_h dnext_c
               Hx Hph Hpc HWx HWh Hb Hdh Hdc nh nc dx dph dpc dWx dWh db _ Hfw Hbw).
    + apply (lstm_step_backward_shapes N D H x prev_h prev_c Wx Wh b dnext_h dnext_c
               Hx Hph Hpc HWx HWh Hb Hdh Hdc nh nc dx dph dpc dWx dWh db _ Hfw Hbw).
    + apply (lstm_gradient_b N D H x prev_h prev_c Wx Wh b dnext_h dnext_c
               Hx Hph Hpc HWx HWh Hb Hdh Hdc nh nc dx dph dpc dWx dWh db _ Hfw Hbw).
Qed.

Definition matrix_of (n m : nat) (f : nat -> nat -> R) : ndarray :=
  {| shape := [n; m]; data := fun idx => f (nth 0 idx 0%nat) (nth 1 idx 0%nat) |}.

Definition lstm_x0 : ndarray := matrix_of 2 3 (fun n d => INR n - INR d).
Definition lstm_h0 : ndarray := matrix_of 2 1 (fun n _ => INR n).
Definition lstm_c0 : ndarray := matrix_of 2 1 (fun _ _ => 1).
Definition lstm_Wx0 : ndarray := matrix_of 3 4 (fun d k => INR d * INR k).
Definition lstm_Wh0 : ndarray := matrix_of 1 4 (fun _ k => INR k - 1).
Definition lstm_b0 : ndarray := {| shape := [4%nat]; data := fun _ => 0 |}.

Lemma lstm_step_forward_backward_correct_witness :
  exists next_h next_c cache,
    lstm_step_forward lstm_x0 lstm_h0 lstm_c0 lstm_Wx0 lstm_Wh0 lstm_b0 =
      (next_h, next_c, cache) /\
    shape next_h = [2; 1]%nat /\ shape next_c = [2; 1]%nat /\
    forall dnext_h dnext_c, shape dnext_h = [2; 1]%nat -> shape dnext_c = [2; 1]%nat ->
      exists dx dprev_h dprev_c dWx dWh db,
        lstm_step_backward dnext_h dnext_c cache = (dx, dprev_h, dprev_c, dWx, dWh, db) /\
        gradient_at
          (fun x' => lstm_step_loss dnext_h dnext_c
                       (lstm_step_forward x' lstm_h0 lstm_c0 lstm_Wx0 lstm_Wh0 lstm_b0))
          lstm_x0 dx.
Proof.
  destruct (lstm_step_forward_backward_correct 2 3 1
              lstm_x0 lstm_h0 lstm_c0 lstm_Wx0 lstm_Wh0 lstm_b0)
    as (nh & nc & cache & Hfw & S1 & S2 & _ & Hbw);
    [reflexivity | reflexivity | reflexivity | reflexivity | reflexivity | reflexivity |].
  exists nh, nc, cache. split; [exact Hfw|]. split; [exact S1|]. split; [exact S2|].
  intros dnext_h dnext_c Hdh Hdc.
  destruct (Hbw dnext_h dnext_c Hdh Hdc) as (dx & dph & dpc & dWx & dWh & db & E & G & _).
  exists dx, dph, dpc, dWx, dWh, db. split; [exact E|exact G].
Defined.

(** ** Vanilla RNN over a sequence *)

Definition rnn_cache : Type :=
  (ndarray * ndarray * ndarray * ndarray * ndarray * ndarray)%type.

Definition rnn_forward (x h0 Wx Wh b : ndarray) : res (ndarray * rnn_cache) :=
  let N := dim x 0 in
  let T := dim x 1 in
  let H := dim Wx 1 in
  let h := zeros [N; T; H] in
  let* x0 := np_getitem x [IAll; IInt 0; IAll] in
  let '(h_first, _) := rnn_step_forward x0 h0 Wx Wh b in
  let* h := np_setitem h [IAll; IInt 0; IAll] h_first in
  let* h :=
    for_range_res (T - 1) (fun i h =>
      let* xi := np_getitem x [IAll; IInt (Z.of_nat i + 1); IAll] in
      let* hi := np_getitem h [IAll; IInt (Z.of_nat i); IAll] in
      let '(h_next, _) := rnn_step_forward xi hi Wx Wh b in
      np_setitem h [IAll; IInt (Z.of_nat i + 1); IAll] h_next) h in
  let cache := (x, h, Wx, Wh, b, h0) in
  Ok (h, cache).

Definition rnn_grads : Type := (ndarray * ndarray * ndarray * ndarray * ndarray)%type.

Definition rnn_backward (dh : ndarray) (cache : rnn_cache) : res rnn_grads :=
  let '(x, h, Wx, Wh, b, h0) := cache in
  let T := dim dh 1 in
  let dx := zeros_like x in
  let dh0 := zeros_like h0 in
  let dWx := zeros_like Wx in
  let dWh := zeros_like Wh in
  let db := zeros_like b in
  for_range_res T (fun i (acc : rnn_grads) =>
    let '(dx, dh0, dWx, dWh, db) := acc in
    let t := (Z.of_nat T - Z.of_nat i - 1)%Z in
    let* step :=
      if (Z.of_nat i =? Z.of_nat T - 1)%Z then
        let* dht := np_getitem dh [IAll; IInt t; IAll] in
        let* xt := np_getitem x [IAll; IInt t; IAll] in
        let* ht := np_getitem h [IAll; IInt t; IAll] in
        Ok (rnn_step_backward (add dht dh0) (xt, h0, Wx, Wh, ht))
      else if (Z.of_nat i =? 0)%Z then
        let* dht := np_getitem dh [IAll; IInt t; IAll] in
        let* xt := np_getitem x [IAll; IInt t; IAll] in
        let* hp := np_getitem h [IAll; IInt (t - 1); IAll] in
        let* ht := np_getitem h [IAll; IInt t; IAll] in
        Ok (rnn_step_backward dht (xt, hp, Wx, Wh, ht))
      else
        let* dht := np_getitem dh [IAll; IInt t; IAll] in
        let* xt := np_getitem x [IAll; IInt t; IAll] in
        let* hp := np_getitem h [IAll; IInt (t - 1); IAll] in
        let* ht := np_getitem h [IAll; IInt t; IAll] in
        Ok (rnn_step_backward (add dht dh0) (xt, hp, Wx, Wh, ht)) in
    let '(dxt, dh0, dWx_, dWh_, db_) := step in
    let* dx := np_setitem dx [IAll; IInt t; IAll] dxt in
    Ok (dx, dh0, add dWx dWx_, add dWh dWh_, add db db_))
    (dx, dh0, dWx, dWh, db).

(** The loss [np.sum(dh * h)] of a forward pass. *)
Definition rnn_loss (dh : ndarray) (r : res (ndarray * rnn_cache)) : R := upstream_loss dh r.

(** ** Reading and writing one time step of a [(N, T, D)] array *)

Section TimeSlices.
Variables (N T D : nat).

Lemma np_getitem_step (a : ndarray) (t : nat) :
  shape a = [N; T; D] -> (t < T)%nat ->
  np_getitem a [IAll; IInt (Z.of_nat t); IAll] = Ok (getitem a [IAll; IInt (Z.of_nat t); IAll]) /\
  shape (getitem a [IAll; IInt (Z.of_nat t); IAll]) = [N; D] /\
  forall n d, data (getitem a [IAll; IInt (Z.of_nat t); IAll]) [n; d] = data a [n; t; d].
Proof.
  intros Ha Ht. unfold np_getitem, getitem. cbn [shape data]. rewrite Ha.
  cbn [indices_ok index_shape index_source hd tl]. rewrite wrap_of_nat.
  unfold index_in_range.
  destruct (Z.leb_spec (- Z.of_nat T) (Z.of_nat t)); [|lia].
  destruct (Z.ltb_spec (Z.of_nat t) (Z.of_nat T)); [|lia].
  cbn [andb]. repeat split; reflexivity.
Qed.

Lemma np_setitem_step (a v : ndarray) (t : nat) :
  shape a = [N; T; D] -> shape v = [N; D] -> (t < T)%nat ->
  np_setitem a [IAll; IInt (Z.of_nat t); IAll] v =
    Ok (setitem a [IAll; IInt (Z.of_nat t); IAll] v) /\
  shape (setitem a [IAll; IInt (Z.of_nat t); IAll] v) = [N; T; D] /\
  forall n s d, (n < N)%nat -> (d < D)%nat ->
    data (setitem a [IAll; IInt (Z.of_nat t); IAll] v) [n; s; d] =
    if (s =? t)%nat then data v [n; d] else data a [n; s; d].
Proof.
  intros Ha Hv Ht. unfold np_setitem, setitem. cbn [shape data]. rewrite Ha, Hv.
  cbn [indices_ok index_target]. rewrite wrap_of_nat.
  unfold index_in_range.
  destruct (Z.leb_spec (- Z.of_nat T) (Z.of_nat t)); [|lia].
  destruct (Z.ltb_spec (Z.of_nat t) (Z.of_nat T)); [|lia].
  cbn [andb]. repeat split; try reflexivity.
  intros n s d Hn Hd. destruct (s =? t)%nat; cbn [option_map]; [|reflexivity].
  np_unfold. bidx_simpl. reflexivity.
Qed.

End TimeSlices.

(** ** The forward recurrence *)

Lemma rnn_step_forward_value (N D H : nat) (xt hp Wx Wh b : ndarray) :
  shape xt = [N; D] -> shape hp = [N; H] -> shape Wx = [D; H] -> shape Wh = [H; H] ->
  shape b = [H] ->
  shape (fst (rnn_step_forward xt hp Wx Wh b)) = [N; H] /\
  forall n k, (n < N)%nat -> (k < H)%nat ->
    data (fst (rnn_step_forward xt hp Wx Wh b)) [n; k] =
    tanh (lstm_preact D H xt hp Wx Wh b n k).
Proof.
  intros Hx Hp HWx HWh Hb. unfold rnn_step_forward. cbn [fst]. split.
  - unfold np_tanh, add, map2, dot, dim. cbn [shape map1]. rewrite Hx, Hp, HWx, HWh, Hb.
    np_unfold. rewrite !bdim_diag, bdim_1_r. reflexivity.
  - intros n k Hn Hk. unfold np_tanh, add, map2, dot, dim, lstm_preact. cbn [shape data map1].
    rewrite Hx, Hp, HWx, HWh, Hb. np_unfold. bidx_simpl. rewrite !bdim_diag. bidx_simpl.
    reflexivity.
Qed.

Section RnnForward.

Variables (N T D H : nat).
Variables x h0 Wx Wh b : ndarray.

(** The hidden state at time [t]: entry [(n, k)] of
    [tanh(x_t.Wx + h_(t-1).Wh + b)], with [h_(-1) = h0]. *)
Fixpoint rnn_hidden (t n k : nat) : R :=
  tanh (rsum D (fun d => data x [n; t; d] * data Wx [d; k]) +
        rsum H (fun j =>
          match t with
          | O => data h0 [n; j]
          | S t' => rnn_hidden t' n j
          end * data Wh [j; k]) +
        data b [k]).

Hypothesis Hx : shape x = [N; T; D].
Hypothesis Hh0 : shape h0 = [N; H].
Hypothesis HWx : shape Wx = [D; H].
Hypothesis HWh : shape Wh = [H; H].
Hypothesis Hb : shape b = [H].
Hypothesis HT : (1 <= T)%nat.

Let body := fun (i : nat) (h : ndarray) =>
  let* xi := np_getitem x [IAll; IInt (Z.of_nat i + 1); IAll] in
  let* hi := np_getitem h [IAll; IInt (Z.of_nat i); IAll] in
  let '(h_next, _) := rnn_step_forward xi hi Wx Wh b in
  np_setitem h [IAll; IInt (Z.of_nat i + 1); IAll] h_next.

Lemma rnn_forward_loop (hinit : ndarray) (m : nat) :
  shape hinit = [N; T; H] ->
  (forall n k, (n < N)%nat -> (k < H)%nat -> data hinit [n; 0%nat; k] = rnn_hidden 0 n k) ->
  (m < T)%nat ->
  exists hm, for_range_res m body hinit = Ok hm /\ shape hm = [N; T; H] /\
    forall n t k, (n < N)%nat -> (t <= m)%nat -> (k < H)%nat ->
      data hm [n; t; k] = rnn_hidden t n k.
Proof.
  intros Hs H0. induction m as [|m IH]; intros Hm.
  - exists hinit. split; [reflexivity|]. split; [exact Hs|].
    intros n t k Hn Ht Hk. assert (t = 0%nat) as -> by lia. apply H0; assumption.
  - destruct IH as (hm & Em & Sm & Vm); [lia|].
    cbn [for_range_res]. rewrite Em. cbn [res_bind]. unfold body.
    replace (Z.of_nat m + 1)%Z with (Z.of_nat (S m)) by lia.
    destruct (np_getitem_step N T D x (S m) Hx Hm) as (E1 & S1 & V1).
    rewrite E1. cbn [res_bind].
    destruct (np_getitem_step N T H hm m Sm) as (E2 & S2 & V2); [lia|].
    rewrite E2. cbn [res_bind].
    set (xi := getitem x [IAll; IInt (Z.of_nat (S m)); IAll]) in *.
    set (hi := getitem hm [IAll; IInt (Z.of_nat m); IAll]) in *.
    destruct (rnn_step_forward_value N D H xi hi Wx Wh b S1 S2 HWx HWh Hb) as (S3 & V3).
    destruct (rnn_step_forward xi hi Wx Wh b) as [hn c] eqn:Est. cbn [fst] in S3, V3.
    destruct (np_setitem_step N T H hm hn (S m) Sm S3 Hm) as (E4 & S4 & V4).
    rewrite E4. eexists. split; [reflexivity|]. split; [exact S4|].
    intros n t k Hn Ht Hk. rewrite V4 by assumption.
    destruct (Nat.eqb_spec t (S m)) as [->|Hne].
    + rewrite V3 by assumption. unfold lstm_preact. cbn [rnn_hidden].
      f_equal. f_equal. f_equal.
      * apply rsum_ext. intros d _. rewrite V1. reflexivity.
      * apply rsum_ext. intros j Hj. rewrite V2, Vm by (assumption || lia). reflexivity.
    + apply Vm; assumption || lia.
Qed.

Lemma rnn_forward_value :
  exists h, rnn_forward x h0 Wx Wh b = Ok (h, (x, h, Wx, Wh, b, h0)) /\
    shape h = [N; T; H] /\
    forall n t k, (n < N)%nat -> (t < T)%nat -> (k < H)%nat ->
      data h [n; t; k] = rnn_hidden t n k.
Proof.
  unfold rnn_forward, dim. rewrite Hx, HWx. cbn [nth].
  destruct (np_getitem_step N T D x 0 Hx) as (E1 & S1 & V1); [lia|].
  change (Z.of_nat 0) with 0%Z in *. rewrite E1. cbn [res_bind].
  set (x0 := getitem x [IAll; IInt 0; IAll]) in *.
  destruct (rnn_step_forward_value N D H x0 h0 Wx Wh b S1 Hh0 HWx HWh Hb) as (S3 & V3).
  destruct (rnn_step_forward x0 h0 Wx Wh b) as [hf c] eqn:Est. cbn [fst] in S3, V3.
  destruct (np_setitem_step N T H (zeros [N; T; H]) hf 0 eq_refl S3) as (E4 & S4 & V4); [lia|].
  change (Z.of_nat 0) with 0%Z in *. rewrite E4. cbn [res_bind].
  destruct (rnn_forward_loop (setitem (zeros [N; T; H]) [IAll; IInt 0; IAll] hf)
              (T - 1) S4) as (hm & Em & Sm & Vm).
  - intros n k Hn Hk. rewrite V4 by assumption. cbn [Nat.eqb]. rewrite V3 by assumption.
    unfold lstm_preact. cbn [rnn_hidden]. f_equal. f_equal. f_equal.
    apply rsum_ext. intros d _. rewrite V1. reflexivity.
  - lia.
  - fold body. rewrite Em. cbn [res_bind].
    exists hm. split; [reflexivity|]. split; [exact Sm|].
    intros n t k Hn Ht Hk. apply Vm; assumption || lia.
Qed.

End RnnForward.

(** ** One backward step *)

Lemma rnn_step_backward_value (N D H : nat) (dn xt hp Wx Wh ht : ndarray) :
  shape dn = [N; H] -> shape xt = [N; D] -> shape hp = [N; H] ->
  shape Wx = [D; H] -> shape Wh = [H; H] -> shape ht = [N; H] ->
  exists dx dph dWx dWh db dH,
    rnn_step_backward dn (xt, hp, Wx, Wh, ht) = (dx, dph, dWx, dWh, db) /\
    (shape dx = [N; D] /\ shape dph = [N; H] /\ shape dWx = [D; H] /\
     shape dWh = [H; H] /\ shape db = [H]) /\
    (forall n k, (n < N)%nat -> (k < H)%nat ->
       data dH [n; k] = data dn [n; k] * (1 - data ht [n; k] ^ 2)) /\
    (forall n d, data dx [n; d] = rsum H (fun k => data dH [n; k] * data Wx [d; k])) /\
    (forall d k, data dWx [d; k] = rsum N (fun n => data xt [n; d] * data dH [n; k])) /\
    (forall n j, data dph [n; j] = rsum H (fun k => data dH [n; k] * data Wh [j; k])) /\
    (forall j k, data dWh [j; k] = rsum N (fun n => data hp [n; j] * data dH [n; k])) /\
    (forall k, data db [k] = rsum N (fun n => data dH [n; k])).
Proof.
  intros Hdn Hx Hp HWx HWh Hht. unfold rnn_step_backward.
  set (dH := mul dn (sub (scalar 1) (square ht))).
  assert (HsH : shape dH = [N; H]) by (unfold dH; shape2d).
  eexists. eexists. eexists. eexists. eexists. exists dH.
  split; [reflexivity|].
  assert (HvH : forall n k, (n < N)%nat -> (k < H)%nat ->
            data dH [n; k] = data dn [n; k] * (1 - data ht [n; k] ^ 2)).
  { intros n k Hn Hk. unfold dH. ew_simpl N H. reflexivity. }
  clearbody dH.
  split; [|split; [exact HvH|split; [|split; [|split; [|split]]]]].
  - repeat split.
    + unfold dot, transpose, dim. cbn [shape]. rewrite HsH, HWx. reflexivity.
    + unfold dot, transpose, dim. cbn [shape]. rewrite HsH, HWh. reflexivity.
    + unfold dot, transpose, dim. cbn [shape]. rewrite HsH, Hx. reflexivity.
    + unfold dot, transpose, dim. cbn [shape]. rewrite HsH, Hp. reflexivity.
    + unfold sum_axes. cbn [shape]. rewrite HsH. reflexivity.
  - intros n d. unfold dot, transpose, dim. cbn [shape data nth rev app]. rewrite HsH.
    cbn [nth]. reflexivity.
  - intros d k. unfold dot, transpose, dim. cbn [shape data nth rev app]. rewrite Hx.
    cbn [nth rev app]. reflexivity.
  - intros n j. unfold dot, transpose, dim. cbn [shape data nth rev app]. rewrite HsH.
    cbn [nth]. reflexivity.
  - intros j k. unfold dot, transpose, dim. cbn [shape data nth rev app]. rewrite Hp.
    cbn [nth rev app]. reflexivity.
  - intros k. unfold sum_axes. cbn [shape data]. rewrite HsH. np_unfold. reflexivity.
Qed.

(** The pairing of the gradients of one step with a tangent of its inputs. *)
Lemma rnn_step_adjoint (N D H : nat) (dn xt hp Wx Wh ht : ndarray)
      (X' PH' WX' WH' : nat -> nat -> R) (B' : nat -> R) :
  shape dn = [N; H] -> shape xt = [N; D] -> shape hp = [N; H] ->
  shape Wx = [D; H] -> shape Wh = [H; H] -> shape ht = [N; H] ->
  exists dx dph dWx dWh db,
    rnn_step_backward dn (xt, hp, Wx, Wh, ht) = (dx, dph, dWx, dWh, db) /\
    (shape dx = [N; D] /\ shape dph = [N; H] /\ shape dWx = [D; H] /\
     shape dWh = [H; H] /\ shape db = [H]) /\
    rsum N (fun n => rsum H (fun k =>
      data dn [n; k] *
      ((1 - data ht [n; k] ^ 2) *
       (rsum D (fun d => X' n d * data Wx [d; k] + data xt [n; d] * WX' d k) +
        rsum H (fun j => PH' n j * data Wh [j; k] + data hp [n; j] * WH' j k) + B' k)))) =
    rsum N (fun n => rsum D (fun d => data dx [n; d] * X' n d)) +
    rsum D (fun d => rsum H (fun k => data dWx [d; k] * WX' d k)) +
    rsum N (fun n => rsum H (fun j => data dph [n; j] * PH' n j)) +
    rsum H (fun j => rsum H (fun k => data dWh [j; k] * WH' j k)) +
    rsum H (fun k => data db [k] * B' k).
Proof.
  intros Hdn Hx Hp HWx HWh Hht.
  destruct (rnn_step_backward_value N D H dn xt hp Wx Wh ht Hdn Hx Hp HWx HWh Hht)
    as (dx & dph & dWx & dWh & db & dH & E & Hs & VH & Vdx & VdWx & Vdph & VdWh & Vdb).
  exists dx, dph, dWx, dWh, db. split; [exact E|]. split; [exact Hs|].
  rewrite (rsum_ext N _ (fun n => rsum H (fun k =>
    data dH [n; k] *
      (rsum D (fun d => X' n d * data Wx [d; k] + data xt [n; d] * WX' d k) +
       rsum H (fun j => PH' n j * data Wh [j; k] + data hp [n; j] * WH' j k) + B' k)))).
  2:{ intros n Hn. apply rsum_ext. intros k Hk. rewrite VH by assumption. ring. }
  rewrite (preact_adjoint N D H H (fun n k => data dH [n; k])
             (fun n d => data xt [n; d]) X' (fun n j => data hp [n; j]) PH'
             (fun d k => data Wx [d; k]) WX' (fun j k => data Wh [j; k]) WH' B').
  f_equal; [f_equal; [f_equal; [f_equal|]|]|].
  - apply rsum_ext; intros; apply rsum_ext; intros; rewrite Vdx; reflexivity.
  - apply rsum_ext; intros; apply rsum_ext; intros; rewrite VdWx; reflexivity.
  - apply rsum_ext; intros; apply rsum_ext; intros; rewrite Vdph; reflexivity.
  - apply rsum_ext; intros; apply rsum_ext; intros; rewrite VdWh; reflexivity.
  - apply rsum_ext; intros; rewrite Vdb; reflexivity.
Qed.

(** ** Backpropagation through time *)

Lemma rsum_rev (m : nat) (f : nat -> R) : rsum m (fun i => f (m - 1 - i)%nat) = rsum m f.
Proof.
  revert f. induction m as [|m IH]; intros f; [reflexivity|].
  change (rsum (S m) f) with (rsum (1 + m) f).
  rewrite (rsum_app 1 m f). cbn [rsum].
  rewrite <- (IH (fun i => f (1 + i)%nat)).
  replace (S m - 1 - m)%nat with 0%nat by lia.
  rewrite (rsum_ext m (fun i => f (S m - 1 - i)%nat) (fun i => f (1 + (m - 1 - i))%nat)).
  - lra.
  - intros i Hi. f_equal. lia.
Qed.

Lemma add_value_1d (H : nat) (a c : ndarray) (k : nat) :
  shape a = [H] -> shape c = [H] -> (k < H)%nat ->
  shape (add a c) = [H] /\ data (add a c) [k] = data a [k] + data c [k].
Proof.
  intros Ha Hc Hk. unfold add, map2. cbn [shape data]. rewrite Ha, Hc. np_unfold.
  bidx_simpl. rewrite bdim_diag. split; reflexivity.
Qed.

Lemma add_shape_1d (H : nat) (a c : ndarray) :
  shape a = [H] -> shape c = [H] -> shape (add a c) = [H].
Proof.
  intros Ha Hc. unfold add, map2. cbn [shape]. rewrite Ha, Hc. np_unfold.
  rewrite bdim_diag. reflexivity.
Qed.

Section RnnBackward.

Variables (N T D H : nat).
Variables x h0 Wx Wh b h dh : ndarray.
Variables X' H0' WX' WH' B' : list nat -> R.

Hypothesis Hx : shape x = [N; T; D].
Hypothesis Hh0 : shape h0 = [N; H].
Hypothesis HWx : shape Wx = [D; H].
Hypothesis HWh : shape Wh = [H; H].
Hypothesis Hb : shape b = [H].
Hypothesis Hh : shape h = [N; T; H].
Hypothesis Hdh : shape dh = [N; T; H].
Hypothesis Vh : forall n t k, (n < N)%nat -> (t < T)%nat -> (k < H)%nat ->
  data h [n; t; k] = rnn_hidden D H x h0 Wx Wh b t n k.

(** The derivative of the hidden state at time [t] along a path through
    the inputs with tangent [(X', H0', WX', WH', B')]. *)
Fixpoint rnn_hidden_tan (t n k : nat) : R :=
  (1 - rnn_hidden D H x h0 Wx Wh b t n k ^ 2) *
  (rsum D (fun d => X' [n; t; d] * data Wx [d; k] + data x [n; t; d] * WX' [d; k]) +
   rsum H (fun j =>
     match t with
     | O => H0' [n; j]
     | S t' => rnn_hidden_tan t' n j
     end * data Wh [j; k] +
     match t with
     | O => data h0 [n; j]
     | S t' => rnn_hidden D H x h0 Wx Wh b t' n j
     end * WH' [j; k]) +
   B' [k]).

Definition prev_tan (t n j : nat) : R :=
  match t with
  | O => H0' [n; j]
  | S t' => rnn_hidden_tan t' n j
  end.

Definition prev_val (t n j : nat) : R :=
  match t with
  | O => data h0 [n; j]
  | S t' => rnn_hidden D H x h0 Wx Wh b t' n j
  end.

Lemma rnn_hidden_tan_eq (t n k : nat) :
  rnn_hidden_tan t n k =
  (1 - rnn_hidden D H x h0 Wx Wh b t n k ^ 2) *
  (rsum D (fun d => X' [n; t; d] * data Wx [d; k] + data x [n; t; d] * WX' [d; k]) +
   rsum H (fun j => prev_tan t n j * data Wh [j; k] + prev_val t n j * WH' [j; k]) +
   B' [k]).
Proof. destruct t; reflexivity. Qed.

Let body := fun (i : nat) (acc : rnn_grads) =>
    let '(dx, dh0, dWx, dWh, db) := acc in
    let t := (Z.of_nat T - Z.of_nat i - 1)%Z in
    let* step :=
      if (Z.of_nat i =? Z.of_nat T - 1)%Z then
        let* dht := np_getitem dh [IAll; IInt t; IAll] in
        let* xt := np_getitem x [IAll; IInt t; IAll] in
        let* ht := np_getitem h [IAll; IInt t; IAll] in
        Ok (rnn_step_backward (add dht dh0) (xt, h0, Wx, Wh, ht))
      else if (Z.of_nat i =? 0)%Z then
        let* dht := np_getitem dh [IAll; IInt t; IAll] in
        let* xt := np_getitem x [IAll; IInt t; IAll] in
        let* hp := np_getitem h [IAll; IInt (t - 1); IAll] in
        let* ht := np_getitem h [IAll; IInt t; IAll] in
        Ok (rnn_step_backward dht (xt, hp, Wx, Wh, ht))
      else
        let* dht := np_getitem dh [IAll; IInt t; IAll] in
        let* xt := np_getitem x [IAll; IInt t; IAll] in
        let* hp := np_getitem h [IAll; IInt (t - 1); IAll] in
        let* ht := np_getitem h [IAll; IInt t; IAll] in
        Ok (rnn_step_backward (add dht dh0) (xt, hp, Wx, Wh, ht)) in
    let '(dxt, dh0, dWx_, dWh_, db_) := step in
    let* dx := np_setitem dx [IAll; IInt t; IAll] dxt in
    Ok (dx, dh0, add dWx dWx_, add dWh dWh_, add db db_).

Lemma rnn_backward_body_value (m : nat) (dx dh0c dWx dWh db : ndarray) :
  (m < T)%nat -> shape dh0c = [N; H] ->
  (m = 0%nat -> forall n k, data dh0c [n; k] = 0) ->
  exists g hp,
    shape g = [N; H] /\ shape hp = [N; H] /\
    (forall n k, (n < N)%nat -> (k < H)%nat ->
       data g [n; k] = data dh [n; (T - 1 - m)%nat; k] + data dh0c [n; k]) /\
    (forall n j, (n < N)%nat -> (j < H)%nat -> data hp [n; j] = prev_val (T - 1 - m) n j) /\
    body m (dx, dh0c, dWx, dWh, db) =
      let '(dxt, dph, dWx_, dWh_, db_) :=
        rnn_step_backward g
          (getitem x [IAll; IInt (Z.of_nat (T - 1 - m)); IAll], hp, Wx, Wh,
           getitem h [IAll; IInt (Z.of_nat (T - 1 - m)); IAll]) in
      let* dx := np_setitem dx [IAll; IInt (Z.of_nat (T - 1 - m)); IAll] dxt in
      Ok (dx, dph, add dWx dWx_, add dWh dWh_, add db db_).
Proof.
  intros Hm Hs0 Hz. unfold body.
  replace (Z.of_nat T - Z.of_nat m - 1)%Z with (Z.of_nat (T - 1 - m)) by lia.
  assert (Ht : (T - 1 - m < T)%nat) by lia.
  destruct (np_getitem_step N T H dh _ Hdh Ht) as (E1 & S1 & V1).
  destruct (np_getitem_step N T D x _ Hx Ht) as (E2 & S2 & V2).
  destruct (np_getitem_step N T H h _ Hh Ht) as (E3 & S3 & V3).
  rewrite E1, E2, E3. cbn [res_bind].
  destruct (Z.eqb_spec (Z.of_nat m) (Z.of_nat T - 1)) as [Elast|Hnl].
  - exists (add (getitem dh [IAll; IInt (Z.of_nat (T - 1 - m)); IAll]) dh0c), h0.
    split; [shape2d|]. split; [exact Hh0|]. split; [|split].
    + intros n k Hn Hk. ew_simpl N H. rewrite V1. reflexivity.
    + intros n j Hn Hj. replace (T - 1 - m)%nat with 0%nat by lia. reflexivity.
    + reflexivity.
  - assert (Hp : (T - 1 - m - 1 < T)%nat) by lia.
    destruct (np_getitem_step N T H h _ Hh Hp) as (E4 & S4 & V4).
    replace (Z.of_nat (T - 1 - m) - 1)%Z with (Z.of_nat (T - 1 - m - 1)) by lia.
    rewrite E4. cbn [res_bind].
    assert (Vp : forall n j, (n < N)%nat -> (j < H)%nat ->
              data (getitem h [IAll; IInt (Z.of_nat (T - 1 - m - 1)); IAll]) [n; j] =
              prev_val (T - 1 - m) n j).
    { intros n j Hn Hj. rewrite V4. destruct (T - 1 - m)%nat as [|t'] eqn:Et; [lia|].
      cbn [prev_val]. replace (S t' - 1)%nat with t' by lia. apply Vh; lia. }
    destruct (Z.eqb_spec (Z.of_nat m) 0) as [Efirst|Hnf].
    + exists (getitem dh [IAll; IInt (Z.of_nat (T - 1 - m)); IAll]),
             (getitem h [IAll; IInt (Z.of_nat (T - 1 - m - 1)); IAll]).
      split; [exact S1|]. split; [exact S4|]. split; [|split].
      * intros n k Hn Hk. rewrite V1, Hz by lia. lra.
      * exact Vp.
      * reflexivity.
    + exists (add (getitem dh [IAll; IInt (Z.of_nat (T - 1 - m)); IAll]) dh0c),
             (getitem h [IAll; IInt (Z.of_nat (T - 1 - m - 1)); IAll]).
      split; [shape2d|]. split; [exact S4|]. split; [|split].
      * intros n k Hn Hk. ew_simpl N H. rewrite V1. reflexivity.
      * exact Vp.
      * reflexivity.
Qed.

Hypothesis HT : (1 <= T)%nat.

Lemma rnn_backward_loop (m : nat) :
  (m <= T)%nat ->
  exists dx dh0c dWx dWh db,
    for_range_res m body
      (zeros_like x, zeros_like h0, zeros_like Wx, zeros_like Wh, zeros_like b) =
      Ok (dx, dh0c, dWx, dWh, db) /\
    (shape dx = [N; T; D] /\ shape dh0c = [N; H] /\ shape dWx = [D; H] /\
     shape dWh = [H; H] /\ shape db = [H]) /\
    (m = 0%nat -> forall n k, data dh0c [n; k] = 0) /\
    rsum m (fun i => rsum N (fun n => rsum H (fun k =>
      data dh [n; (T - 1 - i)%nat; k] * rnn_hidden_tan (T - 1 - i) n k))) =
    rsum m (fun i => rsum N (fun n => rsum D (fun d =>
      data dx [n; (T - 1 - i)%nat; d] * X' [n; (T - 1 - i)%nat; d]))) +
    rsum D (fun d => rsum H (fun k => data dWx [d; k] * WX' [d; k])) +
    rsum H (fun j => rsum H (fun k => data dWh [j; k] * WH' [j; k])) +
    rsum H (fun k => data db [k] * B' [k]) +
    rsum N (fun n => rsum H (fun j => data dh0c [n; j] * prev_tan (T - m) n j)).
Proof.
  induction m as [|m IH]; intros Hm.
  - eexists. eexists. eexists. eexists. eexists. split; [reflexivity|].
    unfold zeros_like. cbn [shape zeros]. rewrite Hx, Hh0, HWx, HWh, Hb.
    split; [repeat split|]. split; [reflexivity|].
    cbn [rsum]. unfold zeros. cbn [data].
    assert (Z2 : forall (p q : nat) (v : nat -> nat -> R),
              rsum p (fun i => rsum q (fun j => 0 * v i j)) = 0).
    { intros p q v. apply rsum_zero_ext. intros i _. apply rsum_zero_ext. intros j _. lra. }
    rewrite (Z2 D H (fun d k => WX' [d; k])), (Z2 H H (fun j k => WH' [j; k])),
      (Z2 N H (fun n j => prev_tan (T - 0) n j)).
    rewrite (rsum_zero_ext H (fun k => 0 * B' [k])) by (intros; lra). lra.
  - destruct IH as (dx & dh0c & dWx & dWh & db & Em & (Sdx & Sd0 & SdWx & SdWh & Sdb) & Hz & Inv);
      [lia|].
    cbn [for_range_res]. rewrite Em. cbn [res_bind].
    destruct (rnn_backward_body_value m dx dh0c dWx dWh db) as (g & hp & Sg & Shp & Vg & Vhp & Eb);
      [lia | exact Sd0 | exact Hz |].
    rewrite Eb. clear Eb.
    assert (Ht : (T - 1 - m < T)%nat) by lia.
    destruct (np_getitem_step N T D x _ Hx Ht) as (_ & S2 & V2).
    destruct (np_getitem_step N T H h _ Hh Ht) as (_ & S3 & V3).
    set (t := (T - 1 - m)%nat) in *.
    destruct (rnn_step_adjoint N D H g _ hp Wx Wh _
                (fun n d => X' [n; t; d]) (fun n j => prev_tan t n j)
                (fun d k => WX' [d; k]) (fun j k => WH' [j; k]) (fun k => B' [k])
                Sg S2 Shp HWx HWh S3)
      as (dxt & dph & dWx_ & dWh_ & db_ & Est & (Sxt & Sph & SWx_ & SWh_ & Sb_) & Adj).
    rewrite Est.
    destruct (np_setitem_step N T D dx dxt t Sdx Sxt Ht) as (E4 & S4 & V4).
    rewrite E4. cbn [res_bind].
    eexists. eexists. eexists. eexists. eexists. split; [reflexivity|].
    split; [|split; [intros; lia|]].
    { repeat split; [exact S4 | exact Sph | shape2d | shape2d | apply add_shape_1d; assumption]. }
    cbn [rsum]. fold t. rewrite Inv.
    replace (T - S m)%nat with t by lia.
    replace (T - m)%nat with (S t) by lia. cbn [prev_tan].
    rewrite (rsum_ext N (fun n => rsum H (fun k => data dh [n; t; k] * rnn_hidden_tan t n k))
               (fun n => rsum H (fun k =>
                  data g [n; k] * rnn_hidden_tan t n k - data dh0c [n; k] * rnn_hidden_tan t n k))).
    2:{ intros n Hn. apply rsum_ext. intros k Hk. rewrite Vg by assumption. ring. }
    rewrite (rsum_ext N (fun n => rsum H (fun k =>
               data g [n; k] * rnn_hidden_tan t n k - data dh0c [n; k] * rnn_hidden_tan t n k))
               (fun n => rsum H (fun k => data g [n; k] * rnn_hidden_tan t n k) +
                         -1 * rsum H (fun k => data dh0c [n; k] * rnn_hidden_tan t n k))).
    2:{ intros n Hn. rewrite <- rsum_scal_l, <- rsum_plus. apply rsum_ext. intros; ring. }
    rewrite rsum_plus, rsum_scal_l.
    rewrite (rsum_ext N (fun n => rsum H (fun k => data g [n; k] * rnn_hidden_tan t n k))
               (fun n => rsum H (fun k =>
                  data g [n; k] *
                  ((1 - data (getitem h [IAll; IInt (Z.of_nat t); IAll]) [n; k] ^ 2) *
                   (rsum D (fun d => X' [n; t; d] * data Wx [d; k] +
                      data (getitem x [IAll; IInt (Z.of_nat t); IAll]) [n; d] * WX' [d; k]) +
                    rsum H (fun j => prev_tan t n j * data Wh [j; k] +
                      data hp [n; j] * WH' [j; k]) + B' [k]))))).
    2:{ intros n Hn. apply rsum_ext. intros k Hk. rewrite rnn_hidden_tan_eq, V3, Vh by assumption.
        f_equal. f_equal. f_equal. f_equal.
        - apply rsum_ext. intros d _. rewrite V2. reflexivity.
        - apply rsum_ext. intros j Hj. rewrite Vhp by assumption. reflexivity. }
    rewrite Adj.
    rewrite (rsum_ext m (fun i => rsum N (fun n => rsum D (fun d =>
               data (setitem dx [IAll; IInt (Z.of_nat t); IAll] dxt) [n; (T - 1 - i)%nat; d] *
               X' [n; (T - 1 - i)%nat; d])))
               (fun i => rsum N (fun n => rsum D (fun d =>
               data dx [n; (T - 1 - i)%nat; d] * X' [n; (T - 1 - i)%nat; d])))).
    2:{ intros i Hi. apply rsum_ext. intros n Hn. apply rsum_ext. intros d Hd.
        rewrite V4 by assumption. destruct (Nat.eqb_spec (T - 1 - i) t); [lia|reflexivity]. }
    rewrite (rsum_ext N (fun n => rsum D (fun d =>
               data (setitem dx [IAll; IInt (Z.of_nat t); IAll] dxt) [n; t; d] * X' [n; t; d]))
               (fun n => rsum D (fun d => data dxt [n; d] * X' [n; t; d]))).
    2:{ intros n Hn. apply rsum_ext. intros d Hd. rewrite V4 by assumption.
        rewrite Nat.eqb_refl. reflexivity. }
    rewrite (rsum_ext D (fun d => rsum H (fun k => data (add dWx dWx_) [d; k] * WX' [d; k]))
               (fun d => rsum H (fun k => data dWx [d; k] * WX' [d; k]) +
                         rsum H (fun k => data dWx_ [d; k] * WX' [d; k]))).
    2:{ intros d Hd. rewrite <- rsum_plus. apply rsum_ext. intros k Hk.
        ew_simpl D H. ring. }
    rewrite (rsum_ext H (fun j => rsum H (fun k => data (add dWh dWh_) [j; k] * WH' [j; k]))
               (fun j => rsum H (fun k => data dWh [j; k] * WH' [j; k]) +
                         rsum H (fun k => data dWh_ [j; k] * WH' [j; k]))).
    2:{ intros j Hj. rewrite <- rsum_plus. apply rsum_ext. intros k Hk.
        ew_simpl H H. ring. }
    rewrite (rsum_ext H (fun k => data (add db db_) [k] * B' [k])
               (fun k => data db [k] * B' [k] + data db_ [k] * B' [k])).
    2:{ intros k Hk. rewrite (proj2 (add_value_1d H db db_ k Sdb Sb_ Hk)). ring. }
    rewrite !rsum_plus. lra.
Qed.

Lemma rnn_backward_value :
  exists dx dh0' dWx dWh db,
    rnn_backward dh (x, h, Wx, Wh, b, h0) = Ok (dx, dh0', dWx, dWh, db) /\
    (shape dx = [N; T; D] /\ shape dh0' = [N; H] /\ shape dWx = [D; H] /\
     shape dWh = [H; H] /\ shape db = [H]) /\
    rsum N (fun n => rsum T (fun t => rsum H (fun k =>
      data dh [n; t; k] * rnn_hidden_tan t n k))) =
    inner dx X' + inner dh0' H0' + inner dWx WX' + inner dWh WH' + inner db B'.
Proof.
  destruct (rnn_backward_loop T (le_n T))
    as (dx & dh0c & dWx & dWh & db & Em & Hs & _ & Inv).
  exists dx, dh0c, dWx, dWh, db. split.
  - unfold rnn_backward, dim. rewrite Hdh. cbn [nth]. exact Em.
  - split; [exact Hs|]. destruct Hs as (Sdx & Sd0 & SdWx & SdWh & Sdb).
    unfold inner. rewrite Sdx, Sd0, SdWx, SdWh, Sdb. cbn [sum_over].
    rewrite Nat.sub_diag in Inv. cbn [prev_tan] in Inv.
    rewrite (rsum_rev T (fun t => rsum N (fun n => rsum H (fun k =>
               data dh [n; t; k] * rnn_hidden_tan t n k)))) in Inv.
    rewrite (rsum_rev T (fun t => rsum N (fun n => rsum D (fun d =>
               data dx [n; t; d] * X' [n; t; d])))) in Inv.
    rewrite (rsum_swap N T (fun n t => rsum H (fun k =>
               data dh [n; t; k] * rnn_hidden_tan t n k))).
    rewrite (rsum_swap N T (fun n t => rsum D (fun d => data dx [n; t; d] * X' [n; t; d]))).
    rewrite Inv. lra.
Qed.

End RnnBackward.

(** ** The derivative of the loss along a path through the inputs *)

Section RnnDerivative.

Variables (N T D H : nat).
Variables (X H0 WX WH B : R -> ndarray) (X' H0' WX' WH' B' : list nat -> R) (t0 : R).
Hypothesis HX : tangent X t0 X'.
Hypothesis HH0 : tangent H0 t0 H0'.
Hypothesis HWX : tangent WX t0 WX'.
Hypothesis HWH : tangent WH t0 WH'.
Hypothesis HB : tangent B t0 B'.
Hypothesis Hx : shape (X t0) = [N; T; D].
Hypothesis Hh0 : shape (H0 t0) = [N; H].
Hypothesis HWx : shape (WX t0) = [D; H].
Hypothesis HWh : shape (WH t0) = [H; H].
Hypothesis Hb : shape (B t0) = [H].
Hypothesis HT : (1 <= T)%nat.
Variable dh : ndarray.
Hypothesis Hdh : shape dh = [N; T; H].

Lemma rnn_hidden_dlim (t n k : nat) :
  derivable_pt_lim
    (fun s => rnn_hidden D H (X s) (H0 s) (WX s) (WH s) (B s) t n k) t0
    (rnn_hidden_tan D H (X t0) (H0 t0) (WX t0) (WH t0) (B t0) X' H0' WX' WH' B' t n k).
Proof.
  revert n k. induction t as [|t IH]; intros n k.
  - cbn [rnn_hidden rnn_hidden_tan]. dlim.
  - pose (HP := fun s : R =>
      {| shape := [N; H];
         data := fun idx =>
           rnn_hidden D H (X s) (H0 s) (WX s) (WH s) (B s) t (nth 0 idx 0%nat) (nth 1 idx 0%nat) |}).
    assert (HHP : tangent HP t0
              (fun idx => rnn_hidden_tan D H (X t0) (H0 t0) (WX t0) (WH t0) (B t0)
                            X' H0' WX' WH' B' t (nth 0 idx 0%nat) (nth 1 idx 0%nat))).
    { split; [reflexivity|]. intros idx. apply IH. }
    eapply (dlim_eq (fun s =>
      tanh (rsum D (fun d => data (X s) [n; S t; d] * data (WX s) [d; k]) +
            rsum H (fun j => data (HP s) [n; j] * data (WH s) [j; k]) +
            data (B s) [k]))).
    + dlim.
    + intros s. reflexivity.
    + reflexivity.
Qed.

Lemma rnn_loss_value (x h0 Wx Wh b : ndarray) :
  shape x = [N; T; D] -> shape h0 = [N; H] -> shape Wx = [D; H] -> shape Wh = [H; H] ->
  shape b = [H] ->
  rnn_loss dh (rnn_forward x h0 Wx Wh b) =
  rsum N (fun n => rsum T (fun t => rsum H (fun k =>
    data dh [n; t; k] * rnn_hidden D H x h0 Wx Wh b t n k))).
Proof.
  intros Sx Sh0 SWx SWh Sb.
  destruct (rnn_forward_value N T D H x h0 Wx Wh b Sx Sh0 SWx SWh Sb HT) as (h & -> & Sh & Vh).
  unfold rnn_loss, upstream_loss, sum, mul, map2. cbn [shape data]. rewrite Hdh, Sh.
  np_unfold. rewrite !bdim_diag. cbn [sum_over].
  apply rsum_ext. intros n Hn. apply rsum_ext. intros t Ht. apply rsum_ext. intros k Hk.
  bidx_simpl. rewrite Vh by assumption. reflexivity.
Qed.

Lemma rnn_loss_dlim (h dx dh0' dWx dWh db : ndarray) (cache : rnn_cache) :
  rnn_forward (X t0) (H0 t0) (WX t0) (WH t0) (B t0) = Ok (h, cache) ->
  rnn_backward dh cache = Ok (dx, dh0', dWx, dWh, db) ->
  derivable_pt_lim
    (fun s => rnn_loss dh (rnn_forward (X s) (H0 s) (WX s) (WH s) (B s))) t0
    (inner dx X' + inner dh0' H0' + inner dWx WX' + inner dWh WH' + inner db B').
Proof.
  intros Hfw Hbw.
  apply (dlim_eq (fun s => rsum N (fun n => rsum T (fun t => rsum H (fun k =>
    data dh [n; t; k] * rnn_hidden D H (X s) (H0 s) (WX s) (WH s) (B s) t n k))))
    _ t0
    (rsum N (fun n => rsum T (fun t => rsum H (fun k =>
       data dh [n; t; k] *
       rnn_hidden_tan D H (X t0) (H0 t0) (WX t0) (WH t0) (B t0) X' H0' WX' WH' B' t n k))))).
  - apply (dlim_rsum N
      (fun n s => rsum T (fun t => rsum H (fun k =>
         data dh [n; t; k] * rnn_hidden D H (X s) (H0 s) (WX s) (WH s) (B s) t n k)))).
    intros n _.
    apply (dlim_rsum T
      (fun t s => rsum H (fun k =>
         data dh [n; t; k] * rnn_hidden D H (X s) (H0 s) (WX s) (WH s) (B s) t n k))).
    intros t _.
    apply (dlim_rsum H
      (fun k s => data dh [n; t; k] * rnn_hidden D H (X s) (H0 s) (WX s) (WH s) (B s) t n k)).
    intros k _. apply dlim_scal_l. apply rnn_hidden_dlim.
  - intros s. apply rnn_loss_value.
    + rewrite (proj1 HX). exact Hx.
    + rewrite (proj1 HH0). exact Hh0.
    + rewrite (proj1 HWX). exact HWx.
    + rewrite (proj1 HWH). exact HWh.
    + rewrite (proj1 HB). exact Hb.
  - destruct (rnn_forward_value N T D H _ _ _ _ _ Hx Hh0 HWx HWh Hb HT) as (h1 & Efw & Sh & Vh).
    rewrite Efw in Hfw. injection Hfw as <- <-.
    destruct (rnn_backward_value N T D H _ _ _ _ _ h1 dh X' H0' WX' WH' B'
                Hx Hh0 HWx HWh Hb Sh Hdh Vh HT)
      as (dx1 & dh1 & dWx1 & dWh1 & db1 & Ebw & _ & Eq).
    rewrite Ebw in Hbw. injection Hbw as <- <- <- <- <-.
    symmetry. exact Eq.
Qed.

End RnnDerivative.

Section RnnGradients.

Variables (N T D H : nat).
Variables x h0 Wx Wh b dh : ndarray.
Hypothesis Hx : shape x = [N; T; D].
Hypothesis Hh0 : shape h0 = [N; H].
Hypothesis HWx : shape Wx = [D; H].
Hypothesis HWh : shape Wh = [H; H].
Hypothesis Hb : shape b = [H].
Hypothesis HT : (1 <= T)%nat.
Hypothesis Hdh : shape dh = [N; T; H].
Variables h dx dh0' dWx dWh db : ndarray.
Variable cache : rnn_cache.
Hypothesis Hfw : rnn_forward x h0 Wx Wh b = Ok (h, cache).
Hypothesis Hbw : rnn_backward dh cache = Ok (dx, dh0', dWx, dWh, db).

Lemma rnn_backward_shapes :
  shape dx = shape x /\ shape dh0' = shape h0 /\ shape dWx = shape Wx /\
  shape dWh = shape Wh /\ shape db = shape b.
Proof.
  destruct (rnn_forward_value N T D H _ _ _ _ _ Hx Hh0 HWx HWh Hb HT) as (h1 & Efw & Sh & Vh).
  rewrite Efw in Hfw. injection Hfw as <- <-.
  destruct (rnn_backward_value N T D H _ _ _ _ _ h1 dh
              (fun _ => 0) (fun _ => 0) (fun _ => 0) (fun _ => 0) (fun _ => 0)
              Hx Hh0 HWx HWh Hb Sh Hdh Vh HT)
    as (dx1 & dh1 & dWx1 & dWh1 & db1 & Ebw & Hs & _).
  rewrite Ebw in Hbw. injection Hbw as <- <- <- <- <-.
  rewrite Hx, Hh0, HWx, HWh, Hb. exact Hs.
Qed.

Let loss := rnn_loss dh.

Ltac rnn_partial X H0 WX WH B X' H0' WX' WH' B' t0 :=
  eapply dlim_eq; [ | intros; unfold loss; reflexivity | ];
  [ eapply (rnn_loss_dlim N T D H X H0 WX WH B X' H0' WX' WH' B' t0);
    lazymatch goal with
    | |- tangent (set_entry _ _) _ _ => apply tangent_set_entry
    | |- tangent _ _ _ => apply tangent_const
    | |- shape _ = _ => cbn [shape set_entry]; assumption
    | |- (_ <= _)%nat => exact HT
    | |- rnn_forward _ _ _ _ _ = _ => cbn beta; rewrite ?set_entry_same; exact Hfw
    | |- rnn_backward _ _ = _ => exact Hbw
    end
  | rewrite !inner_zero, inner_indicator; [lra|] ].

Lemma rnn_gradient_x : gradient_at (fun x' => loss (rnn_forward x' h0 Wx Wh b)) x dx.
Proof.
  destruct rnn_backward_shapes as (S1 & S2 & S3 & S4 & S5).
  split; [exact S1|]. intros idx Hidx.
  rnn_partial (set_entry x idx) (fun _ : R => h0) (fun _ : R => Wx) (fun _ : R => Wh)
    (fun _ : R => b) (indicator idx) (fun _ : list nat => 0) (fun _ : list nat => 0)
    (fun _ : list nat => 0) (fun _ : list nat => 0) (data x idx).
  rewrite S1. exact Hidx.
Qed.

Lemma rnn_gradient_h0 : gradient_at (fun h' => loss (rnn_forward x h' Wx Wh b)) h0 dh0'.
Proof.
  destruct rnn_backward_shapes as (S1 & S2 & S3 & S4 & S5).
  split; [exact S2|]. intros idx Hidx.
  rnn_partial (fun _ : R => x) (set_entry h0 idx) (fun _ : R => Wx) (fun _ : R => Wh)
    (fun _ : R => b) (fun _ : list nat => 0) (indicator idx) (fun _ : list nat => 0)
    (fun _ : list nat => 0) (fun _ : list nat => 0) (data h0 idx).
  rewrite S2. exact Hidx.
Qed.

Lemma rnn_gradient_Wx : gradient_at (fun W' => loss (rnn_forward x h0 W' Wh b)) Wx dWx.
Proof.
  destruct rnn_backward_shapes as (S1 & S2 & S3 & S4 & S5).
  split; [exact S3|]. intros idx Hidx.
  rnn_partial (fun _ : R => x) (fun _ : R => h0) (set_entry Wx idx) (fun _ : R => Wh)
    (fun _ : R => b) (fun _ : list nat => 0) (fun _ : list nat => 0) (indicator idx)
    (fun _ : list nat => 0) (fun _ : list nat => 0) (data Wx idx).
  rewrite S3. exact Hidx.
Qed.

Lemma rnn_gradient_Wh : gradient_at (fun W' => loss (rnn_forward x h0 Wx W' b)) Wh dWh.
Proof.
  destruct rnn_backward_shapes as (S1 & S2 & S3 & S4 & S5).
  split; [exact S4|]. intros idx Hidx.
  rnn_partial (fun _ : R => x) (fun _ : R => h0) (fun _ : R => Wx) (set_entry Wh idx)
    (fun _ : R => b) (fun _ : list nat => 0) (fun _ : list nat => 0) (fun _ : list nat => 0)
    (indicator idx) (fun _ : list nat => 0) (data Wh idx).
  rewrite S4. exact Hidx.
Qed.

Lemma rnn_gradient_b : gradient_at (fun b' => loss (rnn_forward x h0 Wx Wh b')) b db.
Proof.
  destruct rnn_backward_shapes as (S1 & S2 & S3 & S4 & S5).
  split; [exact S5|]. intros idx Hidx.
  rnn_partial (fun _ : R => x) (fun _ : R => h0) (fun _ : R => Wx) (fun _ : R => Wh)
    (set_entry b idx) (fun _ : list nat => 0) (fun _ : list nat => 0) (fun _ : list nat => 0)
    (fun _ : list nat => 0) (indicator idx) (data b idx).
  rewrite S5. exact Hidx.
Qed.

End RnnGradients.

(** C3: for [x] of shape [(N, T, D)] with [T >= 1], [h0] of shape [(N, H)],
    [Wx] of shape [(D, H)], [Wh] of shape [(H, H)] and [b] of shape [(H,)],
    [rnn_forward] returns [h] of shape [(N, T, H)] with
    [h[:,0,:] = tanh(x[:,0,:].Wx + h0.Wh + b)] and
    [h[:,t,:] = tanh(x[:,t,:].Wx + h[:,t-1,:].Wh + b)] for [1 <= t < T]; for
    every [dh] of shape [(N, T, H)], [rnn_backward] applied to [dh] and the
    forward cache returns the gradients of [np.sum(dh * h)] with respect to
    [x], [h0], [Wx], [Wh] and [b]. *)
Theorem rnn_forward_backward_correct (N T D H : nat) (x h0 Wx Wh b : ndarray) :
  (1 <= T)%nat ->
  shape x = [N; T; D] -> shape h0 = [N; H] -> shape Wx = [D; H] -> shape Wh = [H; H] ->
  shape b = [H] ->
  exists h cache,
    rnn_forward x h0 Wx Wh b = Ok (h, cache) /\
    shape h = [N; T; H] /\
    (forall n k, (n < N)%nat -> (k < H)%nat ->
       data h [n; 0%nat; k] =
       tanh (rsum D (fun d => data x [n; 0%nat; d] * data Wx [d; k]) +
             rsum H (fun j => data h0 [n; j] * data Wh [j; k]) + data b [k])) /\
    (forall n t k, (n < N)%nat -> (1 <= t < T)%nat -> (k < H)%nat ->
       data h [n; t; k] =
       tanh (rsum D (fun d => data x [n; t; d] * data Wx [d; k]) +
             rsum H (fun j => data h [n; (t - 1)%nat; j] * data Wh [j; k]) + data b [k])) /\
    forall dh, shape dh = [N; T; H] ->
      exists dx dh0 dWx dWh db,
        rnn_backward dh cache = Ok (dx, dh0, dWx, dWh, db) /\
        let loss := rnn_loss dh in
        gradient_at (fun x' => loss (rnn_forward x' h0 Wx Wh b)) x dx /\
        gradient_at (fun h' => loss (rnn_forward x h' Wx Wh b)) h0 dh0 /\
        gradient_at (fun W' => loss (rnn_forward x h0 W' Wh b)) Wx dWx /\
        gradient_at (fun W' => loss (rnn_forward x h0 Wx W' b)) Wh dWh /\
        gradient_at (fun b' => loss (rnn_forward x h0 Wx Wh b')) b db.
Proof.
  intros HT Hx Hh0 HWx HWh Hb.
  destruct (rnn_forward_value N T D H x h0 Wx Wh b Hx Hh0 HWx HWh Hb HT) as (h & Hfw & Sh & Vh).
  exists h, (x, h, Wx, Wh, b, h0).
  split; [exact Hfw|]. split; [exact Sh|]. split; [|split].
  - intros n k Hn Hk. rewrite Vh by (assumption || lia). reflexivity.
  - intros n t k Hn Ht Hk. rewrite Vh by (assumption || lia).
    destruct t as [|t]; [lia|]. cbn [rnn_hidden]. f_equal. f_equal. f_equal.
    apply rsum_ext. intros j Hj. replace (S t - 1)%nat with t by lia.
    rewrite Vh by (assumption || lia). reflexivity.
  - intros dh Hdh.
    destruct (rnn_backward_value N T D H x h0 Wx Wh b h dh
                (fun _ => 0) (fun _ => 0) (fun _ => 0) (fun _ => 0) (fun _ => 0)
                Hx Hh0 HWx HWh Hb Sh Hdh Vh HT)
      as (dx & dh0' & dWx & dWh & db & Hbw & _).
    exists dx, dh0', dWx, dWh, db. split; [exact Hbw|]. cbn zeta.
    split; [|split; [|split; [|split]]].
    + apply (rnn_gradient_x N T D H x h0 Wx Wh b dh Hx Hh0 HWx HWh Hb HT Hdh
               h dx dh0' dWx dWh db _ Hfw Hbw).
    + apply (rnn_gradient_h0 N T D H x h0 Wx Wh b dh Hx Hh0 HWx HWh Hb HT Hdh
               h dx dh0' dWx dWh db _ Hfw Hbw).
    + apply (rnn_gradient_Wx N T D H x h0 Wx Wh b dh Hx Hh0 HWx HWh Hb HT Hdh
               h dx dh0' dWx dWh db _ Hfw Hbw).
    + apply (rnn_gradient_Wh N T D H x h0 Wx Wh b dh Hx Hh0 HWx HWh Hb HT Hdh
               h dx dh0' dWx dWh db _ Hfw Hbw).
    + apply (rnn_gradient_b N T D H x h0 Wx Wh b dh Hx Hh0 HWx HWh Hb HT Hdh
               h dx dh0' dWx dWh db _ Hfw Hbw).
Qed.

Definition rnn_x0 : ndarray :=
  {| shape := [1; 2; 1]%nat; data := fun idx => INR (nth 1 idx 0%nat) + 1 |}.
Definition rnn_h0 : ndarray := matrix_of 1 2 (fun _ k => INR k).
Definition rnn_Wx0 : ndarray := matrix_of 1 2 (fun _ k => 1 - INR k).
Definition rnn_Wh0 : ndarray := matrix_of 2 2 (fun j k => INR j * INR k).
Definition rnn_b0 : ndarray := {| shape := [2%nat]; data := fun _ => 0 |}.

Lemma rnn_forward_backward_correct_witness :
  exists h cache,
    rnn_forward rnn_x0 rnn_h0 rnn_Wx0 rnn_Wh0 rnn_b0 = Ok (h, cache) /\
    shape h = [1; 2; 2]%nat /\
    forall dh, shape dh = [1; 2; 2]%nat ->
      exists dx dh0 dWx dWh db,
        rnn_backward dh cache = Ok (dx, dh0, dWx, dWh, db) /\
        gradient_at
          (fun W' => rnn_loss dh (rnn_forward rnn_x0 rnn_h0 rnn_Wx0 W' rnn_b0)) rnn_Wh0 dWh.
Proof.
  destruct (rnn_forward_backward_correct 1 2 1 2 rnn_x0 rnn_h0 rnn_Wx0 rnn_Wh0 rnn_b0)
    as (h & cache & Hfw & Sh & _ & _ & Hbw);
    [lia | reflexivity | reflexivity | reflexivity | reflexivity | reflexivity |].
  exists h, cache. split; [exact Hfw|]. split; [exact Sh|].
  intros dh Hdh. destruct (Hbw dh Hdh) as (dx & dh0 & dWx & dWh & db & E & _ & _ & _ & G & _).
  exists dx, dh0, dWx, dWh, db. split; [exact E|exact G].
Defined.

(** ** Max pooling *)

Definition pool_cache : Type := (ndarray * nat)%type.

Definition max_pool_forward_naive (x : ndarray) (pool_param : nat) : Py (ndarray * pool_cache) :=
  let N := dim x 0 in let C := dim x 1 in let H := dim x 2 in let W := dim x 3 in
  let! h := getitem_int pool_param "pool_height" in
  let! w := getitem_int pool_param "pool_width" in
  let! stride := getitem_int pool_param "stride" in
  let! qh := lift (truediv (Z.of_nat H - h) stride) in
  let HH := int_of (qh + 1)%Q in
  let! qw := lift (truediv (Z.of_nat W - w) stride) in
  let WW := int_of (qw + 1)%Q in
  let! out := lift (np_zeros [Z.of_nat N; Z.of_nat C; HH; WW]) in
  let! out := lift (
    for_range_res (Z.to_nat HH) (fun i out =>
      for_range_res (Z.to_nat WW) (fun j out =>
        let* m :=
          np_max (getitem x [IAll; IAll;
                             ISlice (stride * Z.of_nat i) (stride * Z.of_nat i + h);
                             ISlice (stride * Z.of_nat j) (stride * Z.of_nat j + w)])
                 [2; 3]%nat false in
        Ok (setitem out [IAll; IAll; IInt (Z.of_nat i); IInt (Z.of_nat j)] m)) out) out) in
  let cache := (x, pool_param) in
  py_ret (out, cache).

Definition max_pool_backward_naive (dout : ndarray) (cache : pool_cache) : Py ndarray :=
  let '(x, pool_param) := cache in
  let H := dim x 2 in let W := dim x 3 in
  let! h := getitem_int pool_param "pool_height" in
  let! w := getitem_int pool_param "pool_width" in
  let! stride := getitem_int pool_param "stride" in
  let! qh := lift (truediv (Z.of_nat H - h) stride) in
  let HH := int_of (qh + 1)%Q in
  let! qw := lift (truediv (Z.of_nat W - w) stride) in
  let WW := int_of (qw + 1)%Q in
  let dx := zeros_like x in
  let x_zero := zeros_like x in
  let! dx := lift (
    for_range_res (Z.to_nat HH) (fun i dx =>
      for_range_res (Z.to_nat WW) (fun j dx =>
        let rows := ISlice (stride * Z.of_nat i) (stride * Z.of_nat i + h) in
        let cols := ISlice (stride * Z.of_nat j) (stride * Z.of_nat j + w) in
        let a := getitem x [IAll; IAll; rows; cols] in
        let* m := np_max a [2; 3]%nat true in
        Ok (additem dx [IAll; IAll; rows; cols]
              (mul (equal a m)
                   (getitem dout [IAll; IAll;
                                  ISlice (Z.of_nat i) (Z.of_nat i + 1);
                                  ISlice (Z.of_nat j) (Z.of_nat j + 1)])))) dx) dx) in
  py_ret dx.

(** ** Accumulating loops *)

Lemma accumulate_inner (sh : list nat) (body : nat -> ndarray -> res ndarray)
      (c : nat -> list nat -> R) (n : nat) :
  (forall j a, (j < n)%nat -> shape a = sh ->
     exists a', body j a = Ok a' /\ shape a' = sh /\
       forall idx, in_bounds sh idx -> data a' idx = data a idx + c j idx) ->
  forall a, shape a = sh ->
    exists a', for_range_res n body a = Ok a' /\ shape a' = sh /\
      forall idx, in_bounds sh idx -> data a' idx = data a idx + rsum n (fun j => c j idx).
Proof.
  intros Hbody a Ha. induction n as [|n IH].
  - exists a. split; [reflexivity|]. split; [exact Ha|]. intros idx _. cbn [rsum]. lra.
  - destruct IH as (a1 & E1 & S1 & V1); [intros; apply Hbody; lia || assumption|].
    destruct (Hbody n a1) as (a2 & E2 & S2 & V2); [lia|exact S1|].
    exists a2. cbn [for_range_res]. rewrite E1. cbn [res_bind].
    split; [exact E2|]. split; [exact S2|].
    intros idx Hidx. rewrite V2, V1 by exact Hidx. cbn [rsum]. lra.
Qed.

Lemma accumulate_nested (sh : list nat) (body : nat -> nat -> ndarray -> res ndarray)
      (c : nat -> nat -> list nat -> R) (n1 n2 : nat) :
  (forall i j a, (i < n1)%nat -> (j < n2)%nat -> shape a = sh ->
     exists a', body i j a = Ok a' /\ shape a' = sh /\
       forall idx, in_bounds sh idx -> data a' idx = data a idx + c i j idx) ->
  forall a, shape a = sh ->
    exists a', for_range_res n1 (fun i a => for_range_res n2 (body i) a) a = Ok a' /\
      shape a' = sh /\
      forall idx, in_bounds sh idx ->
        data a' idx = data a idx + rsum n1 (fun i => rsum n2 (fun j => c i j idx)).
Proof.
  intros Hbody.
  apply (accumulate_inner sh (fun i a => for_range_res n2 (body i) a)
           (fun i idx => rsum n2 (fun j => c i j idx)) n1).
  intros i a Hi Ha.
  apply (accumulate_inner sh (body i) (c i) n2); [|exact Ha].
  intros j a0 Hj Ha0. apply Hbody; assumption.
Qed.

Lemma in_bounds_4 (d0 d1 d2 d3 : nat) (idx : list nat) :
  in_bounds [d0; d1; d2; d3] idx ->
  exists n c y z, idx = [n; c; y; z] /\ (n < d0)%nat /\ (c < d1)%nat /\ (y < d2)%nat /\ (z < d3)%nat.
Proof.
  intros Hb. unfold in_bounds in Hb.
  inversion Hb as [|n ? r0 ? Hn H0]; subst.
  inversion H0 as [|c ? r1 ? Hc H1]; subst.
  inversion H1 as [|y ? r2 ? Hy H2]; subst.
  inversion H2 as [|z ? r3 ? Hz H3]; subst.
  inversion H3; subst.
  exists n, c, y, z. repeat split; assumption.
Qed.

(** ** The backward pass of max pooling, window by window *)

Section PoolBackward.

Variables (N C H W h w S HH WW : nat).
Variables x dout : ndarray.

(** The maximum of the window [(i, j)] of the image [(n, c)]. *)
Definition window_max (n c i j : nat) : R :=
  rmax h (fun p => rmax w (fun q => data x [n; c; (S * i + p)%nat; (S * j + q)%nat])).

(** 1 where the entry [(p, q)] of the window equals its maximum, else 0. *)
Definition is_window_max (n c i j p q : nat) : R :=
  if Req_dec_T (data x [n; c; (S * i + p)%nat; (S * j + q)%nat]) (window_max n c i j)
  then 1 else 0.

(** What the window [(i, j)] adds to [dx[n, c, y, z]]. *)
Definition pool_contribution (i j : nat) (idx : list nat) : R :=
  let n := nth 0 idx 0%nat in
  let c := nth 1 idx 0%nat in
  let y := nth 2 idx 0%nat in
  let z := nth 3 idx 0%nat in
  if ((S * i <=? y) && (y <? S * i + h) && ((S * j <=? z) && (z <? S * j + w)))%nat
  then is_window_max n c i j (y - S * i) (z - S * j) * data dout [n; c; i; j]
  else 0.

Hypothesis Hx : shape x = [N; C; H; W].
Hypothesis Hd : shape dout = [N; C; HH; WW].
Hypothesis Hh : (1 <= h)%nat.
Hypothesis Hw : (1 <= w)%nat.
Hypothesis Hrows : forall i, (i < HH)%nat -> (S * i + h <= H)%nat.
Hypothesis Hcols : forall j, (j < WW)%nat -> (S * j + w <= W)%nat.

Let body := fun (i j : nat) (dx : ndarray) =>
  let rows := ISlice (Z.of_nat S * Z.of_nat i) (Z.of_nat S * Z.of_nat i + Z.of_nat h) in
  let cols := ISlice (Z.of_nat S * Z.of_nat j) (Z.of_nat S * Z.of_nat j + Z.of_nat w) in
  let a := getitem x [IAll; IAll; rows; cols] in
  let* m := np_max a [2; 3]%nat true in
  Ok (additem dx [IAll; IAll; rows; cols]
        (mul (equal a m)
             (getitem dout [IAll; IAll;
                            ISlice (Z.of_nat i) (Z.of_nat i + 1);
                            ISlice (Z.of_nat j) (Z.of_nat j + 1)]))).

Lemma window_value (arr : ndarray) (i j : nat) :
  shape arr = [N; C; H; W] -> (S * i + h <= H)%nat -> (S * j + w <= W)%nat ->
  let a := getitem arr [IAll; IAll;
                        ISlice (Z.of_nat (S * i)) (Z.of_nat (S * i + h));
                        ISlice (Z.of_nat (S * j)) (Z.of_nat (S * j + w))] in
  shape a = [N; C; h; w] /\
  forall n c p q, data a [n; c; p; q] = data arr [n; c; (S * i + p)%nat; (S * j + q)%nat].
Proof.
  intros Harr Hr Hc. cbn zeta. unfold getitem. cbn [shape data]. rewrite Harr.
  cbn [index_shape index_source hd tl]. rewrite !clip_of_nat by lia. split.
  - replace (S * i + h - S * i)%nat with h by lia.
    replace (S * j + w - S * j)%nat with w by lia. reflexivity.
  - reflexivity.
Qed.

Lemma dout_entry_value (i j : nat) :
  (i < HH)%nat -> (j < WW)%nat ->
  let d := getitem dout [IAll; IAll; ISlice (Z.of_nat i) (Z.of_nat (i + 1));
                         ISlice (Z.of_nat j) (Z.of_nat (j + 1))] in
  shape d = [N; C; 1; 1]%nat /\
  forall n c, data d [n; c; 0; 0]%nat = data dout [n; c; i; j].
Proof.
  intros Hi Hj. cbn zeta. unfold getitem. cbn [shape data]. rewrite Hd.
  cbn [index_shape index_source hd tl]. rewrite !clip_of_nat by lia. split.
  - replace (i + 1 - i)%nat with 1%nat by lia.
    replace (j + 1 - j)%nat with 1%nat by lia. reflexivity.
  - intros n c. rewrite !Nat.add_0_r. reflexivity.
Qed.

Lemma np_max_window (a : ndarray) :
  shape a = [N; C; h; w] ->
  exists m, np_max a [2; 3]%nat true = Ok m /\ shape m = [N; C; 1; 1]%nat /\
    forall n c, data m [n; c; 0; 0]%nat =
                rmax h (fun p => rmax w (fun q => data a [n; c; p; q])).
Proof.
  intros Ha. unfold np_max. rewrite Ha.
  cbn [length axis_mask seq map existsb Nat.eqb orb pick Bool.eqb].
  destruct h as [|h']; [lia|]. destruct w as [|w']; [lia|].
  cbn [Nat.eqb orb]. eexists. split; [reflexivity|]. split; [reflexivity|].
  intros n c. cbn [data pick Bool.eqb max_over merge_index hd tl]. reflexivity.
Qed.

Lemma pool_body_value (i j : nat) (dx : ndarray) :
  (i < HH)%nat -> (j < WW)%nat -> shape dx = [N; C; H; W] ->
  exists dx', body i j dx = Ok dx' /\ shape dx' = [N; C; H; W] /\
    forall idx, in_bounds [N; C; H; W] idx ->
      data dx' idx = data dx idx + pool_contribution i j idx.
Proof.
  intros Hi Hj Hs. unfold body. cbn zeta.
  replace (Z.of_nat S * Z.of_nat i)%Z with (Z.of_nat (S * i)) by lia.
  replace (Z.of_nat S * Z.of_nat j)%Z with (Z.of_nat (S * j)) by lia.
  replace (Z.of_nat (S * i) + Z.of_nat h)%Z with (Z.of_nat (S * i + h)) by lia.
  replace (Z.of_nat (S * j) + Z.of_nat w)%Z with (Z.of_nat (S * j + w)) by lia.
  replace (Z.of_nat i + 1)%Z with (Z.of_nat (i + 1)) by lia.
  replace (Z.of_nat j + 1)%Z with (Z.of_nat (j + 1)) by lia.
  pose proof (Hrows i Hi) as Hr. pose proof (Hcols j Hj) as Hc.
  destruct (window_value x i j Hx Hr Hc) as [Sa Va]. cbn zeta in Sa, Va.
  set (a := getitem x [IAll; IAll; ISlice (Z.of_nat (S * i)) (Z.of_nat (S * i + h));
                       ISlice (Z.of_nat (S * j)) (Z.of_nat (S * j + w))]) in *.
  destruct (np_max_window a Sa) as (m & Em & Sm & Vm).
  rewrite Em. cbn [res_bind]. eexists. split; [reflexivity|]. split; [exact Hs|].
  destruct (window_value dx i j Hs Hr Hc) as [Sw Vw]. cbn zeta in Sw, Vw.
  destruct (dout_entry_value i j Hi Hj) as [Se Ve]. cbn zeta in Se, Ve.
  intros idx Hidx.
  destruct (in_bounds_4 _ _ _ _ _ Hidx) as (n & c & y & z & -> & Hn & Hcc & Hy & Hz).
  unfold pool_contribution. cbn [nth]. cbn zeta.
  unfold additem, setitem. cbn [data]. rewrite Hs.
  cbn [index_target]. rewrite !clip_of_nat by lia.
  set (dw := getitem dx [IAll; IAll; ISlice (Z.of_nat (S * i)) (Z.of_nat (S * i + h));
                         ISlice (Z.of_nat (S * j)) (Z.of_nat (S * j + w))]) in *.
  set (de := getitem dout [IAll; IAll; ISlice (Z.of_nat i) (Z.of_nat (i + 1));
                           ISlice (Z.of_nat j) (Z.of_nat (j + 1))]) in *.
  destruct (Nat.leb_spec (S * i) y), (Nat.ltb_spec y (S * i + h));
    cbn [andb option_map]; try lra.
  destruct (Nat.leb_spec (S * j) z), (Nat.ltb_spec z (S * j + w));
    cbn [andb option_map]; try lra.
  unfold add, mul, equal, map2. cbn [shape data]. rewrite Sw, Sa, Sm, Se.
  np_unfold. rewrite !bdim_1_r, !bdim_diag. np_unfold. bidx_simpl.
  rewrite Vw, Va, Vm, Ve.
  replace (S * i + (y - S * i))%nat with y by lia.
  replace (S * j + (z - S * j))%nat with z by lia.
  unfold is_window_max, window_max.
  replace (S * i + (y - S * i))%nat with y by lia.
  replace (S * j + (z - S * j))%nat with z by lia.
  assert (E : (fun p => rmax w (fun q => data a [n; c; p; q])) =
              (fun p => rmax w (fun q => data x [n; c; (S * i + p)%nat; (S * j + q)%nat]))).
  { apply functional_extensionality. intros p. f_equal.
    apply functional_extensionality. intros q. apply Va. }
  rewrite E. reflexivity.
Qed.

Lemma pool_loop_value :
  exists dx,
    for_range_res HH (fun i dx => for_range_res WW (fun j dx => body i j dx) dx)
      (zeros_like x) = Ok dx /\
    shape dx = [N; C; H; W] /\
    forall n c y z, (n < N)%nat -> (c < C)%nat -> (y < H)%nat -> (z < W)%nat ->
      data dx [n; c; y; z] =
      rsum HH (fun i => rsum WW (fun j => pool_contribution i j [n; c; y; z])).
Proof.
  destruct (accumulate_nested [N; C; H; W] body pool_contribution HH WW) with (a := zeros_like x)
    as (dx & E & Sdx & Vdx).
  - intros i j a Hi Hj Ha. apply pool_body_value; assumption.
  - unfold zeros_like. cbn [shape zeros]. exact Hx.
  - exists dx. split; [exact E|]. split; [exact Sdx|].
    intros n c y z Hn Hc Hy Hz. rewrite Vdx.
    + unfold zeros_like, zeros. cbn [data]. lra.
    + repeat constructor; assumption.
Qed.

End PoolBackward.

(** ** Ties in a window *)

Fixpoint nsum (n : nat) (f : nat -> nat) : nat :=
  match n with
  | O => 0%nat
  | Datatypes.S k => (nsum k f + f k)%nat
  end.

Lemma rsum_INR (n : nat) (f : nat -> nat) : rsum n (fun k => INR (f k)) = INR (nsum n f).
Proof.
  induction n as [|n IH]; [reflexivity|]. cbn [rsum nsum]. rewrite IH, plus_INR. reflexivity.
Qed.

Lemma nsum_pos (n : nat) (f : nat -> nat) (k : nat) :
  (k < n)%nat -> (1 <= f k)%nat -> (1 <= nsum n f)%nat.
Proof.
  induction n as [|n IH]; intros Hk Hf; [lia|]. cbn [nsum].
  destruct (Nat.eq_dec k n) as [->|Hne]; [lia|].
  assert (1 <= nsum n f)%nat by (apply IH; lia). lia.
Qed.

Lemma rmax_attained (n : nat) (f : nat -> R) :
  (1 <= n)%nat -> exists k, (k < n)%nat /\ f k = rmax n f.
Proof.
  intros Hn. induction n as [|n IH]; [lia|].
  destruct n as [|n'].
  - exists 0%nat. split; [lia|reflexivity].
  - destruct IH as (k & Hk & Ek); [lia|].
    change (rmax (Datatypes.S (Datatypes.S n')) f)
      with (Rmax (rmax (Datatypes.S n') f) (f (Datatypes.S n'))).
    unfold Rmax. destruct (Rle_dec (rmax (Datatypes.S n') f) (f (Datatypes.S n'))).
    + exists (Datatypes.S n'). split; [lia|reflexivity].
    + exists k. split; [lia|exact Ek].
Qed.

(** The number of entries of the window [(i, j)] that equal its maximum. *)
Definition count_window_max (h w S : nat) (x : ndarray) (n c i j : nat) : nat :=
  nsum h (fun p => nsum w (fun q =>
    if Req_dec_T (data x [n; c; (S * i + p)%nat; (S * j + q)%nat]) (window_max h w S x n c i j)
    then 1%nat else 0%nat)).

Section Ties.

Variables (h w S : nat) (x dout : ndarray).
Hypothesis Hh : (1 <= h)%nat.
Hypothesis Hw : (1 <= w)%nat.

Lemma pool_contribution_in_window (n c i j p q : nat) :
  (p < h)%nat -> (q < w)%nat ->
  pool_contribution h w S x dout i j [n; c; (S * i + p)%nat; (S * j + q)%nat] =
  is_window_max h w S x n c i j p q * data dout [n; c; i; j].
Proof.
  intros Hp Hq. unfold pool_contribution. cbn [nth]. cbn zeta.
  destruct (Nat.leb_spec (S * i) (S * i + p)); [|lia].
  destruct (Nat.ltb_spec (S * i + p) (S * i + h)); [|lia].
  destruct (Nat.leb_spec (S * j) (S * j + q)); [|lia].
  destruct (Nat.ltb_spec (S * j + q) (S * j + w)); [|lia].
  cbn [andb].
  replace (S * i + p - S * i)%nat with p by lia.
  replace (S * j + q - S * j)%nat with q by lia. reflexivity.
Qed.

Lemma count_window_max_pos (n c i j : nat) : (1 <= count_window_max h w S x n c i j)%nat.
Proof.
  unfold count_window_max.
  destruct (rmax_attained h (fun p =>
              rmax w (fun q => data x [n; c; (S * i + p)%nat; (S * j + q)%nat])) Hh)
    as (p & Hp & Ep).
  destruct (rmax_attained w (fun q => data x [n; c; (S * i + p)%nat; (S * j + q)%nat]) Hw)
    as (q & Hq & Eq).
  apply (nsum_pos h _ p Hp). apply (nsum_pos w _ q Hq).
  unfold window_max. rewrite <- Ep, <- Eq.
  destruct (Req_dec_T _ _) as [_|Hne]; [lia|]. exfalso. apply Hne. reflexivity.
Qed.

Lemma window_total (n c i j : nat) :
  rsum h (fun p => rsum w (fun q =>
    pool_contribution h w S x dout i j [n; c; (S * i + p)%nat; (S * j + q)%nat])) =
  INR (count_window_max h w S x n c i j) * data dout [n; c; i; j].
Proof.
  unfold count_window_max. rewrite <- rsum_INR, <- rsum_scal_r.
  apply rsum_ext. intros p Hp. rewrite <- rsum_INR, <- rsum_scal_r.
  apply rsum_ext. intros q Hq. rewrite pool_contribution_in_window by assumption.
  unfold is_window_max. destruct (Req_dec_T _ _); simpl; lra.
Qed.

End Ties.

(** [int(a / b + 1)] for [a >= 0] and [b > 0]. *)
Lemma int_of_div_succ (a b : Z) :
  (0 <= a)%Z -> (0 < b)%Z -> int_of (Qplus (Qmake a (Z.to_pos b)) 1) = (a / b + 1)%Z.
Proof.
  intros Ha Hb. unfold int_of, Qplus. cbn [Qnum Qden].
  rewrite Pos.mul_1_r, Z.mul_1_r, Z.mul_1_l, Z2Pos.id by exact Hb.
  rewrite Z.quot_div_nonneg by lia.
  replace (a + b)%Z with (a + 1 * b)%Z by lia.
  rewrite Z.div_add by lia. reflexivity.
Qed.

Lemma pool_rows_fit (H h S i : nat) :
  (h <= H)%nat -> (1 <= S)%nat -> (i < (H - h) / S + 1)%nat -> (S * i + h <= H)%nat.
Proof.
  intros Hh HS Hi.
  assert (i <= (H - h) / S)%nat by lia.
  pose proof (Nat.Div0.mul_div_le (H - h) S).
  assert (S * i <= S * ((H - h) / S))%nat by (apply Nat.mul_le_mono_l; assumption).
  lia.
Qed.

(** C10: [max_pool_backward_naive] gives the upstream gradient to every
    entry that ties for the maximum of a pooling window.  The call returns
    [dx] with [dx[n, c, y, z]] the sum, over the windows [(i, j)], of what the
    window contributes to that position; a window contributes
    [dout[n, c, i, j]] to each of its [k >= 1] entries equal to its maximum
    and nothing to the others, so it routes [k * dout[n, c, i, j]] in
    total. *)
Theorem max_pool_backward_naive_ties
    (N C H W h w S : nat) (x dout : ndarray) (pool_param : nat) (st : store)
    (pp : gmap string pyval) :
  dicts st !! pool_param = Some pp ->
  pp !! "pool_height" = Some (PInt (Z.of_nat h)) ->
  pp !! "pool_width" = Some (PInt (Z.of_nat w)) ->
  pp !! "stride" = Some (PInt (Z.of_nat S)) ->
  shape x = [N; C; H; W] ->
  (1 <= h <= H)%nat -> (1 <= w <= W)%nat -> (1 <= S)%nat ->
  let HH := ((H - h) / S + 1)%nat in
  let WW := ((W - w) / S + 1)%nat in
  shape dout = [N; C; HH; WW] ->
  exists dx,
    max_pool_backward_naive dout (x, pool_param) st = (Ok dx, st) /\
    shape dx = [N; C; H; W] /\
    (forall n c y z, (n < N)%nat -> (c < C)%nat -> (y < H)%nat -> (z < W)%nat ->
       data dx [n; c; y; z] =
       rsum HH (fun i => rsum WW (fun j => pool_contribution h w S x dout i j [n; c; y; z]))) /\
    forall n c i j, (n < N)%nat -> (c < C)%nat -> (i < HH)%nat -> (j < WW)%nat ->
      let k := count_window_max h w S x n c i j in
      (1 <= k)%nat /\
      (forall p q, (p < h)%nat -> (q < w)%nat ->
         pool_contribution h w S x dout i j [n; c; (S * i + p)%nat; (S * j + q)%nat] =
         if Req_dec_T (data x [n; c; (S * i + p)%nat; (S * j + q)%nat])
                      (window_max h w S x n c i j)
         then data dout [n; c; i; j] else 0) /\
      rsum h (fun p => rsum w (fun q =>
        pool_contribution h w S x dout i j [n; c; (S * i + p)%nat; (S * j + q)%nat])) =
      INR k * data dout [n; c; i; j].
Proof.
  intros Hpp Hph Hpw Hps Hx Hh Hw HS HH WW Hd.
  destruct (pool_loop_value N C H W h w S HH WW x dout Hx Hd) as (dx & E & Sdx & Vdx);
    try lia.
  - intros i Hi. apply pool_rows_fit; lia.
  - intros j Hj. apply pool_rows_fit; lia.
  - exists dx. split; [|split; [exact Sdx|split; [exact Vdx|]]].
    + unfold max_pool_backward_naive.
      unfold py_bind at 1. rewrite (getitem_int_value st pool_param pp "pool_height" _ Hpp Hph).
      unfold py_bind at 1. rewrite (getitem_int_value st pool_param pp "pool_width" _ Hpp Hpw).
      unfold py_bind at 1. rewrite (getitem_int_value st pool_param pp "stride" _ Hpp Hps).
      unfold dim. rewrite Hx. cbn [nth].
      rewrite !truediv_pos by lia. py_step. py_step.
      rewrite !int_of_div_succ by lia.
      replace (Z.to_nat ((Z.of_nat H - Z.of_nat h) / Z.of_nat S + 1)) with HH.
      2:{ unfold HH. rewrite <- Nat2Z.inj_sub, <- Nat2Z.inj_div by lia. lia. }
      replace (Z.to_nat ((Z.of_nat W - Z.of_nat w) / Z.of_nat S + 1)) with WW.
      2:{ unfold WW. rewrite <- Nat2Z.inj_sub, <- Nat2Z.inj_div by lia. lia. }
      cbn zeta in E. rewrite E. py_step. reflexivity.
    + intros n c i j Hn Hc Hi Hj. cbn zeta. split; [|split].
      * apply count_window_max_pos; lia.
      * intros p q Hp Hq. rewrite pool_contribution_in_window by (assumption || lia).
        unfold is_window_max. destruct (Req_dec_T _ _); lra.
      * apply window_total; lia.
Qed.

Definition pool_x0 : ndarray := {| shape := [1; 1; 2; 2]%nat; data := fun _ => 1 |}.
Definition pool_dout0 : ndarray := {| shape := [1; 1; 1; 1]%nat; data := fun _ => 3 |}.
Definition pool_param0 : gmap string pyval :=
  <["pool_height" := PInt 2]> (<["pool_width" := PInt 2]> (<["stride" := PInt 2]> ∅)).
Definition pool_store0 : store := {| dicts := <[0%nat := pool_param0]> ∅; rng := 0 |}.

Lemma max_pool_backward_naive_ties_witness :
  exists dx,
    max_pool_backward_naive pool_dout0 (pool_x0, 0%nat) pool_store0 = (Ok dx, pool_store0) /\
    shape dx = [1; 1; 2; 2]%nat /\
    rsum 2 (fun p => rsum 2 (fun q =>
      pool_contribution 2 2 2 pool_x0 pool_dout0 0 0 [0; 0; (2 * 0 + p); (2 * 0 + q)]%nat)) =
    INR (count_window_max 2 2 2 pool_x0 0 0 0 0) * data pool_dout0 [0; 0; 0; 0]%nat.
Proof.
  destruct (max_pool_backward_naive_ties 1 1 2 2 2 2 2 pool_x0 pool_dout0 0 pool_store0
              pool_param0)
    as (dx & E & Sdx & _ & Hw);
    [reflexivity | reflexivity | reflexivity | reflexivity | reflexivity
    | lia | lia | lia | reflexivity |].
  exists dx. split; [exact E|]. split; [exact Sdx|].
  destruct (Hw 0%nat 0%nat 0%nat 0%nat) as (_ & _ & Ht); [lia | lia | simpl; lia | simpl; lia |].
  exact Ht.
Defined.

(** ** Batch normalisation *)

(** [N, D = a.shape] *)
Definition shape2 (a : ndarray) : res (nat * nat) :=
  match shape a with
  | [n; d] => Ok (n, d)
  | _ => Raise (ValueError "wrong number of values to unpack")
  end.

(** The cache of [batchnorm_forward] is a new dictionary. *)
Definition bn_cache : Type := gmap string pyval.

(** The last branch builds its message with ['... "%s"' % mode] before it
    raises.  The formatting succeeds when the mode is [None], a boolean, a
    number or a string, and the message is kept here without the mode.  A
    tuple, for which the formatting raises [TypeError] unless it has one
    element, is not a value of [pyval]: the statements about this branch
    are for the modes of [scalar_mode] below. *)

Definition batchnorm_forward (x gamma beta : ndarray) (bn_param : nat)
  : Py (ndarray * bn_cache) :=
  let! mode := dict_getitem bn_param "mode" in
  let! eps := dict_get bn_param "eps" (PFloat (1 / 100000)) in
  let! momentum := dict_get bn_param "momentum" (PFloat (9 / 10)) in
  let! nd := lift (shape2 x) in
  let '(N, D) := nd in
  let! running_mean := dict_get bn_param "running_mean" (PArr (zeros [D])) in
  let! running_var := dict_get bn_param "running_var" (PArr (zeros [D])) in
  let! r :=
    if eq_str mode "train" then
      let mean := np_mean x [0%nat] in
      let std := np_std x [0%nat] in
      let! m := lift (as_array momentum) in
      let! rm := lift (as_array running_mean) in
      let running_mean := add (mul m rm) (mul (sub (scalar 1) m) mean) in
      let! rv := lift (as_array running_var) in
      let running_var := add (mul m rv) (mul (sub (scalar 1) m) (square std)) in
      let! e := lift (as_array eps) in
      let std := np_sqrt (add (square std) e) in
      let! g := lift (reshape gamma [1; -1]%Z) in
      let! b := lift (reshape beta [1; -1]%Z) in
      let out := add (div (mul g (sub x mean)) std) b in
      py_ret (out, PArr mean, PArr std, PArr running_mean, PArr running_var)
    else if eq_str mode "test" then
      let! rm := lift (as_array running_mean) in
      let! rv := lift (as_array running_var) in
      let! e := lift (as_array eps) in
      let out := add (div (mul gamma (sub x rm)) (np_sqrt (add rv e))) beta in
      py_ret (out, PNone, PNone, running_mean, running_var)
    else py_raise (ValueError "Invalid forward batchnorm mode") in
  let '(out, mean, std, running_mean, running_var) := r in
  let! _ := dict_setitem bn_param "running_mean" running_mean in
  let! _ := dict_setitem bn_param "running_var" running_var in
  let cache : bn_cache :=
    <["x" := PArr x]> (<["std" := std]> (<["mean" := mean]>
      (<["beta" := PArr beta]> (<["gamma" := PArr gamma]> ∅)))) in
  py_ret (out, cache).

(** The alternative backward pass is left unimplemented in the source. *)
Definition batchnorm_backward_alt (dout : ndarray) (cache : bn_cache)
  : pyval * pyval * pyval :=
  let '(dx, dgamma, dbeta) := (PNone, PNone, PNone) in
  (dx, dgamma, dbeta).

Definition spatial_batchnorm_forward (x gamma beta : ndarray) (bn_param : nat)
  : Py (ndarray * bn_cache) :=
  let N := dim x 0 in let C := dim x 1 in let H := dim x 2 in let W := dim x 3 in
  let! x1 := lift (reshape (transpose_axes x [0; 2; 3; 1]%nat) [-1; Z.of_nat C]%Z) in
  let! r := batchnorm_forward x1 gamma beta bn_param in
  let '(out, cache) := r in
  let! out := lift (reshape out [Z.of_nat N; Z.of_nat H; Z.of_nat W; Z.of_nat C]) in
  let out := transpose_axes out [0; 3; 1; 2]%nat in
  py_ret (out, cache).

(** ** Dropout *)

Definition dropout_cache : Type := (nat * option ndarray)%type.

Section Dropout.

Variable G : generator.

Definition dropout_forward (x : ndarray) (dropout_param : nat) : Py (ndarray * dropout_cache) :=
  let! p := dict_getitem dropout_param "p" in
  let! mode := dict_getitem dropout_param "mode" in
  let! seeded := dict_contains dropout_param "seed" in
  let! _ :=
    if seeded then
      let! s := dict_getitem dropout_param "seed" in np_random_seed G s
    else py_ret tt in
  if eq_str mode "train" then
    let! r := random_rand G (shape x) in
    let! p := lift (as_float p) in
    let mask := div (greater r p) (scalar (1 - p)) in
    let out := mul x mask in
    let cache := (dropout_param, Some mask) in
    py_ret (out, cache)
  else if eq_str mode "test" then
    py_ret (x, (dropout_param, None))
  else
    py_raise (AttributeError "'NoneType' object has no attribute 'astype'").

End Dropout.

Definition dropout_backward (dout : ndarray) (cache : dropout_cache) : Py (option ndarray) :=
  let '(dropout_param, mask) := cache in
  let! mode := dict_getitem dropout_param "mode" in
  if eq_str mode "train" then
    match mask with
    | Some m => py_ret (Some (mul dout m))
    | None => py_raise (TypeError "unsupported operand type")
    end
  else if eq_str mode "test" then py_ret (Some dout)
  else py_ret None.

(** ** The three-layer convolutional network *)

(** NumPy types of the parameters: conversion to an integer type truncates
    towards zero. *)
Inductive dtype : Type := float32 | float64 | int64.

Definition trunc (r : R) : R :=
  if Rle_dec 0 r then IZR (Int_part r) else - IZR (Int_part (- r)).

Definition astype (d : dtype) (a : ndarray) : ndarray :=
  match d with
  | int64 => map1 trunc a
  | _ => a
  end.

Record ThreeLayerConvNet : Type := {
  params : gmap string ndarray;
  reg : R;
  net_dtype : dtype
}.

Section Init.

Variable G : generator.

Definition ThreeLayerConvNet_init (input_dim : Z * Z * Z) (num_filters filter_size : Z)
    (hidden_dim num_classes : pyval) (weight_scale reg : R) (dt : dtype)
  : Py ThreeLayerConvNet :=
  let params : gmap string ndarray := ∅ in
  let '(C, H, W) := input_dim in
  let F := num_filters in
  let HH := filter_size in
  let hdn := 100%Z in
  let cls := 10%Z in
  let! W1 := np_random_randn G [F; C; HH; HH] in
  let params := <["W1" := mul W1 (scalar weight_scale)]> params in
  let! b1 := lift (np_zeros [F]) in
  let params := <["b1" := b1]> params in
  let! q := lift (truediv H 2) in
  let! W2 := np_random_randn G [(F * int_of q ^ 2)%Z; hdn] in
  let params := <["W2" := mul W2 (scalar weight_scale)]> params in
  let! b2 := lift (np_zeros [hdn]) in
  let params := <["b2" := b2]> params in
  let! W3 := np_random_randn G [hdn; cls] in
  let params := <["W3" := mul W3 (scalar weight_scale)]> params in
  let! b3 := lift (np_zeros [cls]) in
  let params := <["b3" := b3]> params in
  let params := astype dt <$> params in
  py_ret {| params := params; reg := reg; net_dtype := dt |}.

(** The initialisation the docstring describes, with the sizes of the hidden
    layer and of the output taken from [hidden_dim] and [num_classes]. *)
Definition ThreeLayerConvNet_init_documented (input_dim : Z * Z * Z)
    (num_filters filter_size hidden_dim num_classes : Z) (weight_scale reg : R) (dt : dtype)
  : Py ThreeLayerConvNet :=
  let params : gmap string ndarray := ∅ in
  let '(C, H, W) := input_dim in
  let F := num_filters in
  let HH := filter_size in
  let! W1 := np_random_randn G [F; C; HH; HH] in
  let params := <["W1" := mul W1 (scalar weight_scale)]> params in
  let! b1 := lift (np_zeros [F]) in
  let params := <["b1" := b1]> params in
  let! q := lift (truediv H 2) in
  let! W2 := np_random_randn G [(F * int_of q ^ 2)%Z; hidden_dim] in
  let params := <["W2" := mul W2 (scalar weight_scale)]> params in
  let! b2 := lift (np_zeros [hidden_dim]) in
  let params := <["b2" := b2]> params in
  let! W3 := np_random_randn G [hidden_dim; num_classes] in
  let params := <["W3" := mul W3 (scalar weight_scale)]> params in
  let! b3 := lift (np_zeros [num_classes]) in
  let params := <["b3" := b3]> params in
  let params := astype dt <$> params in
  py_ret {| params := params; reg := reg; net_dtype := dt |}.

End Init.

(** C9: [batchnorm_backward_alt] is an unimplemented stub: for every [dout]
    and [cache] it returns the triple [(None, None, None)]. *)
Theorem batchnorm_backward_alt_returns_none (dout : ndarray) (cache : bn_cache) :
  batchnorm_backward_alt dout cache = (PNone, PNone, PNone).
Proof. reflexivity. Qed.

(** ** The shapes of the initial parameters *)

Lemma astype_shape (dt : dtype) (a : ndarray) : shape (astype dt a) = shape a.
Proof. destruct dt; reflexivity. Qed.

Lemma mul_scalar_shape (a : ndarray) (c : R) (d0 d1 : nat) :
  shape a = [d0; d1] -> shape (mul a (scalar c)) = [d0; d1].
Proof.
  intros Ha. unfold mul, map2, scalar. cbn [shape]. rewrite Ha. np_unfold.
  rewrite !bdim_1_r. reflexivity.
Qed.

Lemma np_random_randn_value (G : generator) (dims : list nat) (st : store) :
  np_random_randn G (map Z.of_nat dims) st =
  (Ok (fst (randn G (rng st) dims)),
   {| dicts := dicts st; rng := snd (randn G (rng st) dims) |}).
Proof.
  unfold np_random_randn.
  assert (E1 : forallb (fun d => (0 <=? d)%Z) (map Z.of_nat dims) = true).
  { induction dims as [|d l IH]; [reflexivity|]. cbn [map forallb]. rewrite IH.
    destruct (Z.leb_spec 0 (Z.of_nat d)); [reflexivity|lia]. }
  rewrite E1, to_nat_of_nat_map. unfold random_randn.
  destruct (randn G (rng st) dims) as [a g]. reflexivity.
Qed.

Lemma int_of_half (H : Z) : int_of (Qmake H (Z.to_pos 2)) = Z.quot H 2.
Proof. reflexivity. Qed.

(** C8: [ThreeLayerConvNet.__init__] ignores [hidden_dim] and [num_classes]:
    whatever values are passed, the parameters it creates have [W2] of shape
    [(num_filters * int(H/2)**2, 100)], [b2] of shape [(100,)], [W3] of shape
    [(100, 10)] and [b3] of shape [(10,)], and the call is the documented
    initialisation with [hidden_dim = 100] and [num_classes = 10]. *)
Theorem ThreeLayerConvNet_init_ignores_sizes
    (G : generator) (C H W F HH : Z) (hidden_dim num_classes : pyval)
    (weight_scale reg : R) (dt : dtype) (st : store) :
  (0 <= C)%Z -> (0 <= F)%Z -> (0 <= HH)%Z ->
  exists net st',
    ThreeLayerConvNet_init G (C, H, W) F HH hidden_dim num_classes weight_scale reg dt st =
      (Ok net, st') /\
    shape <$> (params net !! "W2") = Some [Z.to_nat (F * Z.quot H 2 ^ 2); 100%nat] /\
    shape <$> (params net !! "b2") = Some [100%nat] /\
    shape <$> (params net !! "W3") = Some [100%nat; 10%nat] /\
    shape <$> (params net !! "b3") = Some [10%nat] /\
    ThreeLayerConvNet_init_documented G (C, H, W) F HH 100 10 weight_scale reg dt st =
      (Ok net, st').
Proof.
  intros HC HF HHH.
  assert (HW2 : (0 <= F * Z.quot H 2 ^ 2)%Z) by nia.
  assert (Main : exists net st',
    ThreeLayerConvNet_init G (C, H, W) F HH hidden_dim num_classes weight_scale reg dt st =
      (Ok net, st') /\
    shape <$> (params net !! "W2") = Some [Z.to_nat (F * Z.quot H 2 ^ 2); 100%nat] /\
    shape <$> (params net !! "b2") = Some [100%nat] /\
    shape <$> (params net !! "W3") = Some [100%nat; 10%nat] /\
    shape <$> (params net !! "b3") = Some [10%nat]).
  { unfold ThreeLayerConvNet_init.
    rewrite truediv_pos by lia.
    replace [F; C; HH; HH] with (map Z.of_nat [Z.to_nat F; Z.to_nat C; Z.to_nat HH; Z.to_nat HH])
      by (cbn [map]; rewrite !Z2Nat.id by assumption; reflexivity).
    change [100%Z; 10%Z] with (map Z.of_nat [100; 10]%nat).
    replace [F] with (map Z.of_nat [Z.to_nat F])
      by (cbn [map]; rewrite !Z2Nat.id by assumption; reflexivity).
    change [100%Z] with (map Z.of_nat [100%nat]).
    change [10%Z] with (map Z.of_nat [10%nat]).
    rewrite !np_zeros_of_nat.
    unfold py_bind at 1. rewrite np_random_randn_value.
    py_step. py_step. rewrite int_of_half.
    replace ((F * Z.quot H 2 ^ 2)%Z :: map Z.of_nat [100%nat])
      with (map Z.of_nat [Z.to_nat (F * Z.quot H 2 ^ 2); 100%nat])
      by (cbn [map]; rewrite !Z2Nat.id by assumption; reflexivity).
    unfold py_bind at 1. rewrite np_random_randn_value.
    py_step. unfold py_bind at 1. rewrite np_random_randn_value.
    py_step. unfold py_ret. cbn [rng dicts].
    eexists. eexists. split; [reflexivity|]. cbn [params].
    rewrite !lookup_fmap.
    repeat split.
    - rewrite lookup_insert_ne, lookup_insert_ne, lookup_insert_ne, lookup_insert_eq by done.
      cbn [fmap option_fmap option_map]. rewrite astype_shape.
      f_equal. apply mul_scalar_shape. apply randn_shape.
    - rewrite lookup_insert_ne, lookup_insert_ne, lookup_insert_eq by done.
      cbn [fmap option_fmap option_map]. rewrite astype_shape. reflexivity.
    - rewrite lookup_insert_ne, lookup_insert_eq by done.
      cbn [fmap option_fmap option_map]. rewrite astype_shape.
      f_equal. apply mul_scalar_shape. apply randn_shape.
    - rewrite lookup_insert_eq. cbn [fmap option_fmap option_map]. rewrite astype_shape.
      reflexivity. }
  destruct Main as (net & st' & E & S2 & S3 & S4 & S5).
  exists net, st'. repeat split; try assumption.
Qed.

(** ** What the layers do to the store *)

Lemma store_two_keys (bn : nat) (k1 k2 : string) (v1 v2 : pyval) (st : store) :
  snd (dict_setitem bn k2 v2 (snd (dict_setitem bn k1 v1 st))) =
  {| dicts := <[bn := <[k2 := v2]> (<[k1 := v1]> (the_dict st bn))]> (dicts st);
     rng := rng st |}.
Proof.
  unfold dict_setitem, the_dict. cbn [snd dicts rng].
  rewrite lookup_insert_eq. cbn [default]. rewrite insert_insert_eq. reflexivity.
Qed.

Lemma batchnorm_forward_effect (x gamma beta : ndarray) (bn : nat) (st : store)
      (r : res (ndarray * bn_cache)) (st' : store) :
  batchnorm_forward x gamma beta bn st = (r, st') ->
  match r with
  | Ok _ =>
      exists rm rv,
        st' = {| dicts := <[bn := <["running_var" := rv]>
                                    (<["running_mean" := rm]> (the_dict st bn))]> (dicts st);
                 rng := rng st |}
  | Raise _ => st' = st
  end.
Proof.
  unfold batchnorm_forward.
  unfold py_bind at 1. unfold dict_getitem.
  destruct (the_dict st bn !! "mode") as [mode|]; [|intros [= <- <-]; reflexivity].
  unfold py_bind at 1. unfold dict_get at 1.
  unfold py_bind at 1. unfold dict_get at 1.
  unfold py_bind at 1. unfold lift at 1.
  destruct (shape2 x) as [[N D]|e]; [|intros [= <- <-]; reflexivity].
  unfold py_bind at 1. unfold dict_get at 1.
  unfold py_bind at 1. unfold dict_get at 1.
  set (eps := default (PFloat (1 / 100000)) (the_dict st bn !! "eps")).
  set (momentum := default (PFloat (9 / 10)) (the_dict st bn !! "momentum")).
  set (running_mean := default (PArr (zeros [D])) (the_dict st bn !! "running_mean")).
  set (running_var := default (PArr (zeros [D])) (the_dict st bn !! "running_var")).
  unfold py_bind at 1.
  destruct (eq_str mode "train").
  - unfold py_bind, lift, py_ret.
    destruct (as_array momentum); [|intros [= <- <-]; reflexivity].
    destruct (as_array running_mean); [|intros [= <- <-]; reflexivity].
    destruct (as_array running_var); [|intros [= <- <-]; reflexivity].
    destruct (as_array eps); [|intros [= <- <-]; reflexivity].
    destruct (reshape gamma [1%Z; (-1)%Z]); [|intros [= <- <-]; reflexivity].
    destruct (reshape beta [1%Z; (-1)%Z]); [|intros [= <- <-]; reflexivity].
    intros [= <- <-]. eexists. eexists. apply store_two_keys.
  - destruct (eq_str mode "test").
    + unfold py_bind, lift, py_ret.
      destruct (as_array running_mean); [|intros [= <- <-]; reflexivity].
      destruct (as_array running_var); [|intros [= <- <-]; reflexivity].
      destruct (as_array eps); [|intros [= <- <-]; reflexivity].
      intros [= <- <-]. eexists. eexists. apply store_two_keys.
    + intros [= <- <-]. reflexivity.
Qed.

(** A computation that only reads the store, and one that leaves the
    dictionaries as they are. *)
Definition read_only {A : Type} (m : Py A) : Prop := forall st, snd (m st) = st.

Definition keeps_dicts {A : Type} (m : Py A) : Prop :=
  forall st, dicts (snd (m st)) = dicts st.

Section Frames.

Context {A B : Type}.

Lemma read_only_ret (a : A) : read_only (py_ret a).
Proof. intros st. reflexivity. Qed.

Lemma read_only_raise (e : exn) : read_only (@py_raise A e).
Proof. intros st. reflexivity. Qed.

Lemma read_only_lift (r : res A) : read_only (lift r).
Proof. intros st. reflexivity. Qed.

Lemma read_only_bind (m : Py A) (k : A -> Py B) :
  read_only m -> (forall a, read_only (k a)) -> read_only (py_bind m k).
Proof.
  intros Hm Hk st. unfold py_bind. specialize (Hm st).
  destruct (m st) as [[a|e] st1]; cbn [snd] in *; subst st1; [apply Hk|reflexivity].
Qed.

Lemma keeps_dicts_bind (m : Py A) (k : A -> Py B) :
  keeps_dicts m -> (forall a, keeps_dicts (k a)) -> keeps_dicts (py_bind m k).
Proof.
  intros Hm Hk st. unfold py_bind. specialize (Hm st).
  destruct (m st) as [[a|e] st1]; cbn [snd] in *; [rewrite Hk|]; exact Hm.
Qed.

Lemma read_only_keeps_dicts (m : Py A) : read_only m -> keeps_dicts m.
Proof. intros Hm st. rewrite Hm. reflexivity. Qed.

End Frames.

Lemma read_only_dict_getitem (d : nat) (k : string) : read_only (dict_getitem d k).
Proof. intros st. unfold dict_getitem. destruct (the_dict st d !! k); reflexivity. Qed.

Lemma read_only_dict_get (d : nat) (k : string) (v : pyval) : read_only (dict_get d k v).
Proof. intros st. reflexivity. Qed.

Lemma read_only_dict_contains (d : nat) (k : string) : read_only (dict_contains d k).
Proof. intros st. reflexivity. Qed.

Lemma read_only_getitem_int (d : nat) (k : string) : read_only (getitem_int d k).
Proof.
  apply read_only_bind; [apply read_only_dict_getitem|]. intros v. apply read_only_lift.
Qed.

Lemma keeps_dicts_random_rand (G : generator) (sh : list nat) : keeps_dicts (random_rand G sh).
Proof. intros st. unfold random_rand. destruct (rand G (rng st) sh). reflexivity. Qed.

Lemma keeps_dicts_np_random_seed (G : generator) (v : pyval) : keeps_dicts (np_random_seed G v).
Proof.
  intros st. unfold np_random_seed, py_bind, lift, random_seed, py_raise.
  destruct v as [|b|z|r|s|a]; cbn [as_int]; try reflexivity.
  - destruct ((0 <=? (if b then 1 else 0)) && ((if b then 1 else 0) <? 2 ^ 32))%Z; reflexivity.
  - destruct ((0 <=? z) && (z <? 2 ^ 32))%Z; reflexivity.
Qed.

Ltac read_only_step :=
  first
    [ apply read_only_ret
    | apply read_only_raise
    | apply read_only_lift
    | apply read_only_getitem_int
    | apply read_only_dict_getitem
    | apply read_only_dict_get
    | apply read_only_dict_contains
    | apply read_only_bind; [|intros ?]
    | lazymatch goal with
      | |- read_only (match ?e with _ => _ end) => destruct e
      end
    | progress cbn zeta ].

Lemma conv_forward_naive_read_only (x w b : ndarray) (conv_param : nat) :
  read_only (conv_forward_naive x w b conv_param).
Proof. unfold conv_forward_naive. repeat read_only_step. Qed.

Lemma conv_backward_naive_read_only (dout : ndarray) (cache : conv_cache) :
  read_only (conv_backward_naive dout cache).
Proof.
  destruct cache as [[[x w] b] conv_param]. unfold conv_backward_naive. repeat read_only_step.
Qed.

Lemma max_pool_forward_naive_read_only (x : ndarray) (pool_param : nat) :
  read_only (max_pool_forward_naive x pool_param).
Proof. unfold max_pool_forward_naive. repeat read_only_step. Qed.

Lemma max_pool_backward_naive_read_only (dout : ndarray) (cache : pool_cache) :
  read_only (max_pool_backward_naive dout cache).
Proof.
  destruct cache as [x pool_param]. unfold max_pool_backward_naive. repeat read_only_step.
Qed.

Lemma dropout_backward_read_only (dout : ndarray) (cache : dropout_cache) :
  read_only (dropout_backward dout cache).
Proof.
  destruct cache as [dropout_param mask]. unfold dropout_backward. repeat read_only_step.
Qed.

Lemma dropout_forward_keeps_dicts (G : generator) (x : ndarray) (dropout_param : nat) :
  keeps_dicts (dropout_forward G x dropout_param).
Proof.
  unfold dropout_forward.
  apply keeps_dicts_bind; [apply read_only_keeps_dicts, read_only_dict_getitem|]. intros p.
  apply keeps_dicts_bind; [apply read_only_keeps_dicts, read_only_dict_getitem|]. intros mode.
  apply keeps_dicts_bind; [apply read_only_keeps_dicts, read_only_dict_contains|].
  intros seeded.
  apply keeps_dicts_bind.
  - destruct seeded; [|apply read_only_keeps_dicts, read_only_ret].
    apply keeps_dicts_bind; [apply read_only_keeps_dicts, read_only_dict_getitem|].
    intros s. apply keeps_dicts_np_random_seed.
  - intros _. destruct (eq_str mode "train").
    + apply keeps_dicts_bind; [apply keeps_dicts_random_rand|]. intros r.
      apply keeps_dicts_bind; [apply read_only_keeps_dicts, read_only_lift|]. intros p0.
      apply read_only_keeps_dicts, read_only_ret.
    + destruct (eq_str mode "test"); apply read_only_keeps_dicts;
        [apply read_only_ret|apply read_only_raise].
Qed.

(** ** When batch normalisation returns *)

(** The optional entries of [bn_param], when present, are numbers and arrays
    of the documented shape. *)
Definition bn_param_ok (D : nat) (d : gmap string pyval) : Prop :=
  (forall v, d !! "eps" = Some v -> exists r, v = PFloat r) /\
  (forall v, d !! "momentum" = Some v -> exists r, v = PFloat r) /\
  (forall v, d !! "running_mean" = Some v -> exists a, v = PArr a /\ shape a = [D]) /\
  (forall v, d !! "running_var" = Some v -> exists a, v = PArr a /\ shape a = [D]).

(** The running statistics are documented with the shape [(D,)]; the arrays
    that a training-mode call stores have the shape [(1, D)], and the next
    call finds them in [bn_param]. *)
Definition stat_shape_ok (D : nat) (a : ndarray) : Prop :=
  shape a = [D] \/ shape a = [1%nat; D].

Definition bn_param_wf (D : nat) (d : gmap string pyval) : Prop :=
  (forall v, d !! "eps" = Some v -> exists r, v = PFloat r) /\
  (forall v, d !! "momentum" = Some v -> exists r, v = PFloat r) /\
  (forall v, d !! "running_mean" = Some v -> exists a, v = PArr a /\ stat_shape_ok D a) /\
  (forall v, d !! "running_var" = Some v -> exists a, v = PArr a /\ stat_shape_ok D a).

Lemma bn_param_ok_wf (D : nat) (d : gmap string pyval) : bn_param_ok D d -> bn_param_wf D d.
Proof.
  intros (He & Hm & Hrm & Hrv). split; [exact He|]. split; [exact Hm|]. split.
  - intros v Hv. destruct (Hrm v Hv) as (a & -> & Ha). exists a. split; [reflexivity|].
    left. exact Ha.
  - intros v Hv. destruct (Hrv v Hv) as (a & -> & Ha). exists a. split; [reflexivity|].
    left. exact Ha.
Qed.

Lemma reshape_row (a : ndarray) (D : nat) :
  shape a = [D] -> exists g, reshape a [1; -1]%Z = Ok g /\ shape g = [1%nat; D].
Proof.
  intros Ha. unfold reshape, reshape_dims. rewrite Ha.
  cbn [List.filter map length size_of fold_right Z.leb Z.ltb Z.compare Z.to_nat
       Pos.to_nat Pos.iter_op Nat.mul Nat.add].
  change (Z.to_nat 1) with 1%nat. rewrite !Nat.mul_1_r.
  cbn [Nat.eqb orb]. rewrite Nat.mod_1_r. cbn [Nat.eqb negb res_bind].
  rewrite Nat.div_1_r. eexists. split; reflexivity.
Qed.

Lemma optional_float (d : gmap string pyval) (k : string) (dflt : R) :
  (forall v, d !! k = Some v -> exists r, v = PFloat r) ->
  exists r, as_array (default (PFloat dflt) (d !! k)) = Ok (scalar r).
Proof.
  intros H. destruct (d !! k) as [v|]; cbn [default].
  - destruct (H v eq_refl) as [r ->]. exists r. reflexivity.
  - exists dflt. reflexivity.
Qed.

Lemma optional_array (d : gmap string pyval) (k : string) (D : nat) :
  (forall v, d !! k = Some v -> exists a, v = PArr a /\ stat_shape_ok D a) ->
  exists a, as_array (default (PArr (zeros [D])) (d !! k)) = Ok a /\ stat_shape_ok D a.
Proof.
  intros H. destruct (d !! k) as [v|]; cbn [default].
  - destruct (H v eq_refl) as (a & -> & Ha). exists a. split; [reflexivity|exact Ha].
  - exists (zeros [D]). split; [reflexivity|left; reflexivity].
Qed.

Lemma map2_shape_eq (op : R -> R -> R) (a b : ndarray) :
  shape (map2 op a b) = broadcast_shapes (shape a) (shape b).
Proof. reflexivity. Qed.

Lemma np_mean_shape (a : ndarray) (N D : nat) :
  shape a = [N; D] -> shape (np_mean a [0%nat]) = [1%nat; D].
Proof.
  intros Ha. unfold np_mean, div. rewrite map2_shape_eq. unfold sum_axes_keep, scalar.
  cbn [shape]. rewrite Ha. np_unfold.
  cbn [axis_mask keep_shape zip_with length seq map existsb Nat.eqb orb].
  np_unfold. rewrite ?bdim_1_r. reflexivity.
Qed.

Lemma np_std_shape (a : ndarray) (N D : nat) :
  shape a = [N; D] -> shape (np_std a [0%nat]) = [1%nat; D].
Proof.
  intros Ha. unfold np_std, np_sqrt. cbn [map1 shape].
  apply (np_mean_shape _ N D). unfold square. cbn [map1 shape].
  unfold sub. rewrite map2_shape_eq, Ha, (np_mean_shape a N D Ha). np_unfold.
  rewrite ?bdim_1_r, ?bdim_diag. reflexivity.
Qed.

Lemma batchnorm_forward_returns (N D : nat) (x gamma beta : ndarray) (bn : nat) (st : store)
      (mode : pyval) :
  shape x = [N; D] -> shape gamma = [D] -> shape beta = [D] ->
  the_dict st bn !! "mode" = Some mode -> bn_param_wf D (the_dict st bn) ->
  eq_str mode "train" || eq_str mode "test" = true ->
  exists out cache st',
    batchnorm_forward x gamma beta bn st = (Ok (out, cache), st') /\ shape out = [N; D].
Proof.
  intros Hx Hg Hb Hmode (Heps & Hmom & Hrm & Hrv) Hm.
  destruct (optional_float _ "eps" (1 / 100000) Heps) as [e Ee].
  destruct (optional_float _ "momentum" (9 / 10) Hmom) as [m Em].
  destruct (optional_array _ "running_mean" D Hrm) as (rm & Erm & Srm).
  destruct (optional_array _ "running_var" D Hrv) as (rv & Erv & Srv).
  destruct (reshape_row gamma D Hg) as (g & Eg & Sg).
  destruct (reshape_row beta D Hb) as (b & Eb & Sb).
  unfold batchnorm_forward.
  unfold py_bind at 1. unfold dict_getitem. rewrite Hmode.
  unfold py_bind at 1. unfold dict_get at 1.
  unfold py_bind at 1. unfold dict_get at 1.
  unfold py_bind at 1. unfold lift at 1. unfold shape2. rewrite Hx.
  unfold py_bind at 1. unfold dict_get at 1.
  unfold py_bind at 1. unfold dict_get at 1.
  unfold py_bind at 1.
  destruct (eq_str mode "train").
  - unfold py_bind, lift, py_ret. rewrite Em, Erm, Erv, Ee, Eg, Eb.
    eexists. eexists. eexists. split; [reflexivity|].
    pose proof (np_mean_shape x N D Hx) as Smean.
    pose proof (np_std_shape x N D Hx) as Sstd.
    set (mean := np_mean x [0%nat]) in *. set (std := np_std x [0%nat]) in *.
    unfold add, div, mul, sub, np_sqrt, square.
    rewrite !map2_shape_eq. cbn [map1 shape]. rewrite !map2_shape_eq. cbn [map1 shape].
    rewrite Hx, Sg, Sb, Smean, Sstd. unfold scalar. cbn [shape]. np_unfold.
    rewrite ?bdim_1_r, ?bdim_diag. cbn [bdim Nat.eqb].
    rewrite ?bdim_1_r, ?bdim_diag. reflexivity.
  - cbn [orb] in Hm. rewrite Hm.
    unfold py_bind, lift, py_ret. rewrite Erm, Erv, Ee.
    eexists. eexists. eexists. split; [reflexivity|].
    unfold add, div, mul, sub, np_sqrt.
    rewrite !map2_shape_eq. cbn [map1 shape]. rewrite !map2_shape_eq.
    destruct Srm as [Srm|Srm], Srv as [Srv|Srv];
      rewrite Hx, Hg, Hb, Srm, Srv; unfold scalar; cbn [shape]; np_unfold;
      rewrite ?bdim_1_r, ?bdim_diag; cbn [bdim Nat.eqb];
      rewrite ?bdim_1_r, ?bdim_diag; reflexivity.
Qed.

Lemma batchnorm_forward_invalid_mode (x gamma beta : ndarray) (bn : nat) (st : store)
      (N D : nat) (mode : pyval) :
  shape x = [N; D] -> the_dict st bn !! "mode" = Some mode ->
  eq_str mode "train" || eq_str mode "test" = false ->
  batchnorm_forward x gamma beta bn st =
  (Raise (ValueError "Invalid forward batchnorm mode"), st).
Proof.
  intros Hx Hmode Hm. apply orb_false_elim in Hm. destruct Hm as [H1 H2].
  unfold batchnorm_forward.
  unfold py_bind at 1. unfold dict_getitem. rewrite Hmode.
  unfold py_bind at 1. unfold dict_get at 1.
  unfold py_bind at 1. unfold dict_get at 1.
  unfold py_bind at 1. unfold lift at 1. unfold shape2. rewrite Hx.
  unfold py_bind at 1. unfold dict_get at 1.
  unfold py_bind at 1. unfold dict_get at 1.
  unfold py_bind at 1. rewrite H1, H2. reflexivity.
Qed.

(** The store after a call that may have stored the running statistics of
    batch normalisation into [bn]. *)
Definition stores_running_stats (bn : nat) (st st' : store) : Prop :=
  st' = st \/
  exists rm rv,
    st' = {| dicts := <[bn := <["running_var" := rv]>
                                (<["running_mean" := rm]> (the_dict st bn))]> (dicts st);
             rng := rng st |}.

Lemma spatial_batchnorm_forward_effect (x gamma beta : ndarray) (bn : nat) (st : store) :
  stores_running_stats bn st (snd (spatial_batchnorm_forward x gamma beta bn st)).
Proof.
  unfold spatial_batchnorm_forward. cbn zeta.
  unfold py_bind at 1. unfold lift at 1.
  destruct (reshape (transpose_axes x [0; 2; 3; 1]%nat) [(-1)%Z; Z.of_nat (dim x 1)])
    as [x1|e]; [|left; reflexivity].
  unfold py_bind at 1.
  destruct (batchnorm_forward x1 gamma beta bn st) as [[[out cache]|e] st1] eqn:E;
    pose proof (batchnorm_forward_effect _ _ _ _ _ _ _ E) as Heff; cbn beta iota in Heff.
  - unfold py_bind, lift, py_ret.
    destruct (reshape out _); cbn [snd]; right; exact Heff.
  - left. exact Heff.
Qed.


(** A call in training mode on a one-entry batch. *)
Definition bn_x0 : ndarray := matrix_of 1 1 (fun _ _ => 1).
Definition bn_gamma0 : ndarray := {| shape := [1%nat]; data := fun _ => 1 |}.
Definition bn_beta0 : ndarray := {| shape := [1%nat]; data := fun _ => 0 |}.
Definition bn_store0 : store :=
  {| dicts := <[0%nat := <["mode" := PStr "train"]> ∅]> ∅; rng := 0 |}.

Lemma bn_store0_ok : bn_param_ok 1 (the_dict bn_store0 0).
Proof. repeat split; intros v Hv; discriminate Hv. Qed.


(** A mode that is a string, a number, a boolean or [None]: the values that
    compare with a string without an error and that the message of the
    [ValueError] can be formatted with. *)
Definition scalar_mode (mode : pyval) : Prop :=
  match mode with
  | PArr _ => False
  | _ => True
  end.



(** A call with a mode that is neither ['train'] nor ['test']. *)
Definition bn_store1 : store :=
  {| dicts := <[0%nat := <["mode" := PStr "valid"]> ∅]> ∅; rng := 0 |}.


(** ** Randomness *)

(** The result of [dropout_forward] in training mode without a seed. *)
Lemma dropout_forward_train_unseeded (G : generator) (x : ndarray) (dp : nat) (st : store)
      (pv : R) :
  the_dict st dp !! "p" = Some (PFloat pv) ->
  the_dict st dp !! "mode" = Some (PStr "train") ->
  the_dict st dp !! "seed" = None ->
  dropout_forward G x dp st =
  (let mask := div (greater (fst (rand G (rng st) (shape x))) pv) (scalar (1 - pv)) in
   (Ok (mul x mask, (dp, Some mask)),
    {| dicts := dicts st; rng := snd (rand G (rng st) (shape x)) |})).
Proof.
  intros Hp Hmode Hseed. unfold dropout_forward.
  unfold py_bind at 1. unfold dict_getitem at 1. rewrite Hp.
  unfold py_bind at 1. unfold dict_getitem at 1. rewrite Hmode.
  unfold py_bind at 1. unfold dict_contains at 1. rewrite Hseed.
  rewrite bool_decide_eq_false_2 by (intros [v Hv]; discriminate Hv).
  unfold py_bind at 1. unfold py_ret at 1.
  change (eq_str (PStr "train") "train") with true. cbn iota.
  unfold py_bind at 1. unfold random_rand.
  destruct (rand G (rng st) (shape x)) as [r g]. reflexivity.
Qed.

(** A generator whose draws alternate between 0 and 1/2. *)
Definition alternating_generator : generator :=
  {| seed_state := fun s => s;
     fresh_state := fun g => (g + 1)%Z;
     rand := fun g sh =>
       ({| shape := sh; data := fun _ => if Z.even g then 0 else 1 / 2 |}, (g + 1)%Z);
     randn := fun g sh => ({| shape := sh; data := fun _ => IZR g |}, (g + 1)%Z);
     rand_shape := fun _ _ => eq_refl;
     randn_shape := fun _ _ => eq_refl |}.

Definition drop_x0 : ndarray := {| shape := [1%nat]; data := fun _ => 1 |}.
Definition drop_param0 : gmap string pyval :=
  <["p" := PFloat (1 / 4)]> (<["mode" := PStr "train"]> ∅).
Definition drop_store0 : store := {| dicts := <[0%nat := drop_param0]> ∅; rng := 0 |}.


(** A computation is determined on a relation between stores when, started
    in related stores, it gives equal results and related stores. *)
Definition determined_on (R : store -> store -> Prop) {A : Type} (m : Py A) : Prop :=
  forall st1 st2, R st1 st2 ->
    fst (m st1) = fst (m st2) /\ R (snd (m st1)) (snd (m st2)).

(** Stores that agree on the dictionary [dp] and on the generator state,
    and stores that agree on the generator state. *)
Definition same_view (dp : nat) (st1 st2 : store) : Prop :=
  the_dict st1 dp = the_dict st2 dp /\ rng st1 = rng st2.

Definition same_rng (st1 st2 : store) : Prop := rng st1 = rng st2.

Section Determined.

Variable R : store -> store -> Prop.
Context {A B : Type}.

Lemma determined_ret (a : A) : determined_on R (py_ret a).
Proof. intros st1 st2 H. split; [reflexivity|exact H]. Qed.

Lemma determined_raise (e : exn) : determined_on R (@py_raise A e).
Proof. intros st1 st2 H. split; [reflexivity|exact H]. Qed.

Lemma determined_lift (r : res A) : determined_on R (lift r).
Proof. intros st1 st2 H. split; [reflexivity|exact H]. Qed.

Lemma determined_bind (m : Py A) (k : A -> Py B) :
  determined_on R m -> (forall a, determined_on R (k a)) -> determined_on R (py_bind m k).
Proof.
  intros Hm Hk st1 st2 H. unfold py_bind. destruct (Hm st1 st2 H) as [E1 E2].
  destruct (m st1) as [[a1|e1] s1], (m st2) as [[a2|e2] s2]; cbn [fst snd] in *;
    try discriminate E1.
  - injection E1 as <-. apply Hk. exact E2.
  - injection E1 as <-. split; [reflexivity|exact E2].
Qed.

End Determined.

Lemma determined_dict_getitem (dp : nat) (k : string) :
  determined_on (same_view dp) (dict_getitem dp k).
Proof.
  intros st1 st2 [Hd Hr]. unfold dict_getitem. rewrite Hd.
  destruct (the_dict st2 dp !! k); (split; [reflexivity|split; assumption]).
Qed.

Lemma determined_dict_contains (dp : nat) (k : string) :
  determined_on (same_view dp) (dict_contains dp k).
Proof.
  intros st1 st2 [Hd Hr]. unfold dict_contains. rewrite Hd.
  split; [reflexivity|split; assumption].
Qed.

Lemma determined_random_rand (G : generator) (dp : nat) (sh : list nat) :
  determined_on (same_view dp) (random_rand G sh).
Proof.
  intros st1 st2 [Hd Hr]. unfold random_rand. rewrite Hr.
  destruct (rand G (rng st2) sh) as [a g]. split; [reflexivity|]. split; [exact Hd|reflexivity].
Qed.

Lemma determined_np_random_seed (G : generator) (dp : nat) (v : pyval) :
  determined_on (same_view dp) (np_random_seed G v).
Proof.
  intros st1 st2 [Hd Hr].
  unfold np_random_seed, py_bind, lift, random_seed, py_raise.
  destruct v as [|b|z|r|s|a]; cbn [as_int fst snd].
  - rewrite Hr. split; [reflexivity|]. split; [exact Hd|reflexivity].
  - destruct ((0 <=? (if b then 1 else 0)) && ((if b then 1 else 0) <? 2 ^ 32))%Z;
      cbn [fst snd]; (split; [reflexivity|]); split; assumption || reflexivity.
  - destruct ((0 <=? z) && (z <? 2 ^ 32))%Z;
      cbn [fst snd]; (split; [reflexivity|]); split; assumption || reflexivity.
  - split; [reflexivity|]. split; assumption.
  - split; [reflexivity|]. split; assumption.
  - split; [reflexivity|]. split; assumption.
Qed.

(** Seeding with an integer relates stores that agree on [dp] only. *)
Lemma np_random_seed_int (G : generator) (dp : nat) (s : Z) (st1 st2 : store) :
  the_dict st1 dp = the_dict st2 dp ->
  fst (np_random_seed G (PInt s) st1) = fst (np_random_seed G (PInt s) st2) /\
  (forall u, fst (np_random_seed G (PInt s) st1) = Ok u ->
     same_view dp (snd (np_random_seed G (PInt s) st1)) (snd (np_random_seed G (PInt s) st2))).
Proof.
  intros Hd. unfold np_random_seed, py_bind, lift, random_seed, py_raise. cbn [as_int].
  destruct ((0 <=? s) && (s <? 2 ^ 32))%Z; cbn [fst snd].
  - split; [reflexivity|]. intros _ _. split; [exact Hd|reflexivity].
  - split; [reflexivity|]. intros u Hu. discriminate Hu.
Qed.

Lemma determined_np_random_randn (G : generator) (dims : list Z) :
  determined_on same_rng (np_random_randn G dims).
Proof.
  intros st1 st2 Hr. unfold same_rng in *. unfold np_random_randn.
  destruct (forallb (fun d => (0 <=? d)%Z) dims).
  - unfold random_randn. rewrite Hr.
    destruct (randn G (rng st2) (map Z.to_nat dims)) as [a g]. split; reflexivity.
  - split; [reflexivity|exact Hr].
Qed.

(** The part of [dropout_forward] after the seeding. *)
Lemma dropout_tail_determined (G : generator) (x : ndarray) (dp : nat) (p mode : pyval) :
  determined_on (same_view dp)
    (if eq_str mode "train" then
       let! r := random_rand G (shape x) in
       let! p := lift (as_float p) in
       let mask := div (greater r p) (scalar (1 - p)) in
       let out := mul x mask in
       let cache := (dp, Some mask) in
       py_ret (out, cache)
     else if eq_str mode "test" then py_ret (x, (dp, None))
     else py_raise (AttributeError "'NoneType' object has no attribute 'astype'")).
Proof.
  destruct (eq_str mode "train").
  - apply determined_bind; [apply determined_random_rand|]. intros r.
    apply determined_bind; [apply determined_lift|]. intros p0. apply determined_ret.
  - destruct (eq_str mode "test"); [apply determined_ret|apply determined_raise].
Qed.

Lemma dropout_forward_determined (G : generator) (x : ndarray) (dp : nat) :
  determined_on (same_view dp) (dropout_forward G x dp).
Proof.
  unfold dropout_forward.
  apply determined_bind; [apply determined_dict_getitem|]. intros p.
  apply determined_bind; [apply determined_dict_getitem|]. intros mode.
  apply determined_bind; [apply determined_dict_contains|]. intros seeded.
  apply determined_bind.
  - destruct seeded; [|apply determined_ret].
    apply determined_bind; [apply determined_dict_getitem|]. intros s.
    apply determined_np_random_seed.
  - intros _. apply dropout_tail_determined.
Qed.

Lemma dropout_forward_no_p (G : generator) (x : ndarray) (dp : nat) (st : store) :
  the_dict st dp !! "p" = None ->
  dropout_forward G x dp st = (Raise (KeyError "p"), st).
Proof.
  intros Hp. unfold dropout_forward. unfold py_bind at 1. unfold dict_getitem at 1.
  rewrite Hp. reflexivity.
Qed.

Lemma dropout_forward_no_mode (G : generator) (x : ndarray) (dp : nat) (st : store) (p : pyval) :
  the_dict st dp !! "p" = Some p -> the_dict st dp !! "mode" = None ->
  dropout_forward G x dp st = (Raise (KeyError "mode"), st).
Proof.
  intros Hp Hm. unfold dropout_forward. unfold py_bind at 1. unfold dict_getitem at 1.
  rewrite Hp. unfold py_bind at 1. unfold dict_getitem at 1. rewrite Hm. reflexivity.
Qed.

Lemma dropout_forward_seed_step (G : generator) (x : ndarray) (dp : nat) (st : store)
      (p mode s : pyval) :
  the_dict st dp !! "p" = Some p -> the_dict st dp !! "mode" = Some mode ->
  the_dict st dp !! "seed" = Some s ->
  dropout_forward G x dp st =
  py_bind (np_random_seed G s)
    (fun _ =>
       if eq_str mode "train" then
         let! r := random_rand G (shape x) in
         let! p := lift (as_float p) in
         let mask := div (greater r p) (scalar (1 - p)) in
         let out := mul x mask in
         let cache := (dp, Some mask) in
         py_ret (out, cache)
       else if eq_str mode "test" then py_ret (x, (dp, None))
       else py_raise (AttributeError "'NoneType' object has no attribute 'astype'")) st.
Proof.
  intros Hp Hm Hs. unfold dropout_forward. unfold py_bind at 1. unfold dict_getitem at 1.
  rewrite Hp. unfold py_bind at 1. unfold dict_getitem at 1. rewrite Hm.
  unfold py_bind at 1. unfold dict_contains at 1. rewrite Hs.
  rewrite bool_decide_eq_true_2 by (eexists; reflexivity).
  unfold py_bind at 1. unfold py_bind at 1. unfold dict_getitem at 1. rewrite Hs.
  reflexivity.
Qed.

Lemma dropout_forward_seeded (G : generator) (x : ndarray) (dp : nat) (st1 st2 : store) (s : Z) :
  the_dict st1 dp = the_dict st2 dp ->
  the_dict st1 dp !! "seed" = Some (PInt s) ->
  fst (dropout_forward G x dp st1) = fst (dropout_forward G x dp st2).
Proof.
  intros Hd Hs.
  destruct (the_dict st1 dp !! "p") as [p|] eqn:Hp.
  2:{ rewrite !dropout_forward_no_p by (rewrite <- ?Hd; exact Hp). reflexivity. }
  destruct (the_dict st1 dp !! "mode") as [mode|] eqn:Hm.
  2:{ rewrite !(dropout_forward_no_mode G x dp _ p) by (rewrite <- ?Hd; assumption).
      reflexivity. }
  rewrite !(dropout_forward_seed_step G x dp _ p mode (PInt s))
    by (rewrite <- ?Hd; assumption).
  unfold py_bind.
  destruct (np_random_seed_int G dp s st1 st2 Hd) as [E1 E2].
  destruct (np_random_seed G (PInt s) st1) as [[u1|e1] s1],
           (np_random_seed G (PInt s) st2) as [[u2|e2] s2]; cbn [fst snd] in *;
    try discriminate E1.
  - apply (dropout_tail_determined G x dp p mode s1 s2). apply (E2 u1). reflexivity.
  - injection E1 as <-. reflexivity.
Qed.

Lemma ThreeLayerConvNet_init_determined (G : generator) (input_dim : Z * Z * Z)
      (num_filters filter_size : Z) (hidden_dim num_classes : pyval) (weight_scale reg : R)
      (dt : dtype) :
  determined_on same_rng
    (ThreeLayerConvNet_init G input_dim num_filters filter_size hidden_dim num_classes
       weight_scale reg dt).
Proof.
  destruct input_dim as [[C H] W]. unfold ThreeLayerConvNet_init. cbn zeta.
  apply determined_bind; [apply determined_np_random_randn|]. intros W1.
  apply determined_bind; [apply determined_lift|]. intros b1.
  apply determined_bind; [apply determined_lift|]. intros q.
  apply determined_bind; [apply determined_np_random_randn|]. intros W2.
  apply determined_bind; [apply determined_lift|]. intros b2.
  apply determined_bind; [apply determined_np_random_randn|]. intros W3.
  apply determined_bind; [apply determined_lift|]. intros b3.
  apply determined_ret.
Qed.

(** *** The entropy of the operating system

    [np.random.seed(None)] takes the new state from the operating system, so
    that it differs from run to run.  Two runs are two generators that draw
    in the same way and may differ in [fresh_state]. *)
Definition same_draws (G1 G2 : generator) : Prop :=
  (forall s, seed_state G1 s = seed_state G2 s) /\
  (forall g sh, rand G1 g sh = rand G2 g sh) /\
  (forall g sh, randn G1 g sh = randn G2 g sh).

Lemma np_random_seed_same_draws (G1 G2 : generator) (v : pyval) (st : store) :
  same_draws G1 G2 -> v <> PNone -> np_random_seed G1 v st = np_random_seed G2 v st.
Proof.
  intros (Hs & _ & _) Hv. unfold np_random_seed, py_bind, lift, random_seed, py_raise.
  destruct v as [|b|z|r|s|a]; cbn [as_int]; try reflexivity.
  - contradiction.
  - destruct ((0 <=? (if b then 1 else 0)) && ((if b then 1 else 0) <? 2 ^ 32))%Z;
      [rewrite Hs|]; reflexivity.
  - destruct ((0 <=? z) && (z <? 2 ^ 32))%Z; [rewrite Hs|]; reflexivity.
Qed.

Lemma random_rand_same_draws (G1 G2 : generator) (sh : list nat) (st : store) :
  same_draws G1 G2 -> random_rand G1 sh st = random_rand G2 sh st.
Proof. intros (_ & Hr & _). unfold random_rand. rewrite Hr. reflexivity. Qed.

Lemma np_random_randn_same_draws (G1 G2 : generator) :
  same_draws G1 G2 -> np_random_randn G1 = np_random_randn G2.
Proof.
  intros (_ & _ & Hr). apply functional_extensionality. intros dims.
  apply functional_extensionality. intros st.
  unfold np_random_randn, random_randn.
  destruct (forallb (fun d => (0 <=? d)%Z) dims); [rewrite Hr|]; reflexivity.
Qed.

Lemma dropout_tail_same_draws (G1 G2 : generator) (x : ndarray) (dp : nat) (p mode : pyval)
      (st : store) :
  same_draws G1 G2 ->
  (if eq_str mode "train" then
     let! r := random_rand G1 (shape x) in
     let! p := lift (as_float p) in
     let mask := div (greater r p) (scalar (1 - p)) in
     let out := mul x mask in
     let cache := (dp, Some mask) in
     py_ret (out, cache)
   else if eq_str mode "test" then py_ret (x, (dp, None))
   else py_raise (AttributeError "'NoneType' object has no attribute 'astype'")) st =
  (if eq_str mode "train" then
     let! r := random_rand G2 (shape x) in
     let! p := lift (as_float p) in
     let mask := div (greater r p) (scalar (1 - p)) in
     let out := mul x mask in
     let cache := (dp, Some mask) in
     py_ret (out, cache)
   else if eq_str mode "test" then py_ret (x, (dp, None))
   else py_raise (AttributeError "'NoneType' object has no attribute 'astype'")) st.
Proof.
  intros HG. destruct (eq_str mode "train"); [|reflexivity].
  unfold py_bind. rewrite (random_rand_same_draws G1 G2 _ st HG). reflexivity.
Qed.

Lemma dropout_forward_unseeded_step (G : generator) (x : ndarray) (dp : nat) (st : store)
      (p mode : pyval) :
  the_dict st dp !! "p" = Some p -> the_dict st dp !! "mode" = Some mode ->
  the_dict st dp !! "seed" = None ->
  dropout_forward G x dp st =
  (if eq_str mode "train" then
     let! r := random_rand G (shape x) in
     let! p := lift (as_float p) in
     let mask := div (greater r p) (scalar (1 - p)) in
     let out := mul x mask in
     let cache := (dp, Some mask) in
     py_ret (out, cache)
   else if eq_str mode "test" then py_ret (x, (dp, None))
   else py_raise (AttributeError "'NoneType' object has no attribute 'astype'")) st.
Proof.
  intros Hp Hm Hs. unfold dropout_forward. unfold py_bind at 1. unfold dict_getitem at 1.
  rewrite Hp. unfold py_bind at 1. unfold dict_getitem at 1. rewrite Hm.
  unfold py_bind at 1. unfold dict_contains at 1. rewrite Hs.
  rewrite bool_decide_eq_false_2 by (intros [v Hv]; discriminate Hv).
  unfold py_bind at 1. reflexivity.
Qed.

(** Unless the seed is [None], [dropout_forward] does not read the entropy. *)
Lemma dropout_forward_same_draws (G1 G2 : generator) (x : ndarray) (dp : nat) (st : store) :
  same_draws G1 G2 -> the_dict st dp !! "seed" <> Some PNone ->
  dropout_forward G1 x dp st = dropout_forward G2 x dp st.
Proof.
  intros HG Hseed.
  destruct (the_dict st dp !! "p") as [p|] eqn:Hp.
  2:{ rewrite !dropout_forward_no_p by exact Hp. reflexivity. }
  destruct (the_dict st dp !! "mode") as [mode|] eqn:Hm.
  2:{ rewrite !(dropout_forward_no_mode _ x dp st p) by assumption. reflexivity. }
  destruct (the_dict st dp !! "seed") as [s|] eqn:Hs.
  - rewrite !(dropout_forward_seed_step _ x dp st p mode s Hp Hm Hs).
    unfold py_bind at 1. symmetry. unfold py_bind at 1. symmetry.
    rewrite (np_random_seed_same_draws G1 G2 s st HG) by congruence.
    destruct (np_random_seed G2 s st) as [[u|e] st1]; [|reflexivity].
    apply (dropout_tail_same_draws G1 G2 x dp p mode st1 HG).
  - rewrite !(dropout_forward_unseeded_step _ x dp st p mode Hp Hm Hs).
    apply (dropout_tail_same_draws G1 G2 x dp p mode st HG).
Qed.

Lemma ThreeLayerConvNet_init_same_draws (G1 G2 : generator) (input_dim : Z * Z * Z)
      (num_filters filter_size : Z) (hidden_dim num_classes : pyval) (weight_scale reg : R)
      (dt : dtype) :
  same_draws G1 G2 ->
  ThreeLayerConvNet_init G1 input_dim num_filters filter_size hidden_dim num_classes
    weight_scale reg dt =
  ThreeLayerConvNet_init G2 input_dim num_filters filter_size hidden_dim num_classes
    weight_scale reg dt.
Proof.
  intros HG. destruct input_dim as [[C H] W]. unfold ThreeLayerConvNet_init.
  rewrite (np_random_randn_same_draws G1 G2 HG). reflexivity.
Qed.

(** A generator that draws as [alternating_generator] does and receives
    another state from the operating system. *)
Definition alternating_generator_2 : generator :=
  {| seed_state := fun s => s;
     fresh_state := fun g => (g + 2)%Z;
     rand := fun g sh =>
       ({| shape := sh; data := fun _ => if Z.even g then 0 else 1 / 2 |}, (g + 1)%Z);
     randn := fun g sh => ({| shape := sh; data := fun _ => IZR g |}, (g + 1)%Z);
     rand_shape := fun _ _ => eq_refl;
     randn_shape := fun _ _ => eq_refl |}.

Definition drop_param_none : gmap string pyval :=
  <["p" := PFloat (1 / 4)]> (<["mode" := PStr "train"]> (<["seed" := PNone]> ∅)).
Definition drop_store_none : store :=
  {| dicts := <[0%nat := drop_param_none]> ∅; rng := 0 |}.

(** With the seed [None] the mask follows the entropy. *)
Lemma dropout_forward_seed_none_differs :
  same_draws alternating_generator alternating_generator_2 /\
  the_dict drop_store_none 0 !! "seed" = Some PNone /\
  fst (dropout_forward alternating_generator drop_x0 0 drop_store_none) <>
  fst (dropout_forward alternating_generator_2 drop_x0 0 drop_store_none).
Proof.
  split; [repeat split|]. split; [reflexivity|].
  rewrite !(dropout_forward_seed_step _ drop_x0 0 drop_store_none (PFloat (1 / 4))
              (PStr "train") PNone eq_refl eq_refl eq_refl).
  unfold py_bind, np_random_seed, random_rand, lift, py_ret.
  change (eq_str (PStr "train") "train") with true. cbn [rng dicts rand fresh_state
    alternating_generator alternating_generator_2 as_float fst snd].
  intros Heq. injection Heq as Hout _.
  apply (f_equal (fun f : list nat -> R => f [0%nat])) in Hout. cbv beta in Hout.
  change (Z.even (0 + 1)) with false in Hout. change (Z.even (0 + 2)) with true in Hout.
  cbv iota in Hout.
  destruct (Rlt_dec (1 / 4) 0) as [H1|H1]; [lra|].
  destruct (Rlt_dec (1 / 4) (1 / 2)) as [H2|H2]; [|lra].
  lra.
Qed.

(** A [dropout_param] whose ['seed'] is absent or is a boolean, a number or
    a string: [np.random.seed] then installs a state that depends on the
    seed only, or raises. *)
Definition plain_seed (dropout_param : gmap string pyval) : Prop :=
  match dropout_param !! "seed" with
  | Some PNone | Some (PArr _) => False
  | _ => True
  end.

Lemma plain_seed_not_none (dropout_param : gmap string pyval) :
  plain_seed dropout_param -> dropout_param !! "seed" <> Some PNone.
Proof. unfold plain_seed. intros H E. rewrite E in H. exact H. Qed.


Definition drop_param1 : gmap string pyval :=
  <["p" := PFloat (1 / 4)]> (<["mode" := PStr "train"]> (<["seed" := PInt 7]> ∅)).
Definition drop_store1 (g : Z) : store := {| dicts := <[0%nat := drop_param1]> ∅; rng := g |}.


Lemma ThreeLayerConvNet_init_ignores_sizes_witness :
  exists net st',
    ThreeLayerConvNet_init alternating_generator (3, 32, 32)%Z 32 7 (PInt 500) (PStr "many")
      (1 / 1000) 0 float32 drop_store0 = (Ok net, st') /\
    shape <$> (params net !! "W2") = Some [Z.to_nat (32 * Z.quot 32 2 ^ 2); 100%nat] /\
    shape <$> (params net !! "W3") = Some [100%nat; 10%nat].
Proof.
  destruct (ThreeLayerConvNet_init_ignores_sizes alternating_generator 3 32 32 32 7
              (PInt 500) (PStr "many") (1 / 1000) 0 float32 drop_store0)
    as (net & st' & E & S2 & _ & S3 & _); [lia | lia | lia |].
  exists net, st'. split; [exact E|]. split; [exact S2|exact S3].
Defined.

(** * Further properties of the layers *)

(** ** Elementwise operations on arrays of any rank *)

Lemma zip_with_bdim_diag (s : list nat) : zip_with bdim s s = s.
Proof. induction s as [|d s IH]; [reflexivity|]. cbn [zip_with]. rewrite bdim_diag, IH. reflexivity. Qed.

Lemma broadcast_shapes_diag (s : list nat) : broadcast_shapes s s = s.
Proof.
  unfold broadcast_shapes, lpad1. rewrite Nat.max_id, Nat.sub_diag. cbn [repeat app].
  apply zip_with_bdim_diag.
Qed.

Lemma broadcast_shapes_scalar_l (s : list nat) : broadcast_shapes [] s = s.
Proof.
  unfold broadcast_shapes, lpad1. cbn [length Nat.max]. rewrite Nat.sub_0_r, Nat.sub_diag.
  cbn [repeat app]. rewrite app_nil_r.
  induction s as [|d s IH]; [reflexivity|]. cbn [length repeat zip_with]. rewrite IH.
  reflexivity.
Qed.

Lemma bindex_in_bounds (s idx : list nat) : in_bounds s idx -> bindex s idx = idx.
Proof.
  intros H. unfold bindex. rewrite (in_bounds_length _ _ H), Nat.sub_diag, skipn_O.
  induction H as [|i d idx s Hi Hb IH]; [reflexivity|].
  cbn [zip_with]. unfold bidx at 1. destruct (Nat.eqb_spec d 1) as [->|_].
  - rewrite IH. f_equal. lia.
  - rewrite IH. reflexivity.
Qed.

Lemma bindex_scalar (idx : list nat) : bindex [] idx = [].
Proof. reflexivity. Qed.

Lemma map2_same_shape (op : R -> R -> R) (a b : ndarray) (sh : list nat) :
  shape a = sh -> shape b = sh ->
  shape (map2 op a b) = sh /\
  forall idx, in_bounds sh idx -> data (map2 op a b) idx = op (data a idx) (data b idx).
Proof.
  intros Ha Hb. unfold map2. cbn [shape data]. rewrite Ha, Hb. split.
  - apply broadcast_shapes_diag.
  - intros idx Hidx. rewrite bindex_in_bounds by exact Hidx. reflexivity.
Qed.

Lemma map2_scalar_l (op : R -> R -> R) (c : R) (b : ndarray) :
  shape (map2 op (scalar c) b) = shape b /\
  forall idx, in_bounds (shape b) idx -> data (map2 op (scalar c) b) idx = op c (data b idx).
Proof.
  unfold map2, scalar. cbn [shape data]. split.
  - apply broadcast_shapes_scalar_l.
  - intros idx Hidx. rewrite bindex_in_bounds by exact Hidx. reflexivity.
Qed.

(** ** Rectified linear units *)

(** [np.maximum(a, b)] *)
Definition np_maximum : ndarray -> ndarray -> ndarray := map2 Rmax.

Definition relu_forward (x : ndarray) : ndarray * ndarray :=
  let out := np_maximum (scalar 0) x in
  let cache := x in
  (out, cache).

Definition relu_backward (dout : ndarray) (cache : ndarray) : ndarray :=
  let x := cache in
  let dx := mul dout (greater x 0) in
  dx.

(** The positive part is differentiable away from 0. *)
Lemma dlim_relu_pos (t0 : R) : 0 < t0 -> derivable_pt_lim (fun t => Rmax 0 t) t0 1.
Proof.
  intros Ht eps Heps. exists (mkposreal t0 Ht). intros h Hh Hlt. cbn [pos] in Hlt.
  assert (Hb : h < t0 /\ - t0 < h) by (apply Rabs_def2; exact Hlt).
  rewrite !Rmax_right by lra.
  replace ((t0 + h - t0) / h - 1) with 0 by (field; exact Hh).
  rewrite Rabs_R0. exact Heps.
Qed.

Lemma dlim_relu_neg (t0 : R) : t0 < 0 -> derivable_pt_lim (fun t => Rmax 0 t) t0 0.
Proof.
  intros Ht eps Heps. assert (Hp : 0 < - t0) by lra. exists (mkposreal (- t0) Hp).
  intros h Hh Hlt. cbn [pos] in Hlt.
  assert (Hb : h < - t0 /\ - - t0 < h) by (apply Rabs_def2; exact Hlt).
  rewrite !Rmax_left by lra.
  replace ((0 - 0) / h - 0) with 0 by (field; exact Hh).
  rewrite Rabs_R0. exact Heps.
Qed.

Lemma relu_loss_value (sh : list nat) (x dout : ndarray) :
  shape x = sh -> shape dout = sh ->
  sum (mul dout (fst (relu_forward x))) =
  sum_over sh (fun j => data dout j * Rmax 0 (data x j)).
Proof.
  intros Hx Hd. unfold relu_forward, np_maximum. cbn [fst].
  destruct (map2_scalar_l Rmax 0 x) as [S1 V1]. rewrite Hx in S1, V1.
  destruct (map2_same_shape Rmult dout (map2 Rmax (scalar 0) x) sh Hd S1) as [S2 V2].
  unfold sum, mul. rewrite S2. apply sum_over_ext. intros j Hj.
  rewrite V2, V1 by exact Hj. reflexivity.
Qed.

(** X1: [relu_forward] returns [max(0, x)] and the cache [x]; [relu_backward]
    returns [dout] where [x > 0] and 0 elsewhere, which is the partial
    derivative of [np.sum(dout * out)] at every entry where [x] is not 0. *)
Theorem relu_forward_backward_correct (sh : list nat) (x dout : ndarray) :
  shape x = sh -> shape dout = sh ->
  shape (fst (relu_forward x)) = sh /\
  snd (relu_forward x) = x /\
  (forall idx, in_bounds sh idx ->
     data (fst (relu_forward x)) idx = Rmax 0 (data x idx)) /\
  shape (relu_backward dout (snd (relu_forward x))) = sh /\
  (forall idx, in_bounds sh idx ->
     data (relu_backward dout (snd (relu_forward x))) idx =
     if Rlt_dec 0 (data x idx) then data dout idx else 0) /\
  (forall idx, in_bounds sh idx -> data x idx <> 0 ->
     derivable_pt_lim
       (fun t => sum (mul dout (fst (relu_forward (set_entry x idx t)))))
       (data x idx) (data (relu_backward dout (snd (relu_forward x))) idx)).
Proof.
  intros Hx Hd.
  destruct (map2_scalar_l Rmax 0 x) as [S1 V1]. rewrite Hx in S1, V1.
  assert (Sg : shape (greater x 0) = sh) by exact Hx.
  destruct (map2_same_shape Rmult dout (greater x 0) sh Hd Sg) as [S2 V2].
  assert (Vdx : forall idx, in_bounds sh idx ->
            data (relu_backward dout (snd (relu_forward x))) idx =
            if Rlt_dec 0 (data x idx) then data dout idx else 0).
  { intros idx Hidx. unfold relu_backward, relu_forward, mul. cbn [snd].
    rewrite V2 by exact Hidx. unfold greater. cbn [map1 data].
    destruct (Rlt_dec 0 (data x idx)); lra. }
  split; [exact S1|]. split; [reflexivity|]. split; [exact V1|]. split; [exact S2|].
  split; [exact Vdx|].
  intros idx Hidx Hne. rewrite Vdx by exact Hidx.
  eapply (dlim_eq (fun t => sum_over sh (fun j =>
            data dout j * Rmax 0 (data (set_entry x idx t) j)))).
  - apply (dlim_sum_over sh
             (fun j t => data dout j * Rmax 0 (data (set_entry x idx t) j))
             (fun j => (if Rlt_dec 0 (data x idx) then data dout idx else 0) * indicator idx j)).
    intros j Hj. unfold set_entry, indicator. cbn [data].
    destruct (decide (j = idx)) as [->|Hji].
    + destruct (Rlt_dec 0 (data x idx)) as [Hpos|Hneg].
      * eapply dlim_eq; [apply (dlim_scal_l (data dout idx) _ _ _ (dlim_relu_pos _ Hpos))
                        | intros; reflexivity | lra].
      * assert (Hlt : data x idx < 0) by lra.
        eapply dlim_eq; [apply (dlim_scal_l (data dout idx) _ _ _ (dlim_relu_neg _ Hlt))
                        | intros; reflexivity | lra].
    + eapply dlim_eq; [apply derivable_pt_lim_const | intros; reflexivity | lra].
  - intros t. apply relu_loss_value; [cbn [set_entry shape]; exact Hx|exact Hd].
  - symmetry.
    apply (sum_over_indicator sh idx
             (fun _ => if Rlt_dec 0 (data x idx) then data dout idx else 0) Hidx).
Qed.

Definition relu_x0 : ndarray := matrix_of 1 2 (fun _ j => INR j - 1).
Definition relu_dout0 : ndarray := matrix_of 1 2 (fun _ _ => 2).

Lemma relu_forward_backward_correct_witness :
  shape (fst (relu_forward relu_x0)) = [1; 2]%nat /\
  forall idx, in_bounds [1; 2]%nat idx ->
    data (relu_backward relu_dout0 (snd (relu_forward relu_x0))) idx =
    if Rlt_dec 0 (data relu_x0 idx) then data relu_dout0 idx else 0.
Proof.
  destruct (relu_forward_backward_correct [1; 2]%nat relu_x0 relu_dout0)
    as (S1 & _ & _ & _ & V & _); [reflexivity | reflexivity |].
  split; [exact S1|exact V].
Defined.

(** ** One step of the vanilla RNN *)

(** The loss [np.sum(dnext_h * next_h)] of a forward step. *)
Definition rnn_step_loss (dnext_h : ndarray) (r : ndarray * rnn_step_cache) : R :=
  sum (mul dnext_h (fst r)).

Section RnnStepDerivative.

Variables (N D H : nat).
Variables (X PH WX WH B : R -> ndarray) (X' PH' WX' WH' B' : list nat -> R) (t0 : R).
Hypothesis HX : tangent X t0 X'.
Hypothesis HPH : tangent PH t0 PH'.
Hypothesis HWX : tangent WX t0 WX'.
Hypothesis HWH : tangent WH t0 WH'.
Hypothesis HB : tangent B t0 B'.
Hypothesis Hx : shape (X t0) = [N; D].
Hypothesis Hph : shape (PH t0) = [N; H].
Hypothesis HWx : shape (WX t0) = [D; H].
Hypothesis HWh : shape (WH t0) = [H; H].
Hypothesis Hb : shape (B t0) = [H].
Variable dnext_h : ndarray.
Hypothesis Hdn : shape dnext_h = [N; H].

Lemma rnn_step_loss_value (x prev_h Wx Wh b : ndarray) :
  shape x = [N; D] -> shape prev_h = [N; H] -> shape Wx = [D; H] -> shape Wh = [H; H] ->
  shape b = [H] ->
  rnn_step_loss dnext_h (rnn_step_forward x prev_h Wx Wh b) =
  rsum N (fun n => rsum H (fun k =>
    data dnext_h [n; k] * tanh (lstm_preact D H x prev_h Wx Wh b n k))).
Proof.
  intros Sx Sp SWx SWh Sb.
  destruct (rnn_step_forward_value N D H x prev_h Wx Wh b Sx Sp SWx SWh Sb) as [Sn Vn].
  unfold rnn_step_loss, sum.
  destruct (map2_same_shape Rmult dnext_h (fst (rnn_step_forward x prev_h Wx Wh b))
              [N; H] Hdn Sn) as [Sm Vm].
  unfold mul. rewrite Sm. cbn [sum_over].
  apply rsum_ext. intros n Hn. apply rsum_ext. intros k Hk.
  rewrite Vm by (repeat constructor; assumption). rewrite Vn by assumption. reflexivity.
Qed.

Lemma rnn_step_loss_dlim :
  derivable_pt_lim
    (fun t => rnn_step_loss dnext_h (rnn_step_forward (X t) (PH t) (WX t) (WH t) (B t))) t0
    (let '(dx, dprev_h, dWx, dWh, db) :=
       rnn_step_backward dnext_h
         (snd (rnn_step_forward (X t0) (PH t0) (WX t0) (WH t0) (B t0))) in
     inner dx X' + inner dprev_h PH' + inner dWx WX' + inner dWh WH' + inner db B').
Proof.
  pose proof (preact_path_tangent D H X PH WX WH B X' PH' WX' WH' B' t0 HX HPH HWX HWH HB
                [N; H]) as HA.
  set (Ap := preact_path D H X PH WX WH B [N; H]) in HA.
  set (A' := preact_tangent D H X PH WX WH X' PH' WX' WH' B' t0) in HA.
  destruct (rnn_step_forward_value N D H _ _ _ _ _ Hx Hph HWx HWh Hb) as [Sn Vn].
  unfold rnn_step_forward in *. cbn [fst snd] in *.
  set (nh := np_tanh (add (add (dot (X t0) (WX t0)) (dot (PH t0) (WH t0))) (B t0))) in *.
  destruct (rnn_step_adjoint N D H dnext_h (X t0) (PH t0) (WX t0) (WH t0) nh
              (fun n d => X' [n; d]) (fun n j => PH' [n; j])
              (fun d k => WX' [d; k]) (fun j k => WH' [j; k]) (fun k => B' [k])
              Hdn Hx Hph HWx HWh Sn)
    as (dx & dph & dWx & dWh & db & E & (Sdx & Sdph & SdWx & SdWh & Sdb) & Adj).
  rewrite E.
  eapply (dlim_eq (fun t => rsum N (fun n => rsum H (fun k =>
            data dnext_h [n; k] * tanh (data (Ap t) [n; k]))))).
  - dlim.
  - intros t. apply (rnn_step_loss_value (X t) (PH t) (WX t) (WH t) (B t)).
    + rewrite (proj1 HX). exact Hx.
    + rewrite (proj1 HPH). exact Hph.
    + rewrite (proj1 HWX). exact HWx.
    + rewrite (proj1 HWH). exact HWh.
    + rewrite (proj1 HB). exact Hb.
  - unfold inner. rewrite Sdx, Sdph, SdWx, SdWh, Sdb. cbn [sum_over].
    transitivity
      (rsum N (fun n => rsum D (fun d => data dx [n; d] * X' [n; d])) +
       rsum D (fun d => rsum H (fun k => data dWx [d; k] * WX' [d; k])) +
       rsum N (fun n => rsum H (fun j => data dph [n; j] * PH' [n; j])) +
       rsum H (fun j => rsum H (fun k => data dWh [j; k] * WH' [j; k])) +
       rsum H (fun k => data db [k] * B' [k])); [lra|].
    rewrite <- Adj. apply rsum_ext. intros n Hn. apply rsum_ext. intros k Hk.
    rewrite Vn by assumption. unfold Ap, preact_path, A', preact_tangent. cbn [data nth].
    cbn zeta. ring.
Qed.

End RnnStepDerivative.

Section RnnStepGradients.

Variables (N D H : nat).
Variables x prev_h Wx Wh b dnext_h : ndarray.
Hypothesis Hx : shape x = [N; D].
Hypothesis Hph : shape prev_h = [N; H].
Hypothesis HWx : shape Wx = [D; H].
Hypothesis HWh : shape Wh = [H; H].
Hypothesis Hb : shape b = [H].
Hypothesis Hdn : shape dnext_h = [N; H].
Variables dx dprev_h dWx dWh db : ndarray.
Hypothesis Hbw :
  rnn_step_backward dnext_h (snd (rnn_step_forward x prev_h Wx Wh b)) =
  (dx, dprev_h, dWx, dWh, db).

Lemma rnn_step_backward_shapes :
  shape dx = shape x /\ shape dprev_h = shape prev_h /\ shape dWx = shape Wx /\
  shape dWh = shape Wh /\ shape db = shape b.
Proof.
  destruct (rnn_step_forward_value N D H _ _ _ _ _ Hx Hph HWx HWh Hb) as [Sn _].
  unfold rnn_step_forward in *. cbn [fst snd] in *.
  destruct (rnn_step_backward_value N D H dnext_h x prev_h Wx Wh _ Hdn Hx Hph HWx HWh Sn)
    as (dx1 & dph1 & dWx1 & dWh1 & db1 & dH & E & Hs & _).
  rewrite E in Hbw. injection Hbw as <- <- <- <- <-.
  rewrite Hx, Hph, HWx, HWh, Hb. exact Hs.
Qed.

Let loss := rnn_step_loss dnext_h.

Ltac rnn_step_partial X PH WX WH B X' PH' WX' WH' B' t0 :=
  eapply dlim_eq; [ | intros; unfold loss; reflexivity | ];
  [ eapply (rnn_step_loss_dlim N D H X PH WX WH B X' PH' WX' WH' B' t0);
    lazymatch goal with
    | |- tangent (set_entry _ _) _ _ => apply tangent_set_entry
    | |- tangent _ _ _ => apply tangent_const
    | |- shape _ = _ => cbn [shape set_entry]; assumption
    end
  | cbn beta; rewrite ?set_entry_same, Hbw, !inner_zero, inner_indicator; [lra|] ].

Lemma rnn_step_gradient_x :
  gradient_at (fun x' => loss (rnn_step_forward x' prev_h Wx Wh b)) x dx.
Proof.
  destruct rnn_step_backward_shapes as (S1 & S2 & S3 & S4 & S5).
  split; [exact S1|]. intros idx Hidx.
  rnn_step_partial (set_entry x idx) (fun _ : R => prev_h) (fun _ : R => Wx) (fun _ : R => Wh)
    (fun _ : R => b) (indicator idx) (fun _ : list nat => 0) (fun _ : list nat => 0)
    (fun _ : list nat => 0) (fun _ : list nat => 0) (data x idx).
  rewrite S1. exact Hidx.
Qed.

Lemma rnn_step_gradient_prev_h :
  gradient_at (fun h' => loss (rnn_step_forward x h' Wx Wh b)) prev_h dprev_h.
Proof.
  destruct rnn_step_backward_shapes as (S1 & S2 & S3 & S4 & S5).
  split; [exact S2|]. intros idx Hidx.
  rnn_step_partial (fun _ : R => x) (set_entry prev_h idx) (fun _ : R => Wx) (fun _ : R => Wh)
    (fun _ : R => b) (fun _ : list nat => 0) (indicator idx) (fun _ : list nat => 0)
    (fun _ : list nat => 0) (fun _ : list nat => 0) (data prev_h idx).
  rewrite S2. exact Hidx.
Qed.

Lemma rnn_step_gradient_Wx :
  gradient_at (fun W' => loss (rnn_step_forward x prev_h W' Wh b)) Wx dWx.
Proof.
  destruct rnn_step_backward_shapes as (S1 & S2 & S3 & S4 & S5).
  split; [exact S3|]. intros idx Hidx.
  rnn_step_partial (fun _ : R => x) (fun _ : R => prev_h) (set_entry Wx idx) (fun _ : R => Wh)
    (fun _ : R => b) (fun _ : list nat => 0) (fun _ : list nat => 0) (indicator idx)
    (fun _ : list nat => 0) (fun _ : list nat => 0) (data Wx idx).
  rewrite S3. exact Hidx.
Qed.

Lemma rnn_step_gradient_Wh :
  gradient_at (fun W' => loss (rnn_step_forward x prev_h Wx W' b)) Wh dWh.
Proof.
  destruct rnn_step_backward_shapes as (S1 & S2 & S3 & S4 & S5).
  split; [exact S4|]. intros idx Hidx.
  rnn_step_partial (fun _ : R => x) (fun _ : R => prev_h) (fun _ : R => Wx) (set_entry Wh idx)
    (fun _ : R => b) (fun _ : list nat => 0) (fun _ : list nat => 0) (fun _ : list nat => 0)
    (indicator idx) (fun _ : list nat => 0) (data Wh idx).
  rewrite S4. exact Hidx.
Qed.

Lemma rnn_step_gradient_b :
  gradient_at (fun b' => loss (rnn_step_forward x prev_h Wx Wh b')) b db.
Proof.
  destruct rnn_step_backward_shapes as (S1 & S2 & S3 & S4 & S5).
  split; [exact S5|]. intros idx Hidx.
  rnn_step_partial (fun _ : R => x) (fun _ : R => prev_h) (fun _ : R => Wx) (fun _ : R => Wh)
    (set_entry b idx) (fun _ : list nat => 0) (fun _ : list nat => 0) (fun _ : list nat => 0)
    (fun _ : list nat => 0) (indicator idx) (data b idx).
  rewrite S5. exact Hidx.
Qed.

End RnnStepGradients.

(** X2: for [x] of shape [(N, D)], [prev_h] of shape [(N, H)], [Wx] of shape
    [(D, H)], [Wh] of shape [(H, H)] and [b] of shape [(H,)],
    [rnn_step_forward] returns [next_h = tanh(x.Wx + prev_h.Wh + b)] of shape
    [(N, H)], and [rnn_step_backward] applied to any [dnext_h] of shape
    [(N, H)] and the forward cache returns the gradients of
    [np.sum(dnext_h * next_h)] with respect to [x], [prev_h], [Wx], [Wh] and
    [b]. *)
Theorem rnn_step_forward_backward_correct (N D H : nat) (x prev_h Wx Wh b : ndarray) :
  shape x = [N; D] -> shape prev_h = [N; H] -> shape Wx = [D; H] -> shape Wh = [H; H] ->
  shape b = [H] ->
  shape (fst (rnn_step_forward x prev_h Wx Wh b)) = [N; H] /\
  (forall n k, (n < N)%nat -> (k < H)%nat ->
     data (fst (rnn_step_forward x prev_h Wx Wh b)) [n; k] =
     tanh (rsum D (fun d => data x [n; d] * data Wx [d; k]) +
           rsum H (fun j => data prev_h [n; j] * data Wh [j; k]) + data b [k])) /\
  forall dnext_h, shape dnext_h = [N; H] ->
    exists dx dprev_h dWx dWh db,
      rnn_step_backward dnext_h (snd (rnn_step_forward x prev_h Wx Wh b)) =
        (dx, dprev_h, dWx, dWh, db) /\
      let loss := rnn_step_loss dnext_h in
      gradient_at (fun x' => loss (rnn_step_forward x' prev_h Wx Wh b)) x dx /\
      gradient_at (fun h' => loss (rnn_step_forward x h' Wx Wh b)) prev_h dprev_h /\
      gradient_at (fun W' => loss (rnn_step_forward x prev_h W' Wh b)) Wx dWx /\
      gradient_at (fun W' => loss (rnn_step_forward x prev_h Wx W' b)) Wh dWh /\
      gradient_at (fun b' => loss (rnn_step_forward x prev_h Wx Wh b')) b db.
Proof.
  intros Hx Hph HWx HWh Hb.
  destruct (rnn_step_forward_value N D H x prev_h Wx Wh b Hx Hph HWx HWh Hb) as [Sn Vn].
  split; [exact Sn|]. split; [exact Vn|].
  intros dnext_h Hdn.
  destruct (rnn_step_backward dnext_h (snd (rnn_step_forward x prev_h Wx Wh b)))
    as [[[[dx dph] dWx] dWh] db] eqn:Hbw.
  exists dx, dph, dWx, dWh, db. split; [reflexivity|]. cbn zeta.
  split; [|split; [|split; [|split]]].
  - apply (rnn_step_gradient_x N D H x prev_h Wx Wh b dnext_h Hx Hph HWx HWh Hb Hdn
             dx dph dWx dWh db Hbw).
  - apply (rnn_step_gradient_prev_h N D H x prev_h Wx Wh b dnext_h Hx Hph HWx HWh Hb Hdn
             dx dph dWx dWh db Hbw).
  - apply (rnn_step_gradient_Wx N D H x prev_h Wx Wh b dnext_h Hx Hph HWx HWh Hb Hdn
             dx dph dWx dWh db Hbw).
  - apply (rnn_step_gradient_Wh N D H x prev_h Wx Wh b dnext_h Hx Hph HWx HWh Hb Hdn
             dx dph dWx dWh db Hbw).
  - apply (rnn_step_gradient_b N D H x prev_h Wx Wh b dnext_h Hx Hph HWx HWh Hb Hdn
             dx dph dWx dWh db Hbw).
Qed.

Definition step_x0 : ndarray := matrix_of 2 3 (fun n d => INR n - INR d).
Definition step_h0 : ndarray := matrix_of 2 1 (fun n _ => INR n).
Definition step_Wx0 : ndarray := matrix_of 3 1 (fun d _ => INR d).
Definition step_Wh0 : ndarray := matrix_of 1 1 (fun _ _ => 2).
Definition step_b0 : ndarray := {| shape := [1%nat]; data := fun _ => 0 |}.

Lemma rnn_step_forward_backward_correct_witness :
  shape (fst (rnn_step_forward step_x0 step_h0 step_Wx0 step_Wh0 step_b0)) = [2; 1]%nat.
Proof.
  apply (rnn_step_forward_backward_correct 2 3 1 step_x0 step_h0 step_Wx0 step_Wh0 step_b0);
    reflexivity.
Defined.

(** ** The logistic sigmoid *)

(** X3: the masked computation of [sigmoid] gives the logistic function
    [1 / (1 + exp(-x))] at every entry of a matrix, a number strictly
    between 0 and 1. *)
Theorem sigmoid_is_logistic (n m : nat) (x : ndarray) (i j : nat) :
  shape x = [n; m] -> (i < n)%nat -> (j < m)%nat ->
  shape (sigmoid x) = [n; m] /\
  data (sigmoid x) [i; j] = 1 / (1 + exp (- data x [i; j])) /\
  0 < data (sigmoid x) [i; j] < 1.
Proof.
  intros Hx Hi Hj. split; [exact (sigmoid_shape x n m Hx)|].
  rewrite (sigmoid_value x n m i j Hx Hi Hj). unfold logistic.
  pose proof (exp_pos (- data x [i; j])) as He.
  assert (Hp : 0 < 1 + exp (- data x [i; j])) by lra.
  split; [unfold Rdiv; lra|].
  pose proof (Rinv_0_lt_compat _ Hp) as Hinv. split; [exact Hinv|].
  rewrite <- Rinv_1 at 2. apply Rinv_lt_contravar; lra.
Qed.

Lemma sigmoid_is_logistic_witness :
  data (sigmoid step_x0) [1; 2]%nat = 1 / (1 + exp (- data step_x0 [1; 2]%nat)).
Proof.
  apply (sigmoid_is_logistic 2 3 step_x0 1 2); [reflexivity | lia | lia].
Defined.

(** ** The forward pass of max pooling *)

Lemma rmax_ge (n : nat) (f : nat -> R) (k : nat) : (k < n)%nat -> f k <= rmax n f.
Proof.
  induction n as [|n IH]; intros Hk; [lia|].
  destruct n as [|n'].
  - assert (k = 0%nat) as -> by lia. cbn [rmax]. lra.
  - change (rmax (S (S n')) f) with (Rmax (rmax (S n') f) (f (S n'))).
    destruct (Nat.eq_dec k (S n')) as [->|Hne].
    + apply Rmax_r.
    + eapply Rle_trans; [apply IH; lia|apply Rmax_l].
Qed.

Lemma np_max_window_flat (N C h w : nat) (a : ndarray) :
  shape a = [N; C; h; w] -> (1 <= h)%nat -> (1 <= w)%nat ->
  exists m, np_max a [2; 3]%nat false = Ok m /\ shape m = [N; C] /\
    forall n c, data m [n; c] = rmax h (fun p => rmax w (fun q => data a [n; c; p; q])).
Proof.
  intros Ha Hh Hw. unfold np_max. rewrite Ha.
  cbn [length axis_mask seq map existsb Nat.eqb orb pick Bool.eqb].
  destruct h as [|h']; [lia|]. destruct w as [|w']; [lia|].
  cbn [Nat.eqb orb]. eexists. split; [reflexivity|]. split; [reflexivity|].
  intros n c. cbn [data pick Bool.eqb max_over merge_index hd tl]. reflexivity.
Qed.

Section PoolForward.

Variables (N C H W h w S HH WW : nat).
Variable x : ndarray.
Hypothesis Hx : shape x = [N; C; H; W].
Hypothesis Hh : (1 <= h)%nat.
Hypothesis Hw : (1 <= w)%nat.
Hypothesis Hrows : forall i, (i < HH)%nat -> (S * i + h <= H)%nat.
Hypothesis Hcols : forall j, (j < WW)%nat -> (S * j + w <= W)%nat.

Let window (i j : nat) : ndarray :=
  getitem x [IAll; IAll;
             ISlice (Z.of_nat S * Z.of_nat i) (Z.of_nat S * Z.of_nat i + Z.of_nat h);
             ISlice (Z.of_nat S * Z.of_nat j) (Z.of_nat S * Z.of_nat j + Z.of_nat w)].

Let pooled (i j : nat) : ndarray :=
  match np_max (window i j) [2; 3]%nat false with
  | Ok m => m
  | Raise _ => zeros []
  end.

Lemma pooled_value (i j : nat) :
  (i < HH)%nat -> (j < WW)%nat ->
  np_max (window i j) [2; 3]%nat false = Ok (pooled i j) /\
  shape (pooled i j) = [N; C] /\
  forall n c, data (pooled i j) [n; c] = window_max h w S x n c i j.
Proof.
  intros Hi Hj. unfold pooled.
  pose proof (Hrows i Hi) as Hr. pose proof (Hcols j Hj) as Hc.
  destruct (window_value N C H W h w S Hh Hw x i j Hx Hr Hc) as [Sa Va]. cbn zeta in Sa, Va.
  assert (Ew : window i j =
               getitem x [IAll; IAll; ISlice (Z.of_nat (S * i)) (Z.of_nat (S * i + h));
                          ISlice (Z.of_nat (S * j)) (Z.of_nat (S * j + w))]).
  { unfold window. repeat f_equal; lia. }
  rewrite Ew.
  destruct (np_max_window_flat N C h w _ Sa Hh Hw) as (m & Em & Sm & Vm).
  rewrite Em. split; [reflexivity|]. split; [exact Sm|].
  intros n c. rewrite Vm. unfold window_max. f_equal.
  apply functional_extensionality. intros p. f_equal.
  apply functional_extensionality. intros q. apply Va.
Qed.

Lemma pool_forward_loop :
  exists out,
    for_range_res HH (fun i out =>
      for_range_res WW (fun j out =>
        let* m := np_max (window i j) [2; 3]%nat false in
        Ok (setitem out [IAll; IAll; IInt (Z.of_nat i); IInt (Z.of_nat j)] m)) out)
      (zeros [N; C; HH; WW]) = Ok out /\
    shape out = [N; C; HH; WW] /\
    forall n c i j, (n < N)%nat -> (c < C)%nat -> (i < HH)%nat -> (j < WW)%nat ->
      data out [n; c; i; j] = window_max h w S x n c i j.
Proof.
  destruct (nested_loop_value pooled N C HH WW HH WW (zeros [N; C; HH; WW]) eq_refl)
    as [Hs Hd].
  eexists. split; [|split; [exact Hs|]].
  - apply (for_range_res_ok HH _
             (fun i out => for_range WW (fun j out =>
                setitem out [IAll; IAll; IInt (Z.of_nat i); IInt (Z.of_nat j)] (pooled i j))
                out)).
    intros i a Hi.
    apply (for_range_res_ok WW _
             (fun j out =>
                setitem out [IAll; IAll; IInt (Z.of_nat i); IInt (Z.of_nat j)] (pooled i j))).
    intros j a0 Hj. destruct (pooled_value i j Hi Hj) as (E & _). rewrite E. reflexivity.
  - intros n c i j Hn Hc Hi Hj. rewrite Hd.
    destruct (Nat.ltb_spec i HH); [|lia]. destruct (Nat.ltb_spec j WW); [|lia].
    cbn [andb]. destruct (pooled_value i j Hi Hj) as (_ & Sp & Vp).
    rewrite Sp. rewrite bindex_in_bounds by (repeat constructor; assumption). apply Vp.
Qed.

End PoolForward.

Lemma pool_dim (H h S : nat) :
  (h <= H)%nat -> (1 <= S)%nat ->
  Z.to_nat ((Z.of_nat H - Z.of_nat h) / Z.of_nat S + 1) = ((H - h) / S + 1)%nat.
Proof. intros Hh HS. rewrite <- Nat2Z.inj_sub, <- Nat2Z.inj_div by lia. lia. Qed.

Section PoolRun.

Variables (N C H W h w S : nat) (x : ndarray) (pool_param : nat) (st : store).
Variable pp : gmap string pyval.
Hypothesis Hpp : dicts st !! pool_param = Some pp.
Hypothesis Hph : pp !! "pool_height" = Some (PInt (Z.of_nat h)).
Hypothesis Hpw : pp !! "pool_width" = Some (PInt (Z.of_nat w)).
Hypothesis Hps : pp !! "stride" = Some (PInt (Z.of_nat S)).
Hypothesis Hx : shape x = [N; C; H; W].
Hypothesis Hh : (1 <= h <= H)%nat.
Hypothesis Hw : (1 <= w <= W)%nat.
Hypothesis HS : (1 <= S)%nat.

Let HH := ((H - h) / S + 1)%nat.
Let WW := ((W - w) / S + 1)%nat.

Lemma pool_dims_Z :
  ((Z.of_nat H - Z.of_nat h) / Z.of_nat S + 1)%Z = Z.of_nat HH /\
  ((Z.of_nat W - Z.of_nat w) / Z.of_nat S + 1)%Z = Z.of_nat WW.
Proof.
  split.
  - unfold HH. rewrite <- (pool_dim H h S) by lia. rewrite Z2Nat.id; [reflexivity|].
    assert (0 <= (Z.of_nat H - Z.of_nat h) / Z.of_nat S)%Z by (apply Z.div_pos; lia).
    lia.
  - unfold WW. rewrite <- (pool_dim W w S) by lia. rewrite Z2Nat.id; [reflexivity|].
    assert (0 <= (Z.of_nat W - Z.of_nat w) / Z.of_nat S)%Z by (apply Z.div_pos; lia).
    lia.
Qed.

Lemma max_pool_forward_value :
  exists out,
    max_pool_forward_naive x pool_param st = (Ok (out, (x, pool_param)), st) /\
    shape out = [N; C; HH; WW] /\
    forall n c i j, (n < N)%nat -> (c < C)%nat -> (i < HH)%nat -> (j < WW)%nat ->
      data out [n; c; i; j] = window_max h w S x n c i j.
Proof.
  destruct (pool_forward_loop N C H W h w S HH WW x Hx) as (out & E & Sout & Vout);
    try lia.
  - intros i Hi. apply pool_rows_fit; unfold HH in *; lia.
  - intros j Hj. apply pool_rows_fit; unfold WW in *; lia.
  - exists out. split; [|split; [exact Sout|exact Vout]].
    unfold max_pool_forward_naive.
    unfold py_bind at 1. rewrite (getitem_int_value st pool_param pp "pool_height" _ Hpp Hph).
    unfold py_bind at 1. rewrite (getitem_int_value st pool_param pp "pool_width" _ Hpp Hpw).
    unfold py_bind at 1. rewrite (getitem_int_value st pool_param pp "stride" _ Hpp Hps).
    unfold dim. rewrite Hx. cbn [nth].
    rewrite !truediv_pos by lia. py_step. py_step.
    rewrite !int_of_div_succ by lia.
    destruct pool_dims_Z as [EH EW]. rewrite EH, EW.
    change [Z.of_nat N; Z.of_nat C; Z.of_nat HH; Z.of_nat WW]
      with (map Z.of_nat [N; C; HH; WW]).
    rewrite np_zeros_of_nat. py_step. rewrite !Nat2Z.id.
    cbn zeta in E. rewrite E. py_step. reflexivity.
Qed.

Lemma max_pool_backward_value (dout : ndarray) :
  shape dout = [N; C; HH; WW] ->
  exists dx,
    max_pool_backward_naive dout (x, pool_param) st = (Ok dx, st) /\
    shape dx = [N; C; H; W] /\
    forall n c y z, (n < N)%nat -> (c < C)%nat -> (y < H)%nat -> (z < W)%nat ->
      data dx [n; c; y; z] =
      rsum HH (fun i => rsum WW (fun j => pool_contribution h w S x dout i j [n; c; y; z])).
Proof.
  intros Hd.
  destruct (pool_loop_value N C H W h w S HH WW x dout Hx Hd) as (dx & E & Sdx & Vdx);
    try lia.
  - intros i Hi. apply pool_rows_fit; unfold HH in *; lia.
  - intros j Hj. apply pool_rows_fit; unfold WW in *; lia.
  - exists dx. split; [|split; [exact Sdx|exact Vdx]].
    unfold max_pool_backward_naive.
    unfold py_bind at 1. rewrite (getitem_int_value st pool_param pp "pool_height" _ Hpp Hph).
    unfold py_bind at 1. rewrite (getitem_int_value st pool_param pp "pool_width" _ Hpp Hpw).
    unfold py_bind at 1. rewrite (getitem_int_value st pool_param pp "stride" _ Hpp Hps).
    unfold dim. rewrite Hx. cbn [nth].
    rewrite !truediv_pos by lia. py_step. py_step.
    rewrite !int_of_div_succ by lia.
    destruct pool_dims_Z as [EH EW]. rewrite EH, EW, !Nat2Z.id.
    cbn zeta in E. rewrite E. py_step. reflexivity.
Qed.

End PoolRun.

(** X4: for [x] of shape [(N, C, H, W)] and pooling windows that fit,
    [max_pool_forward_naive] returns [out] of shape [(N, C, H', W')] with
    [H' = (H - h) // S + 1] and [W' = (W - w) // S + 1]; [out[n, c, i, j]] is
    the maximum of the window: it bounds every entry of the window and is one
    of them.  The cache is [(x, pool_param)] and the store is unchanged. *)
Theorem max_pool_forward_naive_correct
    (N C H W h w S : nat) (x : ndarray) (pool_param : nat) (st : store)
    (pp : gmap string pyval) :
  dicts st !! pool_param = Some pp ->
  pp !! "pool_height" = Some (PInt (Z.of_nat h)) ->
  pp !! "pool_width" = Some (PInt (Z.of_nat w)) ->
  pp !! "stride" = Some (PInt (Z.of_nat S)) ->
  shape x = [N; C; H; W] ->
  (1 <= h <= H)%nat -> (1 <= w <= W)%nat -> (1 <= S)%nat ->
  let HH := ((H - h) / S + 1)%nat in
  let WW := ((W - w) / S + 1)%nat in
  exists out,
    max_pool_forward_naive x pool_param st = (Ok (out, (x, pool_param)), st) /\
    shape out = [N; C; HH; WW] /\
    forall n c i j, (n < N)%nat -> (c < C)%nat -> (i < HH)%nat -> (j < WW)%nat ->
      (forall p q, (p < h)%nat -> (q < w)%nat ->
         data x [n; c; (S * i + p)%nat; (S * j + q)%nat] <= data out [n; c; i; j]) /\
      exists p q, (p < h)%nat /\ (q < w)%nat /\
        data out [n; c; i; j] = data x [n; c; (S * i + p)%nat; (S * j + q)%nat].
Proof.
  intros Hpp Hph Hpw Hps Hx Hh Hw HS HH WW.
  destruct (max_pool_forward_value N C H W h w S x pool_param st pp Hpp Hph Hpw Hps Hx Hh Hw HS)
    as (out & E & Sout & Vout).
  exists out. split; [exact E|]. split; [exact Sout|].
  intros n c i j Hn Hc Hi Hj. rewrite (Vout n c i j Hn Hc Hi Hj). unfold window_max.
  split.
  - intros p q Hp Hq.
    eapply Rle_trans;
      [apply (rmax_ge w (fun q => data x [n; c; (S * i + p)%nat; (S * j + q)%nat]) q Hq)|].
    apply (rmax_ge h (fun p => rmax w (fun q =>
             data x [n; c; (S * i + p)%nat; (S * j + q)%nat])) p Hp).
  - destruct (rmax_attained h (fun p => rmax w (fun q =>
                data x [n; c; (S * i + p)%nat; (S * j + q)%nat]))) as (p & Hp & Ep); [lia|].
    destruct (rmax_attained w (fun q =>
                data x [n; c; (S * i + p)%nat; (S * j + q)%nat])) as (q & Hq & Eq); [lia|].
    exists p, q. split; [exact Hp|]. split; [exact Hq|]. rewrite <- Ep, <- Eq. reflexivity.
Qed.

Lemma max_pool_forward_naive_correct_witness :
  exists out,
    max_pool_forward_naive pool_x0 0 pool_store0 = (Ok (out, (pool_x0, 0%nat)), pool_store0) /\
    shape out = [1; 1; 1; 1]%nat.
Proof.
  destruct (max_pool_forward_naive_correct 1 1 2 2 2 2 2 pool_x0 0 pool_store0 pool_param0)
    as (out & E & Sout & _);
    [reflexivity | reflexivity | reflexivity | reflexivity | reflexivity | lia | lia | lia |].
  exists out. split; [exact E|exact Sout].
Defined.

(** ** The maximum of a window as a function of one entry *)

Definition upd (f : nat -> R) (k0 : nat) (v : R) : nat -> R :=
  fun k => if (k =? k0)%nat then v else f k.

Lemma rmax_ext (n : nat) (f g : nat -> R) :
  (forall k, (k < n)%nat -> f k = g k) -> rmax n f = rmax n g.
Proof.
  induction n as [|n IH]; intros H; [reflexivity|].
  destruct n as [|n'].
  - cbn [rmax]. apply H. lia.
  - change (rmax (S (S n')) f) with (Rmax (rmax (S n') f) (f (S n'))).
    change (rmax (S (S n')) g) with (Rmax (rmax (S n') g) (g (S n'))).
    rewrite IH by (intros; apply H; lia). rewrite H by lia. reflexivity.
Qed.

(** As a function of the entry [k0], the maximum of [n] numbers is the
    entry itself when there is no other, and otherwise the larger of the
    entry and the maximum [c] of the others. *)
Lemma rmax_one_entry (n : nat) (f : nat -> R) (k0 : nat) :
  (k0 < n)%nat ->
  (n = 1%nat /\ forall v, rmax n (upd f k0 v) = v) \/
  exists c,
    (exists k1, (k1 < n)%nat /\ k1 <> k0 /\ f k1 = c) /\
    (forall k, (k < n)%nat -> k <> k0 -> f k <= c) /\
    forall v, rmax n (upd f k0 v) = Rmax v c.
Proof.
  induction n as [|n IH]; intros Hk; [lia|].
  destruct n as [|n'].
  - left. split; [reflexivity|]. intros v. assert (k0 = 0%nat) as -> by lia. reflexivity.
  - right. destruct (Nat.eq_dec k0 (S n')) as [->|Hne].
    + exists (rmax (S n') f). split; [|split].
      * destruct (rmax_attained (S n') f) as (k1 & Hk1 & E1); [lia|].
        exists k1. split; [lia|]. split; [lia|exact E1].
      * intros k Hlt Hnk. apply rmax_ge. lia.
      * intros v.
        change (rmax (S (S n')) (upd f (S n') v))
          with (Rmax (rmax (S n') (upd f (S n') v)) (upd f (S n') v (S n'))).
        rewrite (rmax_ext (S n') (upd f (S n') v) f).
        2:{ intros k Hlt. unfold upd. destruct (Nat.eqb_spec k (S n')); [lia|reflexivity]. }
        unfold upd at 1. rewrite Nat.eqb_refl. apply Rmax_comm.
    + assert (Hlast : forall v, upd f k0 v (S n') = f (S n')).
      { intros v. unfold upd. destruct (Nat.eqb_spec (S n') k0); [lia|reflexivity]. }
      destruct IH as [[E1 Hv]|(c & (k1 & Hk1 & Hn1 & E1) & Hb & Hv)]; [lia| |].
      * exists (f (S n')). split; [|split].
        -- exists (S n'). split; [lia|]. split; [lia|reflexivity].
        -- intros k Hlt Hnk. assert (k = S n') as -> by lia. lra.
        -- intros v.
           change (rmax (S (S n')) (upd f k0 v))
             with (Rmax (rmax (S n') (upd f k0 v)) (upd f k0 v (S n'))).
           rewrite Hv, Hlast. reflexivity.
      * exists (Rmax c (f (S n'))). split; [|split].
        -- unfold Rmax. destruct (Rle_dec c (f (S n'))).
           ++ exists (S n'). split; [lia|]. split; [lia|reflexivity].
           ++ exists k1. split; [lia|]. split; [exact Hn1|exact E1].
        -- intros k Hlt Hnk. destruct (Nat.eq_dec k (S n')) as [->|Hk'].
           ++ apply Rmax_r.
           ++ eapply Rle_trans; [apply Hb; lia|apply Rmax_l].
        -- intros v.
           change (rmax (S (S n')) (upd f k0 v))
             with (Rmax (rmax (S n') (upd f k0 v)) (upd f k0 v (S n'))).
           rewrite Hv, Hlast. symmetry. apply Rmax_assoc.
Qed.

(** The same for the maximum of an [h] by [w] window. *)
Lemma window_one_entry (h w : nat) (F : nat -> nat -> R) (p0 q0 : nat) :
  (p0 < h)%nat -> (q0 < w)%nat ->
  let M := fun v =>
    rmax h (fun p => rmax w (fun q => if ((p =? p0) && (q =? q0))%nat then v else F p q)) in
  (forall v, M v = v) /\ (h = 1%nat /\ w = 1%nat) \/
  exists c,
    (exists p q, (p < h)%nat /\ (q < w)%nat /\ (p <> p0 \/ q <> q0) /\ F p q = c) /\
    (forall p q, (p < h)%nat -> (q < w)%nat -> (p <> p0 \/ q <> q0) -> F p q <= c) /\
    forall v, M v = Rmax v c.
Proof.
  intros Hp Hq M.
  set (G := fun p => rmax w (fun q => F p q)).
  assert (EM : forall v, M v = rmax h (upd G p0 (rmax w (upd (F p0) q0 v)))).
  { intros v. unfold M. apply rmax_ext. intros p Hlt. unfold upd at 1.
    destruct (Nat.eqb_spec p p0) as [->|Hne]; cbn [andb].
    - apply rmax_ext. intros q Hlq. unfold upd. destruct (q =? q0)%nat; reflexivity.
    - reflexivity. }
  destruct (rmax_one_entry w (F p0) q0 Hq)
    as [[Ew Hin]|(c1 & (q1 & Hq1 & Hn1 & E1) & Hb1 & Hin)];
    destruct (rmax_one_entry h G p0 Hp)
      as [[Eh Hout]|(c2 & (p2 & Hp2 & Hn2 & E2) & Hb2 & Hout)].
  - left. split; [|split; assumption]. intros v. rewrite EM, Hout, Hin. reflexivity.
  - right. exists c2. split; [|split].
    + destruct (rmax_attained w (fun q => F p2 q)) as (q2 & Hq2 & Eq2); [lia|].
      exists p2, q2. split; [exact Hp2|]. split; [exact Hq2|]. split; [left; exact Hn2|].
      rewrite Eq2. exact E2.
    + intros p q Hlp Hlq [Hne|Hne].
      * eapply Rle_trans; [apply (rmax_ge w (fun q => F p q) q Hlq)|]. apply (Hb2 p Hlp Hne).
      * lia.
    + intros v. rewrite EM, Hout, Hin. reflexivity.
  - right. exists c1. split; [|split].
    + exists p0, q1. split; [exact Hp|]. split; [exact Hq1|]. split; [right; exact Hn1|exact E1].
    + intros p q Hlp Hlq [Hne|Hne]; [lia|]. assert (p = p0) as -> by lia. apply Hb1; assumption.
    + intros v. rewrite EM, Hout, Hin. reflexivity.
  - right. exists (Rmax c1 c2). split; [|split].
    + unfold Rmax. destruct (Rle_dec c1 c2).
      * destruct (rmax_attained w (fun q => F p2 q)) as (q2 & Hq2 & Eq2); [lia|].
        exists p2, q2. split; [exact Hp2|]. split; [exact Hq2|]. split; [left; exact Hn2|].
        rewrite Eq2. exact E2.
      * exists p0, q1. split; [exact Hp|]. split; [exact Hq1|]. split; [right; exact Hn1|exact E1].
    + intros p q Hlp Hlq Hne. destruct (Nat.eq_dec p p0) as [->|Hpp].
      * eapply Rle_trans; [apply Hb1; [exact Hlq|lia]|apply Rmax_l].
      * eapply Rle_trans; [apply (rmax_ge w (fun q => F p q) q Hlq)|].
        eapply Rle_trans; [apply (Hb2 p Hlp Hpp)|apply Rmax_r].
    + intros v. rewrite EM, Hout, Hin. symmetry. apply Rmax_assoc.
Qed.

Lemma dlim_Rmax_above (c t0 : R) : c < t0 -> derivable_pt_lim (fun t => Rmax t c) t0 1.
Proof.
  intros Ht eps Heps. assert (Hp : 0 < t0 - c) by lra. exists (mkposreal (t0 - c) Hp).
  intros d Hd Hlt. cbn [pos] in Hlt.
  assert (Hb : d < t0 - c /\ - (t0 - c) < d) by (apply Rabs_def2; exact Hlt).
  rewrite !Rmax_left by lra.
  replace ((t0 + d - t0) / d - 1) with 0 by (field; exact Hd).
  rewrite Rabs_R0. exact Heps.
Qed.

Lemma dlim_Rmax_below (c t0 : R) : t0 < c -> derivable_pt_lim (fun t => Rmax t c) t0 0.
Proof.
  intros Ht eps Heps. assert (Hp : 0 < c - t0) by lra. exists (mkposreal (c - t0) Hp).
  intros d Hd Hlt. cbn [pos] in Hlt.
  assert (Hb : d < c - t0 /\ - (c - t0) < d) by (apply Rabs_def2; exact Hlt).
  rewrite !Rmax_right by lra.
  replace ((c - c) / d - 0) with 0 by (field; exact Hd).
  rewrite Rabs_R0. exact Heps.
Qed.

Section PoolGradient.

Variables (N C H W h w S HH WW : nat).
Variables x dout : ndarray.
Variables n c y z : nat.

(** No window that holds the entry [(y, z)] has the entry tied with another
    one for its maximum. *)
Definition untied : Prop :=
  forall i j, (i < HH)%nat -> (j < WW)%nat ->
    (S * i <= y < S * i + h)%nat -> (S * j <= z < S * j + w)%nat ->
    data x [n; c; y; z] <> window_max h w S x n c i j \/
    forall p q, (p < h)%nat -> (q < w)%nat ->
      ((S * i + p)%nat <> y \/ (S * j + q)%nat <> z) ->
      data x [n; c; (S * i + p)%nat; (S * j + q)%nat] < data x [n; c; y; z].

Hypothesis Huntied : untied.

Lemma window_max_other (n' c' i j : nat) (t : R) :
  (forall p q, (p < h)%nat -> (q < w)%nat ->
     [n'; c'; (S * i + p)%nat; (S * j + q)%nat] <> [n; c; y; z]) ->
  window_max h w S (set_entry x [n; c; y; z] t) n' c' i j = window_max h w S x n' c' i j.
Proof.
  intros Hne. unfold window_max. apply rmax_ext. intros p Hp. apply rmax_ext. intros q Hq.
  unfold set_entry. cbn [data].
  destruct (decide ([n'; c'; (S * i + p)%nat; (S * j + q)%nat] = [n; c; y; z])) as [E|_];
    [|reflexivity].
  exfalso. exact (Hne p q Hp Hq E).
Qed.

Lemma window_max_entry_dlim (n' c' i j : nat) :
  (i < HH)%nat -> (j < WW)%nat ->
  derivable_pt_lim
    (fun t => data dout [n'; c'; i; j] *
              window_max h w S (set_entry x [n; c; y; z] t) n' c' i j)
    (data x [n; c; y; z])
    (if ((n' =? n) && (c' =? c))%nat
     then pool_contribution h w S x dout i j [n; c; y; z] else 0).
Proof.
  intros Hi Hj.
  assert (Hconst : (forall p q, (p < h)%nat -> (q < w)%nat ->
             [n'; c'; (S * i + p)%nat; (S * j + q)%nat] <> [n; c; y; z]) ->
           derivable_pt_lim
             (fun t => data dout [n'; c'; i; j] *
                       window_max h w S (set_entry x [n; c; y; z] t) n' c' i j)
             (data x [n; c; y; z]) 0).
  { intros Hne.
    apply (dlim_eq (fun _ => data dout [n'; c'; i; j] * window_max h w S x n' c' i j)
             _ _ 0 0); [apply derivable_pt_lim_const| |reflexivity].
    intros t. rewrite window_max_other by exact Hne. reflexivity. }
  destruct (Nat.eqb_spec n' n) as [->|Hn]; cbn [andb].
  2:{ apply Hconst. intros p q _ _ E. injection E as E1 _. contradiction. }
  destruct (Nat.eqb_spec c' c) as [->|Hc].
  2:{ apply Hconst. intros p q _ _ E. injection E as E1 _. contradiction. }
  unfold pool_contribution. cbn [nth]. cbn zeta.
  destruct (Nat.leb_spec (S * i) y) as [Hy1|Hy1]; cbn [andb].
  2:{ apply Hconst. intros p q _ _ E. injection E as E1 _. lia. }
  destruct (Nat.ltb_spec y (S * i + h)) as [Hy2|Hy2]; cbn [andb].
  2:{ apply Hconst. intros p q Hp _ E. injection E as E1 _. lia. }
  destruct (Nat.leb_spec (S * j) z) as [Hz1|Hz1]; cbn [andb].
  2:{ apply Hconst. intros p q _ _ E. injection E as _ E2. lia. }
  destruct (Nat.ltb_spec z (S * j + w)) as [Hz2|Hz2]; cbn [andb].
  2:{ apply Hconst. intros p q _ Hq E. injection E as _ E2. lia. }
  set (p0 := (y - S * i)%nat). set (q0 := (z - S * j)%nat).
  assert (Hp0 : (p0 < h)%nat) by (unfold p0; lia).
  assert (Hq0 : (q0 < w)%nat) by (unfold q0; lia).
  assert (Ey : (S * i + p0)%nat = y) by (unfold p0; lia).
  assert (Ez : (S * j + q0)%nat = z) by (unfold q0; lia).
  set (F := fun p q => data x [n; c; (S * i + p)%nat; (S * j + q)%nat]).
  set (M := fun v =>
    rmax h (fun p => rmax w (fun q => if ((p =? p0) && (q =? q0))%nat then v else F p q))).
  assert (EM : forall t, window_max h w S (set_entry x [n; c; y; z] t) n c i j = M t).
  { intros t. unfold window_max, M. apply rmax_ext. intros p Hp. apply rmax_ext. intros q Hq.
    unfold set_entry, F. cbn [data].
    destruct (decide ([n; c; (S * i + p)%nat; (S * j + q)%nat] = [n; c; y; z])) as [E|E].
    - injection E as E1 E2.
      destruct (Nat.eqb_spec p p0); [|lia]. destruct (Nat.eqb_spec q q0); [|lia]. reflexivity.
    - destruct (Nat.eqb_spec p p0) as [->|_]; cbn [andb]; [|reflexivity].
      destruct (Nat.eqb_spec q q0) as [->|_]; [|reflexivity].
      exfalso. apply E. rewrite Ey, Ez. reflexivity. }
  assert (EM0 : window_max h w S x n c i j = M (data x [n; c; y; z])).
  { rewrite <- EM, set_entry_same. reflexivity. }
  unfold is_window_max. rewrite Ey, Ez.
  destruct (window_one_entry h w F p0 q0 Hp0 Hq0)
    as [[Hid0 _]|(c0 & (p1 & q1 & Hp1 & Hq1 & Hne1 & E1) & Hb & HM0)].
  - assert (Hid : forall v, M v = v) by exact Hid0. clear Hid0.
    rewrite EM0, Hid.
    destruct (Req_dec_T (data x [n; c; y; z]) (data x [n; c; y; z])) as [_|Hf];
      [|exfalso; apply Hf; reflexivity].
    eapply (dlim_eq (fun t => data dout [n; c; i; j] * t)).
    + apply (dlim_scal_l _ _ _ _ (derivable_pt_lim_id _)).
    + intros t. rewrite EM, Hid. reflexivity.
    + ring.
  - assert (HM : forall v, M v = Rmax v c0) by exact HM0. clear HM0.
    rewrite EM0, HM.
    assert (Hcases : c0 < data x [n; c; y; z] \/ data x [n; c; y; z] < c0).
    { destruct (Huntied i j Hi Hj (conj Hy1 Hy2) (conj Hz1 Hz2)) as [Hneq|Hlt].
      - right. rewrite EM0, HM in Hneq.
        destruct (Rle_dec (data x [n; c; y; z]) c0) as [Hle|Hgt].
        + destruct (Req_dec_T (data x [n; c; y; z]) c0) as [Heq|Hn0]; [|lra].
          exfalso. apply Hneq. rewrite Heq. unfold Rmax. destruct (Rle_dec c0 c0); reflexivity.
        + exfalso. apply Hneq. rewrite Rmax_left by lra. reflexivity.
      - left. rewrite <- E1. unfold F. apply Hlt; [exact Hp1|exact Hq1|].
        destruct Hne1 as [Hne1|Hne1]; [left|right]; lia. }
    destruct Hcases as [Habove|Hbelow].
    + rewrite Rmax_left by lra.
      destruct (Req_dec_T (data x [n; c; y; z]) (data x [n; c; y; z])) as [_|Hf];
        [|exfalso; apply Hf; reflexivity].
      eapply (dlim_eq (fun t => data dout [n; c; i; j] * Rmax t c0)).
      * apply (dlim_scal_l _ _ _ _ (dlim_Rmax_above c0 _ Habove)).
      * intros t. rewrite EM, HM. reflexivity.
      * ring.
    + rewrite Rmax_right by lra.
      destruct (Req_dec_T (data x [n; c; y; z]) c0) as [Hf|_]; [lra|].
      eapply (dlim_eq (fun t => data dout [n; c; i; j] * Rmax t c0)).
      * apply (dlim_scal_l _ _ _ _ (dlim_Rmax_below c0 _ Hbelow)).
      * intros t. rewrite EM, HM. reflexivity.
      * ring.
Qed.

End PoolGradient.

(** X5: [max_pool_backward_naive] returns the gradient of
    [np.sum(dout * out)], with [out] the result of [max_pool_forward_naive],
    at every entry of [x] that no pooling window holds tied with another
    entry for its maximum; overlapping windows add their contributions. *)
Theorem max_pool_backward_naive_gradient
    (N C H W h w S : nat) (x dout : ndarray) (pool_param : nat) (st : store)
    (pp : gmap string pyval) (n c y z : nat) :
  dicts st !! pool_param = Some pp ->
  pp !! "pool_height" = Some (PInt (Z.of_nat h)) ->
  pp !! "pool_width" = Some (PInt (Z.of_nat w)) ->
  pp !! "stride" = Some (PInt (Z.of_nat S)) ->
  shape x = [N; C; H; W] ->
  (1 <= h <= H)%nat -> (1 <= w <= W)%nat -> (1 <= S)%nat ->
  let HH := ((H - h) / S + 1)%nat in
  let WW := ((W - w) / S + 1)%nat in
  shape dout = [N; C; HH; WW] ->
  (n < N)%nat -> (c < C)%nat -> (y < H)%nat -> (z < W)%nat ->
  untied h w S HH WW x n c y z ->
  exists dx,
    max_pool_backward_naive dout (x, pool_param) st = (Ok dx, st) /\
    shape dx = shape x /\
    derivable_pt_lim
      (fun t => upstream_loss_in dout
                  (max_pool_forward_naive (set_entry x [n; c; y; z] t) pool_param st))
      (data x [n; c; y; z]) (data dx [n; c; y; z]).
Proof.
  intros Hpp Hph Hpw Hps Hx Hh Hw HS HH WW Hd Hn Hc Hy Hz Hun.
  destruct (max_pool_backward_value N C H W h w S x pool_param st pp Hpp Hph Hpw Hps Hx
              Hh Hw HS dout Hd) as (dx & E & Sdx & Vdx).
  exists dx. split; [exact E|]. split; [rewrite Hx; exact Sdx|].
  rewrite (Vdx n c y z Hn Hc Hy Hz). fold HH WW.
  eapply (dlim_eq (fun t => rsum N (fun n' => rsum C (fun c' => rsum HH (fun i =>
            rsum WW (fun j =>
              data dout [n'; c'; i; j] *
              window_max h w S (set_entry x [n; c; y; z] t) n' c' i j)))))).
  - apply (dlim_rsum N (fun n' t => rsum C (fun c' => rsum HH (fun i => rsum WW (fun j =>
              data dout [n'; c'; i; j] *
              window_max h w S (set_entry x [n; c; y; z] t) n' c' i j))))
             (fun n' => if (n' =? n)%nat
                        then rsum HH (fun i => rsum WW (fun j =>
                               pool_contribution h w S x dout i j [n; c; y; z]))
                        else 0)).
    intros n' Hn'.
    apply (dlim_eq (fun t => rsum C (fun c' => rsum HH (fun i => rsum WW (fun j =>
              data dout [n'; c'; i; j] *
              window_max h w S (set_entry x [n; c; y; z] t) n' c' i j))))
             _ _ (rsum C (fun c' => rsum HH (fun i => rsum WW (fun j =>
                    if ((n' =? n) && (c' =? c))%nat
                    then pool_contribution h w S x dout i j [n; c; y; z] else 0))))).
    + apply (dlim_rsum C (fun c' t => rsum HH (fun i => rsum WW (fun j =>
                data dout [n'; c'; i; j] *
                window_max h w S (set_entry x [n; c; y; z] t) n' c' i j)))).
      intros c' Hc'.
      apply (dlim_rsum HH (fun i t => rsum WW (fun j =>
                data dout [n'; c'; i; j] *
                window_max h w S (set_entry x [n; c; y; z] t) n' c' i j))).
      intros i Hi.
      apply (dlim_rsum WW (fun j t =>
                data dout [n'; c'; i; j] *
                window_max h w S (set_entry x [n; c; y; z] t) n' c' i j)).
      intros j Hj. apply (window_max_entry_dlim h w S HH WW x dout n c y z Hun); assumption.
    + intros t. reflexivity.
    + destruct (Nat.eqb_spec n' n) as [->|Hne]; cbn [andb].
      * rewrite (rsum_single C c); [rewrite Nat.eqb_refl; reflexivity|exact Hc|].
        intros c' _ Hne. destruct (Nat.eqb_spec c' c); [contradiction|].
        apply rsum_zero_ext. intros. apply rsum_zero.
      * symmetry. apply rsum_zero_ext. intros. apply rsum_zero_ext. intros. apply rsum_zero.
  - intros t.
    destruct (max_pool_forward_value N C H W h w S (set_entry x [n; c; y; z] t) pool_param st pp
                Hpp Hph Hpw Hps Hx Hh Hw HS) as (out & Ef & Sout & Vout).
    rewrite Ef. unfold upstream_loss_in, upstream_loss. cbn [fst].
    destruct (map2_same_shape Rmult dout out [N; C; HH; WW] Hd Sout) as [Sm Vm].
    unfold sum, mul. rewrite Sm. cbn [sum_over].
    apply rsum_ext. intros n' Hn'. apply rsum_ext. intros c' Hc'.
    apply rsum_ext. intros i Hi. apply rsum_ext. intros j Hj.
    rewrite Vm by (repeat constructor; assumption). rewrite Vout by assumption. reflexivity.
  - rewrite (rsum_single N n); [rewrite Nat.eqb_refl; reflexivity|exact Hn|].
    intros n' _ Hne. destruct (Nat.eqb_spec n' n); [contradiction|reflexivity].
Qed.

Definition pool_x1 : ndarray :=
  {| shape := [1; 1; 2; 2]%nat; data := fun idx => INR (nth 2 idx 0%nat) + INR (nth 3 idx 0%nat) |}.

Lemma pool_x1_untied : untied 2 2 2 1 1 pool_x1 0 0 1 1.
Proof.
  intros i j Hi Hj _ _. right. intros p q Hp Hq Hne.
  assert (i = 0%nat) as -> by lia. assert (j = 0%nat) as -> by lia.
  unfold pool_x1. cbn [data nth].
  destruct p as [|[|p]]; [| |lia]; destruct q as [|[|q]]; try lia; cbn [Nat.mul Nat.add INR];
    try lra.
Qed.

Lemma max_pool_backward_naive_gradient_witness :
  exists dx,
    max_pool_backward_naive pool_dout0 (pool_x1, 0%nat) pool_store0 = (Ok dx, pool_store0) /\
    derivable_pt_lim
      (fun t => upstream_loss_in pool_dout0
                  (max_pool_forward_naive (set_entry pool_x1 [0; 0; 1; 1]%nat t) 0 pool_store0))
      (data pool_x1 [0; 0; 1; 1]%nat) (data dx [0; 0; 1; 1]%nat).
Proof.
  destruct (max_pool_backward_naive_gradient 1 1 2 2 2 2 2 pool_x1 pool_dout0 0 pool_store0
              pool_param0 0 0 1 1)
    as (dx & E & _ & G);
    [reflexivity | reflexivity | reflexivity | reflexivity | reflexivity
    | lia | lia | lia | reflexivity | lia | lia | lia | lia | exact pool_x1_untied |].
  exists dx. split; [exact E|exact G].
Defined.

(** ** Inputs the layers reject *)

(** X6: on a sequence of length zero, [x] of shape [(N, 0, D)], with a
    two-dimensional [Wx], [rnn_forward] raises [IndexError]: after it has
    unpacked the shapes of [x] and [Wx] it reads the first time step
    [x[:, 0, :]] before its loop. *)
Theorem rnn_forward_empty_sequence (N D D' H : nat) (x h0 Wx Wh b : ndarray) :
  shape x = [N; 0%nat; D] -> shape Wx = [D'; H] ->
  rnn_forward x h0 Wx Wh b = Raise IndexError.
Proof.
  intros Hx _. unfold rnn_forward, np_getitem. rewrite Hx. reflexivity.
Qed.

Lemma rnn_forward_empty_sequence_witness :
  rnn_forward (zeros [2; 0; 3]%nat) (zeros [2; 4]%nat) (zeros [3; 4]%nat) (zeros [4; 4]%nat)
    (zeros [4]%nat) = Raise IndexError.
Proof.
  apply (rnn_forward_empty_sequence 2 3 3 4); reflexivity.
Defined.

Lemma truediv_zero (a : Z) : truediv a 0 = Raise ZeroDivisionError.
Proof. reflexivity. Qed.


Definition zero_stride_param : gmap string pyval :=
  <["stride" := PInt 0]> (<["pad" := PInt 1]>
    (<["pool_height" := PInt 2]> (<["pool_width" := PInt 2]> ∅))).
Definition zero_stride_store : store :=
  {| dicts := <[0%nat := zero_stride_param]> ∅; rng := 0 |}.


(** ** The values of batch normalisation *)

(** The mean and the (uncorrected) variance of feature [d] over the batch. *)
Definition batch_mean (x : ndarray) (N d : nat) : R :=
  rsum N (fun n => data x [n; d]) / INR N.

Definition batch_var (x : ndarray) (N d : nat) : R :=
  rsum N (fun n => (data x [n; d] - batch_mean x N d) ^ 2) / INR N.

(** The optional entries of [bn_param] and their defaults. *)
Definition float_entry (d : gmap string pyval) (k : string) (dflt : R) : R :=
  match d !! k with
  | Some (PFloat r) => r
  | _ => dflt
  end.

Definition array_entry (d : gmap string pyval) (k : string) (D : nat) : ndarray :=
  match d !! k with
  | Some (PArr a) => a
  | _ => zeros [D]
  end.

Lemma float_entry_value (d : gmap string pyval) (k : string) (dflt : R) :
  (forall v, d !! k = Some v -> exists r, v = PFloat r) ->
  default (PFloat dflt) (d !! k) = PFloat (float_entry d k dflt).
Proof.
  intros H. unfold float_entry. destruct (d !! k) as [v|]; [|reflexivity].
  destruct (H v eq_refl) as [r ->]. reflexivity.
Qed.

Lemma array_entry_value (d : gmap string pyval) (k : string) (D : nat) :
  (forall v, d !! k = Some v -> exists a, v = PArr a /\ shape a = [D]) ->
  default (PArr (zeros [D])) (d !! k) = PArr (array_entry d k D) /\
  shape (array_entry d k D) = [D].
Proof.
  intros H. unfold array_entry. destruct (d !! k) as [v|]; [|split; reflexivity].
  destruct (H v eq_refl) as (a & -> & Ha). split; [reflexivity|exact Ha].
Qed.

(** Entry [d] of a running statistic, stored with the shape [(D,)] or, after
    a training call, [(1, D)]. *)
Definition stat_entry (a : ndarray) (d : nat) : R :=
  match shape a with
  | [_] => data a [d]
  | _ => data a [0%nat; d]
  end.

Lemma array_entry_value_wf (d : gmap string pyval) (k : string) (D : nat) :
  (forall v, d !! k = Some v -> exists a, v = PArr a /\ stat_shape_ok D a) ->
  default (PArr (zeros [D])) (d !! k) = PArr (array_entry d k D) /\
  stat_shape_ok D (array_entry d k D).
Proof.
  intros H. unfold array_entry. destruct (d !! k) as [v|]; [|split; [|left]; reflexivity].
  destruct (H v eq_refl) as (a & -> & Ha). split; [reflexivity|exact Ha].
Qed.

Lemma np_mean_value (x : ndarray) (N D : nat) (i d : nat) :
  shape x = [N; D] -> (d < D)%nat ->
  data (np_mean x [0%nat]) [i; d] = batch_mean x N d.
Proof.
  intros Hx Hd. unfold np_mean, div, map2, sum_axes_keep, scalar, batch_mean.
  cbn [shape data]. rewrite Hx.
  cbn [length axis_mask seq map existsb Nat.eqb orb keep_shape zip_with pick Bool.eqb
       size_of fold_right].
  np_unfold. bidx_simpl. cbn [pick Bool.eqb merge_index hd tl]. rewrite Nat.mul_1_r.
  reflexivity.
Qed.

Lemma np_std_value (x : ndarray) (N D : nat) (i d : nat) :
  shape x = [N; D] -> (d < D)%nat ->
  data (np_std x [0%nat]) [i; d] = sqrt (batch_var x N d).
Proof.
  intros Hx Hd. unfold np_std, np_sqrt. cbn [map1 data].
  assert (Hs : shape (square (sub x (np_mean x [0%nat]))) = [N; D]).
  { unfold square. cbn [map1 shape]. unfold sub. rewrite map2_shape_eq, Hx,
      (np_mean_shape x N D Hx). np_unfold. rewrite ?bdim_1_r, ?bdim_diag. reflexivity. }
  rewrite (np_mean_value _ N D i d Hs Hd). unfold batch_mean at 1, batch_var.
  f_equal. f_equal. apply rsum_ext. intros n Hn.
  unfold square, sub, map2. cbn [map1 data]. rewrite Hx, (np_mean_shape x N D Hx).
  np_unfold. bidx_simpl. rewrite (np_mean_value x N D _ d Hx Hd). reflexivity.
Qed.

Lemma batch_var_nonneg (x : ndarray) (N d : nat) : 0 <= batch_var x N d.
Proof.
  unfold batch_var. destruct N as [|N].
  - cbn [rsum]. unfold Rdiv. rewrite Rmult_0_l. lra.
  - apply Rmult_le_pos.
    + generalize (batch_mean x (S N) d). intros m.
      induction (S N) as [|k IH]; cbn [rsum]; [lra|].
      apply Rplus_le_le_0_compat; [exact IH|apply pow2_ge_0].
    + left. apply Rinv_0_lt_compat. apply lt_0_INR. lia.
Qed.

Lemma batch_centered (x : ndarray) (N d : nat) :
  (1 <= N)%nat -> rsum N (fun n => data x [n; d] - batch_mean x N d) = 0.
Proof.
  intros HN.
  rewrite (rsum_ext N _ (fun n => data x [n; d] + -1 * batch_mean x N d))
    by (intros; ring).
  rewrite rsum_plus.
  assert (Hc : forall k c, rsum k (fun _ => c) = INR k * c).
  { intros k c0. induction k as [|k IH]; [cbn [rsum INR]; lra|].
    cbn [rsum]. rewrite IH, S_INR. ring. }
  rewrite Hc. unfold batch_mean. field. apply not_0_INR. lia.
Qed.

Lemma reshape_row_value (a : ndarray) (D : nat) :
  shape a = [D] ->
  exists g, reshape a [1; -1]%Z = Ok g /\ shape g = [1%nat; D] /\
            forall d, (d < D)%nat -> data g [0%nat; d] = data a [d].
Proof.
  intros Ha. unfold reshape, reshape_dims. rewrite Ha.
  cbn [List.filter map length size_of fold_right Z.leb Z.ltb Z.compare Z.to_nat
       Pos.to_nat Pos.iter_op Nat.mul Nat.add].
  change (Z.to_nat 1) with 1%nat. rewrite !Nat.mul_1_r.
  cbn [Nat.eqb orb]. rewrite Nat.mod_1_r. cbn [Nat.eqb negb res_bind].
  rewrite Nat.div_1_r. eexists. split; [reflexivity|]. split; [reflexivity|].
  intros d Hd. cbn [data]. rewrite ravel_pair, unravel_single. reflexivity.
Qed.

Lemma the_dict_written (bn : nat) (d : gmap string pyval) (ds : gmap nat (gmap string pyval))
      (g : Z) :
  the_dict {| dicts := <[bn := d]> ds; rng := g |} bn = d.
Proof. unfold the_dict. cbn [dicts]. rewrite lookup_insert_eq. reflexivity. Qed.

(** The training-time forward pass, run on a batch of shape [(N, D)]. *)
Lemma batchnorm_forward_train_run (N D : nat) (x gamma beta : ndarray) (bn : nat)
      (st : store) (mode : pyval) :
  shape x = [N; D] -> shape gamma = [D] -> shape beta = [D] ->
  the_dict st bn !! "mode" = Some mode -> eq_str mode "train" = true ->
  bn_param_wf D (the_dict st bn) ->
  let e := float_entry (the_dict st bn) "eps" (1 / 100000) in
  let m := float_entry (the_dict st bn) "momentum" (9 / 10) in
  let rm := array_entry (the_dict st bn) "running_mean" D in
  let rv := array_entry (the_dict st bn) "running_var" D in
  exists out mn sd rm' rv',
    batchnorm_forward x gamma beta bn st =
    (Ok (out, <["x" := PArr x]> (<["std" := PArr sd]> (<["mean" := PArr mn]>
                (<["beta" := PArr beta]> (<["gamma" := PArr gamma]> ∅))))),
     {| dicts := <[bn := <["running_var" := PArr rv']>
                           (<["running_mean" := PArr rm']> (the_dict st bn))]> (dicts st);
        rng := rng st |}) /\
    shape out = [N; D] /\ shape mn = [1%nat; D] /\ shape sd = [1%nat; D] /\
    shape rm' = [1%nat; D] /\ shape rv' = [1%nat; D] /\
    (forall n d, (n < N)%nat -> (d < D)%nat ->
       data out [n; d] =
       data gamma [d] * (data x [n; d] - batch_mean x N d) / sqrt (batch_var x N d + e)
       + data beta [d]) /\
    (forall d, (d < D)%nat ->
       data mn [0%nat; d] = batch_mean x N d /\
       data sd [0%nat; d] = sqrt (batch_var x N d + e) /\
       data rm' [0%nat; d] = m * stat_entry rm d + (1 - m) * batch_mean x N d /\
       data rv' [0%nat; d] = m * stat_entry rv d + (1 - m) * batch_var x N d).
Proof.
  intros Hx Hg Hb Hmode Htrain (Heps & Hmom & Hrm & Hrv) e m rm rv.
  pose proof (float_entry_value _ "eps" (1 / 100000) Heps) as Ee.
  pose proof (float_entry_value _ "momentum" (9 / 10) Hmom) as Em.
  destruct (array_entry_value_wf _ "running_mean" D Hrm) as (Erm & Srm).
  destruct (array_entry_value_wf _ "running_var" D Hrv) as (Erv & Srv).
  fold e in Ee. fold m in Em. fold rm in Erm, Srm. fold rv in Erv, Srv.
  destruct (reshape_row_value gamma D Hg) as (g & Eg & Sg & Vg).
  destruct (reshape_row_value beta D Hb) as (b & Eb & Sb & Vb).
  pose proof (np_mean_shape x N D Hx) as Smean.
  pose proof (np_std_shape x N D Hx) as Sstd.
  pose proof (fun i d => np_mean_value x N D i d Hx) as Vmean.
  pose proof (fun i d => np_std_value x N D i d Hx) as Vstd.
  unfold batchnorm_forward.
  unfold py_bind at 1. unfold dict_getitem. rewrite Hmode.
  unfold py_bind at 1. unfold dict_get at 1.
  unfold py_bind at 1. unfold dict_get at 1.
  unfold py_bind at 1. unfold lift at 1. unfold shape2. rewrite Hx.
  unfold py_bind at 1. unfold dict_get at 1.
  unfold py_bind at 1. unfold dict_get at 1.
  unfold py_bind at 1. rewrite Htrain.
  rewrite Ee, Em, Erm, Erv.
  unfold py_bind, lift, py_ret. cbn [as_array]. rewrite Eg, Eb.
  set (mean := np_mean x [0%nat]) in *. set (std := np_std x [0%nat]) in *.
  unfold dict_setitem. cbn beta iota. rewrite the_dict_written. cbn [dicts rng].
  rewrite insert_insert_eq.
  eexists. eexists. eexists. eexists. eexists.
  split; [reflexivity|].
  assert (Hvar : forall d, sqrt (batch_var x N d) ^ 2 = batch_var x N d).
  { intros d. cbn [pow]. rewrite Rmult_1_r. apply sqrt_sqrt, batch_var_nonneg. }
  unfold stat_entry.
  destruct Srm as [Srm|Srm], Srv as [Srv|Srv]; rewrite Srm, Srv.
  all: repeat split.
  all: try (unfold add, div, mul, sub, np_sqrt, square;
            rewrite ?map2_shape_eq; cbn [map1 shape]; rewrite ?map2_shape_eq;
            cbn [map1 shape];
            rewrite ?Hx, ?Sg, ?Sb, ?Smean, ?Sstd, ?Srm, ?Srv; unfold scalar; cbn [shape];
            np_unfold; rewrite ?bdim_1_r, ?bdim_diag; cbn [bdim Nat.eqb];
            rewrite ?bdim_1_r, ?bdim_diag; reflexivity).
  all: intros; unfold add, div, mul, sub, np_sqrt, square, map2; cbn [map1 data shape];
    rewrite ?Hx, ?Sg, ?Sb, ?Smean, ?Sstd, ?Srm, ?Srv; unfold scalar; cbn [shape data];
    np_unfold; rewrite ?bdim_1_r, ?bdim_diag; bidx_simpl;
    rewrite ?Vmean, ?Vstd, ?Vg, ?Vb, ?Hvar by assumption; try reflexivity.
Qed.

Lemma rsum_const (k : nat) (c : R) : rsum k (fun _ => c) = INR k * c.
Proof.
  induction k as [|k IH]; [cbn [rsum INR]; lra|].
  cbn [rsum]. rewrite IH, S_INR. ring.
Qed.

(** A column that is an affine image [a * (x - mean) + c] of the centred
    column of [x] has mean [c] and variance [a ^ 2] times that of [x]. *)
Lemma batch_mean_affine (x out : ndarray) (N d : nat) (a c : R) :
  (1 <= N)%nat ->
  (forall n, (n < N)%nat -> data out [n; d] = a * (data x [n; d] - batch_mean x N d) + c) ->
  batch_mean out N d = c.
Proof.
  intros HN Hout. unfold batch_mean at 1.
  rewrite (rsum_ext N _ (fun n => a * (data x [n; d] - batch_mean x N d) + c)) by exact Hout.
  rewrite rsum_plus, rsum_scal_l, batch_centered, rsum_const by exact HN.
  field. apply not_0_INR. lia.
Qed.

Lemma batch_var_affine (x out : ndarray) (N d : nat) (a c : R) :
  (1 <= N)%nat ->
  (forall n, (n < N)%nat -> data out [n; d] = a * (data x [n; d] - batch_mean x N d) + c) ->
  batch_var out N d = a ^ 2 * batch_var x N d.
Proof.
  intros HN Hout. unfold batch_var at 1.
  rewrite (batch_mean_affine x out N d a c HN Hout).
  rewrite (rsum_ext N _ (fun n => a ^ 2 * (data x [n; d] - batch_mean x N d) ^ 2)).
  - rewrite rsum_scal_l. unfold batch_var. unfold Rdiv. ring.
  - intros n Hn. rewrite (Hout n Hn). ring.
Qed.

(** X8: in training mode, on [x] of shape [(N, D)] with at least one row,
    [gamma] and [beta] of shape [(D,)] and a [bn_param] whose optional
    entries are well formed ([eps] and [momentum], when present, floats;
    [running_mean] and [running_var], when present, arrays of shape [(D,)]
    or [(1, D)]) with a positive [eps], [batchnorm_forward] returns an array
    of the shape of [x] whose columns are normalised: column [d] has batch
    mean [beta[d]] and batch variance [gamma[d]^2 * var / (var + eps)],
    where [var] is the batch variance of column [d] of [x]. *)
Theorem batchnorm_forward_train_normalizes (N D : nat) (x gamma beta : ndarray) (bn : nat)
      (st : store) (mode : pyval) :
  shape x = [N; D] -> shape gamma = [D] -> shape beta = [D] -> (1 <= N)%nat ->
  the_dict st bn !! "mode" = Some mode -> eq_str mode "train" = true ->
  bn_param_wf D (the_dict st bn) ->
  0 < float_entry (the_dict st bn) "eps" (1 / 100000) ->
  exists out cache st',
    batchnorm_forward x gamma beta bn st = (Ok (out, cache), st') /\
    shape out = [N; D] /\
    forall d, (d < D)%nat ->
      batch_mean out N d = data beta [d] /\
      batch_var out N d =
      data gamma [d] ^ 2 * batch_var x N d /
      (batch_var x N d + float_entry (the_dict st bn) "eps" (1 / 100000)).
Proof.
  intros Hx Hg Hb HN Hmode Htrain Hok He.
  destruct (batchnorm_forward_train_run N D x gamma beta bn st mode Hx Hg Hb Hmode Htrain Hok)
    as (out & mn & sd & rm' & rv' & Run & Sout & _ & _ & _ & _ & Vout & _).
  set (e := float_entry (the_dict st bn) "eps" (1 / 100000)) in *.
  eexists. eexists. eexists. split; [exact Run|]. split; [exact Sout|].
  intros d Hd.
  pose proof (batch_var_nonneg x N d) as Hv.
  set (sg := sqrt (batch_var x N d + e)).
  assert (Hsg : sg * sg = batch_var x N d + e) by (apply sqrt_sqrt; lra).
  assert (Hsg0 : sg <> 0).
  { intros E0. rewrite E0 in Hsg. lra. }
  assert (Haff : forall n, (n < N)%nat ->
            data out [n; d] =
            data gamma [d] / sg * (data x [n; d] - batch_mean x N d) + data beta [d]).
  { intros n Hn. rewrite (Vout n d Hn Hd). fold sg. unfold Rdiv. ring. }
  split.
  - exact (batch_mean_affine x out N d _ _ HN Haff).
  - rewrite (batch_var_affine x out N d _ _ HN Haff). rewrite <- Hsg. field. exact Hsg0.
Qed.

Definition bn_train_x0 : ndarray := matrix_of 2 2 (fun n d => INR n * (INR d + 1)).
Definition bn_train_gamma0 : ndarray := {| shape := [2%nat]; data := fun _ => 2 |}.
Definition bn_train_beta0 : ndarray := {| shape := [2%nat]; data := fun _ => 5 |}.

(** A [bn_param] as a training call leaves it: the running statistics have
    the shape [(1, D)]. *)
Definition bn_row_rm0 : ndarray := {| shape := [1; 2]%nat; data := fun _ => 1 |}.
Definition bn_row_rv0 : ndarray := {| shape := [1; 2]%nat; data := fun _ => 4 |}.
Definition bn_row_store0 : store :=
  {| dicts := <[0%nat := <["running_var" := PArr bn_row_rv0]>
                 (<["running_mean" := PArr bn_row_rm0]> (<["mode" := PStr "train"]> ∅))]> ∅;
     rng := 0 |}.

Lemma bn_row_store0_wf : bn_param_wf 2 (the_dict bn_row_store0 0).
Proof.
  repeat split; intros v Hv; try discriminate Hv.
  - injection Hv as <-. exists bn_row_rm0. split; [reflexivity|right; reflexivity].
  - injection Hv as <-. exists bn_row_rv0. split; [reflexivity|right; reflexivity].
Qed.

Lemma bn_row_store0_eps : float_entry (the_dict bn_row_store0 0) "eps" (1 / 100000) = 1 / 100000.
Proof. reflexivity. Qed.

Lemma batchnorm_forward_train_normalizes_witness :
  exists out cache st',
    batchnorm_forward bn_train_x0 bn_train_gamma0 bn_train_beta0 0 bn_row_store0 =
    (Ok (out, cache), st') /\
    shape out = [2; 2]%nat /\
    forall d, (d < 2)%nat ->
      batch_mean out 2 d = data bn_train_beta0 [d] /\
      batch_var out 2 d =
      data bn_train_gamma0 [d] ^ 2 * batch_var bn_train_x0 2 d /
      (batch_var bn_train_x0 2 d + float_entry (the_dict bn_row_store0 0) "eps" (1 / 100000)).
Proof.
  apply (batchnorm_forward_train_normalizes 2 2 bn_train_x0 bn_train_gamma0 bn_train_beta0 0
           bn_row_store0 (PStr "train")).
  - reflexivity.
  - reflexivity.
  - reflexivity.
  - lia.
  - reflexivity.
  - reflexivity.
  - exact bn_row_store0_wf.
  - rewrite bn_row_store0_eps. lra.
Defined.

(** X9: a training-mode call of [batchnorm_forward], on [x] of shape
    [(N, D)] with at least one row, [gamma] and [beta] of shape [(D,)] and a
    [bn_param] whose optional entries are well formed ([eps] and [momentum],
    when present, floats; [running_mean] and [running_var], when present,
    arrays of shape [(D,)] or [(1, D)]), leaves in [bn_param], under
    ['running_mean'] and ['running_var'], arrays of shape [(1, D)] with the
    entries [momentum * old + (1 - momentum) * batch statistic], where a
    missing old array counts as zeros and a missing momentum as 0.9.  The
    other keys of [bn_param], the other dictionaries and the state of the
    generator are as before. *)
Theorem batchnorm_forward_train_running_stats (N D : nat) (x gamma beta : ndarray)
      (bn : nat) (st : store) (mode : pyval) :
  shape x = [N; D] -> shape gamma = [D] -> shape beta = [D] -> (1 <= N)%nat ->
  the_dict st bn !! "mode" = Some mode -> eq_str mode "train" = true ->
  bn_param_wf D (the_dict st bn) ->
  let m := float_entry (the_dict st bn) "momentum" (9 / 10) in
  let rm := array_entry (the_dict st bn) "running_mean" D in
  let rv := array_entry (the_dict st bn) "running_var" D in
  exists r rm' rv',
    fst (batchnorm_forward x gamma beta bn st) = Ok r /\
    let st' := snd (batchnorm_forward x gamma beta bn st) in
    the_dict st' bn !! "running_mean" = Some (PArr rm') /\
    the_dict st' bn !! "running_var" = Some (PArr rv') /\
    shape rm' = [1%nat; D] /\ shape rv' = [1%nat; D] /\
    (forall d, (d < D)%nat ->
       data rm' [0%nat; d] = m * stat_entry rm d + (1 - m) * batch_mean x N d /\
       data rv' [0%nat; d] = m * stat_entry rv d + (1 - m) * batch_var x N d) /\
    (forall k, k <> "running_mean" -> k <> "running_var" ->
       the_dict st' bn !! k = the_dict st bn !! k) /\
    (forall j, j <> bn -> dicts st' !! j = dicts st !! j) /\
    rng st' = rng st.
Proof.
  intros Hx Hg Hb _ Hmode Htrain Hok m rm rv.
  destruct (batchnorm_forward_train_run N D x gamma beta bn st mode Hx Hg Hb Hmode Htrain Hok)
    as (out & mn & sd & rm' & rv' & Run & _ & _ & _ & Srm & Srv & _ & V).
  rewrite Run. cbn [fst snd]. eexists. exists rm', rv'.
  split; [reflexivity|]. cbn zeta. rewrite the_dict_written. cbn [dicts rng].
  split; [rewrite lookup_insert_ne by discriminate; apply lookup_insert_eq|].
  split; [apply lookup_insert_eq|].
  split; [exact Srm|]. split; [exact Srv|].
  split; [intros d Hd; destruct (V d Hd) as (_ & _ & V1 & V2); split; assumption|].
  split; [intros k K1 K2; rewrite !lookup_insert_ne by congruence; reflexivity|].
  split; [intros j Hj; rewrite lookup_insert_ne by congruence; reflexivity|reflexivity].
Qed.

Lemma batchnorm_forward_train_running_stats_witness :
  exists r rm' rv',
    fst (batchnorm_forward bn_train_x0 bn_train_gamma0 bn_train_beta0 0 bn_row_store0) = Ok r /\
    let st' := snd (batchnorm_forward bn_train_x0 bn_train_gamma0 bn_train_beta0 0
                      bn_row_store0) in
    the_dict st' 0 !! "running_mean" = Some (PArr rm') /\
    the_dict st' 0 !! "running_var" = Some (PArr rv') /\
    shape rm' = [1; 2]%nat /\ shape rv' = [1; 2]%nat /\
    (forall d, (d < 2)%nat ->
       data rm' [0%nat; d] =
       float_entry (the_dict bn_row_store0 0) "momentum" (9 / 10) *
       stat_entry (array_entry (the_dict bn_row_store0 0) "running_mean" 2) d +
       (1 - float_entry (the_dict bn_row_store0 0) "momentum" (9 / 10)) *
       batch_mean bn_train_x0 2 d /\
       data rv' [0%nat; d] =
       float_entry (the_dict bn_row_store0 0) "momentum" (9 / 10) *
       stat_entry (array_entry (the_dict bn_row_store0 0) "running_var" 2) d +
       (1 - float_entry (the_dict bn_row_store0 0) "momentum" (9 / 10)) *
       batch_var bn_train_x0 2 d) /\
    (forall k, k <> "running_mean" -> k <> "running_var" ->
       the_dict st' 0 !! k = the_dict bn_row_store0 0 !! k) /\
    (forall j, j <> 0%nat -> dicts st' !! j = dicts bn_row_store0 !! j) /\
    rng st' = rng bn_row_store0.
Proof.
  apply (batchnorm_forward_train_running_stats 2 2 bn_train_x0 bn_train_gamma0 bn_train_beta0
           0 bn_row_store0 (PStr "train")).
  - reflexivity.
  - reflexivity.
  - reflexivity.
  - lia.
  - reflexivity.
  - reflexivity.
  - exact bn_row_store0_wf.
Defined.

(** The test-time forward pass, run on a batch of shape [(N, D)]. *)
Lemma batchnorm_forward_test_run (N D : nat) (x gamma beta : ndarray) (bn : nat)
      (st : store) (mode : pyval) :
  shape x = [N; D] -> shape gamma = [D] -> shape beta = [D] ->
  the_dict st bn !! "mode" = Some mode ->
  eq_str mode "train" = false -> eq_str mode "test" = true ->
  bn_param_ok D (the_dict st bn) ->
  let e := float_entry (the_dict st bn) "eps" (1 / 100000) in
  let rm := array_entry (the_dict st bn) "running_mean" D in
  let rv := array_entry (the_dict st bn) "running_var" D in
  exists out,
    batchnorm_forward x gamma beta bn st =
    (Ok (out, <["x" := PArr x]> (<["std" := PNone]> (<["mean" := PNone]>
                (<["beta" := PArr beta]> (<["gamma" := PArr gamma]> ∅))))),
     {| dicts := <[bn := <["running_var" := PArr rv]>
                           (<["running_mean" := PArr rm]> (the_dict st bn))]> (dicts st);
        rng := rng st |}) /\
    shape out = [N; D] /\
    (forall n d, (n < N)%nat -> (d < D)%nat ->
       data out [n; d] =
       data gamma [d] * (data x [n; d] - data rm [d]) / sqrt (data rv [d] + e)
       + data beta [d]).
Proof.
  intros Hx Hg Hb Hmode Htrain Htest (Heps & Hmom & Hrm & Hrv) e rm rv.
  pose proof (float_entry_value _ "eps" (1 / 100000) Heps) as Ee.
  destruct (array_entry_value _ "running_mean" D Hrm) as (Erm & Srm).
  destruct (array_entry_value _ "running_var" D Hrv) as (Erv & Srv).
  fold e in Ee. fold rm in Erm, Srm. fold rv in Erv, Srv.
  unfold batchnorm_forward.
  unfold py_bind at 1. unfold dict_getitem. rewrite Hmode.
  unfold py_bind at 1. unfold dict_get at 1.
  unfold py_bind at 1. unfold dict_get at 1.
  unfold py_bind at 1. unfold lift at 1. unfold shape2. rewrite Hx.
  unfold py_bind at 1. unfold dict_get at 1.
  unfold py_bind at 1. unfold dict_get at 1.
  unfold py_bind at 1. rewrite Htrain, Htest.
  rewrite Ee, Erm, Erv.
  unfold py_bind, lift, py_ret. cbn [as_array].
  unfold dict_setitem. cbn beta iota. rewrite the_dict_written. cbn [dicts rng].
  rewrite insert_insert_eq.
  eexists. split; [reflexivity|].
  split.
  - unfold add, div, mul, sub, np_sqrt.
    rewrite ?map2_shape_eq. cbn [map1 shape]. rewrite ?map2_shape_eq.
    rewrite ?Hx, ?Hg, ?Hb, ?Srm, ?Srv. unfold scalar. cbn [shape].
    np_unfold. rewrite ?bdim_1_r, ?bdim_diag. cbn [bdim Nat.eqb].
    rewrite ?bdim_1_r, ?bdim_diag. reflexivity.
  - intros n d Hn Hd. unfold add, div, mul, sub, np_sqrt, map2. cbn [map1 data shape].
    rewrite ?Hx, ?Hg, ?Hb, ?Srm, ?Srv. unfold scalar. cbn [shape data].
    np_unfold. rewrite ?bdim_1_r, ?bdim_diag. bidx_simpl. reflexivity.
Qed.

Lemma the_dict_allocated (st : store) (bn : nat) (k : string) (v : pyval) :
  the_dict st bn !! k = Some v -> dicts st !! bn = Some (the_dict st bn).
Proof.
  unfold the_dict. destruct (dicts st !! bn) as [d|]; [reflexivity|].
  cbn [default from_option]. unfold Datatypes.id. rewrite lookup_empty. discriminate.
Qed.


Definition bn_test_rm0 : ndarray := {| shape := [2%nat]; data := fun _ => 1 |}.
Definition bn_test_rv0 : ndarray := {| shape := [2%nat]; data := fun _ => 4 |}.
Definition bn_test_store0 : store :=
  {| dicts := <[0%nat := <["running_var" := PArr bn_test_rv0]>
                 (<["running_mean" := PArr bn_test_rm0]> (<["mode" := PStr "test"]> ∅))]> ∅;
     rng := 0 |}.

Lemma bn_test_store0_ok : bn_param_ok 2 (the_dict bn_test_store0 0).
Proof.
  repeat split; intros v Hv; try discriminate Hv.
  - injection Hv as <-. exists bn_test_rm0. split; reflexivity.
  - injection Hv as <-. exists bn_test_rv0. split; reflexivity.
Qed.


(** ** The backward pass of batch normalisation *)

(** [np.ones(shape)], [np.eye(n)] and [a ** k]. *)
Definition ones (sh : list nat) : ndarray := {| shape := sh; data := fun _ => 1 |}.

Definition eye (n : nat) : ndarray :=
  {| shape := [n; n];
     data := fun idx => if (nth 0 idx 0 =? nth 1 idx 0)%nat then 1 else 0 |}.

Definition power (a : ndarray) (k : nat) : ndarray := map1 (fun v => v ^ k) a.

(** [cache[k]] *)
Definition cache_getitem (cache : bn_cache) (k : string) : res pyval :=
  match cache !! k with
  | Some v => Ok v
  | None => Raise (KeyError k)
  end.

Definition batchnorm_backward (dout : ndarray) (cache : bn_cache)
  : res (ndarray * ndarray * ndarray) :=
  let* nd := shape2 dout in
  let '(N, D) := nd in
  let* mean := cache_getitem cache "mean" in
  let* std := cache_getitem cache "std" in
  let* x := cache_getitem cache "x" in
  let M1 := add (div (neg (ones [N; N])) (scalar (INR N))) (eye N) in
  let* std := as_array std in
  let dx1 := div (dot M1 dout) std in
  let M2 := ones [N; N] in
  let* x := as_array x in
  let* mean := as_array mean in
  let dstd := add (div (div (sub x mean) (scalar (INR N))) (power std 3)) (zeros_like x) in
  let dx2 := mul (dot M2 (mul (sub x mean) dout)) dstd in
  let* gamma := cache_getitem cache "gamma" in
  let* gamma := as_array gamma in
  let dx := mul gamma (sub dx1 dx2) in
  let dbeta := sum_axes dout [0%nat] in
  let dgamma := sum_axes (mul (div (sub x mean) std) dout) [0%nat] in
  Ok (dx, dgamma, dbeta).

(** Elementwise operations on a matrix and a matrix, a row, a vector or a
    number. *)
Section Map2Matrix.

Variables (op : R -> R -> R) (N D : nat) (a b : ndarray).

Lemma map2_2d_same :
  shape a = [N; D] -> shape b = [N; D] ->
  shape (map2 op a b) = [N; D] /\
  forall n d, (n < N)%nat -> (d < D)%nat ->
    data (map2 op a b) [n; d] = op (data a [n; d]) (data b [n; d]).
Proof.
  intros Ha Hb. unfold map2. cbn [shape data]. rewrite Ha, Hb. np_unfold.
  rewrite ?bdim_1_r, ?bdim_diag. split; [reflexivity|].
  intros n d Hn Hd. bidx_simpl. reflexivity.
Qed.

Lemma map2_2d_row :
  shape a = [N; D] -> shape b = [1%nat; D] ->
  shape (map2 op a b) = [N; D] /\
  forall n d, (n < N)%nat -> (d < D)%nat ->
    data (map2 op a b) [n; d] = op (data a [n; d]) (data b [0%nat; d]).
Proof.
  intros Ha Hb. unfold map2. cbn [shape data]. rewrite Ha, Hb. np_unfold.
  rewrite ?bdim_1_r, ?bdim_diag. split; [reflexivity|].
  intros n d Hn Hd. bidx_simpl. reflexivity.
Qed.

Lemma map2_2d_vec_l :
  shape a = [D] -> shape b = [N; D] ->
  shape (map2 op a b) = [N; D] /\
  forall n d, (n < N)%nat -> (d < D)%nat ->
    data (map2 op a b) [n; d] = op (data a [d]) (data b [n; d]).
Proof.
  intros Ha Hb. unfold map2. cbn [shape data]. rewrite Ha, Hb. np_unfold.
  cbn [bdim Nat.eqb]. rewrite ?bdim_1_r, ?bdim_diag. split; [reflexivity|].
  intros n d Hn Hd. bidx_simpl. reflexivity.
Qed.

Lemma map2_2d_scalar_r (c : R) :
  shape a = [N; D] ->
  shape (map2 op a (scalar c)) = [N; D] /\
  forall n d, (n < N)%nat -> (d < D)%nat ->
    data (map2 op a (scalar c)) [n; d] = op (data a [n; d]) c.
Proof.
  intros Ha. unfold map2, scalar. cbn [shape data]. rewrite Ha. np_unfold.
  rewrite ?bdim_1_r, ?bdim_diag. split; [reflexivity|].
  intros n d Hn Hd. bidx_simpl. reflexivity.
Qed.

End Map2Matrix.

Lemma sum_axes_rows (a : ndarray) (N D : nat) :
  shape a = [N; D] ->
  shape (sum_axes a [0%nat]) = [D] /\
  forall d, data (sum_axes a [0%nat]) [d] = rsum N (fun n => data a [n; d]).
Proof.
  intros Ha. unfold sum_axes. cbn [shape data]. rewrite Ha. np_unfold.
  split; [reflexivity|]. intros d. apply rsum_ext. intros n Hn. lra.
Qed.

(** The result of the backward pass on a cache of the training-time forward
    pass. *)
Lemma batchnorm_backward_value (N D : nat) (dout x mn sd gamma : ndarray) (beta : pyval)
      (cache : bn_cache) :
  shape dout = [N; D] -> shape x = [N; D] -> shape mn = [1%nat; D] ->
  shape sd = [1%nat; D] -> shape gamma = [D] ->
  cache = <["x" := PArr x]> (<["std" := PArr sd]> (<["mean" := PArr mn]>
            (<["beta" := beta]> (<["gamma" := PArr gamma]> ∅)))) ->
  exists dx dgamma dbeta,
    batchnorm_backward dout cache = Ok (dx, dgamma, dbeta) /\
    shape dx = [N; D] /\ shape dgamma = [D] /\ shape dbeta = [D] /\
    (forall n d, (n < N)%nat -> (d < D)%nat ->
       data dx [n; d] =
       data gamma [d] *
       (rsum N (fun k => (- (1) / INR N + (if (n =? k)%nat then 1 else 0)) * data dout [k; d])
        / data sd [0%nat; d]
        - rsum N (fun k => 1 * ((data x [k; d] - data mn [0%nat; d]) * data dout [k; d])) *
          ((data x [n; d] - data mn [0%nat; d]) / INR N / data sd [0%nat; d] ^ 3 + 0))) /\
    (forall d, (d < D)%nat ->
       data dgamma [d] =
       rsum N (fun n => (data x [n; d] - data mn [0%nat; d]) / data sd [0%nat; d]
                        * data dout [n; d])) /\
    (forall d, (d < D)%nat -> data dbeta [d] = rsum N (fun n => data dout [n; d])).
Proof.
  intros Hd Hx Hm Hs Hg ->.
  unfold batchnorm_backward, shape2. rewrite Hd. cbn [res_bind].
  unfold cache_getitem.
  set (cache := <["x" := PArr x]> (<["std" := PArr sd]> (<["mean" := PArr mn]>
                  (<["beta" := beta]> (<["gamma" := PArr gamma]> ∅))))).
  change (cache !! "mean") with (Some (PArr mn)).
  change (cache !! "std") with (Some (PArr sd)).
  change (cache !! "x") with (Some (PArr x)).
  change (cache !! "gamma") with (Some (PArr gamma)).
  cbn [res_bind as_array]. clear cache. unfold add, sub, mul, div.
  set (M1 := map2 Rplus (map2 Rdiv (neg (ones [N; N])) (scalar (INR N))) (eye N)).
  set (M2 := ones [N; N]).
  assert (VM1 : forall n k, (n < N)%nat -> (k < N)%nat ->
            data M1 [n; k] = - (1) / INR N + (if (n =? k)%nat then 1 else 0)).
  { intros n k Hn Hk. unfold M1.
    destruct (map2_2d_scalar_r Rdiv N N (neg (ones [N; N])) (INR N) eq_refl) as [S1 V1].
    destruct (map2_2d_same Rplus N N _ (eye N) S1 eq_refl) as [_ V2].
    rewrite V2, V1 by assumption. reflexivity. }
  assert (SM1 : shape M1 = [N; N]).
  { unfold M1.
    destruct (map2_2d_scalar_r Rdiv N N (neg (ones [N; N])) (INR N) eq_refl) as [S1 V1].
    exact (proj1 (map2_2d_same Rplus N N _ (eye N) S1 eq_refl)). }
  assert (Sdot : forall m c, shape m = [N; N] -> shape c = [N; D] -> shape (dot m c) = [N; D]).
  { intros m c Hmm Hc. unfold dot, dim. cbn [shape]. rewrite Hmm, Hc. reflexivity. }
  assert (Vdot : forall m c n d, shape m = [N; N] ->
            data (dot m c) [n; d] = rsum N (fun k => data m [n; k] * data c [k; d])).
  { intros m c n d Hmm. unfold dot, dim. cbn [data]. rewrite Hmm. reflexivity. }
  destruct (map2_2d_row Rdiv N D (dot M1 dout) sd (Sdot _ _ SM1 Hd) Hs) as [Sdx1 Vdx1].
  destruct (map2_2d_row Rminus N D x mn Hx Hm) as [Sxm Vxm].
  destruct (map2_2d_scalar_r Rdiv N D _ (INR N) Sxm) as [Sq1 Vq1].
  assert (Sp : shape (power sd 3) = [1%nat; D]) by exact Hs.
  destruct (map2_2d_row Rdiv N D _ (power sd 3) Sq1 Sp) as [Sq2 Vq2].
  destruct (map2_2d_same Rplus N D _ (zeros_like x) Sq2 Hx) as [Sdstd Vdstd].
  destruct (map2_2d_same Rmult N D _ dout Sxm Hd) as [Sxd Vxd].
  destruct (map2_2d_same Rmult N D (dot M2 _) _
              (Sdot M2 _ eq_refl Sxd) Sdstd) as [Sdx2 Vdx2].
  destruct (map2_2d_same Rminus N D _ _ Sdx1 Sdx2) as [Sdd Vdd].
  destruct (map2_2d_vec_l Rmult N D gamma _ Hg Sdd) as [Sdx Vdx].
  destruct (map2_2d_row Rdiv N D _ sd Sxm Hs) as [Sxh Vxh].
  destruct (map2_2d_same Rmult N D _ dout Sxh Hd) as [Sxhd Vxhd].
  destruct (sum_axes_rows _ N D Sxhd) as [Sdg Vdg].
  destruct (sum_axes_rows dout N D Hd) as [Sdb Vdb].
  eexists. eexists. eexists. split; [reflexivity|].
  split; [exact Sdx|]. split; [exact Sdg|]. split; [exact Sdb|].
  split; [|split].
  - intros n d Hn Hdd. rewrite Vdx by assumption.
    rewrite Vdd by assumption.
    rewrite Vdx1 by assumption.
    rewrite Vdx2 by assumption.
    rewrite Vdstd by assumption.
    rewrite Vq2 by assumption.
    rewrite Vq1 by assumption.
    rewrite Vxm by assumption.
    rewrite (Vdot M1 dout n d SM1), (Vdot M2 _ n d eq_refl).
    f_equal. f_equal.
    + f_equal. apply rsum_ext. intros k Hk. rewrite VM1 by assumption. reflexivity.
    + f_equal. apply rsum_ext. intros k Hk. rewrite Vxd by assumption.
      rewrite Vxm by assumption. reflexivity.
  - intros d Hdd. rewrite Vdg. apply rsum_ext. intros n Hn.
    rewrite Vxhd by assumption.
    rewrite Vxh by assumption.
    rewrite Vxm by assumption. reflexivity.
  - intros d Hdd. apply Vdb.
Qed.

(** *** One column as a function of one of its entries

    The statistics of a column [Y] of [N] numbers, and their derivatives when
    entry [n0] of a column [X] varies. *)

Definition col_mean (N : nat) (Y : nat -> R) : R := rsum N Y / INR N.

Definition col_var (N : nat) (Y : nat -> R) : R :=
  rsum N (fun n => (Y n - col_mean N Y) ^ 2) / INR N.

Lemma dlim_minus (f g : R -> R) (x lf lg : R) :
  derivable_pt_lim f x lf -> derivable_pt_lim g x lg ->
  derivable_pt_lim (fun t => f t - g t) x (lf - lg).
Proof. intros Hf Hg. exact (derivable_pt_lim_minus f g x lf lg Hf Hg). Qed.

Lemma dlim_sq (f : R -> R) (x l : R) :
  derivable_pt_lim f x l -> derivable_pt_lim (fun t => f t ^ 2) x (2 * f x * l).
Proof.
  intros Hf.
  eapply (dlim_eq (fun t => f t * f t)).
  - apply (dlim_mult f f); exact Hf.
  - intros t. ring.
  - ring.
Qed.

Lemma dlim_inv_sqrt (f : R -> R) (x l : R) :
  derivable_pt_lim f x l -> 0 < f x ->
  derivable_pt_lim (fun t => / sqrt (f t)) x (- (l / (2 * sqrt (f x))) / (sqrt (f x)) ^ 2).
Proof.
  intros Hf Hpos.
  assert (Hs : derivable_pt_lim (fun t => sqrt (f t)) x (/ (2 * sqrt (f x)) * l)).
  { exact (derivable_pt_lim_comp f sqrt x l _ Hf (derivable_pt_lim_sqrt (f x) Hpos)). }
  assert (Hne : sqrt (f x) <> 0).
  { intros E0. apply sqrt_eq_0 in E0; lra. }
  pose proof (derivable_pt_lim_div (fun _ => 1) (fun t => sqrt (f t)) x 0 _
                (derivable_pt_lim_const 1 x) Hs Hne) as Hi.
  eapply dlim_eq; [exact Hi| |].
  - intros t. unfold div_fct. unfold Rdiv. ring.
  - unfold Rsqr. field. exact Hne.
Qed.

Section Column.

Variables (N : nat) (X : nat -> R) (n0 : nat).
Hypothesis Hn0 : (n0 < N)%nat.

Definition delta (n : nat) : R := if (n =? n0)%nat then 1 else 0.

Lemma upd_same : upd X n0 (X n0) = X.
Proof.
  apply functional_extensionality. intros n. unfold upd.
  destruct (Nat.eqb_spec n n0) as [->|_]; reflexivity.
Qed.

Lemma dlim_upd (n : nat) (t0 : R) : derivable_pt_lim (fun t => upd X n0 t n) t0 (delta n).
Proof.
  unfold upd, delta. destruct (n =? n0)%nat.
  - apply derivable_pt_lim_id.
  - apply derivable_pt_lim_const.
Qed.

Lemma rsum_delta (F : nat -> R) : rsum N (fun n => F n * delta n) = F n0.
Proof.
  rewrite (rsum_single N n0 _ Hn0).
  - unfold delta. rewrite Nat.eqb_refl. ring.
  - intros k _ Hk. unfold delta. destruct (Nat.eqb_spec k n0); [contradiction|ring].
Qed.

Lemma rsum_delta_1 : rsum N (fun n => delta n) = 1.
Proof.
  rewrite (rsum_ext N _ (fun n => 1 * delta n)) by (intros; ring).
  apply (rsum_delta (fun _ => 1)).
Qed.

Lemma INR_N_neq : INR N <> 0.
Proof. apply not_0_INR. lia. Qed.

Lemma col_centered : rsum N (fun n => X n - col_mean N X) = 0.
Proof.
  rewrite (rsum_ext N _ (fun n => X n + -1 * col_mean N X)) by (intros; ring).
  rewrite rsum_plus, rsum_const. unfold col_mean. field. exact INR_N_neq.
Qed.

Lemma dlim_col_mean (t0 : R) :
  derivable_pt_lim (fun t => col_mean N (upd X n0 t)) t0 (1 / INR N).
Proof.
  unfold col_mean.
  eapply (dlim_eq (fun t => rsum N (fun n => upd X n0 t n) * / INR N)).
  - eapply (dlim_mult (fun t => rsum N (fun n => upd X n0 t n)) (fun _ => / INR N)).
    + eapply (dlim_rsum N (fun n t => upd X n0 t n)). intros n Hn. apply dlim_upd.
    + apply derivable_pt_lim_const.
  - intros t. reflexivity.
  - rewrite rsum_delta_1. field. exact INR_N_neq.
Qed.

Lemma dlim_col_var :
  derivable_pt_lim (fun t => col_var N (upd X n0 t)) (X n0)
    (2 * (X n0 - col_mean N X) / INR N).
Proof.
  unfold col_var.
  eapply (dlim_eq (fun t => rsum N (fun n => (upd X n0 t n - col_mean N (upd X n0 t)) ^ 2)
                            * / INR N)).
  - eapply (dlim_mult _ (fun _ => / INR N)); [|apply derivable_pt_lim_const].
    eapply (dlim_rsum N (fun n t => (upd X n0 t n - col_mean N (upd X n0 t)) ^ 2)).
    intros n Hn.
    apply (dlim_sq (fun t => upd X n0 t n - col_mean N (upd X n0 t))).
    apply (dlim_minus (fun t => upd X n0 t n) (fun t => col_mean N (upd X n0 t))).
    + apply dlim_upd.
    + apply dlim_col_mean.
  - intros t. reflexivity.
  - cbv beta. rewrite upd_same.
    rewrite (rsum_ext N _ (fun n => (2 * (X n - col_mean N X)) * delta n
                                    + (- (2 / INR N)) * (X n - col_mean N X))).
    + rewrite rsum_plus, rsum_delta, rsum_scal_l, col_centered. field. exact INR_N_neq.
    + intros n Hn. field. exact INR_N_neq.
Qed.

End Column.

Lemma col_var_nonneg (N : nat) (Y : nat -> R) : 0 <= col_var N Y.
Proof.
  unfold col_var. destruct N as [|N].
  - cbn [rsum]. unfold Rdiv. rewrite Rmult_0_l. lra.
  - apply Rmult_le_pos.
    + generalize (col_mean (S N) Y). intros m.
      induction (S N) as [|k IH]; cbn [rsum]; [lra|].
      apply Rplus_le_le_0_compat; [exact IH|apply pow2_ge_0].
    + left. apply Rinv_0_lt_compat. apply lt_0_INR. lia.
Qed.

(** The loss [sum_n G n * out n] of one normalised column, as a function of
    its entry [n0]. *)
Lemma bn_column_dlim (N : nat) (X G : nat -> R) (n0 : nat) (e gam bet : R) :
  (n0 < N)%nat -> 0 < e ->
  let mu := col_mean N X in
  let sg := sqrt (col_var N X + e) in
  derivable_pt_lim
    (fun t => rsum N (fun n =>
       G n * (gam * (upd X n0 t n - col_mean N (upd X n0 t))
              / sqrt (col_var N (upd X n0 t) + e) + bet)))
    (X n0)
    (gam *
     (rsum N (fun k => (- (1) / INR N + (if (n0 =? k)%nat then 1 else 0)) * G k) / sg
      - rsum N (fun k => 1 * ((X k - mu) * G k)) * ((X n0 - mu) / INR N / sg ^ 3 + 0))).
Proof.
  intros Hn0 He mu sg.
  pose proof (col_var_nonneg N X) as Hv.
  assert (Hsg : sg * sg = col_var N X + e) by (apply sqrt_sqrt; lra).
  assert (Hsg0 : sg <> 0) by (intros E0; rewrite E0 in Hsg; lra).
  eapply (dlim_eq (fun t => rsum N (fun n =>
            G n * (gam * (upd X n0 t n - col_mean N (upd X n0 t))
                   * / sqrt (col_var N (upd X n0 t) + e) + bet)))).
  - eapply (dlim_rsum N (fun n t =>
              G n * (gam * (upd X n0 t n - col_mean N (upd X n0 t))
                     * / sqrt (col_var N (upd X n0 t) + e) + bet))).
    intros n Hn.
    eapply (dlim_mult (fun _ => G n)); [apply derivable_pt_lim_const|].
    eapply (dlim_plus _ (fun _ => bet)); [|apply derivable_pt_lim_const].
    eapply (dlim_mult (fun t => gam * (upd X n0 t n - col_mean N (upd X n0 t)))
                      (fun t => / sqrt (col_var N (upd X n0 t) + e))).
    + eapply (dlim_mult (fun _ => gam)); [apply derivable_pt_lim_const|].
      apply (dlim_minus (fun t => upd X n0 t n) (fun t => col_mean N (upd X n0 t))).
      * apply dlim_upd.
      * apply (dlim_col_mean N X n0 Hn0).
    + apply (dlim_inv_sqrt (fun t => col_var N (upd X n0 t) + e)).
      * eapply (dlim_plus _ (fun _ => e)); [|apply derivable_pt_lim_const].
        apply (dlim_col_var N X n0 Hn0).
      * rewrite upd_same. lra.
  - intros t. reflexivity.
  - cbv beta. rewrite upd_same. fold mu. fold sg.
    pose proof (INR_N_neq N n0 Hn0) as HN.
    set (c1 := - gam / (INR N * sg)).
    set (c2 := gam * (- ((2 * (X n0 - mu) / INR N + 0) / (2 * sg)) / sg ^ 2)).
    rewrite (rsum_ext N (fun n => 0 * _ + _)
               (fun n => (gam * / sg * G n) * delta n0 n
                         + (c1 * G n + c2 * ((X n - mu) * G n)))).
    2: { intros n Hn. unfold c1, c2. field. split; assumption. }
    rewrite (rsum_ext N (fun k => (- (1) / INR N + _) * G k)
               (fun k => G k * delta n0 k + (- (1) / INR N) * G k)).
    2: { intros k Hk. unfold delta. rewrite (Nat.eqb_sym n0 k). ring. }
    rewrite (rsum_ext N (fun k => 1 * _) (fun k => (X k - mu) * G k)) by (intros; ring).
    rewrite !rsum_plus, !(rsum_delta N n0 Hn0), !rsum_scal_l.
    unfold c1, c2. field. split; assumption.
Qed.

(** *** The loss of the training-time forward pass *)

Definition column (a : ndarray) (d : nat) : nat -> R := fun n => data a [n; d].

Lemma column_set_entry_same (x : ndarray) (n0 d0 : nat) (t : R) :
  column (set_entry x [n0; d0] t) d0 = upd (column x d0) n0 t.
Proof.
  apply functional_extensionality. intros n. unfold column, set_entry, upd. cbn [data].
  destruct (Nat.eqb_spec n n0) as [->|Hne].
  - rewrite decide_True by reflexivity. reflexivity.
  - rewrite decide_False by congruence. reflexivity.
Qed.

Lemma column_set_entry_other (x : ndarray) (n0 d0 d : nat) (t : R) :
  d <> d0 -> column (set_entry x [n0; d0] t) d = column x d.
Proof.
  intros Hne. apply functional_extensionality. intros n. unfold column, set_entry.
  cbn [data]. rewrite decide_False by congruence. reflexivity.
Qed.

Lemma in_bounds_2 (d0 d1 : nat) (idx : list nat) :
  in_bounds [d0; d1] idx -> exists n d, idx = [n; d] /\ (n < d0)%nat /\ (d < d1)%nat.
Proof.
  intros Hb. unfold in_bounds in Hb.
  inversion Hb as [|n ? idx1 ? Hn Hb1]; subst.
  inversion Hb1 as [|d ? idx2 ? Hd Hb2]; subst.
  inversion Hb2; subst. exists n, d. repeat split; assumption.
Qed.

Lemma in_bounds_1 (d0 : nat) (idx : list nat) :
  in_bounds [d0] idx -> exists d, idx = [d] /\ (d < d0)%nat.
Proof.
  intros Hb. unfold in_bounds in Hb.
  inversion Hb as [|d ? idx1 ? Hd Hb1]; subst.
  inversion Hb1; subst. exists d. split; [reflexivity|assumption].
Qed.

(** The loss of one normalised column. *)
Definition bn_col_loss (N : nat) (X G : nat -> R) (gam bet e : R) : R :=
  rsum N (fun n => G n * (gam * (X n - col_mean N X) / sqrt (col_var N X + e) + bet)).

Section BatchnormLoss.

Variables (N D : nat) (dout : ndarray) (bn : nat) (st : store) (mode : pyval).
Hypothesis Hdout : shape dout = [N; D].
Hypothesis Hmode : the_dict st bn !! "mode" = Some mode.
Hypothesis Htrain : eq_str mode "train" = true.
Hypothesis Hok : bn_param_wf D (the_dict st bn).

Let e : R := float_entry (the_dict st bn) "eps" (1 / 100000).

Lemma batchnorm_loss_value (x gamma beta : ndarray) :
  shape x = [N; D] -> shape gamma = [D] -> shape beta = [D] ->
  upstream_loss_in dout (batchnorm_forward x gamma beta bn st) =
  rsum D (fun d => bn_col_loss N (column x d) (column dout d)
                     (data gamma [d]) (data beta [d]) e).
Proof.
  intros Hx Hg Hb.
  destruct (batchnorm_forward_train_run N D x gamma beta bn st mode Hx Hg Hb Hmode Htrain Hok)
    as (out & mn & sd & rm' & rv' & Run & Sout & _ & _ & _ & _ & Vout & _).
  rewrite Run. unfold upstream_loss_in, upstream_loss, sum, mul. cbn [fst].
  destruct (map2_2d_same Rmult N D dout out Hdout Sout) as [Sm Vm].
  rewrite Sm. cbn [sum_over]. rewrite rsum_swap.
  apply rsum_ext. intros d Hd. unfold bn_col_loss. apply rsum_ext. intros n Hn.
  rewrite Vm, Vout by assumption. reflexivity.
Qed.

End BatchnormLoss.

Lemma bn_col_loss_gamma_dlim (N : nat) (X G : nat -> R) (bet e g0 : R) :
  derivable_pt_lim (fun t => bn_col_loss N X G t bet e) g0
    (rsum N (fun n => (X n - col_mean N X) / sqrt (col_var N X + e) * G n)).
Proof.
  unfold bn_col_loss.
  eapply (dlim_eq (fun t => rsum N (fun n =>
            G n * (t * ((X n - col_mean N X) / sqrt (col_var N X + e)) + bet)))).
  - eapply (dlim_rsum N (fun n t =>
              G n * (t * ((X n - col_mean N X) / sqrt (col_var N X + e)) + bet))).
    intros n Hn.
    eapply (dlim_mult (fun _ => G n)); [apply derivable_pt_lim_const|].
    eapply (dlim_plus _ (fun _ => bet)); [|apply derivable_pt_lim_const].
    eapply (dlim_mult (fun t => t) (fun _ => (X n - col_mean N X) / sqrt (col_var N X + e)));
      [apply derivable_pt_lim_id|apply derivable_pt_lim_const].
  - intros t. apply rsum_ext. intros n Hn. unfold Rdiv. ring.
  - apply rsum_ext. intros n Hn. cbv beta. ring.
Qed.

Lemma bn_col_loss_beta_dlim (N : nat) (X G : nat -> R) (gam e b0 : R) :
  derivable_pt_lim (fun t => bn_col_loss N X G gam t e) b0 (rsum N (fun n => G n)).
Proof.
  unfold bn_col_loss.
  eapply dlim_eq.
  - eapply (dlim_rsum N (fun n t =>
              G n * (gam * (X n - col_mean N X) / sqrt (col_var N X + e) + t))).
    intros n Hn.
    eapply (dlim_mult (fun _ => G n)); [apply derivable_pt_lim_const|].
    eapply (dlim_plus (fun _ => gam * (X n - col_mean N X) / sqrt (col_var N X + e))
                      (fun t => t));
      [apply derivable_pt_lim_const|apply derivable_pt_lim_id].
  - intros t. reflexivity.
  - apply rsum_ext. intros n Hn. cbv beta. ring.
Qed.

Lemma vector_set_entry (a : ndarray) (d0 d : nat) (t : R) :
  data (set_entry a [d0] t) [d] = if (d =? d0)%nat then t else data a [d].
Proof.
  unfold set_entry. cbn [data]. destruct (Nat.eqb_spec d d0) as [->|Hne].
  - rewrite decide_True by reflexivity. reflexivity.
  - rewrite decide_False by congruence. reflexivity.
Qed.

(** X11: in training mode, on [x] of shape [(N, D)] with at least one row,
    [gamma] and [beta] of shape [(D,)] and a [bn_param] whose optional
    entries are well formed ([eps] and [momentum], when present, floats;
    [running_mean] and [running_var], when present, arrays of shape [(D,)]
    or [(1, D)]) with a positive [eps], [batchnorm_backward] applied to
    [dout] of shape [(N, D)] and the cache of [batchnorm_forward] returns
    the gradients of [np.sum(dout * out)] with respect to [x], [gamma] and
    [beta]. *)
Theorem batchnorm_forward_backward_correct (N D : nat) (x gamma beta dout : ndarray)
      (bn : nat) (st : store) (mode : pyval) :
  shape x = [N; D] -> shape gamma = [D] -> shape beta = [D] -> shape dout = [N; D] ->
  (1 <= N)%nat ->
  the_dict st bn !! "mode" = Some mode -> eq_str mode "train" = true ->
  bn_param_wf D (the_dict st bn) ->
  0 < float_entry (the_dict st bn) "eps" (1 / 100000) ->
  exists out cache st' dx dgamma dbeta,
    batchnorm_forward x gamma beta bn st = (Ok (out, cache), st') /\
    batchnorm_backward dout cache = Ok (dx, dgamma, dbeta) /\
    gradient_at (fun x' => upstream_loss_in dout (batchnorm_forward x' gamma beta bn st))
                x dx /\
    gradient_at (fun g' => upstream_loss_in dout (batchnorm_forward x g' beta bn st))
                gamma dgamma /\
    gradient_at (fun b' => upstream_loss_in dout (batchnorm_forward x gamma b' bn st))
                beta dbeta.
Proof.
  intros Hx Hg Hb Hd _ Hmode Htrain Hok He.
  destruct (batchnorm_forward_train_run N D x gamma beta bn st mode Hx Hg Hb Hmode Htrain Hok)
    as (out & mn & sd & rm' & rv' & Run & Sout & Smn & Ssd & _ & _ & _ & Vst).
  destruct (batchnorm_backward_value N D dout x mn sd gamma (PArr beta) _ Hd Hx Smn Ssd Hg
              eq_refl) as (dx & dgamma & dbeta & Back & Sdx & Sdg & Sdb & Vdx & Vdg & Vdb).
  set (e := float_entry (the_dict st bn) "eps" (1 / 100000)) in *.
  eexists. eexists. eexists. exists dx, dgamma, dbeta.
  split; [exact Run|]. split; [exact Back|].
  assert (Hloss := batchnorm_loss_value N D dout bn st mode Hd Hmode Htrain Hok).
  fold e in Hloss.
  split; [|split].
  - split; [congruence|]. rewrite Hx. intros idx Hidx.
    destruct (in_bounds_2 _ _ _ Hidx) as (n0 & d0 & -> & Hn0 & Hd0).
    destruct (Vst d0 Hd0) as (Vmn & Vsd & _ & _).
    eapply (dlim_eq (fun t => rsum D (fun d =>
              bn_col_loss N (column (set_entry x [n0; d0] t) d) (column dout d)
                (data gamma [d]) (data beta [d]) e))).
    + apply (dlim_rsum D
               (fun d t => bn_col_loss N (column (set_entry x [n0; d0] t) d) (column dout d)
                             (data gamma [d]) (data beta [d]) e)
               (fun d => if (d =? d0)%nat then data dx [n0; d0] else 0)).
      intros d Hdd. destruct (Nat.eqb_spec d d0) as [->|Hne].
      * eapply dlim_ext;
          [| |exact (bn_column_dlim N (column x d0) (column dout d0) n0 e
                      (data gamma [d0]) (data beta [d0]) Hn0 He)].
        -- intros t. cbv beta. rewrite column_set_entry_same. reflexivity.
        -- rewrite Vdx, Vmn, Vsd by assumption. reflexivity.
      * eapply dlim_ext; [| |apply (derivable_pt_lim_const
                                     (bn_col_loss N (column x d) (column dout d)
                                        (data gamma [d]) (data beta [d]) e))].
        -- intros t. cbv beta. rewrite column_set_entry_other by exact Hne. reflexivity.
        -- reflexivity.
    + intros t. apply Hloss; [rewrite <- Hx; reflexivity|exact Hg|exact Hb].
    + rewrite (rsum_single D d0 _ Hd0).
      * rewrite Nat.eqb_refl. reflexivity.
      * intros k _ Hk. destruct (Nat.eqb_spec k d0); [contradiction|reflexivity].
  - split; [congruence|]. rewrite Hg. intros idx Hidx.
    destruct (in_bounds_1 _ _ Hidx) as (d0 & -> & Hd0).
    destruct (Vst d0 Hd0) as (Vmn & Vsd & _ & _).
    eapply (dlim_eq (fun t => rsum D (fun d =>
              bn_col_loss N (column x d) (column dout d)
                (data (set_entry gamma [d0] t) [d]) (data beta [d]) e))).
    + apply (dlim_rsum D
               (fun d t => bn_col_loss N (column x d) (column dout d)
                             (data (set_entry gamma [d0] t) [d]) (data beta [d]) e)
               (fun d => if (d =? d0)%nat then data dgamma [d0] else 0)).
      intros d Hdd. destruct (Nat.eqb_spec d d0) as [->|Hne].
      * eapply dlim_ext;
          [| |exact (bn_col_loss_gamma_dlim N (column x d0) (column dout d0)
                      (data beta [d0]) e (data gamma [d0]))].
        -- intros t. cbv beta. rewrite vector_set_entry, Nat.eqb_refl. reflexivity.
        -- rewrite Vdg, Vmn, Vsd by assumption. reflexivity.
      * eapply dlim_ext; [| |apply (derivable_pt_lim_const
                                     (bn_col_loss N (column x d) (column dout d)
                                        (data gamma [d]) (data beta [d]) e))].
        -- intros t. cbv beta. rewrite vector_set_entry.
           destruct (Nat.eqb_spec d d0); [contradiction|reflexivity].
        -- reflexivity.
    + intros t. apply Hloss; [exact Hx|rewrite <- Hg; reflexivity|exact Hb].
    + rewrite (rsum_single D d0 _ Hd0).
      * rewrite Nat.eqb_refl. reflexivity.
      * intros k _ Hk. destruct (Nat.eqb_spec k d0); [contradiction|reflexivity].
  - split; [congruence|]. rewrite Hb. intros idx Hidx.
    destruct (in_bounds_1 _ _ Hidx) as (d0 & -> & Hd0).
    eapply (dlim_eq (fun t => rsum D (fun d =>
              bn_col_loss N (column x d) (column dout d)
                (data gamma [d]) (data (set_entry beta [d0] t) [d]) e))).
    + apply (dlim_rsum D
               (fun d t => bn_col_loss N (column x d) (column dout d)
                             (data gamma [d]) (data (set_entry beta [d0] t) [d]) e)
               (fun d => if (d =? d0)%nat then data dbeta [d0] else 0)).
      intros d Hdd. destruct (Nat.eqb_spec d d0) as [->|Hne].
      * eapply dlim_ext;
          [| |exact (bn_col_loss_beta_dlim N (column x d0) (column dout d0)
                      (data gamma [d0]) e (data beta [d0]))].
        -- intros t. cbv beta. rewrite vector_set_entry, Nat.eqb_refl. reflexivity.
        -- rewrite Vdb by assumption. reflexivity.
      * eapply dlim_ext; [| |apply (derivable_pt_lim_const
                                     (bn_col_loss N (column x d) (column dout d)
                                        (data gamma [d]) (data beta [d]) e))].
        -- intros t. cbv beta. rewrite vector_set_entry.
           destruct (Nat.eqb_spec d d0); [contradiction|reflexivity].
        -- reflexivity.
    + intros t. apply Hloss; [exact Hx|exact Hg|rewrite <- Hb; reflexivity].
    + rewrite (rsum_single D d0 _ Hd0).
      * rewrite Nat.eqb_refl. reflexivity.
      * intros k _ Hk. destruct (Nat.eqb_spec k d0); [contradiction|reflexivity].
Qed.

Lemma batchnorm_forward_backward_correct_witness :
  exists out cache st' dx dgamma dbeta,
    batchnorm_forward bn_train_x0 bn_train_gamma0 bn_train_beta0 0 bn_row_store0 =
    (Ok (out, cache), st') /\
    batchnorm_backward bn_train_x0 cache = Ok (dx, dgamma, dbeta) /\
    gradient_at (fun x' => upstream_loss_in bn_train_x0
                             (batchnorm_forward x' bn_train_gamma0 bn_train_beta0 0
                                bn_row_store0))
                bn_train_x0 dx /\
    gradient_at (fun g' => upstream_loss_in bn_train_x0
                             (batchnorm_forward bn_train_x0 g' bn_train_beta0 0
                                bn_row_store0))
                bn_train_gamma0 dgamma /\
    gradient_at (fun b' => upstream_loss_in bn_train_x0
                             (batchnorm_forward bn_train_x0 bn_train_gamma0 b' 0
                                bn_row_store0))
                bn_train_beta0 dbeta.
Proof.
  apply (batchnorm_forward_backward_correct 2 2 bn_train_x0 bn_train_gamma0 bn_train_beta0
           bn_train_x0 0 bn_row_store0 (PStr "train")).
  - reflexivity.
  - reflexivity.
  - reflexivity.
  - reflexivity.
  - lia.
  - reflexivity.
  - reflexivity.
  - exact bn_row_store0_wf.
  - rewrite bn_row_store0_eps. lra.
Defined.

(** The cache of a test-time forward pass. *)
Lemma batchnorm_forward_test_cache (N D : nat) (x gamma beta : ndarray) (bn : nat)
      (st : store) (mode : pyval) :
  shape x = [N; D] ->
  the_dict st bn !! "mode" = Some mode ->
  eq_str mode "train" = false -> eq_str mode "test" = true ->
  bn_param_wf D (the_dict st bn) ->
  exists out st',
    batchnorm_forward x gamma beta bn st =
    (Ok (out, <["x" := PArr x]> (<["std" := PNone]> (<["mean" := PNone]>
                (<["beta" := PArr beta]> (<["gamma" := PArr gamma]> ∅))))), st').
Proof.
  intros Hx Hmode Htrain Htest (Heps & Hmom & Hrm & Hrv).
  pose proof (float_entry_value _ "eps" (1 / 100000) Heps) as Ee.
  destruct (array_entry_value_wf _ "running_mean" D Hrm) as (Erm & _).
  destruct (array_entry_value_wf _ "running_var" D Hrv) as (Erv & _).
  unfold batchnorm_forward.
  unfold py_bind at 1. unfold dict_getitem. rewrite Hmode.
  unfold py_bind at 1. unfold dict_get at 1.
  unfold py_bind at 1. unfold dict_get at 1.
  unfold py_bind at 1. unfold lift at 1. unfold shape2. rewrite Hx.
  unfold py_bind at 1. unfold dict_get at 1.
  unfold py_bind at 1. unfold dict_get at 1.
  unfold py_bind at 1. rewrite Htrain, Htest.
  rewrite Ee, Erm, Erv.
  unfold py_bind, lift, py_ret. cbn [as_array].
  unfold dict_setitem. cbn beta iota.
  eexists. eexists. reflexivity.
Qed.

(** A [bn_param] in test mode as training calls leave it: the running
    statistics have the shape [(1, D)]. *)
Definition bn_row_test_store0 : store :=
  {| dicts := <[0%nat := <["running_var" := PArr bn_row_rv0]>
                 (<["running_mean" := PArr bn_row_rm0]> (<["mode" := PStr "test"]> ∅))]> ∅;
     rng := 0 |}.

Lemma bn_row_test_store0_wf : bn_param_wf 2 (the_dict bn_row_test_store0 0).
Proof.
  repeat split; intros v Hv; try discriminate Hv.
  - injection Hv as <-. exists bn_row_rm0. split; [reflexivity|right; reflexivity].
  - injection Hv as <-. exists bn_row_rv0. split; [reflexivity|right; reflexivity].
Qed.

(** X12: the cache of a test-mode forward pass holds [None] for the batch
    statistics, so [batchnorm_backward] on it raises [TypeError]: no
    gradient is returned after a test-mode pass.  This is for [x] and [dout]
    of shape [(N, D)], [gamma] and [beta] of shape [(D,)] and a [bn_param]
    whose optional entries are well formed ([eps] and [momentum], when
    present, floats; [running_mean] and [running_var], when present, arrays
    of shape [(D,)] or [(1, D)], as a default or a training call leaves
    them). *)
Theorem batchnorm_backward_after_test_mode (N D : nat) (x gamma beta dout : ndarray)
      (bn : nat) (st : store) (mode : pyval) :
  shape x = [N; D] -> shape gamma = [D] -> shape beta = [D] -> shape dout = [N; D] ->
  the_dict st bn !! "mode" = Some mode ->
  eq_str mode "train" = false -> eq_str mode "test" = true ->
  bn_param_wf D (the_dict st bn) ->
  exists out cache st',
    batchnorm_forward x gamma beta bn st = (Ok (out, cache), st') /\
    cache !! "mean" = Some PNone /\ cache !! "std" = Some PNone /\
    batchnorm_backward dout cache = Raise (TypeError "unsupported operand type").
Proof.
  intros Hx Hg Hb Hd Hmode Htrain Htest Hok.
  destruct (batchnorm_forward_test_cache N D x gamma beta bn st mode Hx Hmode Htrain
              Htest Hok) as (out & st' & Run).
  eexists. eexists. eexists. split; [exact Run|].
  split; [reflexivity|]. split; [reflexivity|].
  unfold batchnorm_backward, shape2. rewrite Hd. reflexivity.
Qed.

Lemma batchnorm_backward_after_test_mode_witness :
  exists out cache st',
    batchnorm_forward bn_train_x0 bn_train_gamma0 bn_train_beta0 0 bn_row_test_store0 =
    (Ok (out, cache), st') /\
    cache !! "mean" = Some PNone /\ cache !! "std" = Some PNone /\
    batchnorm_backward bn_train_x0 cache = Raise (TypeError "unsupported operand type").
Proof.
  exact (batchnorm_backward_after_test_mode 2 2 bn_train_x0 bn_train_gamma0 bn_train_beta0
           bn_train_x0 0 bn_row_test_store0 (PStr "test") eq_refl eq_refl eq_refl eq_refl
           eq_refl eq_refl eq_refl bn_row_test_store0_wf).
Defined.

(** ** Dropout, forward and backward *)

Lemma broadcast_shapes_scalar_r (s : list nat) : broadcast_shapes s [] = s.
Proof.
  unfold broadcast_shapes, lpad1. cbn [length]. rewrite Nat.max_0_r, Nat.sub_0_r, Nat.sub_diag.
  cbn [repeat app]. rewrite app_nil_r.
  induction s as [|d s IH]; [reflexivity|]. cbn [length repeat zip_with]. rewrite IH.
  rewrite bdim_1_r. reflexivity.
Qed.

Lemma map2_scalar_r (op : R -> R -> R) (a : ndarray) (c : R) :
  shape (map2 op a (scalar c)) = shape a /\
  forall idx, in_bounds (shape a) idx -> data (map2 op a (scalar c)) idx = op (data a idx) c.
Proof.
  unfold map2, scalar. cbn [shape data]. split.
  - apply broadcast_shapes_scalar_r.
  - intros idx Hidx. rewrite bindex_in_bounds by exact Hidx. reflexivity.
Qed.

(** The state of the generator from which a call draws its mask: the seeded
    state when [dropout_param] holds an integer seed, the current one
    otherwise. *)
Definition dropout_state (G : generator) (st : store) (dp : nat) : Z :=
  match the_dict st dp !! "seed" with
  | Some (PInt s) => seed_state G s
  | _ => rng st
  end.

Definition seed_ok (st : store) (dp : nat) : Prop :=
  the_dict st dp !! "seed" = None \/
  exists s, the_dict st dp !! "seed" = Some (PInt s) /\ (0 <= s < 2 ^ 32)%Z.

Lemma dropout_forward_train_run (G : generator) (x : ndarray) (dp : nat) (st : store)
      (p : R) (mode : pyval) :
  the_dict st dp !! "p" = Some (PFloat p) ->
  the_dict st dp !! "mode" = Some mode -> eq_str mode "train" = true ->
  seed_ok st dp ->
  dropout_forward G x dp st =
  (let r := rand G (dropout_state G st dp) (shape x) in
   let mask := div (greater (fst r) p) (scalar (1 - p)) in
   (Ok (mul x mask, (dp, Some mask)), {| dicts := dicts st; rng := snd r |})).
Proof.
  intros Hp Hmode Htrain [Hs|(s & Hs & Hr)].
  - unfold dropout_state. rewrite Hs. unfold dropout_forward.
    unfold py_bind at 1. unfold dict_getitem at 1. rewrite Hp.
    unfold py_bind at 1. unfold dict_getitem at 1. rewrite Hmode.
    unfold py_bind at 1. unfold dict_contains at 1. rewrite Hs.
    rewrite bool_decide_eq_false_2 by (intros [v Hv]; discriminate Hv).
    unfold py_bind at 1. unfold py_ret at 1. rewrite Htrain.
    unfold py_bind at 1. unfold random_rand.
    destruct (rand G (rng st) (shape x)) as [r g]. reflexivity.
  - unfold dropout_state. rewrite Hs.
    rewrite (dropout_forward_seed_step G x dp st (PFloat p) mode (PInt s) Hp Hmode Hs).
    rewrite Htrain. unfold np_random_seed.
    unfold py_bind at 1. unfold py_bind at 1. unfold lift at 1. cbn [as_int].
    assert (Hin : ((0 <=? s) && (s <? 2 ^ 32))%Z = true).
    { apply andb_true_intro. split; [apply Z.leb_le|apply Z.ltb_lt]; lia. }
    rewrite Hin. unfold random_seed.
    unfold py_bind at 1. unfold random_rand. cbn [rng dicts].
    destruct (rand G (seed_state G s) (shape x)) as [r g]. reflexivity.
Qed.

(** X13: in training mode with [p] a float other than 1, [dropout_forward]
    returns [x * mask] where every entry of [mask] is 0 or [1 / (1 - p)]; it
    changes the state of the generator only.  [dropout_backward] on the
    returned cache gives [dout * mask], which is the gradient of
    [np.sum(dout * out)] with respect to [x] for the forward pass run from
    the same store. *)
Theorem dropout_forward_backward_train (G : generator) (x dout : ndarray) (dp : nat)
      (st : store) (p : R) (mode : pyval) :
  the_dict st dp !! "p" = Some (PFloat p) ->
  the_dict st dp !! "mode" = Some mode -> eq_str mode "train" = true ->
  seed_ok st dp -> p <> 1 -> shape dout = shape x ->
  exists out mask st',
    dropout_forward G x dp st = (Ok (out, (dp, Some mask)), st') /\
    dicts st' = dicts st /\
    shape out = shape x /\
    (forall idx, in_bounds (shape x) idx ->
       (data mask idx = 0 \/ data mask idx = 1 / (1 - p)) /\
       data out idx = data x idx * data mask idx) /\
    exists dx,
      dropout_backward dout (dp, Some mask) st' = (Ok (Some dx), st') /\
      (forall idx, in_bounds (shape x) idx -> data dx idx = data dout idx * data mask idx) /\
      gradient_at (fun x' => upstream_loss_in dout (dropout_forward G x' dp st)) x dx.
Proof.
  intros Hp Hmode Htrain Hseed Hp1 Hd.
  pose proof (fun x' => dropout_forward_train_run G x' dp st p mode Hp Hmode Htrain Hseed)
    as Run. cbv zeta in Run.
  set (g0 := dropout_state G st dp) in *.
  set (r := fst (rand G g0 (shape x))).
  set (mask := div (greater r p) (scalar (1 - p))).
  assert (Sr : shape r = shape x) by apply rand_shape.
  destruct (map2_scalar_r Rdiv (greater r p) (1 - p)) as [Sm Vm].
  change (shape (greater r p)) with (shape r) in Sm, Vm. rewrite Sr in Sm, Vm.
  fold (div (greater r p) (scalar (1 - p))) in Sm, Vm. fold mask in Sm, Vm.
  destruct (map2_same_shape Rmult x mask (shape x) eq_refl Sm) as [So Vo].
  destruct (map2_same_shape Rmult dout mask (shape x) Hd Sm) as [Sdx Vdx].
  exists (mul x mask), mask. eexists.
  split; [apply Run|]. split; [reflexivity|]. split; [exact So|].
  split.
  { intros idx Hidx. split; [|apply Vo; exact Hidx].
    rewrite Vm by exact Hidx. unfold greater. cbn [map1 data].
    destruct (Rlt_dec p (data r idx)); [right; reflexivity|left; unfold Rdiv; ring]. }
  exists (mul dout mask). split; [|split; [exact Vdx|]].
  { unfold dropout_backward. unfold py_bind, dict_getitem. cbn [dicts].
    change (the_dict {| dicts := dicts st; rng := snd (rand G g0 (shape x)) |} dp)
      with (the_dict st dp).
    rewrite Hmode, Htrain. reflexivity. }
  split; [unfold mul; congruence|].
  intros idx Hidx.
  eapply (dlim_eq (fun t => sum_over (shape x) (fun j =>
            data dout j * (data (set_entry x idx t) j * data mask j)))).
  - apply (dlim_sum_over (shape x)
             (fun j t => data dout j * (data (set_entry x idx t) j * data mask j))
             (fun j => (data dout idx * data mask idx) * indicator idx j)).
    intros j Hj. unfold set_entry, indicator. cbn [data].
    destruct (decide (j = idx)) as [->|Hji].
    + eapply dlim_eq.
      * apply (dlim_mult (fun _ => data dout idx) (fun t => t * data mask idx));
          [apply derivable_pt_lim_const|].
        apply (dlim_mult (fun t => t) (fun _ => data mask idx));
          [apply derivable_pt_lim_id|apply derivable_pt_lim_const].
      * intros t. reflexivity.
      * cbv beta. ring.
    + eapply dlim_eq; [apply derivable_pt_lim_const | intros; reflexivity | lra].
  - intros t. rewrite (Run (set_entry x idx t)). cbn [set_entry shape].
    fold r. fold mask. unfold upstream_loss_in, upstream_loss, sum. cbn [fst].
    destruct (map2_same_shape Rmult (set_entry x idx t) mask (shape x) eq_refl Sm)
      as [So' Vo'].
    destruct (map2_same_shape Rmult dout (mul (set_entry x idx t) mask) (shape x) Hd So')
      as [Sl Vl].
    unfold mul in *. rewrite Sl. apply sum_over_ext. intros j Hj.
    rewrite Vl, Vo' by exact Hj. reflexivity.
  - rewrite Vdx by exact Hidx. symmetry.
    apply (sum_over_indicator (shape x) idx (fun _ => data dout idx * data mask idx) Hidx).
Qed.

(** A generator whose draws are all 1/2. *)
Definition half_generator : generator :=
  {| seed_state := fun s => s;
     fresh_state := fun g => (g + 1)%Z;
     rand := fun g sh => ({| shape := sh; data := fun _ => 1 / 2 |}, (g + 1)%Z);
     randn := fun g sh => ({| shape := sh; data := fun _ => 0 |}, (g + 1)%Z);
     rand_shape := fun _ _ => eq_refl;
     randn_shape := fun _ _ => eq_refl |}.

Definition dropout_x0 : ndarray := matrix_of 1 2 (fun _ j => INR j + 1).
Definition dropout_train_store : store :=
  {| dicts := <[0%nat := <["mode" := PStr "train"]> (<["p" := PFloat (1 / 4)]> ∅)]> ∅;
     rng := 0 |}.

Lemma dropout_forward_backward_train_witness :
  exists out mask st',
    dropout_forward half_generator dropout_x0 0 dropout_train_store =
    (Ok (out, (0%nat, Some mask)), st') /\
    dicts st' = dicts dropout_train_store /\
    shape out = shape dropout_x0 /\
    (forall idx, in_bounds (shape dropout_x0) idx ->
       (data mask idx = 0 \/ data mask idx = 1 / (1 - 1 / 4)) /\
       data out idx = data dropout_x0 idx * data mask idx) /\
    exists dx,
      dropout_backward dropout_x0 (0%nat, Some mask) st' = (Ok (Some dx), st') /\
      (forall idx, in_bounds (shape dropout_x0) idx ->
         data dx idx = data dropout_x0 idx * data mask idx) /\
      gradient_at (fun x' => upstream_loss_in dropout_x0
                               (dropout_forward half_generator x' 0 dropout_train_store))
                  dropout_x0 dx.
Proof.
  apply (dropout_forward_backward_train half_generator dropout_x0 dropout_x0 0
           dropout_train_store (1 / 4) (PStr "train")).
  - reflexivity.
  - reflexivity.
  - reflexivity.
  - left. reflexivity.
  - lra.
  - reflexivity.
Defined.

(** The modes other than ['train']. *)
Lemma dropout_forward_dispatch (G : generator) (x : ndarray) (dp : nat) (st : store)
      (p mode : pyval) :
  the_dict st dp !! "p" = Some p -> the_dict st dp !! "mode" = Some mode ->
  seed_ok st dp ->
  dropout_forward G x dp st =
  (if eq_str mode "train" then
     let! r := random_rand G (shape x) in
     let! p := lift (as_float p) in
     let mask := div (greater r p) (scalar (1 - p)) in
     let out := mul x mask in
     let cache := (dp, Some mask) in
     py_ret (out, cache)
   else if eq_str mode "test" then py_ret (x, (dp, None))
   else py_raise (AttributeError "'NoneType' object has no attribute 'astype'"))
    {| dicts := dicts st; rng := dropout_state G st dp |}.
Proof.
  intros Hp Hmode [Hs|(s & Hs & Hr)].
  - unfold dropout_state. rewrite Hs. unfold dropout_forward.
    unfold py_bind at 1. unfold dict_getitem at 1. rewrite Hp.
    unfold py_bind at 1. unfold dict_getitem at 1. rewrite Hmode.
    unfold py_bind at 1. unfold dict_contains at 1. rewrite Hs.
    rewrite bool_decide_eq_false_2 by (intros [v Hv]; discriminate Hv).
    unfold py_bind at 1. unfold py_ret at 1. destruct st as [ds g]. reflexivity.
  - unfold dropout_state. rewrite Hs.
    rewrite (dropout_forward_seed_step G x dp st p mode (PInt s) Hp Hmode Hs).
    unfold np_random_seed.
    unfold py_bind at 1. unfold py_bind at 1. unfold lift at 1. cbn [as_int].
    assert (Hin : ((0 <=? s) && (s <? 2 ^ 32))%Z = true).
    { apply andb_true_intro. split; [apply Z.leb_le|apply Z.ltb_lt]; lia. }
    rewrite Hin. unfold random_seed. reflexivity.
Qed.


Definition dropout_test_store : store :=
  {| dicts := <[0%nat := <["seed" := PInt 7]> (<["mode" := PStr "test"]>
                            (<["p" := PFloat (1 / 4)]> ∅))]> ∅;
     rng := 0 |}.



Definition dropout_valid_store : store :=
  {| dicts := <[0%nat := <["mode" := PStr "valid"]> (<["p" := PFloat (1 / 4)]> ∅)]> ∅;
     rng := 0 |}.


(** ** The temporal affine layer *)

(** [N, T, D = a.shape] and [a.shape[i]]. *)
Definition shape3 (a : ndarray) : res (nat * nat * nat) :=
  match shape a with
  | [n; t; d] => Ok (n, t, d)
  | _ => Raise (ValueError "wrong number of values to unpack")
  end.

Definition shape_getitem (a : ndarray) (i : nat) : res nat :=
  match nth_error (shape a) i with
  | Some d => Ok d
  | None => Raise IndexError
  end.

Definition temporal_cache : Type := (ndarray * ndarray * ndarray * ndarray)%type.

Definition temporal_affine_forward (x w b : ndarray) : res (ndarray * temporal_cache) :=
  let* ntd := shape3 x in
  let '(N, T, D) := ntd in
  let* M := shape_getitem b 0 in
  let* xr := reshape x [Z.of_nat (N * T); Z.of_nat D] in
  let* o := reshape (dot xr w) [Z.of_nat N; Z.of_nat T; Z.of_nat M] in
  let out := add o b in
  let cache := (x, w, b, out) in
  Ok (out, cache).

Definition temporal_affine_backward (dout : ndarray) (cache : temporal_cache)
  : res (ndarray * ndarray * ndarray) :=
  let '(x, w, b, out) := cache in
  let* ntd := shape3 x in
  let '(N, T, D) := ntd in
  let* M := shape_getitem b 0 in
  let* dr := reshape dout [Z.of_nat (N * T); Z.of_nat M] in
  let* dx := reshape (dot dr (transpose w)) [Z.of_nat N; Z.of_nat T; Z.of_nat D] in
  let* dr' := reshape dout [Z.of_nat (N * T); Z.of_nat M] in
  let* xr := reshape x [Z.of_nat (N * T); Z.of_nat D] in
  let dw := transpose (dot (transpose dr') xr) in
  let db := sum_axes dout [0; 1]%nat in
  Ok (dx, dw, db).

Lemma unravel_triple (d1 d2 d3 i j k : nat) :
  (j < d2)%nat -> (k < d3)%nat ->
  unravel [d1; d2; d3] ((i * d2 + j) * d3 + k) = [i; j; k].
Proof.
  intros Hj Hk. assert (E : size_of [d2; d3] = (d2 * d3)%nat) by (simpl; lia).
  replace ((i * d2 + j) * d3 + k)%nat with (i * size_of [d2; d3] + (j * d3 + k))%nat
    by (rewrite E; lia).
  rewrite unravel_cons by (rewrite E; nia).
  rewrite unravel_pair by exact Hk. reflexivity.
Qed.

Lemma ravel_triple (d1 d2 d3 i j k : nat) :
  ravel [d1; d2; d3] [i; j; k] = ((i * d2 + j) * d3 + k)%nat.
Proof. simpl. lia. Qed.

(** [a.reshape(N * T, D)] of an array of shape [(N, T, D)]. *)
Lemma reshape_flatten (a : ndarray) (N T D : nat) :
  shape a = [N; T; D] ->
  exists ar, reshape a [Z.of_nat (N * T); Z.of_nat D] = Ok ar /\
    shape ar = [(N * T)%nat; D] /\
    forall n t d, (t < T)%nat -> (d < D)%nat ->
      data ar [(n * T + t)%nat; d] = data a [n; t; d].
Proof.
  intros Ha. eexists. split; [|split].
  - apply (reshape_exact a [(N * T)%nat; D]). rewrite Ha. simpl. lia.
  - reflexivity.
  - intros n t d Ht Hd. cbn [data]. rewrite Ha, ravel_pair, unravel_triple by assumption.
    reflexivity.
Qed.

(** [a.reshape(N, T, D)] of an array of shape [(N * T, D)]. *)
Lemma reshape_unflatten (a : ndarray) (N T D : nat) :
  shape a = [(N * T)%nat; D] ->
  exists ar, reshape a [Z.of_nat N; Z.of_nat T; Z.of_nat D] = Ok ar /\
    shape ar = [N; T; D] /\
    forall n t d, (t < T)%nat -> (d < D)%nat ->
      data ar [n; t; d] = data a [(n * T + t)%nat; d].
Proof.
  intros Ha. eexists. split; [|split].
  - apply (reshape_exact a [N; T; D]). rewrite Ha. simpl. lia.
  - reflexivity.
  - intros n t d Ht Hd. cbn [data]. rewrite Ha, ravel_triple, unravel_pair by assumption.
    reflexivity.
Qed.

Section TemporalAffine.

Variables (N T D M : nat).

Section Values.

Variables x w b : ndarray.
Hypothesis Hx : shape x = [N; T; D].
Hypothesis Hw : shape w = [D; M].
Hypothesis Hb : shape b = [M].

Lemma temporal_affine_forward_value :
  exists out,
    temporal_affine_forward x w b = Ok (out, (x, w, b, out)) /\
    shape out = [N; T; M] /\
    forall n t m, (n < N)%nat -> (t < T)%nat -> (m < M)%nat ->
      data out [n; t; m] = rsum D (fun d => data x [n; t; d] * data w [d; m]) + data b [m].
Proof.
  destruct (reshape_flatten x N T D Hx) as (xr & Exr & Sxr & Vxr).
  assert (Sdot : shape (dot xr w) = [(N * T)%nat; M]).
  { unfold dot, dim. cbn [shape]. rewrite Sxr, Hw. reflexivity. }
  destruct (reshape_unflatten (dot xr w) N T M Sdot) as (o & Eo & So & Vo).
  exists (add o b). split; [|split].
  - unfold temporal_affine_forward, shape3, shape_getitem. rewrite Hx, Hb.
    cbn [nth_error res_bind]. rewrite Exr. cbn [res_bind]. rewrite Eo. reflexivity.
  - unfold add. rewrite map2_shape_eq, So, Hb. np_unfold.
    rewrite ?bdim_1_r, ?bdim_diag. reflexivity.
  - intros n t m Hn Ht Hm. unfold add, map2. cbn [data]. rewrite So, Hb. np_unfold.
    bidx_simpl. rewrite Vo by assumption. f_equal.
    unfold dot, dim. cbn [data]. rewrite Sxr. cbn [nth].
    apply rsum_ext. intros d Hd. rewrite Vxr by assumption. reflexivity.
Qed.

Variable dout : ndarray.
Hypothesis Hdout : shape dout = [N; T; M].

Lemma temporal_affine_backward_value (out : ndarray) :
  exists dx dw db,
    temporal_affine_backward dout (x, w, b, out) = Ok (dx, dw, db) /\
    shape dx = [N; T; D] /\ shape dw = [D; M] /\ shape db = [M] /\
    (forall n t d, (n < N)%nat -> (t < T)%nat -> (d < D)%nat ->
       data dx [n; t; d] = rsum M (fun m => data dout [n; t; m] * data w [d; m])) /\
    (forall d m, (d < D)%nat -> (m < M)%nat ->
       data dw [d; m] =
       rsum N (fun n => rsum T (fun t => data dout [n; t; m] * data x [n; t; d]))) /\
    (forall m, data db [m] = rsum N (fun n => rsum T (fun t => data dout [n; t; m]))).
Proof.
  destruct (reshape_flatten x N T D Hx) as (xr & Exr & Sxr & Vxr).
  destruct (reshape_flatten dout N T M Hdout) as (dr & Edr & Sdr & Vdr).
  assert (Sdot : shape (dot dr (transpose w)) = [(N * T)%nat; D]).
  { unfold dot, dim, transpose. cbn [shape]. rewrite Sdr, Hw. reflexivity. }
  destruct (reshape_unflatten _ N T D Sdot) as (dx & Edx & Sdx & Vdx).
  exists dx. eexists. eexists. split; [|split; [|split; [|split; [|split; [|split]]]]].
  - unfold temporal_affine_backward, shape3, shape_getitem. rewrite Hx, Hb.
    cbn [nth_error res_bind]. rewrite Edr. cbn [res_bind]. rewrite Edx. cbn [res_bind].
    rewrite Exr. cbn [res_bind]. reflexivity.
  - exact Sdx.
  - unfold transpose, dot, dim. cbn [shape]. rewrite Sdr, Sxr. reflexivity.
  - unfold sum_axes. cbn [shape]. rewrite Hdout. reflexivity.
  - intros n t d Hn Ht Hd. rewrite Vdx by assumption.
    unfold dot, dim, transpose. cbn [data shape]. rewrite Sdr. cbn [nth rev app].
    apply rsum_ext. intros m Hm. rewrite Vdr by assumption. reflexivity.
  - intros d m Hd Hm. unfold transpose, dot, dim. cbn [data shape rev app nth].
    rewrite Sdr. cbn [rev app nth].
    rewrite <- (rsum_mul N T (fun n t => data dout [n; t; m] * data x [n; t; d])).
    apply rsum_ext. intros k Hk.
    assert (HT : (0 < T)%nat) by (destruct T; lia).
    assert (Hr : (k mod T < T)%nat) by (apply Nat.mod_upper_bound; lia).
    assert (Ek : k = (k / T * T + k mod T)%nat)
      by (rewrite (Nat.mul_comm (k / T) T); apply Nat.div_mod_eq).
    remember (k / T)%nat as q. remember (k mod T)%nat as r.
    rewrite Ek. rewrite Vdr, Vxr by assumption. reflexivity.
  - intros m. unfold sum_axes. cbn [data]. rewrite Hdout. np_unfold.
    apply rsum_ext. intros n Hn. apply rsum_ext. intros t Ht. reflexivity.
Qed.

(** [np.sum(dout * out)] written out. *)
Lemma temporal_affine_loss_value :
  upstream_loss dout (temporal_affine_forward x w b) =
  rsum N (fun n => rsum T (fun t => rsum M (fun m =>
    data dout [n; t; m] *
    (rsum D (fun d => data x [n; t; d] * data w [d; m]) + data b [m])))).
Proof.
  destruct temporal_affine_forward_value as (out & -> & Hsh & Hval).
  unfold upstream_loss, sum, mul, map2. cbn [shape data]. rewrite Hdout, Hsh. np_unfold.
  rewrite !bdim_diag. np_unfold.
  apply rsum_ext. intros n Hn. apply rsum_ext. intros t Ht. apply rsum_ext. intros m Hm.
  bidx_simpl. rewrite Hval by lia. reflexivity.
Qed.

End Values.

Section Derivative.

Variables (X W B : R -> ndarray) (X' W' B' : list nat -> R) (t0 : R).
Hypothesis HX : tangent X t0 X'.
Hypothesis HW : tangent W t0 W'.
Hypothesis HB : tangent B t0 B'.
Hypothesis Hx : shape (X t0) = [N; T; D].
Hypothesis Hw : shape (W t0) = [D; M].
Hypothesis Hb : shape (B t0) = [M].
Variable dout : ndarray.
Hypothesis Hdout : shape dout = [N; T; M].

Lemma temporal_affine_loss_dlim out dx dw db :
  temporal_affine_backward dout (X t0, W t0, B t0, out) = Ok (dx, dw, db) ->
  derivable_pt_lim
    (fun t => upstream_loss dout (temporal_affine_forward (X t) (W t) (B t))) t0
    (inner dx X' + inner dw W' + inner db B').
Proof.
  intros Hbw.
  eapply dlim_eq.
  2:{ intros t. apply temporal_affine_loss_value.
      - rewrite (proj1 HX). exact Hx.
      - rewrite (proj1 HW). exact Hw.
      - rewrite (proj1 HB). exact Hb.
      - exact Hdout. }
  - dlim.
  - destruct (temporal_affine_backward_value (X t0) (W t0) (B t0) Hx Hw Hb dout Hdout out)
      as (dx0 & dw0 & db0 & E & Hsx & Hsw & Hsb & Hdx & Hdw & Hdb).
    rewrite E in Hbw. injection Hbw as <- <- <-.
    set (G := fun n t m => data dout [n; t; m]).
    set (Xv := fun n t d => data (X t0) [n; t; d]).
    set (Xt := fun n t d => X' [n; t; d]).
    set (Wv := fun d m => data (W t0) [d; m]).
    set (Wt := fun d m => W' [d; m]).
    rewrite (rsum_ext N _ (fun n =>
      rsum T (fun t => rsum M (fun m => G n t m * rsum D (fun d => Xt n t d * Wv d m))) +
      (rsum T (fun t => rsum M (fun m => G n t m * rsum D (fun d => Xv n t d * Wt d m))) +
       rsum T (fun t => rsum M (fun m => G n t m * B' [m]))))).
    2:{ intros n _. rewrite <- !rsum_plus. apply rsum_ext. intros t _.
        rewrite <- !rsum_plus. apply rsum_ext. intros m _.
        rewrite rsum_plus. unfold G, Xv, Xt, Wv, Wt. lra. }
    rewrite !rsum_plus.
    rewrite <- (rsum_mul N T (fun n t =>
                  rsum M (fun m => G n t m * rsum D (fun d => Xt n t d * Wv d m)))).
    rewrite <- (rsum_mul N T (fun n t =>
                  rsum M (fun m => G n t m * rsum D (fun d => Xv n t d * Wt d m)))).
    rewrite <- (rsum_mul N T (fun n t => rsum M (fun m => G n t m * B' [m]))).
    cbv beta.
    rewrite (dot_adjoint_l (N * T) D M (fun k m => G (k / T)%nat (k mod T)%nat m)
               (fun k d => Xt (k / T)%nat (k mod T)%nat d) Wv).
    rewrite (dot_adjoint_r (N * T) D M (fun k m => G (k / T)%nat (k mod T)%nat m)
               (fun k d => Xv (k / T)%nat (k mod T)%nat d) Wt).
    rewrite (bias_adjoint (N * T) M (fun k m => G (k / T)%nat (k mod T)%nat m)
               (fun m => B' [m])).
    rewrite (rsum_mul N T (fun n t =>
               rsum D (fun d => rsum M (fun m => G n t m * Wv d m) * Xt n t d))).
    unfold inner. rewrite Hsx, Hsw, Hsb. cbn [sum_over].
    rewrite <- Rplus_assoc. f_equal; [f_equal|].
    + apply rsum_ext. intros n Hn. apply rsum_ext. intros t Ht. apply rsum_ext. intros d Hd.
      rewrite Hdx by assumption. reflexivity.
    + apply rsum_ext. intros d Hd. apply rsum_ext. intros m Hm.
      rewrite Hdw by assumption. f_equal.
      rewrite (rsum_mul N T (fun n t => Xv n t d * G n t m)).
      apply rsum_ext. intros n Hn. apply rsum_ext. intros t Ht. unfold Xv, G. ring.
    + apply rsum_ext. intros m Hm. rewrite Hdb. f_equal.
      rewrite (rsum_mul N T (fun n t => G n t m)). reflexivity.
Qed.

End Derivative.

Section Gradients.

Variables x w b dout out : ndarray.
Hypothesis Hx : shape x = [N; T; D].
Hypothesis Hw : shape w = [D; M].
Hypothesis Hb : shape b = [M].
Hypothesis Hdout : shape dout = [N; T; M].
Variables dx dw db : ndarray.
Hypothesis Hbw : temporal_affine_backward dout (x, w, b, out) = Ok (dx, dw, db).

Lemma temporal_affine_backward_shapes :
  shape dx = shape x /\ shape dw = shape w /\ shape db = shape b.
Proof.
  destruct (temporal_affine_backward_value x w b Hx Hw Hb dout Hdout out)
    as (dx0 & dw0 & db0 & E & Hsx & Hsw & Hsb & _).
  rewrite E in Hbw. injection Hbw as <- <- <-. rewrite Hx, Hw, Hb. auto.
Qed.

Lemma temporal_affine_gradient_x :
  gradient_at (fun x' => upstream_loss dout (temporal_affine_forward x' w b)) x dx.
Proof.
  split; [apply temporal_affine_backward_shapes|]. intros idx Hidx.
  eapply dlim_eq.
  - apply (temporal_affine_loss_dlim (set_entry x idx) (fun _ => w) (fun _ => b)
             (indicator idx) (fun _ => 0) (fun _ => 0) (data x idx)
             (tangent_set_entry _ _ _) (tangent_const _ _) (tangent_const _ _)
             Hx Hw Hb dout Hdout out dx dw db).
    rewrite set_entry_same. exact Hbw.
  - reflexivity.
  - rewrite !inner_zero, inner_indicator; [lra|].
    rewrite (proj1 temporal_affine_backward_shapes). exact Hidx.
Qed.

Lemma temporal_affine_gradient_w :
  gradient_at (fun w' => upstream_loss dout (temporal_affine_forward x w' b)) w dw.
Proof.
  split; [apply temporal_affine_backward_shapes|]. intros idx Hidx.
  eapply dlim_eq.
  - apply (temporal_affine_loss_dlim (fun _ => x) (set_entry w idx) (fun _ => b)
             (fun _ => 0) (indicator idx) (fun _ => 0) (data w idx)
             (tangent_const _ _) (tangent_set_entry _ _ _) (tangent_const _ _)
             Hx Hw Hb dout Hdout out dx dw db).
    rewrite set_entry_same. exact Hbw.
  - reflexivity.
  - rewrite !inner_zero, inner_indicator; [lra|].
    rewrite (proj1 (proj2 temporal_affine_backward_shapes)). exact Hidx.
Qed.

Lemma temporal_affine_gradient_b :
  gradient_at (fun b' => upstream_loss dout (temporal_affine_forward x w b')) b db.
Proof.
  split; [apply temporal_affine_backward_shapes|]. intros idx Hidx.
  eapply dlim_eq.
  - apply (temporal_affine_loss_dlim (fun _ => x) (fun _ => w) (set_entry b idx)
             (fun _ => 0) (fun _ => 0) (indicator idx) (data b idx)
             (tangent_const _ _) (tangent_const _ _) (tangent_set_entry _ _ _)
             Hx Hw Hb dout Hdout out dx dw db).
    rewrite set_entry_same. exact Hbw.
  - reflexivity.
  - rewrite !inner_zero, inner_indicator; [lra|].
    rewrite (proj2 (proj2 temporal_affine_backward_shapes)). exact Hidx.
Qed.

End Gradients.

End TemporalAffine.

(** X16: for [x] of shape [(N, T, D)], [w] of shape [(D, M)] and [b] of shape
    [(M,)], of any sizes (an empty batch included), [temporal_affine_forward]
    returns [out[n, t, m] = sum_d x[n, t, d] * w[d, m] + b[m]] of shape
    [(N, T, M)], and [temporal_affine_backward] applied to any [dout] of that
    shape returns the gradients of [np.sum(dout * out)] with respect to [x],
    [w] and [b]. *)
Theorem temporal_affine_forward_backward_correct (N T D M : nat) (x w b dout : ndarray) :
  shape x = [N; T; D] -> shape w = [D; M] -> shape b = [M] -> shape dout = [N; T; M] ->
  exists out,
    temporal_affine_forward x w b = Ok (out, (x, w, b, out)) /\
    shape out = [N; T; M] /\
    (forall n t m, (n < N)%nat -> (t < T)%nat -> (m < M)%nat ->
       data out [n; t; m] = rsum D (fun d => data x [n; t; d] * data w [d; m]) + data b [m]) /\
    exists dx dw db,
      temporal_affine_backward dout (x, w, b, out) = Ok (dx, dw, db) /\
      gradient_at (fun x' => upstream_loss dout (temporal_affine_forward x' w b)) x dx /\
      gradient_at (fun w' => upstream_loss dout (temporal_affine_forward x w' b)) w dw /\
      gradient_at (fun b' => upstream_loss dout (temporal_affine_forward x w b')) b db.
Proof.
  intros Hx Hw Hb Hd.
  destruct (temporal_affine_forward_value N T D M x w b Hx Hw Hb) as (out & E & So & Vo).
  exists out. split; [exact E|]. split; [exact So|]. split; [exact Vo|].
  destruct (temporal_affine_backward_value N T D M x w b Hx Hw Hb dout Hd out)
    as (dx & dw & db & Eb & _).
  exists dx, dw, db. split; [exact Eb|]. split; [|split].
  - exact (temporal_affine_gradient_x N T D M x w b dout out Hx Hw Hb Hd dx dw db Eb).
  - exact (temporal_affine_gradient_w N T D M x w b dout out Hx Hw Hb Hd dx dw db Eb).
  - exact (temporal_affine_gradient_b N T D M x w b dout out Hx Hw Hb Hd dx dw db Eb).
Qed.

Definition tensor_of (n t d : nat) (f : nat -> nat -> nat -> R) : ndarray :=
  {| shape := [n; t; d];
     data := fun idx => f (nth 0 idx 0%nat) (nth 1 idx 0%nat) (nth 2 idx 0%nat) |}.

Definition taff_x0 : ndarray := tensor_of 2 2 3 (fun n t d => INR n + INR t - INR d).
Definition taff_w0 : ndarray := matrix_of 3 2 (fun d m => INR d * INR m + 1).
Definition taff_b0 : ndarray := {| shape := [2%nat]; data := fun _ => 1 |}.
Definition taff_dout0 : ndarray := tensor_of 2 2 2 (fun n t m => INR n - INR m).

Lemma temporal_affine_forward_backward_correct_witness :
  exists out,
    temporal_affine_forward taff_x0 taff_w0 taff_b0 = Ok (out, (taff_x0, taff_w0, taff_b0, out)) /\
    shape out = [2; 2; 2]%nat /\
    (forall n t m, (n < 2)%nat -> (t < 2)%nat -> (m < 2)%nat ->
       data out [n; t; m] =
       rsum 3 (fun d => data taff_x0 [n; t; d] * data taff_w0 [d; m]) + data taff_b0 [m]) /\
    exists dx dw db,
      temporal_affine_backward taff_dout0 (taff_x0, taff_w0, taff_b0, out) = Ok (dx, dw, db) /\
      gradient_at (fun x' => upstream_loss taff_dout0
                               (temporal_affine_forward x' taff_w0 taff_b0)) taff_x0 dx /\
      gradient_at (fun w' => upstream_loss taff_dout0
                               (temporal_affine_forward taff_x0 w' taff_b0)) taff_w0 dw /\
      gradient_at (fun b' => upstream_loss taff_dout0
                               (temporal_affine_forward taff_x0 taff_w0 b')) taff_b0 db.
Proof.
  exact (temporal_affine_forward_backward_correct 2 2 3 2 taff_x0 taff_w0 taff_b0 taff_dout0
           eq_refl eq_refl eq_refl eq_refl).
Defined.

(** ** Word embeddings *)

(** An integer array: the indices of the words. *)
Record intarray : Type := { ishape : list nat; idata : list nat -> Z }.

(** [x.ravel()]: the entries in row-major order. *)
Definition iravel (x : intarray) : list Z :=
  map (fun k => idata x (unravel (ishape x) k)) (seq 0 (size_of (ishape x))).

(** [W[x]] for an integer array [x]: the rows of [W] picked by the entries of
    [x], which count from the end when negative; an entry outside [-V, V)
    raises [IndexError]. *)
Definition take_rows (W : ndarray) (x : intarray) : res ndarray :=
  match shape W with
  | [] => Raise IndexError
  | V :: rest =>
      if forallb (index_in_range V) (iravel x)
      then Ok {| shape := ishape x ++ rest;
                 data := fun idx =>
                   data W (wrap V (idata x (firstn (length (ishape x)) idx))
                           :: skipn (length (ishape x)) idx) |}
      else Raise IndexError
  end.

Definition embedding_cache : Type := (intarray * ndarray)%type.

Definition word_embedding_forward (x : intarray) (W : ndarray)
  : res (ndarray * embedding_cache) :=
  let* out := take_rows W x in
  let cache := (x, W) in
  Ok (out, cache).

(** [np.add.at(a, ind, vals)]: [a[ind[k]] += vals[k]] for each [k] in turn,
    so that rows named more than once accumulate. *)
Fixpoint add_at_from (k : nat) (ind : list Z) (vals a : ndarray) : ndarray :=
  match ind with
  | [] => a
  | z :: r =>
      add_at_from (S k) r vals (additem a [IInt z] (getitem vals [IInt (Z.of_nat k)]))
  end.

Definition np_add_at (a : ndarray) (ind : list Z) (vals : ndarray) : res ndarray :=
  if forallb (index_in_range (dim a 0)) ind then Ok (add_at_from 0 ind vals a)
  else Raise IndexError.

Definition word_embedding_backward (dout : ndarray) (cache : embedding_cache)
  : res ndarray :=
  let '(x, W) := cache in
  let* ntd := shape3 dout in
  let '(_, _, D) := ntd in
  let dW := zeros_like W in
  let* vals := reshape dout [(-1)%Z; Z.of_nat D] in
  let* dW := np_add_at dW (iravel x) vals in
  Ok dW.

(** [a.reshape(-1, D)] *)
Lemma reshape_cols (a : ndarray) (n D : nat) :
  size_of (shape a) = (n * D)%nat -> (0 < D)%nat ->
  reshape a [(-1)%Z; Z.of_nat D] =
  Ok {| shape := [n; D];
        data := fun idx => data a (unravel (shape a) (ravel [n; D] idx)) |}.
Proof.
  intros Hsz HD. unfold reshape, reshape_dims. rewrite Hsz.
  cbn [List.filter map length size_of fold_right Z.leb Z.ltb Z.compare].
  destruct (Z.leb_spec 0 (Z.of_nat D)); [|lia].
  destruct (Z.ltb_spec (Z.of_nat D) 0); [lia|].
  cbn [List.filter map length size_of fold_right Z.leb Z.ltb Z.compare Z.to_nat res_bind].
  rewrite Nat2Z.id, Nat.mul_1_r.
  assert (HD0 : D <> 0%nat) by lia.
  destruct (D =? 0)%nat eqn:E3; [apply Nat.eqb_eq in E3; lia|].
  rewrite Nat.Div0.mod_mul, Nat.div_mul by exact HD0.
  reflexivity.
Qed.

Lemma rsum_front (n : nat) (f : nat -> R) :
  rsum (S n) f = f 0%nat + rsum n (fun j => f (S j)).
Proof.
  induction n as [|n IH]; [cbn [rsum]; lra|].
  change (rsum (S (S n)) f) with (rsum (S n) f + f (S n)). rewrite IH.
  cbn [rsum]. lra.
Qed.

Section AddAt.

Variables (V K D : nat) (vals : ndarray).
Hypothesis Hvals : shape vals = [K; D].

Lemma additem_row (a : ndarray) (z : Z) (k : nat) :
  shape a = [V; D] -> (k < K)%nat ->
  shape (additem a [IInt z] (getitem vals [IInt (Z.of_nat k)])) = [V; D] /\
  forall v d, (v < V)%nat -> (d < D)%nat ->
    data (additem a [IInt z] (getitem vals [IInt (Z.of_nat k)])) [v; d] =
    if (v =? wrap V z)%nat then data a [v; d] + data vals [k; d] else data a [v; d].
Proof.
  intros Ha Hk. unfold additem, setitem. cbn [shape data]. split; [exact Ha|].
  intros v d Hv Hd. rewrite Ha. cbn [index_target].
  destruct (Nat.eqb_spec v (wrap V z)) as [->|_]; [|reflexivity].
  unfold add, map2, getitem. cbn [shape data]. rewrite Ha, Hvals.
  cbn [index_shape index_source]. np_unfold. rewrite ?bdim_diag. bidx_simpl.
  rewrite wrap_of_nat. reflexivity.
Qed.

Lemma add_at_from_value (ind : list Z) :
  forall (k : nat) (a : ndarray),
    shape a = [V; D] -> (k + length ind <= K)%nat ->
    shape (add_at_from k ind vals a) = [V; D] /\
    forall v d, (v < V)%nat -> (d < D)%nat ->
      data (add_at_from k ind vals a) [v; d] =
      data a [v; d] +
      rsum (length ind) (fun j =>
        if (wrap V (nth j ind 0%Z) =? v)%nat then data vals [(k + j)%nat; d] else 0).
Proof.
  induction ind as [|z r IH]; intros k a Ha Hk.
  - cbn [add_at_from length rsum]. split; [exact Ha|]. intros. lra.
  - cbn [length] in Hk. cbn [add_at_from].
    destruct (additem_row a z k Ha) as [S1 V1]; [lia|].
    destruct (IH (S k) _ S1) as [S2 V2]; [lia|].
    split; [exact S2|]. intros v d Hv Hd.
    rewrite V2, V1 by assumption. cbn [length]. rewrite rsum_front. cbn [nth].
    rewrite Nat.add_0_r, (Nat.eqb_sym v).
    rewrite (rsum_ext (length r)
               (fun j => if (wrap V (nth j r 0%Z) =? v)%nat
                         then data vals [(k + S j)%nat; d] else 0)
               (fun j => if (wrap V (nth j r 0%Z) =? v)%nat
                         then data vals [(S k + j)%nat; d] else 0)).
    2:{ intros j Hj. rewrite Nat.add_succ_r. reflexivity. }
    destruct (wrap V z =? v)%nat; lra.
Qed.

End AddAt.

Lemma unravel_two (d1 d2 k : nat) :
  unravel [d1; d2] k = [(k / d2)%nat; (k mod d2)%nat].
Proof.
  cbn [unravel size_of fold_right]. rewrite Nat.mul_1_r, Nat.div_1_r. reflexivity.
Qed.

Section WordEmbedding.

Variables (N T V D : nat) (x : intarray).
Hypothesis Hx : ishape x = [N; T].
Hypothesis Hrange : forall n t, (n < N)%nat -> (t < T)%nat ->
  index_in_range V (idata x [n; t]) = true.

(** The row of [W] that position [(n, t)] selects. *)
Definition word (n t : nat) : nat := wrap V (idata x [n; t]).

Lemma iravel_in_range : forallb (index_in_range V) (iravel x) = true.
Proof.
  apply forallb_forall. intros z Hz. unfold iravel in Hz. rewrite Hx in Hz.
  apply in_map_iff in Hz. destruct Hz as (k & <- & Hk). apply in_seq in Hk.
  cbn [size_of fold_right] in Hk. rewrite Nat.mul_1_r in Hk.
  rewrite unravel_two.
  assert (HT : (0 < T)%nat) by (destruct T; lia).
  apply Hrange.
  - apply Nat.Div0.div_lt_upper_bound. lia.
  - apply Nat.mod_upper_bound. lia.
Qed.

Lemma iravel_length : length (iravel x) = (N * T)%nat.
Proof.
  unfold iravel. rewrite length_map, length_seq, Hx. cbn [size_of fold_right]. lia.
Qed.

Lemma iravel_nth (n t : nat) :
  (n < N)%nat -> (t < T)%nat -> nth (n * T + t) (iravel x) 0%Z = idata x [n; t].
Proof.
  intros Hn Ht. unfold iravel. rewrite Hx. cbn [size_of fold_right]. rewrite Nat.mul_1_r.
  assert (Hlt : (n * T + t < N * T)%nat) by nia.
  rewrite (nth_indep _ 0%Z (idata x (unravel [N; T] 0))) by (rewrite length_map, length_seq; exact Hlt).
  rewrite (map_nth (fun k => idata x (unravel [N; T] k))).
  rewrite seq_nth by exact Hlt. cbn [Nat.add]. rewrite unravel_pair by exact Ht. reflexivity.
Qed.

Lemma word_embedding_forward_value (W : ndarray) :
  shape W = [V; D] ->
  exists out,
    word_embedding_forward x W = Ok (out, (x, W)) /\
    shape out = [N; T; D] /\
    forall n t d, data out [n; t; d] = data W [word n t; d].
Proof.
  intros HW. eexists. split; [|split].
  - unfold word_embedding_forward, take_rows. rewrite HW, iravel_in_range.
    cbn [res_bind]. reflexivity.
  - cbn [shape]. rewrite Hx. reflexivity.
  - intros n t d. cbn [data]. rewrite Hx. reflexivity.
Qed.

Variable dout : ndarray.
Hypothesis Hdout : shape dout = [N; T; D].
Hypothesis HD : (1 <= D)%nat.

Lemma word_embedding_backward_value (W : ndarray) :
  shape W = [V; D] ->
  exists dW,
    word_embedding_backward dout (x, W) = Ok dW /\
    shape dW = [V; D] /\
    forall v d, (v < V)%nat -> (d < D)%nat ->
      data dW [v; d] =
      rsum N (fun n => rsum T (fun t =>
        if (word n t =? v)%nat then data dout [n; t; d] else 0)).
Proof.
  intros HW.
  assert (Hsz : size_of (shape dout) = (N * T * D)%nat) by (rewrite Hdout; simpl; lia).
  pose proof (reshape_cols dout (N * T) D Hsz HD) as Er.
  set (vals := {| shape := [(N * T)%nat; D];
                  data := fun idx => data dout (unravel (shape dout) (ravel [(N * T)%nat; D] idx)) |})
    in Er.
  assert (Vvals : forall n t d, (t < T)%nat -> (d < D)%nat ->
            data vals [(n * T + t)%nat; d] = data dout [n; t; d]).
  { intros n t d Ht Hd. unfold vals. cbn [data].
    rewrite Hdout, ravel_pair, unravel_triple by assumption. reflexivity. }
  destruct (add_at_from_value V (N * T) D vals eq_refl (iravel x) 0 (zeros_like W))
    as [S1 V1]; [exact HW|rewrite iravel_length; lia|].
  exists (add_at_from 0 (iravel x) vals (zeros_like W)). split; [|split].
  - unfold word_embedding_backward, shape3. rewrite Hdout. cbn [res_bind].
    rewrite Er. cbn [res_bind]. unfold np_add_at, dim.
    change (shape (zeros_like W)) with (shape W).
    rewrite HW. cbn [nth]. rewrite iravel_in_range. reflexivity.
  - exact S1.
  - intros v d Hv Hd. rewrite V1 by assumption. unfold zeros_like, zeros at 1.
    cbn [data]. rewrite Rplus_0_l, iravel_length.
    rewrite <- (rsum_mul N T (fun n t => if (word n t =? v)%nat then data dout [n; t; d] else 0)).
    apply rsum_ext. intros k Hk.
    assert (HT : (0 < T)%nat) by (destruct T; lia).
    assert (Hr : (k mod T < T)%nat) by (apply Nat.mod_upper_bound; lia).
    assert (Hq : (k / T < N)%nat) by (apply Nat.Div0.div_lt_upper_bound; lia).
    assert (Ek : k = (k / T * T + k mod T)%nat)
      by (rewrite (Nat.mul_comm (k / T) T); apply Nat.div_mod_eq).
    remember (k / T)%nat as q. remember (k mod T)%nat as r.
    cbn [Nat.add]. rewrite Ek, iravel_nth, Vvals by assumption. reflexivity.
Qed.

End WordEmbedding.

(** X17: for word indices [x] of shape [(N, T)] with entries in [-V, V), [W]
    of shape [(V, D)] and [dout] of shape [(N, T, D)] with [D >= 1],
    [word_embedding_forward] returns [out[n, t, :] = W[x[n, t], :]], and
    [word_embedding_backward] returns [dW] whose row [v] is the sum of the
    rows [dout[n, t, :]] over all positions with [x[n, t] = v] (a word that
    occurs several times accumulates), which is the gradient of
    [np.sum(dout * out)] with respect to [W]. *)
Theorem word_embedding_forward_backward_correct (N T V D : nat) (x : intarray)
      (W dout : ndarray) :
  ishape x = [N; T] -> shape W = [V; D] -> shape dout = [N; T; D] -> (1 <= D)%nat ->
  (forall n t, (n < N)%nat -> (t < T)%nat -> index_in_range V (idata x [n; t]) = true) ->
  exists out,
    word_embedding_forward x W = Ok (out, (x, W)) /\
    shape out = [N; T; D] /\
    (forall n t d, (n < N)%nat -> (t < T)%nat -> (d < D)%nat ->
       data out [n; t; d] = data W [wrap V (idata x [n; t]); d]) /\
    exists dW,
      word_embedding_backward dout (x, W) = Ok dW /\
      (forall v d, (v < V)%nat -> (d < D)%nat ->
         data dW [v; d] =
         rsum N (fun n => rsum T (fun t =>
           if (wrap V (idata x [n; t]) =? v)%nat then data dout [n; t; d] else 0))) /\
      gradient_at (fun W' => upstream_loss dout (word_embedding_forward x W')) W dW.
Proof.
  intros Hx HW Hd HD Hrange.
  destruct (word_embedding_forward_value N T V D x Hx Hrange W HW) as (out & E & So & Vo).
  exists out. split; [exact E|]. split; [exact So|].
  split; [intros n t d _ _ _; apply Vo|].
  destruct (word_embedding_backward_value N T V D x Hx Hrange dout Hd HD W HW)
    as (dW & Eb & Sb & Vb).
  exists dW. split; [exact Eb|]. split; [exact Vb|].
  split; [congruence|]. rewrite HW. intros idx Hidx.
  destruct (in_bounds_2 _ _ _ Hidx) as (v0 & d0 & -> & Hv0 & Hd0).
  pose proof (tangent_set_entry W [v0; d0] (data W [v0; d0])) as Htan.
  eapply (dlim_eq (fun t => rsum N (fun n => rsum T (fun s => rsum D (fun d =>
            data dout [n; s; d] *
            data (set_entry W [v0; d0] t) [word V x n s; d]))))).
  - dlim.
  - intros t.
    destruct (word_embedding_forward_value N T V D x Hx Hrange (set_entry W [v0; d0] t) HW)
      as (out' & E' & So' & Vo').
    rewrite E'. unfold upstream_loss, sum, mul.
    destruct (map2_same_shape Rmult dout out' [N; T; D] Hd So') as [Sm Vm].
    rewrite Sm. cbn [sum_over].
    apply rsum_ext. intros n Hn. apply rsum_ext. intros s Hs. apply rsum_ext. intros d Hdd.
    rewrite Vm by (repeat constructor; assumption). rewrite Vo'. reflexivity.
  - rewrite Vb by assumption.
    apply rsum_ext. intros n Hn. apply rsum_ext. intros s Hs.
    fold (word V x n s). unfold indicator.
    destruct (Nat.eqb_spec (word V x n s) v0) as [->|Hne].
    + rewrite (rsum_single D d0 _ Hd0).
      * rewrite decide_True by reflexivity. ring.
      * intros k _ Hk. rewrite decide_False by congruence. ring.
    + symmetry. apply rsum_zero_ext. intros k Hk. rewrite decide_False by congruence. ring.
Qed.

Definition embed_x0 : intarray :=
  {| ishape := [1; 3]%nat;
     idata := fun idx => match nth 1 idx 0%nat with 1%nat => (-1)%Z | _ => 1%Z end |}.
Definition embed_W0 : ndarray := matrix_of 2 2 (fun v d => INR v + 2 * INR d).
Definition embed_dout0 : ndarray := tensor_of 1 3 2 (fun _ t d => INR t + INR d).

Lemma word_embedding_forward_backward_correct_witness :
  exists out,
    word_embedding_forward embed_x0 embed_W0 = Ok (out, (embed_x0, embed_W0)) /\
    shape out = [1; 3; 2]%nat /\
    (forall n t d, (n < 1)%nat -> (t < 3)%nat -> (d < 2)%nat ->
       data out [n; t; d] = data embed_W0 [wrap 2 (idata embed_x0 [n; t]); d]) /\
    exists dW,
      word_embedding_backward embed_dout0 (embed_x0, embed_W0) = Ok dW /\
      (forall v d, (v < 2)%nat -> (d < 2)%nat ->
         data dW [v; d] =
         rsum 1 (fun n => rsum 3 (fun t =>
           if (wrap 2 (idata embed_x0 [n; t]) =? v)%nat
           then data embed_dout0 [n; t; d] else 0))) /\
      gradient_at (fun W' => upstream_loss embed_dout0 (word_embedding_forward embed_x0 W'))
                  embed_W0 dW.
Proof.
  apply (word_embedding_forward_backward_correct 1 3 2 2 embed_x0 embed_W0 embed_dout0).
  - reflexivity.
  - reflexivity.
  - reflexivity.
  - lia.
  - intros n t Hn Ht. cbn [embed_x0 idata nth].
    destruct t as [|[|t]]; reflexivity.
Defined.

(** ** The softmax loss *)

(** [np.arange(N)] and [np.log]. *)
Definition py_arange (N : nat) : list Z := map Z.of_nat (seq 0 N).

Definition np_log : ndarray -> ndarray := map1 ln.

(** Two index vectors used together, [a[rows, cols]], are paired entry by
    entry after broadcasting their lengths against each other. *)
Definition pair_count (n k : nat) : res nat :=
  if (n =? k)%nat then Ok n
  else if (n =? 1)%nat then Ok k
  else if (k =? 1)%nat then Ok n
  else Raise IndexError.

Definition pair_row (rows : list Z) (k : nat) : Z := nth (bidx (length rows) k) rows 0%Z.

(** [a[rows, cols]] *)
Definition getitem_pairs (a : ndarray) (rows cols : list Z) : res ndarray :=
  match shape a with
  | R :: C :: rest =>
      let* m := pair_count (length rows) (length cols) in
      if forallb (index_in_range R) rows && forallb (index_in_range C) cols
      then Ok {| shape := m :: rest;
                 data := fun idx =>
                   data a (wrap R (pair_row rows (hd 0%nat idx))
                           :: wrap C (pair_row cols (hd 0%nat idx)) :: tl idx) |}
      else Raise IndexError
  | _ => Raise IndexError
  end.

(** [a[rows, cols] = v]: the pairs are assigned in turn. *)
Fixpoint set_pairs_from (ks : list nat) (rows cols : list Z) (v a : ndarray) : ndarray :=
  match ks with
  | [] => a
  | k :: r =>
      set_pairs_from r rows cols v
        (setitem a [IInt (pair_row rows k); IInt (pair_row cols k)]
           (getitem v [IInt (Z.of_nat k)]))
  end.

Definition broadcast_to (v : ndarray) (sh : list nat) : ndarray :=
  {| shape := sh; data := fun idx => data v (bindex (shape v) idx) |}.

Definition setitem_pairs (a : ndarray) (rows cols : list Z) (v : ndarray) : res ndarray :=
  match shape a with
  | R :: C :: rest =>
      let* m := pair_count (length rows) (length cols) in
      if forallb (index_in_range R) rows && forallb (index_in_range C) cols
      then Ok (set_pairs_from (seq 0 m) rows cols (broadcast_to v (m :: rest)) a)
      else Raise IndexError
  | _ => Raise IndexError
  end.

Definition softmax_loss (x : ndarray) (y : list Z) : res (R * ndarray) :=
  let* mx := np_max x [1%nat] true in
  let shifted_logits := sub x mx in
  let Z := sum_axes_keep (np_exp shifted_logits) [1%nat] in
  let log_probs := sub shifted_logits (np_log Z) in
  let probs := np_exp log_probs in
  let* N := shape_getitem x 0 in
  let* picked := getitem_pairs log_probs (py_arange N) y in
  let loss := - sum picked / INR N in
  let dx := probs in
  let* sel := getitem_pairs dx (py_arange N) y in
  let* dx := setitem_pairs dx (py_arange N) y (sub sel (scalar 1)) in
  let dx := div dx (scalar (INR N)) in
  Ok (loss, dx).

(** The loss of a call, for the gradient statements. *)
Definition loss_of {A : Type} (r : res (R * A)) : R :=
  match r with
  | Ok (loss, _) => loss
  | Raise _ => 0
  end.

Lemma py_arange_length (N : nat) : length (py_arange N) = N.
Proof. unfold py_arange. rewrite length_map, length_seq. reflexivity. Qed.

Lemma py_arange_nth (N k : nat) : (k < N)%nat -> nth k (py_arange N) 0%Z = Z.of_nat k.
Proof.
  intros Hk. unfold py_arange.
  change 0%Z with (Z.of_nat 0). rewrite map_nth, seq_nth by exact Hk. reflexivity.
Qed.

Lemma py_arange_in_range (N : nat) : forallb (index_in_range N) (py_arange N) = true.
Proof.
  apply forallb_forall. intros z Hz. unfold py_arange in Hz.
  apply in_map_iff in Hz. destruct Hz as (k & <- & Hk). apply in_seq in Hk.
  unfold index_in_range. apply andb_true_intro. split; [apply Z.leb_le|apply Z.ltb_lt]; lia.
Qed.

Lemma pair_count_same (n : nat) : pair_count n n = Ok n.
Proof. unfold pair_count. rewrite Nat.eqb_refl. reflexivity. Qed.

Lemma pair_row_lt (rows : list Z) (k : nat) :
  (k < length rows)%nat -> pair_row rows k = nth k rows 0%Z.
Proof. intros Hk. unfold pair_row. rewrite bidx_lt by exact Hk. reflexivity. Qed.

Section Pairs.

Variables (N C : nat) (y : list Z).
Hypothesis Hy : length y = N.
Hypothesis Hrange : forall i, (i < N)%nat -> index_in_range C (nth i y 0%Z) = true.

(** The class that row [i] is labelled with. *)
Definition label (i : nat) : nat := wrap C (nth i y 0%Z).

Lemma labels_in_range : forallb (index_in_range C) y = true.
Proof.
  apply forallb_forall. intros z Hz. apply (In_nth _ _ 0%Z) in Hz.
  destruct Hz as (i & Hi & <-). apply Hrange. lia.
Qed.

Lemma label_lt (i : nat) : (i < N)%nat -> (label i < C)%nat.
Proof.
  intros Hi. pose proof (Hrange i Hi) as H. unfold index_in_range in H.
  apply andb_prop in H. destruct H as [H1 H2].
  apply Z.leb_le in H1. apply Z.ltb_lt in H2.
  unfold label, wrap, from_end. destruct (Z.ltb_spec (nth i y 0%Z) 0); lia.
Qed.

Lemma getitem_pairs_value (a : ndarray) :
  shape a = [N; C] ->
  exists p, getitem_pairs a (py_arange N) y = Ok p /\ shape p = [N] /\
            forall i, (i < N)%nat -> data p [i] = data a [i; label i].
Proof.
  intros Ha. unfold getitem_pairs. rewrite Ha, py_arange_length, Hy, pair_count_same.
  cbn [res_bind]. rewrite py_arange_in_range, labels_in_range. cbn [andb].
  eexists. split; [reflexivity|]. split; [reflexivity|].
  intros i Hi. cbn [data hd tl].
  rewrite !pair_row_lt by (rewrite ?py_arange_length, ?Hy; exact Hi).
  rewrite py_arange_nth, wrap_of_nat by exact Hi. reflexivity.
Qed.

Lemma set_pairs_from_value (v : ndarray) (n : nat) :
  shape v = [N] ->
  forall (s : nat) (a : ndarray),
    shape a = [N; C] -> (s + n <= N)%nat ->
    shape (set_pairs_from (seq s n) (py_arange N) y v a) = [N; C] /\
    forall i j, (i < N)%nat -> (j < C)%nat ->
      data (set_pairs_from (seq s n) (py_arange N) y v a) [i; j] =
      if ((s <=? i) && (i <? s + n) && (j =? label i))%nat then data v [i]
      else data a [i; j].
Proof.
  intros Hv. induction n as [|n IH]; intros s a Ha Hs.
  - cbn [seq set_pairs_from]. split; [exact Ha|]. intros i j Hi Hj.
    destruct (Nat.leb_spec s i), (Nat.ltb_spec i (s + 0)); cbn [andb]; try reflexivity. lia.
  - cbn [seq set_pairs_from].
    set (a1 := setitem a _ _).
    assert (S1 : shape a1 = [N; C]) by exact Ha.
    assert (V1 : forall i j, (i < N)%nat -> (j < C)%nat ->
              data a1 [i; j] = if ((i =? s) && (j =? label s))%nat then data v [s]
                               else data a [i; j]).
    { intros i j Hi Hj. unfold a1, setitem. cbn [data]. rewrite Ha. cbn [index_target].
      rewrite !pair_row_lt by (rewrite ?py_arange_length, ?Hy; lia).
      rewrite py_arange_nth, wrap_of_nat by lia. fold (label s).
      destruct (i =? s)%nat; [|reflexivity]. destruct (j =? label s)%nat; [|reflexivity].
      cbn [andb]. unfold getitem. cbn [shape data]. rewrite Hv.
      cbn [index_shape index_source bindex length Nat.sub skipn zip_with].
      rewrite wrap_of_nat. reflexivity. }
    destruct (IH (S s) a1 S1) as [S2 V2]; [lia|].
    split; [exact S2|]. intros i j Hi Hj. rewrite V2, V1 by assumption.
    destruct (Nat.eqb_spec i s) as [->|Hne].
    + destruct (Nat.leb_spec (S s) s); [lia|]. rewrite Nat.leb_refl.
      destruct (Nat.ltb_spec s (s + S n)); [|lia]. cbn [andb].
      destruct (j =? label s)%nat; reflexivity.
    + cbn [andb].
      destruct (Nat.leb_spec (S s) i), (Nat.leb_spec s i), (Nat.ltb_spec i (S s + n)),
        (Nat.ltb_spec i (s + S n)); cbn [andb]; try reflexivity; lia.
Qed.

Lemma setitem_pairs_value (a v : ndarray) :
  shape a = [N; C] -> shape v = [N] ->
  exists r, setitem_pairs a (py_arange N) y v = Ok r /\ shape r = [N; C] /\
            forall i j, (i < N)%nat -> (j < C)%nat ->
              data r [i; j] = if (j =? label i)%nat then data v [i] else data a [i; j].
Proof.
  intros Ha Hv. unfold setitem_pairs. rewrite Ha, py_arange_length, Hy, pair_count_same.
  cbn [res_bind]. rewrite py_arange_in_range, labels_in_range. cbn [andb].
  destruct (set_pairs_from_value (broadcast_to v [N]) N eq_refl 0 a Ha) as [S1 V1]; [lia|].
  eexists. split; [reflexivity|]. split; [exact S1|].
  intros i j Hi Hj. rewrite V1 by assumption.
  destruct (Nat.ltb_spec i (0 + N)); [|lia]. cbn [Nat.leb andb].
  destruct (j =? label i)%nat; [|reflexivity].
  unfold broadcast_to. cbn [data]. rewrite Hv.
  cbn [bindex length Nat.sub skipn zip_with]. rewrite bidx_lt by exact Hi. reflexivity.
Qed.

End Pairs.

Lemma map2_2d_col (op : R -> R -> R) (N C : nat) (a b : ndarray) :
  shape a = [N; C] -> shape b = [N; 1%nat] ->
  shape (map2 op a b) = [N; C] /\
  forall i j, (i < N)%nat -> (j < C)%nat ->
    data (map2 op a b) [i; j] = op (data a [i; j]) (data b [i; 0%nat]).
Proof.
  intros Ha Hb. unfold map2. cbn [shape data]. rewrite Ha, Hb. np_unfold.
  rewrite ?bdim_1_r, ?bdim_diag. split; [reflexivity|].
  intros i j Hi Hj. bidx_simpl. reflexivity.
Qed.

Lemma rsum_pos (n : nat) (f : nat -> R) :
  (1 <= n)%nat -> (forall k, (k < n)%nat -> 0 < f k) -> 0 < rsum n f.
Proof.
  intros Hn Hf. induction n as [|n IH]; [lia|]. cbn [rsum].
  destruct n as [|n].
  - cbn [rsum]. specialize (Hf 0%nat ltac:(lia)). lra.
  - assert (0 < rsum (S n) f) by (apply IH; [lia|intros; apply Hf; lia]).
    specialize (Hf (S n) ltac:(lia)). lra.
Qed.

Lemma rsum_ge_term (n : nat) (f : nat -> R) (k : nat) :
  (k < n)%nat -> (forall j, (j < n)%nat -> 0 <= f j) -> f k <= rsum n f.
Proof.
  intros Hk Hf. induction n as [|n IH]; [lia|]. cbn [rsum].
  assert (Hpre : 0 <= rsum n f).
  { clear IH Hk. induction n as [|m IHm]; cbn [rsum]; [lra|].
    assert (0 <= rsum m f) by (apply IHm; intros; apply Hf; lia).
    specialize (Hf m ltac:(lia)). lra. }
  destruct (Nat.eq_dec k n) as [->|Hne].
  - lra.
  - assert (f k <= rsum n f) by (apply IH; [lia|intros; apply Hf; lia]).
    specialize (Hf n ltac:(lia)). lra.
Qed.

Lemma rmax_value_1d (C : nat) (f : list nat -> R) :
  max_over [C] f = rmax C (fun j => f [j]).
Proof. reflexivity. Qed.

(** The sum of the exponentials of a row does not depend on the shift. *)
Lemma log_sum_exp_shift (C : nat) (f : nat -> R) (m : R) :
  (1 <= C)%nat ->
  ln (rsum C (fun j => exp (f j - m))) = ln (rsum C (fun j => exp (f j))) - m.
Proof.
  intros HC.
  rewrite (rsum_ext C _ (fun j => exp (- m) * exp (f j))).
  2:{ intros j _. rewrite <- exp_plus. f_equal. ring. }
  rewrite rsum_scal_l, ln_mult, ln_exp.
  - ring.
  - apply exp_pos.
  - apply rsum_pos; [exact HC|]. intros. apply exp_pos.
Qed.

Section Softmax.

Variables (N C : nat) (y : list Z).
Hypothesis HN : (1 <= N)%nat.
Hypothesis HC : (1 <= C)%nat.
Hypothesis Hy : length y = N.
Hypothesis Hrange : forall i, (i < N)%nat -> index_in_range C (nth i y 0%Z) = true.

Definition row_sum_exp (x : ndarray) (i : nat) : R := rsum C (fun j => exp (data x [i; j])).

Lemma row_sum_exp_pos (x : ndarray) (i : nat) : 0 < row_sum_exp x i.
Proof. apply rsum_pos; [exact HC|]. intros. apply exp_pos. Qed.

Lemma softmax_loss_value (x : ndarray) :
  shape x = [N; C] ->
  exists dx,
    softmax_loss x y =
    Ok (rsum N (fun i => ln (row_sum_exp x i) - data x [i; label C y i]) / INR N, dx) /\
    shape dx = [N; C] /\
    forall i j, (i < N)%nat -> (j < C)%nat ->
      data dx [i; j] =
      (exp (data x [i; j]) / row_sum_exp x i - (if (j =? label C y i)%nat then 1 else 0))
      / INR N.
Proof.
  intros Hx.
  unfold softmax_loss, np_max. cbn [length]. rewrite Hx.
  cbn [length axis_mask seq map existsb Nat.eqb orb pick Bool.eqb].
  change (match C with | 0%nat => true | S _ => false end) with (0 =? C)%nat.
  rewrite (proj2 (Nat.eqb_neq 0 C)) by lia. cbn [orb res_bind].
  set (mx := {| shape := _; data := _ |}).
  assert (Smx : shape mx = [N; 1%nat]) by reflexivity.
  assert (Vmx : forall i, data mx [i; 0%nat] = rmax C (fun j => data x [i; j])).
  { intros i. reflexivity. }
  clearbody mx.
  destruct (map2_2d_col Rminus N C x mx Hx Smx) as [Ssh Vsh].
  fold (sub x mx) in Ssh, Vsh.
  set (Zs := sum_axes_keep (np_exp (sub x mx)) [1%nat]).
  assert (SZ : shape (np_log Zs) = [N; 1%nat]).
  { unfold np_log, Zs, sum_axes_keep, np_exp. cbn [map1 shape]. rewrite Ssh. reflexivity. }
  assert (VZ : forall i, (i < N)%nat ->
            data (np_log Zs) [i; 0%nat] =
            ln (row_sum_exp x i) - rmax C (fun j => data x [i; j])).
  { intros i Hi. unfold np_log, Zs, sum_axes_keep, np_exp. cbn [map1 data shape].
    rewrite Ssh.
    cbn [length axis_mask seq map existsb Nat.eqb orb pick Bool.eqb merge_index hd tl
         sum_over].
    rewrite (rsum_ext C _ (fun j => exp (data x [i; j] - rmax C (fun j => data x [i; j])))).
    2:{ intros j Hj. rewrite Vsh, Vmx by assumption. reflexivity. }
    apply (log_sum_exp_shift C (fun j => data x [i; j])). exact HC. }
  destruct (map2_2d_col Rminus N C (sub x mx) (np_log Zs) Ssh SZ) as [Slp Vlp].
  fold (sub (sub x mx) (np_log Zs)) in Slp, Vlp.
  set (log_probs := sub (sub x mx) (np_log Zs)) in *.
  assert (Vlp' : forall i j, (i < N)%nat -> (j < C)%nat ->
            data log_probs [i; j] = data x [i; j] - ln (row_sum_exp x i)).
  { intros i j Hi Hj. rewrite Vlp, Vsh, VZ, Vmx by assumption. ring. }
  assert (Spr : shape (np_exp log_probs) = [N; C]) by exact Slp.
  assert (Vpr : forall i j, (i < N)%nat -> (j < C)%nat ->
            data (np_exp log_probs) [i; j] = exp (data x [i; j]) / row_sum_exp x i).
  { intros i j Hi Hj. unfold np_exp. cbn [map1 data]. rewrite Vlp' by assumption.
    unfold Rminus. rewrite exp_plus, exp_Ropp, exp_ln by apply row_sum_exp_pos.
    reflexivity. }
  unfold shape_getitem. rewrite Hx. cbn [nth_error res_bind].
  destruct (getitem_pairs_value N C y Hy Hrange log_probs Slp) as (picked & Ep & Sp & Vp).
  rewrite Ep. cbn [res_bind].
  destruct (getitem_pairs_value N C y Hy Hrange (np_exp log_probs) Spr)
    as (sel & Es & Ss & Vs).
  rewrite Es. cbn [res_bind].
  destruct (map2_scalar_r Rminus sel 1) as [Sv Vv]. rewrite Ss in Sv, Vv.
  fold (sub sel (scalar 1)) in Sv, Vv.
  destruct (setitem_pairs_value N C y Hy Hrange (np_exp log_probs) _ Spr Sv)
    as (dx1 & Ed & Sd & Vd).
  rewrite Ed. cbn [res_bind].
  destruct (map2_2d_scalar_r Rdiv N C dx1 (INR N) Sd) as [Sdx Vdx].
  fold (div dx1 (scalar (INR N))) in Sdx, Vdx.
  exists (div dx1 (scalar (INR N))). split; [|split; [exact Sdx|]].
  - f_equal. f_equal. unfold sum. rewrite Sp. cbn [sum_over].
    rewrite (rsum_ext N _ (fun i => -1 * (ln (row_sum_exp x i) - data x [i; label C y i]))).
    2:{ intros i Hi. rewrite Vp, Vlp' by (first [assumption | apply (label_lt N C y Hy Hrange); assumption]). ring. }
    rewrite rsum_scal_l. unfold Rdiv. ring.
  - intros i j Hi Hj. rewrite Vdx, Vd by assumption.
    destruct (Nat.eqb_spec j (label C y i)) as [->|Hne].
    + rewrite Vv by (repeat constructor; exact Hi).
      rewrite Vs, Vpr by (first [assumption | apply (label_lt N C y Hy Hrange); assumption]). reflexivity.
    + rewrite Vpr by assumption. unfold Rminus. rewrite Ropp_0, Rplus_0_r. reflexivity.
Qed.

End Softmax.

Lemma dlim_comp_exp (f : R -> R) (x l : R) :
  derivable_pt_lim f x l -> derivable_pt_lim (fun t => exp (f t)) x (exp (f x) * l).
Proof.
  intros Hf. exact (derivable_pt_lim_comp f exp x l _ Hf (derivable_pt_lim_exp (f x))).
Qed.

Lemma dlim_comp_ln (f : R -> R) (x l : R) :
  derivable_pt_lim f x l -> 0 < f x -> derivable_pt_lim (fun t => ln (f t)) x (/ f x * l).
Proof.
  intros Hf Hpos.
  exact (derivable_pt_lim_comp f ln x l _ Hf (derivable_pt_lim_ln (f x) Hpos)).
Qed.

(** X18: for scores [x] of shape [(N, C)] with [N, C >= 1] and labels [y] of
    length [N] in [-C, C), [softmax_loss] returns the mean cross-entropy
    [(1/N) * sum_i (log(sum_j exp(x[i, j])) - x[i, y[i]])], whatever the
    row maxima it subtracts; the loss is not negative; [dx] is
    [(softmax(x) - onehot(y)) / N], each of its rows sums to 0, and it is
    the gradient of the loss with respect to [x]. *)
Theorem softmax_loss_correct (N C : nat) (x : ndarray) (y : list Z) :
  shape x = [N; C] -> (1 <= N)%nat -> (1 <= C)%nat -> length y = N ->
  (forall i, (i < N)%nat -> index_in_range C (nth i y 0%Z) = true) ->
  exists loss dx,
    softmax_loss x y = Ok (loss, dx) /\
    loss = rsum N (fun i => ln (rsum C (fun j => exp (data x [i; j])))
                            - data x [i; wrap C (nth i y 0%Z)]) / INR N /\
    0 <= loss /\
    shape dx = [N; C] /\
    (forall i j, (i < N)%nat -> (j < C)%nat ->
       data dx [i; j] =
       (exp (data x [i; j]) / rsum C (fun k => exp (data x [i; k]))
        - (if (j =? wrap C (nth i y 0%Z))%nat then 1 else 0)) / INR N) /\
    (forall i, (i < N)%nat -> rsum C (fun j => data dx [i; j]) = 0) /\
    gradient_at (fun x' => loss_of (softmax_loss x' y)) x dx.
Proof.
  intros Hx HN HC Hy Hrange.
  destruct (softmax_loss_value N C y HN HC Hy Hrange x Hx) as (dx & E & Sdx & Vdx).
  assert (HNR : 0 < INR N) by (apply lt_0_INR; lia).
  eexists. exists dx. split; [exact E|]. split; [reflexivity|].
  split; [|split; [exact Sdx|split; [exact Vdx|split]]].
  - apply Rmult_le_pos; [|left; apply Rinv_0_lt_compat; exact HNR].
    assert (Hsum : forall n, (n <= N)%nat ->
              0 <= rsum n (fun i => ln (row_sum_exp C x i) - data x [i; label C y i])).
    { induction n as [|n IH]; intros Hn; cbn [rsum]; [lra|].
      assert (0 <= rsum n (fun i => ln (row_sum_exp C x i) - data x [i; label C y i]))
        by (apply IH; lia).
      assert (Hl : (label C y n < C)%nat) by (apply (label_lt N C y Hy Hrange); lia).
      assert (Hge : exp (data x [n; label C y n]) <= row_sum_exp C x n).
      { apply (rsum_ge_term C (fun j => exp (data x [n; j])) _ Hl).
        intros j _. left. apply exp_pos. }
      assert (data x [n; label C y n] <= ln (row_sum_exp C x n)).
      { rewrite <- (ln_exp (data x [n; label C y n])).
        destruct Hge as [Hlt|Heq]; [left; apply ln_increasing; [apply exp_pos|exact Hlt]
                                   |right; rewrite Heq; reflexivity]. }
      lra. }
    apply Hsum. lia.
  - intros i Hi.
    rewrite (rsum_ext C _ (fun j => / (INR N * row_sum_exp C x i) * exp (data x [i; j])
                                    + (- / INR N) * delta (label C y i) j)).
    2:{ intros j Hj. rewrite Vdx by assumption. unfold delta.
        fold (row_sum_exp C x i). fold (label C y i).
        pose proof (row_sum_exp_pos C HC x i). field. split; lra. }
    rewrite rsum_plus, !rsum_scal_l.
    change (rsum C (delta (label C y i))) with (rsum C (fun n => delta (label C y i) n)).
    rewrite (rsum_delta_1 C (label C y i)) by (apply (label_lt N C y Hy Hrange); exact Hi).
    fold (row_sum_exp C x i). pose proof (row_sum_exp_pos C HC x i). field. split; lra.
  - split; [congruence|]. rewrite Hx. intros idx Hidx.
    destruct (in_bounds_2 _ _ _ Hidx) as (i0 & j0 & -> & Hi0 & Hj0).
    pose proof (tangent_set_entry x [i0; j0] (data x [i0; j0])) as Htan.
    eapply (dlim_eq (fun t =>
              rsum N (fun i =>
                ln (rsum C (fun j => exp (data (set_entry x [i0; j0] t) [i; j])))
                - data (set_entry x [i0; j0] t) [i; label C y i]) * / INR N)).
    + eapply (dlim_mult _ (fun _ => / INR N)); [|apply derivable_pt_lim_const].
      eapply (dlim_rsum N (fun i t =>
                ln (rsum C (fun j => exp (data (set_entry x [i0; j0] t) [i; j])))
                - data (set_entry x [i0; j0] t) [i; label C y i])).
      intros i Hi.
      eapply (dlim_minus (fun t => ln (rsum C (fun j =>
                                    exp (data (set_entry x [i0; j0] t) [i; j]))))
                         (fun t => data (set_entry x [i0; j0] t) [i; label C y i])).
      * apply (dlim_comp_ln (fun t => rsum C (fun j =>
                                        exp (data (set_entry x [i0; j0] t) [i; j])))).
        -- eapply (dlim_rsum C (fun j t => exp (data (set_entry x [i0; j0] t) [i; j]))).
           intros j Hj.
           apply (dlim_comp_exp (fun t => data (set_entry x [i0; j0] t) [i; j])).
           apply (proj2 Htan).
        -- apply rsum_pos; [exact HC|]. intros. apply exp_pos.
      * apply (proj2 Htan).
    + intros t.
      destruct (softmax_loss_value N C y HN HC Hy Hrange (set_entry x [i0; j0] t) Hx)
        as (dx' & E' & _).
      rewrite E'. reflexivity.
    + rewrite Vdx by assumption. cbv beta. rewrite set_entry_same.
      rewrite Rmult_0_r, Rplus_0_r.
      rewrite (rsum_single N i0 _ Hi0).
      * fold (row_sum_exp C x i0). fold (label C y i0).
        rewrite (rsum_single C j0 _ Hj0).
        -- unfold indicator. rewrite decide_True by reflexivity.
           destruct (Nat.eqb_spec j0 (label C y i0)) as [Heq|Hne].
           ++ rewrite <- Heq. rewrite decide_True by reflexivity.
              pose proof (row_sum_exp_pos C HC x i0). field. split; lra.
           ++ rewrite decide_False by congruence.
              pose proof (row_sum_exp_pos C HC x i0). field. split; lra.
        -- intros k _ Hk. unfold indicator. rewrite decide_False by congruence. ring.
      * intros k _ Hk. unfold indicator.
        rewrite (rsum_zero_ext C (fun j => exp (data x [k; j]) *
                                           (if decide ([k; j] = [i0; j0]) then 1 else 0)))
          by (intros j _; rewrite decide_False by congruence; ring).
        rewrite decide_False by congruence. ring.
Qed.

Definition softmax_x0 : ndarray := matrix_of 2 3 (fun i j => INR i - INR j).
Definition softmax_y0 : list Z := [0%Z; (-1)%Z].

Lemma softmax_loss_correct_witness :
  exists loss dx,
    softmax_loss softmax_x0 softmax_y0 = Ok (loss, dx) /\
    loss = rsum 2 (fun i => ln (rsum 3 (fun j => exp (data softmax_x0 [i; j])))
                            - data softmax_x0 [i; wrap 3 (nth i softmax_y0 0%Z)]) / INR 2 /\
    0 <= loss /\
    shape dx = [2; 3]%nat /\
    (forall i j, (i < 2)%nat -> (j < 3)%nat ->
       data dx [i; j] =
       (exp (data softmax_x0 [i; j]) / rsum 3 (fun k => exp (data softmax_x0 [i; k]))
        - (if (j =? wrap 3 (nth i softmax_y0 0%Z))%nat then 1 else 0)) / INR 2) /\
    (forall i, (i < 2)%nat -> rsum 3 (fun j => data dx [i; j]) = 0) /\
    gradient_at (fun x' => loss_of (softmax_loss x' softmax_y0)) softmax_x0 dx.
Proof.
  apply (softmax_loss_correct 2 3 softmax_x0 softmax_y0).
  - reflexivity.
  - lia.
  - lia.
  - reflexivity.
  - intros i Hi. destruct i as [|[|i]]; [reflexivity|reflexivity|lia].
Defined.

(** ** The temporal softmax loss *)

(** [y.reshape(n)] of an integer array. *)
Definition ireshape_flat (y : intarray) (n : nat) : res (list Z) :=
  if (size_of (ishape y) =? n)%nat then Ok (iravel y)
  else Raise (ValueError "cannot reshape array").

(** [verbose] only prints the shape of [dx_flat]; the output is not part of
    the model. *)
Definition temporal_softmax_loss (x : ndarray) (y : intarray) (mask : ndarray)
    (verbose : bool) : res (R * ndarray) :=
  let* ntv := shape3 x in
  let '(N, T, V) := ntv in
  let* x_flat := reshape x [Z.of_nat (N * T); Z.of_nat V] in
  let* y_flat := ireshape_flat y (N * T) in
  let* mask_flat := reshape mask [Z.of_nat (N * T)] in
  let* mx := np_max x_flat [1%nat] true in
  let probs := np_exp (sub x_flat mx) in
  let probs := div probs (sum_axes_keep probs [1%nat]) in
  let* picked := getitem_pairs probs (py_arange (N * T)) y_flat in
  let loss := - sum (mul mask_flat (np_log picked)) / INR N in
  let dx_flat := probs in
  let* sel := getitem_pairs dx_flat (py_arange (N * T)) y_flat in
  let* dx_flat := setitem_pairs dx_flat (py_arange (N * T)) y_flat (sub sel (scalar 1)) in
  let dx_flat := div dx_flat (scalar (INR N)) in
  let dx_flat := mul dx_flat (getitem mask_flat [IAll; INew]) in
  let* dx := reshape dx_flat [Z.of_nat N; Z.of_nat T; Z.of_nat V] in
  Ok (loss, dx).

(** The softmax of a row does not depend on the shift. *)
Lemma softmax_shift (C : nat) (f : nat -> R) (m : R) (j : nat) :
  (1 <= C)%nat ->
  exp (f j - m) / rsum C (fun k => exp (f k - m)) = exp (f j) / rsum C (fun k => exp (f k)).
Proof.
  intros HC.
  rewrite (rsum_ext C (fun k => exp (f k - m)) (fun k => exp (- m) * exp (f k))).
  2:{ intros k _. rewrite <- exp_plus. f_equal. ring. }
  rewrite rsum_scal_l.
  replace (exp (f j - m)) with (exp (- m) * exp (f j))
    by (rewrite <- exp_plus; f_equal; ring).
  assert (0 < rsum C (fun k => exp (f k))) by (apply rsum_pos; [exact HC|intros; apply exp_pos]).
  pose proof (exp_pos (- m)). field. split; lra.
Qed.

Section TemporalSoftmax.

Variables (N T V : nat) (y : intarray) (mask : ndarray).
Hypothesis HN : (1 <= N)%nat.
Hypothesis HV : (1 <= V)%nat.
Hypothesis Hy : ishape y = [N; T].
Hypothesis Hmask : shape mask = [N; T].
Hypothesis Hrange : forall n t, (n < N)%nat -> (t < T)%nat ->
  index_in_range V (idata y [n; t]) = true.

Lemma flat_split (k : nat) :
  (k < N * T)%nat ->
  (k / T < N)%nat /\ (k mod T < T)%nat /\ k = (k / T * T + k mod T)%nat.
Proof.
  intros Hk. assert (HT : (0 < T)%nat) by (destruct T; lia).
  split; [apply Nat.Div0.div_lt_upper_bound; lia|].
  split; [apply Nat.mod_upper_bound; lia|].
  rewrite (Nat.mul_comm (k / T) T). apply Nat.div_mod_eq.
Qed.

Lemma iravel_range (k : nat) :
  (k < N * T)%nat -> index_in_range V (nth k (iravel y) 0%Z) = true.
Proof.
  intros Hk. destruct (flat_split k Hk) as (Hq & Hr & Ek).
  rewrite Ek. rewrite (iravel_nth N T y Hy) by assumption. apply Hrange; assumption.
Qed.

Lemma iravel_label (n t : nat) :
  (n < N)%nat -> (t < T)%nat ->
  label V (iravel y) (n * T + t) = wrap V (idata y [n; t]).
Proof.
  intros Hn Ht. unfold label. rewrite (iravel_nth N T y Hy) by assumption. reflexivity.
Qed.

(** The sum of the exponentials of the scores at one time step. *)
Definition step_sum_exp (x : ndarray) (n t : nat) : R :=
  rsum V (fun v => exp (data x [n; t; v])).

Lemma step_sum_exp_pos (x : ndarray) (n t : nat) : 0 < step_sum_exp x n t.
Proof. apply rsum_pos; [exact HV|]. intros. apply exp_pos. Qed.

Lemma temporal_softmax_loss_value (x : ndarray) (verbose : bool) :
  shape x = [N; T; V] ->
  exists dx,
    temporal_softmax_loss x y mask verbose =
    Ok (rsum N (fun n => rsum T (fun t =>
          data mask [n; t] *
          (ln (step_sum_exp x n t) - data x [n; t; wrap V (idata y [n; t])]))) / INR N, dx) /\
    shape dx = [N; T; V] /\
    forall n t v, (n < N)%nat -> (t < T)%nat -> (v < V)%nat ->
      data dx [n; t; v] =
      (exp (data x [n; t; v]) / step_sum_exp x n t
       - (if (v =? wrap V (idata y [n; t]))%nat then 1 else 0)) / INR N * data mask [n; t].
Proof.
  intros Hx.
  destruct (reshape_flatten x N T V Hx) as (xf & Exf & Sxf & Vxf).
  unfold temporal_softmax_loss, shape3. rewrite Hx. cbn [res_bind]. rewrite Exf.
  cbn [res_bind]. unfold ireshape_flat. rewrite Hy.
  replace (size_of [N; T] =? N * T)%nat with true
    by (symmetry; apply Nat.eqb_eq; simpl; lia).
  cbn [res_bind].
  change [Z.of_nat (N * T)] with (map Z.of_nat [(N * T)%nat]).
  rewrite (reshape_exact mask [(N * T)%nat]) by (rewrite Hmask; simpl; lia).
  cbn [res_bind].
  set (mf := {| shape := [(N * T)%nat]; data := _ |}).
  assert (Smf : shape mf = [(N * T)%nat]) by reflexivity.
  assert (Vmf : forall n t, (t < T)%nat -> data mf [(n * T + t)%nat] = data mask [n; t]).
  { intros n t Ht. unfold mf. cbn [data ravel size_of fold_right]. rewrite Hmask.
    replace ((n * T + t) * 1 + 0)%nat with (n * T + t)%nat by lia.
    rewrite unravel_pair by exact Ht. reflexivity. }
  clearbody mf.
  unfold np_max. cbn [length]. rewrite Sxf.
  cbn [length axis_mask seq map existsb Nat.eqb orb pick Bool.eqb].
  change (match V with | 0%nat => true | S _ => false end) with (0 =? V)%nat.
  rewrite (proj2 (Nat.eqb_neq 0 V)) by lia. cbn [orb res_bind].
  set (mx := {| shape := _; data := _ |}).
  assert (Smx : shape mx = [(N * T)%nat; 1%nat]) by reflexivity.
  assert (Vmx : forall k, data mx [k; 0%nat] = rmax V (fun j => data xf [k; j])).
  { intros k. reflexivity. }
  clearbody mx.
  destruct (map2_2d_col Rminus (N * T) V xf mx Sxf Smx) as [Ssh Vsh].
  fold (sub xf mx) in Ssh, Vsh.
  set (ex := np_exp (sub xf mx)).
  assert (Sex : shape ex = [(N * T)%nat; V]) by exact Ssh.
  assert (Vex : forall k j, (k < N * T)%nat -> (j < V)%nat ->
            data ex [k; j] = exp (data xf [k; j] - rmax V (fun j => data xf [k; j]))).
  { intros k j Hk Hj. unfold ex, np_exp. cbn [map1 data]. rewrite Vsh, Vmx by assumption.
    reflexivity. }
  assert (SZ : shape (sum_axes_keep ex [1%nat]) = [(N * T)%nat; 1%nat]).
  { unfold sum_axes_keep. cbn [shape]. rewrite Sex. reflexivity. }
  assert (VZ : forall k, (k < N * T)%nat ->
            data (sum_axes_keep ex [1%nat]) [k; 0%nat] =
            rsum V (fun j => exp (data xf [k; j] - rmax V (fun j => data xf [k; j])))).
  { intros k Hk. unfold sum_axes_keep. cbn [data shape]. rewrite Sex.
    cbn [length axis_mask seq map existsb Nat.eqb orb pick Bool.eqb merge_index hd tl
         sum_over].
    apply rsum_ext. intros j Hj. apply Vex; assumption. }
  destruct (map2_2d_col Rdiv (N * T) V ex _ Sex SZ) as [Spr Vpr0].
  fold (div ex (sum_axes_keep ex [1%nat])) in Spr, Vpr0.
  set (probs := div ex (sum_axes_keep ex [1%nat])) in *.
  assert (Vpr : forall k j, (k < N * T)%nat -> (j < V)%nat ->
            data probs [k; j] =
            exp (data xf [k; j]) / rsum V (fun j => exp (data xf [k; j]))).
  { intros k j Hk Hj. rewrite Vpr0, Vex, VZ by assumption.
    apply (softmax_shift V (fun j => data xf [k; j])). exact HV. }
  clearbody probs.
  pose proof (iravel_length N T y Hy) as Ly.
  destruct (getitem_pairs_value (N * T) V (iravel y) Ly iravel_range probs Spr)
    as (picked & Ep & Sp & Vp).
  rewrite Ep. cbn [res_bind].
  destruct (getitem_pairs_value (N * T) V (iravel y) Ly iravel_range probs Spr)
    as (sel & Es & Ss & Vs).
  destruct (map2_scalar_r Rminus picked 1) as [Sv Vv]. rewrite Sp in Sv, Vv.
  fold (sub picked (scalar 1)) in Sv, Vv.
  destruct (setitem_pairs_value (N * T) V (iravel y) Ly iravel_range probs _ Spr Sv)
    as (dx1 & Ed & Sd & Vd).
  rewrite Ed. cbn [res_bind].
  destruct (map2_2d_scalar_r Rdiv (N * T) V dx1 (INR N) Sd) as [Sdx2 Vdx2].
  fold (div dx1 (scalar (INR N))) in Sdx2, Vdx2.
  set (mcol := getitem mf [IAll; INew]).
  assert (Smc : shape mcol = [(N * T)%nat; 1%nat]).
  { unfold mcol, getitem. cbn [shape]. rewrite Smf. reflexivity. }
  assert (Vmc : forall k, data mcol [k; 0%nat] = data mf [k]).
  { intros k. unfold mcol, getitem. cbn [data]. rewrite Smf. reflexivity. }
  destruct (map2_2d_col Rmult (N * T) V _ mcol Sdx2 Smc) as [Sdx3 Vdx3].
  fold (mul (div dx1 (scalar (INR N))) mcol) in Sdx3, Vdx3.
  destruct (reshape_unflatten _ N T V Sdx3) as (dx & Edx & Sdx & Vdx).
  rewrite Edx. cbn [res_bind].
  exists dx. split; [|split; [exact Sdx|]].
  - f_equal. f_equal. f_equal.
    destruct (map2_same_shape Rmult mf (np_log picked) [(N * T)%nat] Smf Sp) as [Sm Vm].
    unfold sum, mul. rewrite Sm. cbn [sum_over].
    rewrite <- (rsum_mul N T (fun n t =>
                  data mask [n; t] *
                  (ln (step_sum_exp x n t) - data x [n; t; wrap V (idata y [n; t])]))).
    replace (- rsum (N * T) (fun i => data (map2 Rmult mf (np_log picked)) [i]))
      with (-1 * rsum (N * T) (fun i => data (map2 Rmult mf (np_log picked)) [i])) by ring.
    rewrite <- rsum_scal_l. apply rsum_ext. intros k Hk.
    destruct (flat_split k Hk) as (Hq & Hr & Ek).
    remember (k / T)%nat as q. remember (k mod T)%nat as r.
    rewrite Vm by (repeat constructor; exact Hk).
    unfold np_log. cbn [map1 data]. rewrite Vp by exact Hk.
    assert (Hl : (label V (iravel y) k < V)%nat)
      by (apply (label_lt (N * T) V (iravel y) Ly iravel_range); exact Hk).
    rewrite Vpr by assumption.
    assert (Hlab : label V (iravel y) k = wrap V (idata y [q; r])).
    { rewrite Ek. apply iravel_label; assumption. }
    rewrite Hlab in *.
    rewrite (rsum_ext V (fun j => exp (data xf [k; j])) (fun j => exp (data x [q; r; j])))
      by (intros j Hj; rewrite Ek, Vxf by assumption; reflexivity).
    fold (step_sum_exp x q r).
    replace (data xf [k; wrap V (idata y [q; r])])
      with (data x [q; r; wrap V (idata y [q; r])])
      by (rewrite Ek, Vxf by assumption; reflexivity).
    replace (data mf [k]) with (data mask [q; r]) by (rewrite Ek, Vmf by assumption; reflexivity).
    pose proof (step_sum_exp_pos x q r) as Hpos.
    unfold Rdiv. rewrite ln_mult, ln_Rinv, ln_exp;
      [ring|exact Hpos|apply exp_pos|apply Rinv_0_lt_compat; exact Hpos].
  - intros n t v Hn Ht Hv. rewrite Vdx by assumption.
    assert (Hk : (n * T + t < N * T)%nat) by nia.
    rewrite Vdx3, Vdx2, Vd, Vmc, Vmf by assumption.
    rewrite iravel_label by assumption.
    assert (Hl : (wrap V (idata y [n; t]) < V)%nat).
    { rewrite <- iravel_label by assumption.
      apply (label_lt (N * T) V (iravel y) Ly iravel_range). exact Hk. }
    assert (Hpr : forall j, (j < V)%nat ->
              data probs [(n * T + t)%nat; j] = exp (data x [n; t; j]) / step_sum_exp x n t).
    { intros j Hj. rewrite Vpr by assumption. rewrite Vxf by assumption. f_equal.
      apply rsum_ext. intros j' Hj'. rewrite Vxf by assumption. reflexivity. }
    destruct (Nat.eqb_spec v (wrap V (idata y [n; t]))) as [->|Hne].
    + rewrite Vv by (repeat constructor; exact Hk). rewrite Vp by exact Hk.
      rewrite iravel_label by assumption. rewrite Hpr by exact Hl. reflexivity.
    + rewrite Hpr by exact Hv. unfold Rminus. rewrite Ropp_0, Rplus_0_r. reflexivity.
Qed.

End TemporalSoftmax.

(** X19: for scores [x] of shape [(N, T, V)] with [N, V >= 1], labels [y] of
    shape [(N, T)] in [-V, V) and a mask of shape [(N, T)],
    [temporal_softmax_loss] returns the masked cross-entropy summed over the
    time steps and divided by [N], and
    [dx[n, t, :] = mask[n, t] * (softmax(x[n, t, :]) - onehot(y[n, t])) / N],
    the gradient of the loss with respect to [x]. *)
Theorem temporal_softmax_loss_correct (N T V : nat) (x : ndarray) (y : intarray)
      (mask : ndarray) (verbose : bool) :
  shape x = [N; T; V] -> ishape y = [N; T] -> shape mask = [N; T] ->
  (1 <= N)%nat -> (1 <= V)%nat ->
  (forall n t, (n < N)%nat -> (t < T)%nat -> index_in_range V (idata y [n; t]) = true) ->
  exists loss dx,
    temporal_softmax_loss x y mask verbose = Ok (loss, dx) /\
    loss = rsum N (fun n => rsum T (fun t =>
             data mask [n; t] *
             (ln (rsum V (fun v => exp (data x [n; t; v])))
              - data x [n; t; wrap V (idata y [n; t])]))) / INR N /\
    shape dx = [N; T; V] /\
    (forall n t v, (n < N)%nat -> (t < T)%nat -> (v < V)%nat ->
       data dx [n; t; v] =
       (exp (data x [n; t; v]) / rsum V (fun k => exp (data x [n; t; k]))
        - (if (v =? wrap V (idata y [n; t]))%nat then 1 else 0)) / INR N
       * data mask [n; t]) /\
    gradient_at (fun x' => loss_of (temporal_softmax_loss x' y mask verbose)) x dx.
Proof.
  intros Hx Hy Hmask HN HV Hrange.
  destruct (temporal_softmax_loss_value N T V y mask HN HV Hy Hmask Hrange x verbose Hx)
    as (dx & E & Sdx & Vdx).
  eexists. exists dx. split; [exact E|]. split; [reflexivity|].
  split; [exact Sdx|]. split; [exact Vdx|].
  split; [congruence|]. rewrite Hx. intros idx Hidx.
  assert (Hidx3 : exists n0 t0 v0, idx = [n0; t0; v0] /\ (n0 < N)%nat /\ (t0 < T)%nat /\
                                   (v0 < V)%nat).
  { unfold in_bounds in Hidx.
    inversion Hidx as [|n0 ? l1 ? Hn0 H1]; subst.
    inversion H1 as [|t0 ? l2 ? Ht0 H2]; subst.
    inversion H2 as [|v0 ? l3 ? Hv0 H3]; subst.
    inversion H3; subst. exists n0, t0, v0. repeat split; assumption. }
  destruct Hidx3 as (n0 & t0 & v0 & -> & Hn0 & Ht0 & Hv0).
  set (i0 := [n0; t0; v0]).
  pose proof (tangent_set_entry x i0 (data x i0)) as Htan.
  assert (HNR : INR N <> 0) by (apply not_0_INR; lia).
  eapply (dlim_eq (fun t =>
            rsum N (fun n => rsum T (fun s =>
              data mask [n; s] *
              (ln (rsum V (fun v => exp (data (set_entry x i0 t) [n; s; v])))
               - data (set_entry x i0 t) [n; s; wrap V (idata y [n; s])]))) * / INR N)).
  - eapply (dlim_mult _ (fun _ => / INR N)); [|apply derivable_pt_lim_const].
    eapply (dlim_rsum N (fun n t => rsum T (fun s =>
              data mask [n; s] *
              (ln (rsum V (fun v => exp (data (set_entry x i0 t) [n; s; v])))
               - data (set_entry x i0 t) [n; s; wrap V (idata y [n; s])])))).
    intros n Hn.
    eapply (dlim_rsum T (fun s t =>
              data mask [n; s] *
              (ln (rsum V (fun v => exp (data (set_entry x i0 t) [n; s; v])))
               - data (set_entry x i0 t) [n; s; wrap V (idata y [n; s])]))).
    intros s Hs.
    eapply (dlim_mult (fun _ => data mask [n; s])); [apply derivable_pt_lim_const|].
    eapply (dlim_minus (fun t => ln (rsum V (fun v =>
                                  exp (data (set_entry x i0 t) [n; s; v]))))
                       (fun t => data (set_entry x i0 t) [n; s; wrap V (idata y [n; s])])).
    + apply (dlim_comp_ln (fun t => rsum V (fun v =>
                                      exp (data (set_entry x i0 t) [n; s; v])))).
      * eapply (dlim_rsum V (fun v t => exp (data (set_entry x i0 t) [n; s; v]))).
        intros v Hv.
        apply (dlim_comp_exp (fun t => data (set_entry x i0 t) [n; s; v])).
        apply (proj2 Htan).
      * apply rsum_pos; [exact HV|]. intros. apply exp_pos.
    + apply (proj2 Htan).
  - intros t.
    destruct (temporal_softmax_loss_value N T V y mask HN HV Hy Hmask Hrange
                (set_entry x i0 t) verbose Hx) as (dx' & E' & _).
    rewrite E'. reflexivity.
  - unfold i0 at 1. rewrite Vdx by assumption. cbv beta. rewrite set_entry_same.
    rewrite Rmult_0_r, Rplus_0_r.
    rewrite (rsum_single N n0 _ Hn0).
    + rewrite (rsum_single T t0 _ Ht0).
      * fold (step_sum_exp V x n0 t0).
        rewrite (rsum_single V v0 (fun v => exp (data x [n0; t0; v]) * indicator i0 [n0; t0; v])
                   Hv0).
        -- unfold indicator, i0. rewrite decide_True by reflexivity.
           pose proof (step_sum_exp_pos V HV x n0 t0).
           destruct (Nat.eqb_spec v0 (wrap V (idata y [n0; t0]))) as [Heq|Hne].
           ++ rewrite <- Heq. rewrite decide_True by reflexivity. field. split; lra.
           ++ rewrite decide_False by congruence. field. split; lra.
        -- intros k _ Hk. unfold indicator, i0. rewrite decide_False by congruence. ring.
      * intros k _ Hk. unfold indicator, i0.
        rewrite (rsum_zero_ext V (fun v => exp (data x [n0; k; v]) *
                                           (if decide ([n0; k; v] = [n0; t0; v0])
                                            then 1 else 0)))
          by (intros v _; rewrite decide_False by congruence; ring).
        rewrite decide_False by congruence. ring.
    + intros k _ Hk. apply rsum_zero_ext. intros s Hs. unfold indicator, i0.
      rewrite (rsum_zero_ext V (fun v => exp (data x [k; s; v]) *
                                         (if decide ([k; s; v] = [n0; t0; v0])
                                          then 1 else 0)))
        by (intros v _; rewrite decide_False by congruence; ring).
      rewrite decide_False by congruence. ring.
Qed.

Definition tsoft_x0 : ndarray := tensor_of 1 2 2 (fun _ t v => INR t - INR v).
Definition tsoft_y0 : intarray :=
  {| ishape := [1; 2]%nat; idata := fun idx => Z.of_nat (nth 1 idx 0%nat) |}.
Definition tsoft_mask0 : ndarray := matrix_of 1 2 (fun _ t => INR t).

Lemma temporal_softmax_loss_correct_witness :
  exists loss dx,
    temporal_softmax_loss tsoft_x0 tsoft_y0 tsoft_mask0 false = Ok (loss, dx) /\
    loss = rsum 1 (fun n => rsum 2 (fun t =>
             data tsoft_mask0 [n; t] *
             (ln (rsum 2 (fun v => exp (data tsoft_x0 [n; t; v])))
              - data tsoft_x0 [n; t; wrap 2 (idata tsoft_y0 [n; t])]))) / INR 1 /\
    shape dx = [1; 2; 2]%nat /\
    (forall n t v, (n < 1)%nat -> (t < 2)%nat -> (v < 2)%nat ->
       data dx [n; t; v] =
       (exp (data tsoft_x0 [n; t; v]) / rsum 2 (fun k => exp (data tsoft_x0 [n; t; k]))
        - (if (v =? wrap 2 (idata tsoft_y0 [n; t]))%nat then 1 else 0)) / INR 1
       * data tsoft_mask0 [n; t]) /\
    gradient_at (fun x' => loss_of (temporal_softmax_loss x' tsoft_y0 tsoft_mask0 false))
                tsoft_x0 dx.
Proof.
  apply (temporal_softmax_loss_correct 1 2 2 tsoft_x0 tsoft_y0 tsoft_mask0 false).
  - reflexivity.
  - reflexivity.
  - reflexivity.
  - lia.
  - lia.
  - intros n t Hn Ht. cbn [tsoft_y0 idata nth].
    destruct t as [|[|t]]; [reflexivity|reflexivity|lia].
Defined.

(** ** The multiclass SVM loss *)

Definition svm_loss (x : ndarray) (y : list Z) : res (R * ndarray) :=
  let* N := shape_getitem x 0 in
  let* correct_class_scores := getitem_pairs x (py_arange N) y in
  let margins :=
    np_maximum (scalar 0)
      (add (sub x (getitem correct_class_scores [IAll; INew])) (scalar 1)) in
  let* margins := setitem_pairs margins (py_arange N) y (scalar 0) in
  let loss := sum margins / INR N in
  let num_pos := sum_axes (greater margins 0) [1%nat] in
  let dx := zeros_like x in
  let dx := set_masked dx (greater margins 0) (scalar 1) in
  let* sel := getitem_pairs dx (py_arange N) y in
  let* dx := setitem_pairs dx (py_arange N) y (sub sel num_pos) in
  let dx := div dx (scalar (INR N)) in
  Ok (loss, dx).

Lemma setitem_pairs_scalar (N C : nat) (y : list Z) (a : ndarray) (c : R) :
  length y = N ->
  (forall i, (i < N)%nat -> index_in_range C (nth i y 0%Z) = true) ->
  shape a = [N; C] ->
  exists r, setitem_pairs a (py_arange N) y (scalar c) = Ok r /\ shape r = [N; C] /\
            forall i j, (i < N)%nat -> (j < C)%nat ->
              data r [i; j] = if (j =? label C y i)%nat then c else data a [i; j].
Proof.
  intros Hy Hrange Ha. unfold setitem_pairs.
  rewrite Ha, py_arange_length, Hy, pair_count_same.
  cbn [res_bind]. rewrite py_arange_in_range, (labels_in_range N C y Hy Hrange). cbn [andb].
  destruct (set_pairs_from_value N C y Hy (broadcast_to (scalar c) [N]) N eq_refl 0 a Ha)
    as [S1 V1]; [lia|].
  eexists. split; [reflexivity|]. split; [exact S1|].
  intros i j Hi Hj. rewrite V1 by assumption.
  destruct (Nat.ltb_spec i (0 + N)); [|lia]. cbn [Nat.leb andb].
  destruct (j =? label C y i)%nat; reflexivity.
Qed.

Section Svm.

Variables (N C : nat) (y : list Z).
Hypothesis Hy : length y = N.
Hypothesis Hrange : forall i, (i < N)%nat -> index_in_range C (nth i y 0%Z) = true.

(** The margin of class [j] in row [i], and whether it is positive; the
    labelled class has none. *)
Definition margin (x : ndarray) (i j : nat) : R :=
  if (j =? label C y i)%nat then 0
  else Rmax 0 (data x [i; j] - data x [i; label C y i] + 1).

Definition violated (x : ndarray) (i j : nat) : R :=
  if (j =? label C y i)%nat then 0
  else if Rlt_dec 0 (data x [i; j] - data x [i; label C y i] + 1) then 1 else 0.

Lemma svm_loss_value (x : ndarray) :
  shape x = [N; C] ->
  exists dx,
    svm_loss x y = Ok (rsum N (fun i => rsum C (fun j => margin x i j)) / INR N, dx) /\
    shape dx = [N; C] /\
    forall i j, (i < N)%nat -> (j < C)%nat ->
      data dx [i; j] =
      (if (j =? label C y i)%nat then - rsum C (fun k => violated x i k)
       else violated x i j) / INR N.
Proof.
  intros Hx. unfold svm_loss, shape_getitem. rewrite Hx. cbn [nth_error res_bind].
  destruct (getitem_pairs_value N C y Hy Hrange x Hx) as (ccs & Ec & Sc & Vc).
  rewrite Ec. cbn [res_bind].
  set (col := getitem ccs [IAll; INew]).
  assert (Scol : shape col = [N; 1%nat]).
  { unfold col, getitem. cbn [shape]. rewrite Sc. reflexivity. }
  assert (Vcol : forall i, data col [i; 0%nat] = data ccs [i]).
  { intros i. unfold col, getitem. cbn [data]. rewrite Sc. reflexivity. }
  clearbody col.
  destruct (map2_2d_col Rminus N C x col Hx Scol) as [S1 V1]. fold (sub x col) in S1, V1.
  destruct (map2_2d_scalar_r Rplus N C (sub x col) 1 S1) as [S2 V2].
  fold (add (sub x col) (scalar 1)) in S2, V2.
  destruct (map2_scalar_l Rmax 0 (add (sub x col) (scalar 1))) as [S3 V3].
  rewrite S2 in S3, V3. fold (np_maximum (scalar 0) (add (sub x col) (scalar 1))) in S3, V3.
  destruct (setitem_pairs_scalar N C y _ 0 Hy Hrange S3) as (mg & Em & Sm & Vm).
  rewrite Em. cbn [res_bind].
  assert (Vmg : forall i j, (i < N)%nat -> (j < C)%nat -> data mg [i; j] = margin x i j).
  { intros i j Hi Hj. rewrite Vm by assumption. unfold margin.
    destruct (j =? label C y i)%nat; [reflexivity|].
    rewrite V3 by (repeat constructor; assumption).
    rewrite V2, V1, Vcol, Vc by assumption. reflexivity. }
  set (gm := greater mg 0).
  assert (Sgm : shape gm = [N; C]) by exact Sm.
  assert (Vgm : forall i j, (i < N)%nat -> (j < C)%nat -> data gm [i; j] = violated x i j).
  { intros i j Hi Hj. unfold gm, greater. cbn [map1 data]. rewrite Vmg by assumption.
    unfold margin, violated. destruct (j =? label C y i)%nat.
    - destruct (Rlt_dec 0 0); [lra|reflexivity].
    - set (a := data x [i; j] - data x [i; label C y i] + 1).
      unfold Rmax. destruct (Rle_dec 0 a), (Rlt_dec 0 a);
        try destruct (Rlt_dec 0 0); try reflexivity; lra. }
  assert (Snp : shape (sum_axes gm [1%nat]) = [N]).
  { unfold sum_axes. cbn [shape]. rewrite Sgm. reflexivity. }
  assert (Vnp : forall i, (i < N)%nat ->
            data (sum_axes gm [1%nat]) [i] = rsum C (fun k => violated x i k)).
  { intros i Hi. unfold sum_axes. cbn [data]. rewrite Sgm.
    cbn [length axis_mask seq map existsb Nat.eqb orb pick Bool.eqb merge_index hd tl
         sum_over].
    apply rsum_ext. intros k Hk. apply Vgm; assumption. }
  set (dx0 := set_masked (zeros_like x) gm (scalar 1)).
  assert (Sdx0 : shape dx0 = [N; C]) by exact Hx.
  assert (Vdx0 : forall i j, (i < N)%nat -> (j < C)%nat -> data dx0 [i; j] = violated x i j).
  { intros i j Hi Hj. unfold dx0, set_masked. cbn [data]. rewrite Vgm by assumption.
    unfold zeros_like, zeros, scalar. cbn [data].
    unfold violated. destruct (j =? label C y i)%nat.
    - destruct (Req_dec_T 0 0); [reflexivity|contradiction].
    - destruct (Rlt_dec 0 _).
      + destruct (Req_dec_T 1 0); [lra|reflexivity].
      + destruct (Req_dec_T 0 0); [reflexivity|contradiction]. }
  clearbody dx0 gm.
  destruct (getitem_pairs_value N C y Hy Hrange dx0 Sdx0) as (sel & Es & Ss & Vs).
  rewrite Es. cbn [res_bind].
  destruct (map2_same_shape Rminus sel (sum_axes gm [1%nat]) [N] Ss Snp) as [Sv Vv].
  fold (sub sel (sum_axes gm [1%nat])) in Sv, Vv.
  destruct (setitem_pairs_value N C y Hy Hrange dx0 _ Sdx0 Sv) as (dx1 & Ed & Sd & Vd).
  rewrite Ed. cbn [res_bind].
  destruct (map2_2d_scalar_r Rdiv N C dx1 (INR N) Sd) as [Sdx Vdx].
  fold (div dx1 (scalar (INR N))) in Sdx, Vdx.
  exists (div dx1 (scalar (INR N))). split; [|split; [exact Sdx|]].
  - f_equal. f_equal. f_equal. unfold sum. rewrite Sm. cbn [sum_over].
    apply rsum_ext. intros i Hi. apply rsum_ext. intros j Hj. apply Vmg; assumption.
  - intros i j Hi Hj. rewrite Vdx, Vd by assumption. f_equal.
    destruct (Nat.eqb_spec j (label C y i)) as [->|Hne].
    + rewrite Vv by (repeat constructor; exact Hi).
      rewrite Vs, Vnp, Vdx0 by (first [assumption|apply (label_lt N C y Hy Hrange); assumption]).
      unfold violated at 1. rewrite Nat.eqb_refl. ring.
    + apply Vdx0; assumption.
Qed.

End Svm.

Lemma dlim_comp_relu (f : R -> R) (x l : R) :
  derivable_pt_lim f x l -> f x <> 0 ->
  derivable_pt_lim (fun t => Rmax 0 (f t)) x ((if Rlt_dec 0 (f x) then 1 else 0) * l).
Proof.
  intros Hf Hne. destruct (Rlt_dec 0 (f x)) as [Hpos|Hneg].
  - exact (derivable_pt_lim_comp f (fun u => Rmax 0 u) x l 1 Hf (dlim_relu_pos (f x) Hpos)).
  - assert (Hlt : f x < 0) by lra.
    exact (derivable_pt_lim_comp f (fun u => Rmax 0 u) x l 0 Hf (dlim_relu_neg (f x) Hlt)).
Qed.

Lemma rsum_nonneg (n : nat) (f : nat -> R) :
  (forall k, (k < n)%nat -> 0 <= f k) -> 0 <= rsum n f.
Proof.
  intros Hf. induction n as [|n IH]; cbn [rsum]; [lra|].
  assert (0 <= rsum n f) by (apply IH; intros; apply Hf; lia).
  specialize (Hf n ltac:(lia)). lra.
Qed.

(** X20: for scores [x] of shape [(N, C)] with [N >= 1] and labels [y] of
    length [N] in [-C, C), [svm_loss] returns the mean over the rows of the
    hinge margins [max(0, x[i, j] - x[i, y[i]] + 1)] of the other classes,
    which is not negative; each row of [dx] sums to 0; and where no margin of
    the row sits exactly at the hinge, [dx[i, j]] is the partial derivative
    of the loss. *)
Theorem svm_loss_correct (N C : nat) (x : ndarray) (y : list Z) :
  shape x = [N; C] -> (1 <= N)%nat -> length y = N ->
  (forall i, (i < N)%nat -> index_in_range C (nth i y 0%Z) = true) ->
  exists loss dx,
    svm_loss x y = Ok (loss, dx) /\
    loss = rsum N (fun i => rsum C (fun j =>
             if (j =? wrap C (nth i y 0%Z))%nat then 0
             else Rmax 0 (data x [i; j] - data x [i; wrap C (nth i y 0%Z)] + 1))) / INR N /\
    0 <= loss /\
    shape dx = [N; C] /\
    (forall i, (i < N)%nat -> rsum C (fun j => data dx [i; j]) = 0) /\
    (forall i j, (i < N)%nat -> (j < C)%nat ->
       (forall k, (k < C)%nat -> k <> wrap C (nth i y 0%Z) ->
          data x [i; k] - data x [i; wrap C (nth i y 0%Z)] + 1 <> 0) ->
       derivable_pt_lim (fun t => loss_of (svm_loss (set_entry x [i; j] t) y))
         (data x [i; j]) (data dx [i; j])).
Proof.
  intros Hx HN Hy Hrange.
  destruct (svm_loss_value N C y Hy Hrange x Hx) as (dx & E & Sdx & Vdx).
  assert (HNR : 0 < INR N) by (apply lt_0_INR; lia).
  eexists. exists dx. split; [exact E|]. split; [reflexivity|].
  split; [|split; [exact Sdx|split]].
  - apply Rmult_le_pos; [|left; apply Rinv_0_lt_compat; exact HNR].
    apply rsum_nonneg. intros i Hi. apply rsum_nonneg. intros j Hj.
    unfold margin. destruct (j =? label C y i)%nat; [lra|apply Rmax_l].
  - intros i Hi.
    pose proof (label_lt N C y Hy Hrange i Hi) as Hl.
    rewrite (rsum_ext C _ (fun j => / INR N * violated C y x i j
                                    + (- (rsum C (fun k => violated C y x i k) / INR N))
                                      * delta (label C y i) j)).
    2:{ intros j Hj. rewrite Vdx by assumption. unfold delta.
        destruct (Nat.eqb_spec j (label C y i)) as [->|Hne].
        - assert (Hv0 : violated C y x i (label C y i) = 0)
            by (unfold violated; rewrite Nat.eqb_refl; reflexivity).
          rewrite Hv0. field. lra.
        - field. lra. }
    rewrite rsum_plus, !rsum_scal_l.
    change (rsum C (delta (label C y i))) with (rsum C (fun n => delta (label C y i) n)).
    rewrite (rsum_delta_1 C (label C y i) Hl).
    change (rsum C (violated C y x i)) with (rsum C (fun k => violated C y x i k)).
    field. lra.
  - intros i0 j0 Hi0 Hj0 Hne0.
    fold (label C y i0) in Hne0.
    pose proof (label_lt N C y Hy Hrange i0 Hi0) as Hl.
    pose proof (tangent_set_entry x [i0; j0] (data x [i0; j0])) as Htan.
    set (viol := fun j => if Rlt_dec 0 (data x [i0; j] - data x [i0; label C y i0] + 1)
                          then 1 else 0).
    eapply (dlim_eq (fun t =>
              rsum N (fun i => rsum C (fun j => margin C y (set_entry x [i0; j0] t) i j))
              * / INR N)).
    + eapply (dlim_mult _ (fun _ => / INR N)); [|apply derivable_pt_lim_const].
      apply (dlim_rsum N
               (fun i t => rsum C (fun j => margin C y (set_entry x [i0; j0] t) i j))
               (fun i => if (i =? i0)%nat
                         then rsum C (fun j =>
                                if (j =? label C y i0)%nat then 0
                                else viol j * (indicator [i0; j0] [i0; j]
                                               - indicator [i0; j0] [i0; label C y i0] + 0))
                         else 0)).
      intros i Hi. destruct (Nat.eqb_spec i i0) as [->|Hdiff].
      * apply (dlim_rsum C (fun j t => margin C y (set_entry x [i0; j0] t) i0 j)).
        intros j Hj. unfold margin.
        destruct (Nat.eqb_spec j (label C y i0)) as [->|Hjl];
          [apply derivable_pt_lim_const|].
        eapply dlim_eq.
        -- apply (dlim_comp_relu
                    (fun t => data (set_entry x [i0; j0] t) [i0; j]
                              - data (set_entry x [i0; j0] t) [i0; label C y i0] + 1)).
           ++ eapply (dlim_plus _ (fun _ => 1)); [|apply derivable_pt_lim_const].
              apply (dlim_minus (fun t => data (set_entry x [i0; j0] t) [i0; j])
                                (fun t => data (set_entry x [i0; j0] t) [i0; label C y i0]));
                apply (proj2 Htan).
           ++ cbv beta. rewrite set_entry_same. apply Hne0; assumption.
        -- intros t. reflexivity.
        -- cbv beta. rewrite set_entry_same. reflexivity.
      * eapply dlim_ext;
          [| |apply (derivable_pt_lim_const (rsum C (fun j => margin C y x i j)))].
        -- intros t. cbv beta. apply rsum_ext. intros j Hj. unfold margin, set_entry.
           cbn [data]. rewrite !decide_False by congruence. reflexivity.
        -- reflexivity.
    + intros t.
      destruct (svm_loss_value N C y Hy Hrange (set_entry x [i0; j0] t) Hx)
        as (dx' & E' & _).
      rewrite E'. reflexivity.
    + rewrite Vdx by assumption. rewrite Rmult_0_r, Rplus_0_r.
      rewrite (rsum_single N i0 _ Hi0).
      2:{ intros k _ Hk. destruct (Nat.eqb_spec k i0); [contradiction|reflexivity]. }
      rewrite Nat.eqb_refl. unfold Rdiv. f_equal.
      destruct (Nat.eqb_spec j0 (label C y i0)) as [Heq|Hjl].
      * replace (- rsum C (fun k => violated C y x i0 k))
          with (-1 * rsum C (fun k => violated C y x i0 k)) by ring.
        rewrite <- rsum_scal_l. apply rsum_ext. intros j Hj. unfold violated, indicator.
        destruct (Nat.eqb_spec j (label C y i0)) as [->|Hjl]; [ring|].
        rewrite decide_False by congruence.
        rewrite <- Heq. rewrite decide_True by reflexivity. unfold viol.
        rewrite <- Heq. destruct (Rlt_dec 0 _); ring.
      * rewrite (rsum_single C j0 _ Hj0).
        -- destruct (Nat.eqb_spec j0 (label C y i0)); [contradiction|].
           unfold violated, indicator, viol.
           destruct (Nat.eqb_spec j0 (label C y i0)); [contradiction|].
           rewrite decide_True by reflexivity. rewrite decide_False by congruence.
           destruct (Rlt_dec 0 _); ring.
        -- intros k _ Hk. destruct (k =? label C y i0)%nat; [reflexivity|].
           unfold indicator. rewrite !decide_False by congruence. ring.
Qed.

Definition svm_x0 : ndarray := matrix_of 2 3 (fun i j => 3 * INR j - INR i).
Definition svm_y0 : list Z := [0%Z; (-1)%Z].

Lemma svm_loss_correct_witness :
  exists loss dx,
    svm_loss svm_x0 svm_y0 = Ok (loss, dx) /\
    loss = rsum 2 (fun i => rsum 3 (fun j =>
             if (j =? wrap 3 (nth i svm_y0 0%Z))%nat then 0
             else Rmax 0 (data svm_x0 [i; j]
                          - data svm_x0 [i; wrap 3 (nth i svm_y0 0%Z)] + 1))) / INR 2 /\
    0 <= loss /\
    shape dx = [2; 3]%nat /\
    (forall i, (i < 2)%nat -> rsum 3 (fun j => data dx [i; j]) = 0) /\
    (forall i j, (i < 2)%nat -> (j < 3)%nat ->
       (forall k, (k < 3)%nat -> k <> wrap 3 (nth i svm_y0 0%Z) ->
          data svm_x0 [i; k] - data svm_x0 [i; wrap 3 (nth i svm_y0 0%Z)] + 1 <> 0) ->
       derivable_pt_lim (fun t => loss_of (svm_loss (set_entry svm_x0 [i; j] t) svm_y0))
         (data svm_x0 [i; j]) (data dx [i; j])).
Proof.
  apply (svm_loss_correct 2 3 svm_x0 svm_y0).
  - reflexivity.
  - lia.
  - reflexivity.
  - intros i Hi. destruct i as [|[|i]]; [reflexivity|reflexivity|lia].
Defined.

(** ** LSTM over a sequence *)

Definition lstm_cache : Type :=
  (ndarray * ndarray * ndarray * ndarray * ndarray * ndarray * ndarray)%type.

Definition lstm_forward (x h0 Wx Wh b : ndarray) : res (ndarray * lstm_cache) :=
  let* ntd := shape3 x in
  let '(N, T, _) := ntd in
  let* nh := shape2 h0 in
  let '(_, H) := nh in
  let h := zeros [N; T; H] in
  let c := zeros [N; T; H] in
  let c0 := zeros [N; H] in
  let* x0 := np_getitem x [IAll; IInt 0; IAll] in
  let '(h_first, c_first, _) := lstm_step_forward x0 h0 c0 Wx Wh b in
  let* h := np_setitem h [IAll; IInt 0; IAll] h_first in
  let* c := np_setitem c [IAll; IInt 0; IAll] c_first in
  let* hc :=
    for_range_res (T - 1) (fun i (hc : ndarray * ndarray) =>
      let '(h, c) := hc in
      let* xi := np_getitem x [IAll; IInt (Z.of_nat i + 1); IAll] in
      let* hi := np_getitem h [IAll; IInt (Z.of_nat i); IAll] in
      let* ci := np_getitem c [IAll; IInt (Z.of_nat i); IAll] in
      let '(h_next, c_next, _) := lstm_step_forward xi hi ci Wx Wh b in
      let* h := np_setitem h [IAll; IInt (Z.of_nat i + 1); IAll] h_next in
      let* c := np_setitem c [IAll; IInt (Z.of_nat i + 1); IAll] c_next in
      Ok (h, c)) (h, c) in
  let '(h, c) := hc in
  let cache := (x, h0, Wx, Wh, b, h, c) in
  Ok (h, cache).

Definition lstm_grads : Type := (ndarray * ndarray * ndarray * ndarray * ndarray)%type.

(** The variables the loop of [lstm_backward] updates: [dx], [dh0],
    [dnext_c], [dWx], [dWh] and [db]. *)
Definition lstm_loop_state : Type :=
  (ndarray * ndarray * ndarray * ndarray * ndarray * ndarray)%type.

Definition lstm_backward (dh : ndarray) (cache : lstm_cache) : res lstm_grads :=
  let '(x, h0, Wx, Wh, b, h, c) := cache in
  let c0 := zeros_like h0 in
  let* nth := shape3 dh in
  let '(N, T, H) := nth in
  let dx := zeros_like x in
  let dh0 := zeros_like h0 in
  let dWx := zeros_like Wx in
  let dWh := zeros_like Wh in
  let db := zeros_like b in
  let dnext_c := zeros_like h0 in
  let* final :=
    for_range_res T (fun i (acc : lstm_loop_state) =>
      let '(dx, dh0, dnext_c, dWx, dWh, db) := acc in
      let t := (Z.of_nat T - Z.of_nat i - 1)%Z in
      let* step :=
        if (Z.of_nat i =? Z.of_nat T - 1)%Z then
          let* dht := np_getitem dh [IAll; IInt t; IAll] in
          let* xt := np_getitem x [IAll; IInt t; IAll] in
          let* ht := np_getitem h [IAll; IInt t; IAll] in
          let* ct := np_getitem c [IAll; IInt t; IAll] in
          let '(dxt, dh0, _, dWx_, dWh_, db_) :=
            lstm_step_backward (add dht dh0) dnext_c (xt, h0, c0, Wx, Wh, b, ht, ct) in
          Ok (dxt, dh0, dnext_c, dWx_, dWh_, db_)
        else if (Z.of_nat i =? 0)%Z then
          let* dht := np_getitem dh [IAll; IInt t; IAll] in
          let* xt := np_getitem x [IAll; IInt t; IAll] in
          let* hp := np_getitem h [IAll; IInt (t - 1)] in
          let* cp := np_getitem c [IAll; IInt (t - 1); IAll] in
          let* ht := np_getitem h [IAll; IInt t; IAll] in
          let* ct := np_getitem c [IAll; IInt t; IAll] in
          Ok (lstm_step_backward dht dnext_c (xt, hp, cp, Wx, Wh, b, ht, ct))
        else
          let* dht := np_getitem dh [IAll; IInt t; IAll] in
          let* xt := np_getitem x [IAll; IInt t; IAll] in
          let* hp := np_getitem h [IAll; IInt (t - 1)] in
          let* cp := np_getitem c [IAll; IInt (t - 1); IAll] in
          let* ht := np_getitem h [IAll; IInt t; IAll] in
          let* ct := np_getitem c [IAll; IInt t; IAll] in
          Ok (lstm_step_backward (add dht dh0) dnext_c (xt, hp, cp, Wx, Wh, b, ht, ct)) in
      let '(dxt, dh0, dnext_c, dWx_, dWh_, db_) := step in
      let* dx := np_setitem dx [IAll; IInt t; IAll] dxt in
      Ok (dx, dh0, dnext_c, add dWx dWx_, add dWh dWh_, add db db_))
      (dx, dh0, dnext_c, dWx, dWh, db) in
  let '(dx, dh0, _, dWx, dWh, db) := final in
  Ok (dx, dh0, dWx, dWh, db).

(** The loss [np.sum(dh * h)] of a forward pass. *)
Definition lstm_loss (dh : ndarray) (r : res (ndarray * lstm_cache)) : R := upstream_loss dh r.

(** [a[:, t]] of a [(N, T, D)] array is the same selection as [a[:, t, :]]. *)
Lemma np_getitem_step_short (N T D : nat) (a : ndarray) (t : nat) :
  shape a = [N; T; D] -> (t < T)%nat ->
  np_getitem a [IAll; IInt (Z.of_nat t)] = Ok (getitem a [IAll; IInt (Z.of_nat t)]) /\
  shape (getitem a [IAll; IInt (Z.of_nat t)]) = [N; D] /\
  forall n d, data (getitem a [IAll; IInt (Z.of_nat t)]) [n; d] = data a [n; t; d].
Proof.
  intros Ha Ht. unfold np_getitem, getitem. cbn [shape data]. rewrite Ha.
  cbn [indices_ok index_shape index_source hd tl]. rewrite wrap_of_nat.
  unfold index_in_range.
  destruct (Z.leb_spec (- Z.of_nat T) (Z.of_nat t)); [|lia].
  destruct (Z.ltb_spec (Z.of_nat t) (Z.of_nat T)); [|lia].
  cbn [andb]. repeat split; reflexivity.
Qed.

(** ** The forward recurrence *)

(** The new cell and hidden states of one step, entry by entry. *)
Definition lstm_cell_value (D H : nat) (xt ph pc Wx Wh b : ndarray) (n k : nat) : R :=
  logistic (lstm_preact D H xt ph Wx Wh b n (H + k)) * data pc [n; k] +
  logistic (lstm_preact D H xt ph Wx Wh b n k) *
  tanh (lstm_preact D H xt ph Wx Wh b n (3 * H + k)).

Definition lstm_hidden_value (D H : nat) (xt ph pc Wx Wh b : ndarray) (n k : nat) : R :=
  logistic (lstm_preact D H xt ph Wx Wh b n (2 * H + k)) *
  tanh (lstm_cell_value D H xt ph pc Wx Wh b n k).

(** The hidden and cell states before time step [t]: [(h0, 0)] before the
    first step, and the result of step [t - 1] afterwards. *)
Fixpoint lstm_states (N D H : nat) (x h0 Wx Wh b : ndarray) (t : nat) : ndarray * ndarray :=
  match t with
  | O => (h0, zeros [N; H])
  | S t' =>
      let xt := getitem x [IAll; IInt (Z.of_nat t'); IAll] in
      let ph := fst (lstm_states N D H x h0 Wx Wh b t') in
      let pc := snd (lstm_states N D H x h0 Wx Wh b t') in
      ({| shape := [N; H];
          data := fun idx =>
            lstm_hidden_value D H xt ph pc Wx Wh b (nth 0 idx 0%nat) (nth 1 idx 0%nat) |},
       {| shape := [N; H];
          data := fun idx =>
            lstm_cell_value D H xt ph pc Wx Wh b (nth 0 idx 0%nat) (nth 1 idx 0%nat) |})
  end.

Lemma lstm_preact_ext (N D H : nat) (x ph ph' Wx Wh b : ndarray) (n k : nat) :
  (forall j, (j < H)%nat -> data ph [n; j] = data ph' [n; j]) ->
  lstm_preact D H x ph Wx Wh b n k = lstm_preact D H x ph' Wx Wh b n k.
Proof.
  intros E. unfold lstm_preact. f_equal. f_equal.
  apply rsum_ext. intros j Hj. rewrite E by exact Hj. reflexivity.
Qed.

Lemma lstm_cell_value_ext (N D H : nat) (x ph ph' pc pc' Wx Wh b : ndarray) (n k : nat) :
  (forall j, (j < H)%nat -> data ph [n; j] = data ph' [n; j]) ->
  data pc [n; k] = data pc' [n; k] ->
  lstm_cell_value D H x ph pc Wx Wh b n k = lstm_cell_value D H x ph' pc' Wx Wh b n k.
Proof.
  intros E Ec. unfold lstm_cell_value.
  rewrite !(lstm_preact_ext N D H x ph ph' Wx Wh b n _ E), Ec. reflexivity.
Qed.

Lemma lstm_hidden_value_ext (N D H : nat) (x ph ph' pc pc' Wx Wh b : ndarray) (n k : nat) :
  (forall j, (j < H)%nat -> data ph [n; j] = data ph' [n; j]) ->
  data pc [n; k] = data pc' [n; k] ->
  lstm_hidden_value D H x ph pc Wx Wh b n k = lstm_hidden_value D H x ph' pc' Wx Wh b n k.
Proof.
  intros E Ec. unfold lstm_hidden_value.
  rewrite (lstm_cell_value_ext N D H x ph ph' pc pc' Wx Wh b n k E Ec).
  rewrite !(lstm_preact_ext N D H x ph ph' Wx Wh b n _ E). reflexivity.
Qed.

Lemma lstm_states_shape (N D H : nat) (x h0 Wx Wh b : ndarray) (t : nat) :
  shape h0 = [N; H] ->
  shape (fst (lstm_states N D H x h0 Wx Wh b t)) = [N; H] /\
  shape (snd (lstm_states N D H x h0 Wx Wh b t)) = [N; H].
Proof. intros Hh0. destruct t; cbn [lstm_states fst snd shape zeros]; split; auto. Qed.

Section LstmForward.

Variables (N T D H : nat).
Variables x h0 Wx Wh b : ndarray.

Hypothesis Hx : shape x = [N; T; D].
Hypothesis Hh0 : shape h0 = [N; H].
Hypothesis HWx : shape Wx = [D; (4 * H)%nat].
Hypothesis HWh : shape Wh = [H; (4 * H)%nat].
Hypothesis Hb : shape b = [(4 * H)%nat].
Hypothesis HT : (1 <= T)%nat.

Let St := lstm_states N D H x h0 Wx Wh b.

Let body := fun (i : nat) (hc : ndarray * ndarray) =>
  let '(h, c) := hc in
  let* xi := np_getitem x [IAll; IInt (Z.of_nat i + 1); IAll] in
  let* hi := np_getitem h [IAll; IInt (Z.of_nat i); IAll] in
  let* ci := np_getitem c [IAll; IInt (Z.of_nat i); IAll] in
  let '(h_next, c_next, _) := lstm_step_forward xi hi ci Wx Wh b in
  let* h := np_setitem h [IAll; IInt (Z.of_nat i + 1); IAll] h_next in
  let* c := np_setitem c [IAll; IInt (Z.of_nat i + 1); IAll] c_next in
  Ok (h, c).

(** One step on arrays that agree with the states before step [t]. *)
Lemma lstm_step_on_states (t : nat) (hp cp : ndarray) :
  (t < T)%nat -> shape hp = [N; H] -> shape cp = [N; H] ->
  (forall n k, (n < N)%nat -> (k < H)%nat -> data hp [n; k] = data (fst (St t)) [n; k]) ->
  (forall n k, (n < N)%nat -> (k < H)%nat -> data cp [n; k] = data (snd (St t)) [n; k]) ->
  exists nh nc,
    lstm_step_forward (getitem x [IAll; IInt (Z.of_nat t); IAll]) hp cp Wx Wh b =
      (nh, nc, (getitem x [IAll; IInt (Z.of_nat t); IAll], hp, cp, Wx, Wh, b, nh, nc)) /\
    shape nh = [N; H] /\ shape nc = [N; H] /\
    forall n k, (n < N)%nat -> (k < H)%nat ->
      data nh [n; k] = data (fst (St (S t))) [n; k] /\
      data nc [n; k] = data (snd (St (S t))) [n; k].
Proof.
  intros Ht Shp Scp Vhp Vcp.
  destruct (np_getitem_step N T D x t Hx Ht) as (_ & S1 & _).
  destruct (lstm_step_forward_value N D H _ hp cp Wx Wh b S1 Shp Scp HWx HWh Hb)
    as (nh & nc & E & Snh & Snc & V).
  exists nh, nc. split; [exact E|]. split; [exact Snh|]. split; [exact Snc|].
  intros n k Hn Hk. destruct (V n k Hn Hk) as [Vc Vh].
  assert (Ec : data nc [n; k] = data (snd (St (S t))) [n; k]).
  { rewrite Vc. unfold St. cbn [lstm_states snd data nth]. unfold lstm_cell_value.
    fold St.
    rewrite !(lstm_preact_ext N D H _ hp (fst (St t)) Wx Wh b n _ (fun j Hj => Vhp n j Hn Hj)).
    rewrite Vcp by assumption. reflexivity. }
  split; [|exact Ec].
  rewrite Vh, Vc. unfold St. cbn [lstm_states fst data nth].
  unfold lstm_hidden_value, lstm_cell_value. fold St.
  rewrite !(lstm_preact_ext N D H _ hp (fst (St t)) Wx Wh b n _ (fun j Hj => Vhp n j Hn Hj)).
  rewrite Vcp by assumption. reflexivity.
Qed.

Lemma lstm_forward_loop (hinit cinit : ndarray) (m : nat) :
  shape hinit = [N; T; H] -> shape cinit = [N; T; H] ->
  (forall n k, (n < N)%nat -> (k < H)%nat ->
     data hinit [n; 0%nat; k] = data (fst (St 1)) [n; k] /\
     data cinit [n; 0%nat; k] = data (snd (St 1)) [n; k]) ->
  (m < T)%nat ->
  exists hm cm, for_range_res m body (hinit, cinit) = Ok (hm, cm) /\
    shape hm = [N; T; H] /\ shape cm = [N; T; H] /\
    forall n t k, (n < N)%nat -> (t <= m)%nat -> (k < H)%nat ->
      data hm [n; t; k] = data (fst (St (S t))) [n; k] /\
      data cm [n; t; k] = data (snd (St (S t))) [n; k].
Proof.
  intros Sh Sc H0. induction m as [|m IH]; intros Hm.
  - exists hinit, cinit. split; [reflexivity|]. split; [exact Sh|]. split; [exact Sc|].
    intros n t k Hn Ht Hk. assert (t = 0%nat) as -> by lia. apply H0; assumption.
  - destruct IH as (hm & cm & Em & Shm & Scm & Vm); [lia|].
    cbn [for_range_res]. rewrite Em. cbn [res_bind]. unfold body.
    replace (Z.of_nat m + 1)%Z with (Z.of_nat (S m)) by lia.
    destruct (np_getitem_step N T D x (S m) Hx Hm) as (E1 & S1 & V1).
    rewrite E1. cbn [res_bind].
    destruct (np_getitem_step N T H hm m Shm) as (E2 & S2 & V2); [lia|].
    rewrite E2. cbn [res_bind].
    destruct (np_getitem_step N T H cm m Scm) as (E3 & S3 & V3); [lia|].
    rewrite E3. cbn [res_bind].
    destruct (lstm_step_on_states (S m) _ _ Hm S2 S3) as (nh & nc & Est & Snh & Snc & Vst).
    { intros n k Hn Hk. rewrite V2. apply Vm; assumption || lia. }
    { intros n k Hn Hk. rewrite V3. apply Vm; assumption || lia. }
    rewrite Est.
    destruct (np_setitem_step N T H hm nh (S m) Shm Snh Hm) as (E4 & S4 & V4).
    destruct (np_setitem_step N T H cm nc (S m) Scm Snc Hm) as (E5 & S5 & V5).
    rewrite E4. cbn [res_bind]. rewrite E5. cbn [res_bind].
    eexists. eexists. split; [reflexivity|]. split; [exact S4|]. split; [exact S5|].
    intros n t k Hn Ht Hk. rewrite V4, V5 by assumption.
    destruct (Nat.eqb_spec t (S m)) as [->|Hne].
    + apply Vst; assumption.
    + apply Vm; assumption || lia.
Qed.

Lemma lstm_forward_value :
  exists h c, lstm_forward x h0 Wx Wh b = Ok (h, (x, h0, Wx, Wh, b, h, c)) /\
    shape h = [N; T; H] /\ shape c = [N; T; H] /\
    forall n t k, (n < N)%nat -> (t < T)%nat -> (k < H)%nat ->
      data h [n; t; k] = data (fst (St (S t))) [n; k] /\
      data c [n; t; k] = data (snd (St (S t))) [n; k].
Proof.
  unfold lstm_forward, shape3, shape2. rewrite Hx, Hh0. cbn [res_bind].
  destruct (np_getitem_step N T D x 0 Hx) as (E1 & S1 & V1); [lia|].
  change (Z.of_nat 0) with 0%Z in *. rewrite E1. cbn [res_bind].
  destruct (lstm_step_on_states 0 h0 (zeros [N; H])) as (nh & nc & Est & Snh & Snc & Vst);
    [lia | exact Hh0 | reflexivity | reflexivity | reflexivity |].
  change (Z.of_nat 0) with 0%Z in *. rewrite Est.
  destruct (np_setitem_step N T H (zeros [N; T; H]) nh 0 eq_refl Snh) as (E4 & S4 & V4); [lia|].
  destruct (np_setitem_step N T H (zeros [N; T; H]) nc 0 eq_refl Snc) as (E5 & S5 & V5); [lia|].
  change (Z.of_nat 0) with 0%Z in *. rewrite E4. cbn [res_bind]. rewrite E5. cbn [res_bind].
  destruct (lstm_forward_loop _ _ (T - 1) S4 S5) as (hm & cm & Em & Shm & Scm & Vm).
  - intros n k Hn Hk. rewrite V4, V5 by assumption. cbn [Nat.eqb]. apply Vst; assumption.
  - lia.
  - fold body. rewrite Em. cbn [res_bind].
    exists hm, cm. split; [reflexivity|]. split; [exact Shm|]. split; [exact Scm|].
    intros n t k Hn Ht Hk. apply Vm; assumption || lia.
Qed.

End LstmForward.

(** ** One backward step depends on the entries of its cache only *)

Lemma lstm_block_cases (H k : nat) :
  (k < 4 * H)%nat ->
  (k < H)%nat \/ (exists h, (h < H)%nat /\ k = (H + h)%nat) \/
  (exists h, (h < H)%nat /\ k = (2 * H + h)%nat) \/
  (exists h, (h < H)%nat /\ k = (3 * H + h)%nat).
Proof.
  intros Hk. destruct (Nat.lt_ge_cases k H) as [H0|H0]; [left; exact H0|right].
  destruct (Nat.lt_ge_cases k (2 * H)) as [H1|H1].
  { left. exists (k - H)%nat. split; lia. }
  right. destruct (Nat.lt_ge_cases k (3 * H)) as [H2|H2].
  { left. exists (k - 2 * H)%nat. split; lia. }
  right. exists (k - 3 * H)%nat. split; lia.
Qed.

Lemma inner_2d (n m : nat) (g : ndarray) (V : list nat -> R) :
  shape g = [n; m] ->
  inner g V = rsum n (fun i => rsum m (fun j => data g [i; j] * V [i; j])).
Proof. intros Hg. unfold inner. rewrite Hg. reflexivity. Qed.

Lemma inner_1d (n : nat) (g : ndarray) (V : list nat -> R) :
  shape g = [n] -> inner g V = rsum n (fun i => data g [i] * V [i]).
Proof. intros Hg. unfold inner. rewrite Hg. reflexivity. Qed.

Lemma inner_3d (n m p : nat) (g : ndarray) (V : list nat -> R) :
  shape g = [n; m; p] ->
  inner g V = rsum n (fun i => rsum m (fun j => rsum p (fun k => data g [i; j; k] * V [i; j; k]))).
Proof. intros Hg. unfold inner. rewrite Hg. reflexivity. Qed.

Section LstmStepExt.

Variables (N D H : nat).
Variables x ph pc Wx Wh b nh nc ph' pc' nh' nc' dnh dnc : ndarray.
Hypothesis Hx : shape x = [N; D].
Hypothesis Hph : shape ph = [N; H].
Hypothesis Hpc : shape pc = [N; H].
Hypothesis Hph' : shape ph' = [N; H].
Hypothesis Hpc' : shape pc' = [N; H].
Hypothesis HWx : shape Wx = [D; (4 * H)%nat].
Hypothesis HWh : shape Wh = [H; (4 * H)%nat].
Hypothesis Hb : shape b = [(4 * H)%nat].
Hypothesis Hnc : shape nc = [N; H].
Hypothesis Hnc' : shape nc' = [N; H].
Hypothesis Hdh : shape dnh = [N; H].
Hypothesis Hdc : shape dnc = [N; H].
Hypothesis Eph : forall n k, (n < N)%nat -> (k < H)%nat -> data ph [n; k] = data ph' [n; k].
Hypothesis Epc : forall n k, (n < N)%nat -> (k < H)%nat -> data pc [n; k] = data pc' [n; k].
Hypothesis Enc : forall n k, (n < N)%nat -> (k < H)%nat -> data nc [n; k] = data nc' [n; k].

Lemma lstm_step_backward_ext :
  exists dx dph dpc dWx dWh db dx' dph' dpc' dWx' dWh' db',
    lstm_step_backward dnh dnc (x, ph, pc, Wx, Wh, b, nh, nc) = (dx, dph, dpc, dWx, dWh, db) /\
    lstm_step_backward dnh dnc (x, ph', pc', Wx, Wh, b, nh', nc') =
      (dx', dph', dpc', dWx', dWh', db') /\
    (shape dx = [N; D] /\ shape dph = [N; H] /\ shape dpc = [N; H] /\
     shape dWx = [D; (4 * H)%nat] /\ shape dWh = [H; (4 * H)%nat] /\ shape db = [(4 * H)%nat]) /\
    forall V, inner dx V = inner dx' V /\ inner dph V = inner dph' V /\
              inner dpc V = inner dpc' V /\ inner dWx V = inner dWx' V /\
              inner dWh V = inner dWh' V /\ inner db V = inner db' V.
Proof.
  destruct (lstm_step_backward_value N D H x ph pc Wx Wh b nh nc dnh dnc
              Hx Hph Hpc HWx HWh Hb Hnc Hdh Hdc)
    as (dx & dph & dpc & dWx & dWh & db & dW & E & Hs & VW & Vdx & VdWx & Vdph & VdWh & Vdb).
  destruct (lstm_step_backward_value N D H x ph' pc' Wx Wh b nh' nc' dnh dnc
              Hx Hph' Hpc' HWx HWh Hb Hnc' Hdh Hdc)
    as (dx' & dph' & dpc' & dWx' & dWh' & db' & dW' & E' & Hs' & VW' & Vdx' & VdWx' & Vdph'
        & VdWh' & Vdb').
  exists dx, dph, dpc, dWx, dWh, db, dx', dph', dpc', dWx', dWh', db'.
  split; [exact E|]. split; [exact E'|]. split; [exact Hs|].
  destruct Hs as (S1 & S2 & S3 & S4 & S5 & S6).
  destruct Hs' as (S1' & S2' & S3' & S4' & S5' & S6').
  assert (EA : forall n q, (n < N)%nat ->
            lstm_preact D H x ph Wx Wh b n q = lstm_preact D H x ph' Wx Wh b n q).
  { intros n q Hn. apply (lstm_preact_ext N). intros j Hj. apply Eph; assumption. }
  assert (EW : forall n k, (n < N)%nat -> (k < 4 * H)%nat -> data dW [n; k] = data dW' [n; k]).
  { intros n k Hn Hk.
    destruct (lstm_block_cases H k Hk) as [Hk0|[(h & Hh & ->)|[(h & Hh & ->)|(h & Hh & ->)]]].
    - destruct (VW n k Hn Hk0) as (E0 & _). destruct (VW' n k Hn Hk0) as (E0' & _).
      cbn zeta in E0, E0'. rewrite E0, E0', !EA, Enc by assumption. reflexivity.
    - destruct (VW n h Hn Hh) as (_ & E0 & _). destruct (VW' n h Hn Hh) as (_ & E0' & _).
      cbn zeta in E0, E0'. rewrite E0, E0', !EA, Enc, Epc by assumption. reflexivity.
    - destruct (VW n h Hn Hh) as (_ & _ & E0 & _). destruct (VW' n h Hn Hh) as (_ & _ & E0' & _).
      cbn zeta in E0, E0'. rewrite E0, E0', !EA, Enc by assumption. reflexivity.
    - destruct (VW n h Hn Hh) as (_ & _ & _ & E0 & _).
      destruct (VW' n h Hn Hh) as (_ & _ & _ & E0' & _).
      cbn zeta in E0, E0'. rewrite E0, E0', !EA, Enc by assumption. reflexivity. }
  intros V.
  rewrite (inner_2d N D dx V S1), (inner_2d N D dx' V S1'),
    (inner_2d N H dph V S2), (inner_2d N H dph' V S2'),
    (inner_2d N H dpc V S3), (inner_2d N H dpc' V S3'),
    (inner_2d D (4 * H) dWx V S4), (inner_2d D (4 * H) dWx' V S4'),
    (inner_2d H (4 * H) dWh V S5), (inner_2d H (4 * H) dWh' V S5'),
    (inner_1d (4 * H) db V S6), (inner_1d (4 * H) db' V S6').
  repeat split.
  - apply rsum_ext. intros n Hn. apply rsum_ext. intros d Hd. rewrite Vdx, Vdx'. f_equal.
    apply rsum_ext. intros k Hk. rewrite EW by assumption. reflexivity.
  - apply rsum_ext. intros n Hn. apply rsum_ext. intros j Hj. rewrite Vdph, Vdph'. f_equal.
    apply rsum_ext. intros k Hk. rewrite EW by assumption. reflexivity.
  - apply rsum_ext. intros n Hn. apply rsum_ext. intros h Hh.
    destruct (VW n h Hn Hh) as (_ & _ & _ & _ & E0).
    destruct (VW' n h Hn Hh) as (_ & _ & _ & _ & E0').
    cbn zeta in E0, E0'. rewrite E0, E0', !EA, Enc by assumption. reflexivity.
  - apply rsum_ext. intros d Hd. apply rsum_ext. intros k Hk. rewrite VdWx, VdWx'. f_equal.
    apply rsum_ext. intros n Hn. rewrite EW by assumption. reflexivity.
  - apply rsum_ext. intros j Hj. apply rsum_ext. intros k Hk. rewrite VdWh, VdWh'. f_equal.
    apply rsum_ext. intros n Hn. rewrite EW, Eph by assumption. reflexivity.
  - apply rsum_ext. intros k Hk. rewrite Vdb, Vdb'. f_equal.
    apply rsum_ext. intros n Hn. rewrite EW by assumption. reflexivity.
Qed.

End LstmStepExt.

(** ** The states along a path through the inputs *)

Lemma tangent_getitem (X : R -> ndarray) (t0 : R) (X' : list nat -> R) (ixs : list index) :
  tangent X t0 X' ->
  tangent (fun s => getitem (X s) ixs) t0
    (fun idx => X' (index_source ixs (shape (X t0)) idx)).
Proof.
  intros [Hs Hd]. split.
  - intros s. unfold getitem. cbn [shape]. rewrite Hs. reflexivity.
  - intros idx.
    eapply (dlim_eq (fun s => data (X s) (index_source ixs (shape (X t0)) idx))).
    + apply Hd.
    + intros s. unfold getitem. cbn [data]. rewrite Hs. reflexivity.
    + reflexivity.
Qed.

Section LstmStatesTangent.

Variables (N D H : nat).
Variables (X H0 WX WH B : R -> ndarray) (X' H0' WX' WH' B' : list nat -> R) (t0 : R).
Hypothesis HX : tangent X t0 X'.
Hypothesis HH0 : tangent H0 t0 H0'.
Hypothesis HWX : tangent WX t0 WX'.
Hypothesis HWH : tangent WH t0 WH'.
Hypothesis HB : tangent B t0 B'.

Local Abbreviation St s := (lstm_states N D H (X s) (H0 s) (WX s) (WH s) (B s)).

Lemma lstm_states_tangent (t : nat) :
  exists PH' PC',
    tangent (fun s => fst (St s t)) t0 PH' /\
    tangent (fun s => snd (St s t)) t0 PC' /\
    (t = 0%nat -> forall idx, PC' idx = 0).
Proof.
  induction t as [|t IH].
  - exists H0', (fun _ => 0). split; [exact HH0|]. split; [exact (tangent_const (zeros [N; H]) t0)|reflexivity].
  - destruct IH as (PH' & PC' & HPH & HPC & _).
    pose proof (tangent_getitem X t0 X' [IAll; IInt (Z.of_nat t); IAll] HX) as HXt.
    set (Xt := fun s => getitem (X s) [IAll; IInt (Z.of_nat t); IAll]) in HXt.
    set (Xt' := fun idx => X' (index_source [IAll; IInt (Z.of_nat t); IAll] (shape (X t0)) idx))
      in HXt.
    pose proof (preact_path_tangent D H Xt (fun s => fst (St s t)) WX WH B Xt' PH' WX' WH' B' t0
                  HXt HPH HWX HWH HB [N; (4 * H)%nat]) as HA.
    set (Ap := preact_path D H Xt (fun s => fst (St s t)) WX WH B [N; (4 * H)%nat]) in HA.
    assert (Hc : forall idx, {l | derivable_pt_lim (fun s => data (snd (St s (S t))) idx) t0 l}).
    { intros idx. eexists.
      eapply (dlim_eq (fun s =>
        logistic (data (Ap s) [nth 0 idx 0%nat; (H + nth 1 idx 0%nat)%nat]) *
          data (snd (St s t)) [nth 0 idx 0%nat; nth 1 idx 0%nat] +
        logistic (data (Ap s) [nth 0 idx 0%nat; nth 1 idx 0%nat]) *
          tanh (data (Ap s) [nth 0 idx 0%nat; (3 * H + nth 1 idx 0%nat)%nat]))).
      - dlim.
      - intros s. reflexivity.
      - reflexivity. }
    assert (Hh : forall idx, {l | derivable_pt_lim (fun s => data (fst (St s (S t))) idx) t0 l}).
    { intros idx. eexists.
      eapply (dlim_eq (fun s =>
        logistic (data (Ap s) [nth 0 idx 0%nat; (2 * H + nth 1 idx 0%nat)%nat]) *
        tanh (logistic (data (Ap s) [nth 0 idx 0%nat; (H + nth 1 idx 0%nat)%nat]) *
                data (snd (St s t)) [nth 0 idx 0%nat; nth 1 idx 0%nat] +
              logistic (data (Ap s) [nth 0 idx 0%nat; nth 1 idx 0%nat]) *
                tanh (data (Ap s) [nth 0 idx 0%nat; (3 * H + nth 1 idx 0%nat)%nat])))).
      - dlim.
      - intros s. reflexivity.
      - reflexivity. }
    exists (fun idx => proj1_sig (Hh idx)), (fun idx => proj1_sig (Hc idx)).
    split; [|split].
    + split; [reflexivity|]. intros idx. exact (proj2_sig (Hh idx)).
    + split; [reflexivity|]. intros idx. exact (proj2_sig (Hc idx)).
    + intros E. discriminate E.
Qed.

End LstmStatesTangent.

(** ** Backpropagation through time *)

Lemma inner_zeros (sh : list nat) (V : list nat -> R) : inner (zeros sh) V = 0.
Proof.
  unfold inner, zeros. cbn [shape data].
  rewrite (sum_over_ext sh _ (fun _ => 0)); [apply sum_over_zero|]. intros; lra.
Qed.

Lemma inner_add_2d (n m : nat) (a c : ndarray) (V : list nat -> R) :
  shape a = [n; m] -> shape c = [n; m] ->
  shape (add a c) = [n; m] /\ inner (add a c) V = inner a V + inner c V.
Proof.
  intros Ha Hc. assert (Hs : shape (add a c) = [n; m]) by shape2d.
  split; [exact Hs|].
  rewrite (inner_2d n m _ V Hs), (inner_2d n m a V Ha), (inner_2d n m c V Hc).
  rewrite <- rsum_plus. apply rsum_ext. intros i Hi.
  rewrite <- rsum_plus. apply rsum_ext. intros j Hj.
  ew_simpl n m. ring.
Qed.

Lemma inner_add_1d (n : nat) (a c : ndarray) (V : list nat -> R) :
  shape a = [n] -> shape c = [n] ->
  shape (add a c) = [n] /\ inner (add a c) V = inner a V + inner c V.
Proof.
  intros Ha Hc. pose proof (add_shape_1d n a c Ha Hc) as Hs.
  split; [exact Hs|].
  rewrite (inner_1d n _ V Hs), (inner_1d n a V Ha), (inner_1d n c V Hc).
  rewrite <- rsum_plus. apply rsum_ext. intros i Hi.
  rewrite (proj2 (add_value_1d n a c i Ha Hc Hi)). ring.
Qed.

Lemma rsum_plus_2 (n m : nat) (f g : nat -> nat -> R) :
  rsum n (fun i => rsum m (fun j => f i j + g i j)) =
  rsum n (fun i => rsum m (fun j => f i j)) + rsum n (fun i => rsum m (fun j => g i j)).
Proof.
  rewrite <- rsum_plus. apply rsum_ext. intros i _. apply rsum_plus.
Qed.

Section LstmBackward.

Variables (N T D H : nat).
Variables (X H0 WX WH B : R -> ndarray) (X' H0' WX' WH' B' : list nat -> R) (t0 : R).
Hypothesis HX : tangent X t0 X'.
Hypothesis HH0 : tangent H0 t0 H0'.
Hypothesis HWX : tangent WX t0 WX'.
Hypothesis HWH : tangent WH t0 WH'.
Hypothesis HB : tangent B t0 B'.
Hypothesis Hx : shape (X t0) = [N; T; D].
Hypothesis Hh0 : shape (H0 t0) = [N; H].
Hypothesis HWx : shape (WX t0) = [D; (4 * H)%nat].
Hypothesis HWh : shape (WH t0) = [H; (4 * H)%nat].
Hypothesis Hb : shape (B t0) = [(4 * H)%nat].
Hypothesis HT : (1 <= T)%nat.
Variables dh h c : ndarray.
Hypothesis Hdh : shape dh = [N; T; H].
Hypothesis Hh : shape h = [N; T; H].
Hypothesis Hc : shape c = [N; T; H].

Local Abbreviation St s := (lstm_states N D H (X s) (H0 s) (WX s) (WH s) (B s)).

Hypothesis Vh : forall n t k, (n < N)%nat -> (t < T)%nat -> (k < H)%nat ->
  data h [n; t; k] = data (fst (St t0 (S t))) [n; k].
Hypothesis Vc : forall n t k, (n < N)%nat -> (t < T)%nat -> (k < H)%nat ->
  data c [n; t; k] = data (snd (St t0 (S t))) [n; k].

(** The part of the loss [np.sum(dh * h)] that comes from the steps before
    [t], along the path. *)
Definition lstm_partial (t : nat) (s : R) : R :=
  rsum t (fun u => rsum N (fun n => rsum H (fun k =>
    data dh [n; u; k] * data (fst (St s (S u))) [n; k]))).

(** That part, with the states before step [t] weighted by the gradients
    [gh] and [gc] that flow into them from the later steps. *)
Definition lstm_rest (t : nat) (gh gc : ndarray) (s : R) : R :=
  lstm_partial t s +
  rsum N (fun n => rsum H (fun k =>
    data gh [n; k] * data (fst (St s t)) [n; k] +
    data gc [n; k] * data (snd (St s t)) [n; k])).

(** The pairing of the gradients accumulated after [m] iterations with the
    tangent of the path. *)
Definition lstm_paired (m : nat) (dx dWx dWh db : ndarray) : R :=
  rsum m (fun i => rsum N (fun n => rsum D (fun d =>
    data dx [n; (T - 1 - i)%nat; d] * X' [n; (T - 1 - i)%nat; d]))) +
  inner dWx WX' + inner dWh WH' + inner db B'.

Lemma lstm_partial_derivable (t : nat) : exists a', derivable_pt_lim (lstm_partial t) t0 a'.
Proof.
  induction t as [|t [a' IH]].
  - exists 0. unfold lstm_partial. cbn [rsum]. apply derivable_pt_lim_const.
  - destruct (lstm_states_tangent N D H X H0 WX WH B X' H0' WX' WH' B' t0
                HX HH0 HWX HWH HB (S t)) as (PH' & _ & HPH & _).
    eexists. unfold lstm_partial. cbn [rsum].
    lazymatch goal with
    | |- derivable_pt_lim (fun s => @?f s + @?g s) _ _ => eapply (dlim_plus f g)
    end.
    + exact IH.
    + dlim.
Qed.

Let body := fun (i : nat) (acc : lstm_loop_state) =>
  let '(dx, dh0, dnext_c, dWx, dWh, db) := acc in
  let t := (Z.of_nat T - Z.of_nat i - 1)%Z in
  let* step :=
    if (Z.of_nat i =? Z.of_nat T - 1)%Z then
      let* dht := np_getitem dh [IAll; IInt t; IAll] in
      let* xt := np_getitem (X t0) [IAll; IInt t; IAll] in
      let* ht := np_getitem h [IAll; IInt t; IAll] in
      let* ct := np_getitem c [IAll; IInt t; IAll] in
      let '(dxt, dh0, _, dWx_, dWh_, db_) :=
        lstm_step_backward (add dht dh0) dnext_c
          (xt, H0 t0, zeros_like (H0 t0), WX t0, WH t0, B t0, ht, ct) in
      Ok (dxt, dh0, dnext_c, dWx_, dWh_, db_)
    else if (Z.of_nat i =? 0)%Z then
      let* dht := np_getitem dh [IAll; IInt t; IAll] in
      let* xt := np_getitem (X t0) [IAll; IInt t; IAll] in
      let* hp := np_getitem h [IAll; IInt (t - 1)] in
      let* cp := np_getitem c [IAll; IInt (t - 1); IAll] in
      let* ht := np_getitem h [IAll; IInt t; IAll] in
      let* ct := np_getitem c [IAll; IInt t; IAll] in
      Ok (lstm_step_backward dht dnext_c (xt, hp, cp, WX t0, WH t0, B t0, ht, ct))
    else
      let* dht := np_getitem dh [IAll; IInt t; IAll] in
      let* xt := np_getitem (X t0) [IAll; IInt t; IAll] in
      let* hp := np_getitem h [IAll; IInt (t - 1)] in
      let* cp := np_getitem c [IAll; IInt (t - 1); IAll] in
      let* ht := np_getitem h [IAll; IInt t; IAll] in
      let* ct := np_getitem c [IAll; IInt t; IAll] in
      Ok (lstm_step_backward (add dht dh0) dnext_c
            (xt, hp, cp, WX t0, WH t0, B t0, ht, ct)) in
  let '(dxt, dh0, dnext_c, dWx_, dWh_, db_) := step in
  let* dx := np_setitem dx [IAll; IInt t; IAll] dxt in
  Ok (dx, dh0, dnext_c, add dWx dWx_, add dWh dWh_, add db db_).

Lemma lstm_backward_body_value (m : nat) (dx dh0c dnc dWx dWh db : ndarray) :
  (m < T)%nat -> shape dh0c = [N; H] ->
  (m = 0%nat -> forall n k, data dh0c [n; k] = 0) ->
  exists g hp cp,
    shape g = [N; H] /\ shape hp = [N; H] /\ shape cp = [N; H] /\
    (forall n k, (n < N)%nat -> (k < H)%nat ->
       data g [n; k] = data dh [n; (T - 1 - m)%nat; k] + data dh0c [n; k]) /\
    (forall n k, (n < N)%nat -> (k < H)%nat ->
       data hp [n; k] = data (fst (St t0 (T - 1 - m))) [n; k]) /\
    (forall n k, (n < N)%nat -> (k < H)%nat ->
       data cp [n; k] = data (snd (St t0 (T - 1 - m))) [n; k]) /\
    body m (dx, dh0c, dnc, dWx, dWh, db) =
      let '(dxt, dph, dpc, dWx_, dWh_, db_) :=
        lstm_step_backward g dnc
          (getitem (X t0) [IAll; IInt (Z.of_nat (T - 1 - m)); IAll], hp, cp,
           WX t0, WH t0, B t0,
           getitem h [IAll; IInt (Z.of_nat (T - 1 - m)); IAll],
           getitem c [IAll; IInt (Z.of_nat (T - 1 - m)); IAll]) in
      let* dx := np_setitem dx [IAll; IInt (Z.of_nat (T - 1 - m)); IAll] dxt in
      Ok (dx, dph, if (m =? T - 1)%nat then dnc else dpc,
          add dWx dWx_, add dWh dWh_, add db db_).
Proof.
  intros Hm Hs0 Hz. unfold body.
  replace (Z.of_nat T - Z.of_nat m - 1)%Z with (Z.of_nat (T - 1 - m)) by lia.
  assert (Ht : (T - 1 - m < T)%nat) by lia.
  destruct (np_getitem_step N T H dh _ Hdh Ht) as (E1 & S1 & V1).
  destruct (np_getitem_step N T D (X t0) _ Hx Ht) as (E2 & S2 & V2).
  destruct (np_getitem_step N T H h _ Hh Ht) as (E3 & S3 & V3).
  destruct (np_getitem_step N T H c _ Hc Ht) as (E4 & S4 & V4).
  rewrite E1, E2, E3, E4. cbn [res_bind].
  destruct (Z.eqb_spec (Z.of_nat m) (Z.of_nat T - 1)) as [Elast|Hnl].
  - exists (add (getitem dh [IAll; IInt (Z.of_nat (T - 1 - m)); IAll]) dh0c),
           (H0 t0), (zeros_like (H0 t0)).
    split; [shape2d|]. split; [exact Hh0|]. split; [exact Hh0|].
    split; [|split; [|split]].
    + intros n k Hn Hk. ew_simpl N H. rewrite V1. reflexivity.
    + intros n k Hn Hk. replace (T - 1 - m)%nat with 0%nat by lia. reflexivity.
    + intros n k Hn Hk. replace (T - 1 - m)%nat with 0%nat by lia. reflexivity.
    + rewrite (proj2 (Nat.eqb_eq m (T - 1))) by lia.
      destruct (lstm_step_backward _ _ _) as [[[[[a1 a2] a3] a4] a5] a6]. reflexivity.
  - assert (Hp : (T - 1 - m - 1 < T)%nat) by lia.
    destruct (np_getitem_step_short N T H h _ Hh Hp) as (E5 & S5 & V5).
    destruct (np_getitem_step N T H c _ Hc Hp) as (E6 & S6 & V6).
    replace (Z.of_nat (T - 1 - m) - 1)%Z with (Z.of_nat (T - 1 - m - 1)) by lia.
    rewrite E5, E6. cbn [res_bind].
    rewrite (proj2 (Nat.eqb_neq m (T - 1))) by lia.
    assert (Vp : forall n k, (n < N)%nat -> (k < H)%nat ->
              data (getitem h [IAll; IInt (Z.of_nat (T - 1 - m - 1))]) [n; k] =
              data (fst (St t0 (T - 1 - m))) [n; k]).
    { intros n k Hn Hk. rewrite V5, Vh by lia. f_equal. f_equal. f_equal. lia. }
    assert (Vq : forall n k, (n < N)%nat -> (k < H)%nat ->
              data (getitem c [IAll; IInt (Z.of_nat (T - 1 - m - 1)); IAll]) [n; k] =
              data (snd (St t0 (T - 1 - m))) [n; k]).
    { intros n k Hn Hk. rewrite V6, Vc by lia. f_equal. f_equal. f_equal. lia. }
    destruct (Z.eqb_spec (Z.of_nat m) 0) as [Efirst|Hnf].
    + exists (getitem dh [IAll; IInt (Z.of_nat (T - 1 - m)); IAll]),
             (getitem h [IAll; IInt (Z.of_nat (T - 1 - m - 1))]),
             (getitem c [IAll; IInt (Z.of_nat (T - 1 - m - 1)); IAll]).
      split; [exact S1|]. split; [exact S5|]. split; [exact S6|].
      split; [|split; [|split]].
      * intros n k Hn Hk. rewrite V1, Hz by lia. lra.
      * exact Vp.
      * exact Vq.
      * destruct (lstm_step_backward _ _ _) as [[[[[a1 a2] a3] a4] a5] a6]. reflexivity.
    + exists (add (getitem dh [IAll; IInt (Z.of_nat (T - 1 - m)); IAll]) dh0c),
             (getitem h [IAll; IInt (Z.of_nat (T - 1 - m - 1))]),
             (getitem c [IAll; IInt (Z.of_nat (T - 1 - m - 1)); IAll]).
      split; [shape2d|]. split; [exact S5|]. split; [exact S6|].
      split; [|split; [|split]].
      * intros n k Hn Hk. ew_simpl N H. rewrite V1. reflexivity.
      * exact Vp.
      * exact Vq.
      * destruct (lstm_step_backward _ _ _) as [[[[[a1 a2] a3] a4] a5] a6]. reflexivity.
Qed.

Lemma lstm_rest_dlim (t : nat) (gh gc : ndarray) (a' : R) (PH' PC' : list nat -> R) :
  derivable_pt_lim (lstm_partial t) t0 a' ->
  tangent (fun s => fst (St s t)) t0 PH' ->
  tangent (fun s => snd (St s t)) t0 PC' ->
  derivable_pt_lim (lstm_rest t gh gc) t0
    (a' + (rsum N (fun n => rsum H (fun k => data gh [n; k] * PH' [n; k])) +
           rsum N (fun n => rsum H (fun k => data gc [n; k] * PC' [n; k])))).
Proof.
  intros Ha HPH HPC.
  eapply (dlim_eq (fun s => lstm_partial t s +
            rsum N (fun n => rsum H (fun k =>
              data gh [n; k] * data (fst (St s t)) [n; k] +
              data gc [n; k] * data (snd (St s t)) [n; k])))).
  - lazymatch goal with
    | |- derivable_pt_lim (fun s => @?f s + @?g s) _ _ => eapply (dlim_plus f g)
    end.
    + exact Ha.
    + dlim.
  - intros s. reflexivity.
  - f_equal. rewrite <- rsum_plus_2.
    apply rsum_ext. intros n _. apply rsum_ext. intros k _. ring.
Qed.

Lemma lstm_backward_loop (m : nat) :
  (m <= T)%nat ->
  exists dx dh0c dnc dWx dWh db,
    for_range_res m body
      (zeros_like (X t0), zeros_like (H0 t0), zeros_like (H0 t0),
       zeros_like (WX t0), zeros_like (WH t0), zeros_like (B t0)) =
      Ok (dx, dh0c, dnc, dWx, dWh, db) /\
    (shape dx = [N; T; D] /\ shape dh0c = [N; H] /\ shape dnc = [N; H] /\
     shape dWx = [D; (4 * H)%nat] /\ shape dWh = [H; (4 * H)%nat] /\
     shape db = [(4 * H)%nat]) /\
    (m = 0%nat -> forall n k, data dh0c [n; k] = 0) /\
    forall l, derivable_pt_lim (lstm_rest (T - m) dh0c dnc) t0 l ->
      derivable_pt_lim (lstm_partial T) t0 (l + lstm_paired m dx dWx dWh db).
Proof.
  induction m as [|m IH]; intros Hm.
  - eexists. eexists. eexists. eexists. eexists. eexists. split; [reflexivity|].
    unfold zeros_like. cbn [shape zeros]. rewrite Hx, Hh0, HWx, HWh, Hb.
    split; [repeat split|]. split; [reflexivity|].
    intros l Hl. rewrite Nat.sub_0_r in Hl.
    eapply dlim_eq; [exact Hl| |].
    + intros s. unfold lstm_rest.
      rewrite (rsum_zero_ext N (fun n => rsum H (fun k =>
                 data (zeros [N; H]) [n; k] * data (fst (St s T)) [n; k] +
                 data (zeros [N; H]) [n; k] * data (snd (St s T)) [n; k]))).
      * lra.
      * intros n _. apply rsum_zero_ext. intros k _. cbn [zeros data]. lra.
    + unfold lstm_paired. cbn [rsum]. rewrite !inner_zeros. lra.
  - destruct IH as (dx & dh0c & dnc & dWx & dWh & db & Em &
                    (Sdx & Sd0 & Sdc & SdWx & SdWh & Sdb) & Hz & Inv); [lia|].
    cbn [for_range_res]. rewrite Em. cbn [res_bind].
    destruct (lstm_backward_body_value m dx dh0c dnc dWx dWh db)
      as (g & hp & cp & Sg & Shp & Scp & Vg & Vhp & Vcp & Eb); [lia | exact Sd0 | exact Hz |].
    rewrite Eb. clear Eb.
    assert (Ht : (T - 1 - m < T)%nat) by lia.
    replace (T - m)%nat with (S (T - 1 - m)) in Inv by lia.
    replace (T - S m)%nat with (T - 1 - m)%nat by lia.
    set (u := (T - 1 - m)%nat) in *.
    destruct (np_getitem_step N T D (X t0) u Hx Ht) as (_ & S2 & V2).
    destruct (np_getitem_step N T H h u Hh Ht) as (_ & S3 & V3).
    destruct (np_getitem_step N T H c u Hc Ht) as (_ & S4 & V4).
    destruct (lstm_states_shape N D H (X t0) (H0 t0) (WX t0) (WH t0) (B t0) u Hh0)
      as [SPH SPC].
    destruct (lstm_step_on_states N T D H (X t0) (H0 t0) (WX t0) (WH t0) (B t0)
                Hx HWx HWh Hb u (fst (St t0 u)) (snd (St t0 u)) Ht SPH SPC
                (fun _ _ _ _ => eq_refl) (fun _ _ _ _ => eq_refl))
      as (nh & nc & Efw & Snh & Snc & Vst).
    assert (Enc : forall n k, (n < N)%nat -> (k < H)%nat ->
              data (getitem c [IAll; IInt (Z.of_nat u); IAll]) [n; k] = data nc [n; k]).
    { intros n k Hn Hk. rewrite V4, Vc by assumption.
      symmetry. apply (Vst n k Hn Hk). }
    destruct (lstm_step_backward_ext N D H
                (getitem (X t0) [IAll; IInt (Z.of_nat u); IAll]) hp cp (WX t0) (WH t0) (B t0)
                (getitem h [IAll; IInt (Z.of_nat u); IAll])
                (getitem c [IAll; IInt (Z.of_nat u); IAll])
                (fst (St t0 u)) (snd (St t0 u)) nh nc g dnc
                S2 Shp Scp SPH SPC HWx HWh Hb S4 Snc Sg Sdc Vhp Vcp Enc)
      as (dxt & dph & dpc & dWx_ & dWh_ & db_ & dx' & dph' & dpc' & dWx' & dWh' & db' &
          Ebw & Ebw' & (Sxt & Sph & Spc & SWx_ & SWh_ & Sb_) & Ein).
    rewrite Ebw.
    destruct (np_setitem_step N T D dx dxt u Sdx Sxt Ht) as (E5 & S5 & V5).
    rewrite E5. cbn [res_bind].
    eexists. eexists. eexists. eexists. eexists. eexists. split; [reflexivity|].
    split; [|split; [intros; lia|]].
    { repeat split; [exact S5 | exact Sph | destruct (m =? T - 1)%nat; assumption
                    | shape2d | shape2d | apply add_shape_1d; assumption]. }
    destruct (lstm_states_tangent N D H X H0 WX WH B X' H0' WX' WH' B' t0
                HX HH0 HWX HWH HB u) as (PH' & PC' & HPH & HPC & HPC0).
    pose proof (tangent_getitem X t0 X' [IAll; IInt (Z.of_nat u); IAll] HX) as HXu.
    destruct (lstm_partial_derivable u) as [a' Ha].
    pose proof (lstm_step_loss_dlim N D H
                  (fun s => getitem (X s) [IAll; IInt (Z.of_nat u); IAll])
                  (fun s => fst (St s u)) (fun s => snd (St s u)) WX WH B
                  _ PH' PC' WX' WH' B' t0 HXu HPH HPC HWX HWH HB
                  S2 SPH SPC HWx HWh Hb g dnc Sg Sdc
                  dx' dph' dpc' dWx' dWh' db' nh nc _ Efw Ebw') as Hstep.
    cbn beta in Hstep.
    (* the gradients of the step are those of the source's cache *)
    destruct (Ein (fun idx => X' (index_source [IAll; IInt (Z.of_nat u); IAll]
                                    (shape (X t0)) idx))) as (I1 & _).
    destruct (Ein PH') as (_ & I2 & _).
    destruct (Ein PC') as (_ & _ & I3 & _).
    destruct (Ein WX') as (_ & _ & _ & I4 & _).
    destruct (Ein WH') as (_ & _ & _ & _ & I5 & _).
    destruct (Ein B') as (_ & _ & _ & _ & _ & I6).
    rewrite <- I1, <- I2, <- I3, <- I4, <- I5, <- I6 in Hstep.
    clear I1 I2 I3 I4 I5 I6 Ein Ebw'.
    assert (Hrest : derivable_pt_lim (lstm_rest (S u) dh0c dnc) t0
              (a' + (inner dxt (fun idx => X' (index_source [IAll; IInt (Z.of_nat u); IAll]
                                                 (shape (X t0)) idx)) +
                     inner dph PH' + inner dpc PC' +
                     inner dWx_ WX' + inner dWh_ WH' + inner db_ B'))).
    { eapply (dlim_eq (fun s => lstm_partial u s +
                lstm_step_loss g dnc
                  (lstm_step_forward (getitem (X s) [IAll; IInt (Z.of_nat u); IAll])
                     (fst (St s u)) (snd (St s u)) (WX s) (WH s) (B s)))).
      - lazymatch goal with
        | |- derivable_pt_lim (fun s => @?f s + @?g s) _ _ => eapply (dlim_plus f g)
        end; [exact Ha | exact Hstep].
      - intros s.
        rewrite (lstm_step_loss_value N D H g dnc Sg Sdc).
        + unfold lstm_rest, lstm_partial. cbn [rsum]. rewrite Rplus_assoc. f_equal.
          rewrite <- rsum_plus. apply rsum_ext. intros n Hn.
          rewrite <- rsum_plus. apply rsum_ext. intros k Hk.
          rewrite Vg by assumption.
          cbn [lstm_states fst snd data nth]. unfold lstm_hidden_value, lstm_cell_value. ring.
        + rewrite (proj1 HXu s). exact S2.
        + rewrite (proj1 HPH s). exact SPH.
        + rewrite (proj1 HPC s). exact SPC.
        + rewrite (proj1 HWX s). exact HWx.
        + rewrite (proj1 HWH s). exact HWh.
        + rewrite (proj1 HB s). exact Hb.
      - reflexivity. }
    specialize (Inv _ Hrest).
    intros l Hl.
    pose proof (lstm_rest_dlim u dph (if (m =? T - 1)%nat then dnc else dpc) a' PH' PC'
                  Ha HPH HPC) as Hr.
    rewrite (uniqueness_limite _ _ _ _ Hl Hr).
    eapply dlim_eq; [exact Inv | intros; reflexivity |].
    assert (Epc : rsum N (fun n => rsum H (fun k =>
                    data (if (m =? T - 1)%nat then dnc else dpc) [n; k] * PC' [n; k])) =
                  inner dpc PC').
    { rewrite (inner_2d N H dpc PC' Spc).
      destruct (Nat.eqb_spec m (T - 1)) as [El|_]; [|reflexivity].
      assert (u = 0%nat) as Eu by (unfold u; lia).
      rewrite !rsum_zero_ext; [reflexivity| |];
        intros n _; apply rsum_zero_ext; intros k _; rewrite (HPC0 Eu); lra. }
    rewrite Epc. rewrite <- (inner_2d N H dph PH' Sph).
    unfold lstm_paired. cbn [rsum]. fold u.
    rewrite (proj2 (inner_add_2d D (4 * H) dWx dWx_ WX' SdWx SWx_)),
      (proj2 (inner_add_2d H (4 * H) dWh dWh_ WH' SdWh SWh_)),
      (proj2 (inner_add_1d (4 * H) db db_ B' Sdb Sb_)).
    rewrite (inner_2d N D dxt _ Sxt).
    rewrite (rsum_ext m (fun i => rsum N (fun n => rsum D (fun d =>
               data (setitem dx [IAll; IInt (Z.of_nat u); IAll] dxt) [n; (T - 1 - i)%nat; d] *
               X' [n; (T - 1 - i)%nat; d])))
               (fun i => rsum N (fun n => rsum D (fun d =>
               data dx [n; (T - 1 - i)%nat; d] * X' [n; (T - 1 - i)%nat; d])))).
    2:{ intros i Hi. apply rsum_ext. intros n Hn. apply rsum_ext. intros d Hd.
        rewrite V5 by assumption.
        destruct (Nat.eqb_spec (T - 1 - i) u); [unfold u in *; lia|reflexivity]. }
    rewrite (rsum_ext N (fun n => rsum D (fun d =>
               data (setitem dx [IAll; IInt (Z.of_nat u); IAll] dxt) [n; u; d] * X' [n; u; d]))
               (fun n => rsum D (fun d => data dxt [n; d] *
                  X' (index_source [IAll; IInt (Z.of_nat u); IAll] (shape (X t0)) [n; d])))).
    2:{ intros n Hn. apply rsum_ext. intros d Hd. rewrite V5 by assumption.
        rewrite Nat.eqb_refl, Hx. cbn [index_source hd tl]. rewrite wrap_of_nat. reflexivity. }
    lra.
Qed.

Lemma lstm_backward_value :
  exists dx dh0' dWx dWh db,
    lstm_backward dh (X t0, H0 t0, WX t0, WH t0, B t0, h, c) = Ok (dx, dh0', dWx, dWh, db) /\
    (shape dx = [N; T; D] /\ shape dh0' = [N; H] /\ shape dWx = [D; (4 * H)%nat] /\
     shape dWh = [H; (4 * H)%nat] /\ shape db = [(4 * H)%nat]) /\
    derivable_pt_lim (lstm_partial T) t0
      (inner dx X' + inner dh0' H0' + inner dWx WX' + inner dWh WH' + inner db B').
Proof.
  destruct (lstm_backward_loop T (le_n T))
    as (dx & dh0c & dnc & dWx & dWh & db & Em & Hs & _ & Inv).
  exists dx, dh0c, dWx, dWh, db. split; [|split].
  - transitivity
      (let* final :=
         for_range_res T body
           (zeros_like (X t0), zeros_like (H0 t0), zeros_like (H0 t0),
            zeros_like (WX t0), zeros_like (WH t0), zeros_like (B t0)) in
       let '(dx, dh0, _, dWx, dWh, db) := final in
       Ok (dx, dh0, dWx, dWh, db)).
    + unfold lstm_backward, shape3. rewrite Hdh. reflexivity.
    + rewrite Em. reflexivity.
  - destruct Hs as (Sdx & Sd0 & _ & SdWx & SdWh & Sdb). repeat split; assumption.
  - destruct Hs as (Sdx & Sd0 & Sdc & SdWx & SdWh & Sdb).
    rewrite Nat.sub_diag in Inv.
    pose proof (lstm_rest_dlim 0 dh0c dnc 0 H0' (fun _ => 0)
                  (derivable_pt_lim_const 0 t0) HH0 (tangent_const (zeros [N; H]) t0)) as Hr.
    eapply dlim_eq; [exact (Inv _ Hr) | intros; reflexivity |].
    unfold lstm_paired.
    rewrite (rsum_rev T (fun t => rsum N (fun n => rsum D (fun d =>
               data dx [n; t; d] * X' [n; t; d])))).
    rewrite (inner_3d N T D dx X' Sdx), (inner_2d N H dh0c H0' Sd0).
    rewrite (rsum_swap N T (fun n t => rsum D (fun d => data dx [n; t; d] * X' [n; t; d]))).
    rewrite (rsum_zero_ext N (fun n => rsum H (fun k => data dnc [n; k] * 0))).
    + lra.
    + intros n _. apply rsum_zero_ext. intros k _. lra.
Qed.

End LstmBackward.

(** ** The derivative of the loss along a path through the inputs *)

Section LstmSequenceDerivative.

Variables (N T D H : nat).
Variables (X H0 WX WH B : R -> ndarray) (X' H0' WX' WH' B' : list nat -> R) (t0 : R).
Hypothesis HX : tangent X t0 X'.
Hypothesis HH0 : tangent H0 t0 H0'.
Hypothesis HWX : tangent WX t0 WX'.
Hypothesis HWH : tangent WH t0 WH'.
Hypothesis HB : tangent B t0 B'.
Hypothesis Hx : shape (X t0) = [N; T; D].
Hypothesis Hh0 : shape (H0 t0) = [N; H].
Hypothesis HWx : shape (WX t0) = [D; (4 * H)%nat].
Hypothesis HWh : shape (WH t0) = [H; (4 * H)%nat].
Hypothesis Hb : shape (B t0) = [(4 * H)%nat].
Hypothesis HT : (1 <= T)%nat.
Variable dh : ndarray.
Hypothesis Hdh : shape dh = [N; T; H].

Lemma lstm_loss_value (x h0 Wx Wh b : ndarray) :
  shape x = [N; T; D] -> shape h0 = [N; H] -> shape Wx = [D; (4 * H)%nat] ->
  shape Wh = [H; (4 * H)%nat] -> shape b = [(4 * H)%nat] ->
  lstm_loss dh (lstm_forward x h0 Wx Wh b) =
  rsum N (fun n => rsum T (fun t => rsum H (fun k =>
    data dh [n; t; k] * data (fst (lstm_states N D H x h0 Wx Wh b (S t))) [n; k]))).
Proof.
  intros Sx Sh0 SWx SWh Sb.
  destruct (lstm_forward_value N T D H x h0 Wx Wh b Sx Sh0 SWx SWh Sb HT)
    as (h & c & -> & Sh & Sc & Vhc).
  unfold lstm_loss, upstream_loss, sum, mul, map2. cbn [shape data]. rewrite Hdh, Sh.
  np_unfold. rewrite !bdim_diag. cbn [sum_over].
  apply rsum_ext. intros n Hn. apply rsum_ext. intros t Ht. apply rsum_ext. intros k Hk.
  bidx_simpl. rewrite (proj1 (Vhc n t k Hn Ht Hk)). reflexivity.
Qed.

Lemma lstm_loss_dlim (h dx dh0' dWx dWh db : ndarray) (cache : lstm_cache) :
  lstm_forward (X t0) (H0 t0) (WX t0) (WH t0) (B t0) = Ok (h, cache) ->
  lstm_backward dh cache = Ok (dx, dh0', dWx, dWh, db) ->
  derivable_pt_lim
    (fun s => lstm_loss dh (lstm_forward (X s) (H0 s) (WX s) (WH s) (B s))) t0
    (inner dx X' + inner dh0' H0' + inner dWx WX' + inner dWh WH' + inner db B').
Proof.
  intros Hfw Hbw.
  destruct (lstm_forward_value N T D H _ _ _ _ _ Hx Hh0 HWx HWh Hb HT)
    as (h1 & c1 & Efw & Sh & Sc & Vhc).
  rewrite Efw in Hfw. injection Hfw as <- <-.
  destruct (lstm_backward_value N T D H X H0 WX WH B X' H0' WX' WH' B' t0
              HX HH0 HWX HWH HB Hx Hh0 HWx HWh Hb HT dh h1 c1 Hdh Sh Sc
              (fun n t k Hn Ht Hk => proj1 (Vhc n t k Hn Ht Hk))
              (fun n t k Hn Ht Hk => proj2 (Vhc n t k Hn Ht Hk)))
    as (dx1 & dh1 & dWx1 & dWh1 & db1 & Ebw & _ & Hd).
  rewrite Ebw in Hbw. injection Hbw as <- <- <- <- <-.
  eapply dlim_eq; [exact Hd| |reflexivity].
  intros s. rewrite lstm_loss_value.
  - unfold lstm_partial.
    apply (rsum_swap N T (fun n t => rsum H (fun k =>
             data dh [n; t; k] *
             data (fst (lstm_states N D H (X s) (H0 s) (WX s) (WH s) (B s) (S t))) [n; k]))).
  - rewrite (proj1 HX). exact Hx.
  - rewrite (proj1 HH0). exact Hh0.
  - rewrite (proj1 HWX). exact HWx.
  - rewrite (proj1 HWH). exact HWh.
  - rewrite (proj1 HB). exact Hb.
Qed.

End LstmSequenceDerivative.

Section LstmSequenceGradients.

Variables (N T D H : nat).
Variables x h0 Wx Wh b dh : ndarray.
Hypothesis Hx : shape x = [N; T; D].
Hypothesis Hh0 : shape h0 = [N; H].
Hypothesis HWx : shape Wx = [D; (4 * H)%nat].
Hypothesis HWh : shape Wh = [H; (4 * H)%nat].
Hypothesis Hb : shape b = [(4 * H)%nat].
Hypothesis HT : (1 <= T)%nat.
Hypothesis Hdh : shape dh = [N; T; H].
Variables h dx dh0' dWx dWh db : ndarray.
Variable cache : lstm_cache.
Hypothesis Hfw : lstm_forward x h0 Wx Wh b = Ok (h, cache).
Hypothesis Hbw : lstm_backward dh cache = Ok (dx, dh0', dWx, dWh, db).

Lemma lstm_backward_shapes :
  shape dx = shape x /\ shape dh0' = shape h0 /\ shape dWx = shape Wx /\
  shape dWh = shape Wh /\ shape db = shape b.
Proof.
  destruct (lstm_forward_value N T D H _ _ _ _ _ Hx Hh0 HWx HWh Hb HT)
    as (h1 & c1 & Efw & Sh & Sc & Vhc).
  rewrite Efw in Hfw. injection Hfw as <- <-.
  destruct (lstm_backward_value N T D H
              (fun _ => x) (fun _ => h0) (fun _ => Wx) (fun _ => Wh) (fun _ => b)
              (fun _ => 0) (fun _ => 0) (fun _ => 0) (fun _ => 0) (fun _ => 0) 0
              (tangent_const x 0) (tangent_const h0 0) (tangent_const Wx 0)
              (tangent_const Wh 0) (tangent_const b 0)
              Hx Hh0 HWx HWh Hb HT dh h1 c1 Hdh Sh Sc
              (fun n t k Hn Ht Hk => proj1 (Vhc n t k Hn Ht Hk))
              (fun n t k Hn Ht Hk => proj2 (Vhc n t k Hn Ht Hk)))
    as (dx1 & dh1 & dWx1 & dWh1 & db1 & Ebw & Hs & _).
  cbn beta in Ebw. rewrite Ebw in Hbw. injection Hbw as <- <- <- <- <-.
  rewrite Hx, Hh0, HWx, HWh, Hb. exact Hs.
Qed.

Let loss := lstm_loss dh.

Ltac lstm_seq_partial X H0 WX WH B X' H0' WX' WH' B' t0 :=
  eapply dlim_eq; [ | intros; unfold loss; reflexivity | ];
  [ eapply (lstm_loss_dlim N T D H X H0 WX WH B X' H0' WX' WH' B' t0);
    lazymatch goal with
    | |- tangent (set_entry _ _) _ _ => apply tangent_set_entry
    | |- tangent _ _ _ => apply tangent_const
    | |- shape _ = _ => cbn [shape set_entry]; assumption
    | |- (_ <= _)%nat => exact HT
    | |- lstm_forward _ _ _ _ _ = _ => cbn beta; rewrite ?set_entry_same; exact Hfw
    | |- lstm_backward _ _ = _ => exact Hbw
    end
  | rewrite !inner_zero, inner_indicator; [lra|] ].

Lemma lstm_seq_gradient_x : gradient_at (fun x' => loss (lstm_forward x' h0 Wx Wh b)) x dx.
Proof.
  destruct lstm_backward_shapes as (S1 & S2 & S3 & S4 & S5).
  split; [exact S1|]. intros idx Hidx.
  lstm_seq_partial (set_entry x idx) (fun _ : R => h0) (fun _ : R => Wx) (fun _ : R => Wh)
    (fun _ : R => b) (indicator idx) (fun _ : list nat => 0) (fun _ : list nat => 0)
    (fun _ : list nat => 0) (fun _ : list nat => 0) (data x idx).
  rewrite S1. exact Hidx.
Qed.

Lemma lstm_seq_gradient_h0 : gradient_at (fun h' => loss (lstm_forward x h' Wx Wh b)) h0 dh0'.
Proof.
  destruct lstm_backward_shapes as (S1 & S2 & S3 & S4 & S5).
  split; [exact S2|]. intros idx Hidx.
  lstm_seq_partial (fun _ : R => x) (set_entry h0 idx) (fun _ : R => Wx) (fun _ : R => Wh)
    (fun _ : R => b) (fun _ : list nat => 0) (indicator idx) (fun _ : list nat => 0)
    (fun _ : list nat => 0) (fun _ : list nat => 0) (data h0 idx).
  rewrite S2. exact Hidx.
Qed.

Lemma lstm_seq_gradient_Wx : gradient_at (fun W' => loss (lstm_forward x h0 W' Wh b)) Wx dWx.
Proof.
  destruct lstm_backward_shapes as (S1 & S2 & S3 & S4 & S5).
  split; [exact S3|]. intros idx Hidx.
  lstm_seq_partial (fun _ : R => x) (fun _ : R => h0) (set_entry Wx idx) (fun _ : R => Wh)
    (fun _ : R => b) (fun _ : list nat => 0) (fun _ : list nat => 0) (indicator idx)
    (fun _ : list nat => 0) (fun _ : list nat => 0) (data Wx idx).
  rewrite S3. exact Hidx.
Qed.

Lemma lstm_seq_gradient_Wh : gradient_at (fun W' => loss (lstm_forward x h0 Wx W' b)) Wh dWh.
Proof.
  destruct lstm_backward_shapes as (S1 & S2 & S3 & S4 & S5).
  split; [exact S4|]. intros idx Hidx.
  lstm_seq_partial (fun _ : R => x) (fun _ : R => h0) (fun _ : R => Wx) (set_entry Wh idx)
    (fun _ : R => b) (fun _ : list nat => 0) (fun _ : list nat => 0) (fun _ : list nat => 0)
    (indicator idx) (fun _ : list nat => 0) (data Wh idx).
  rewrite S4. exact Hidx.
Qed.

Lemma lstm_seq_gradient_b : gradient_at (fun b' => loss (lstm_forward x h0 Wx Wh b')) b db.
Proof.
  destruct lstm_backward_shapes as (S1 & S2 & S3 & S4 & S5).
  split; [exact S5|]. intros idx Hidx.
  lstm_seq_partial (fun _ : R => x) (fun _ : R => h0) (fun _ : R => Wx) (fun _ : R => Wh)
    (set_entry b idx) (fun _ : list nat => 0) (fun _ : list nat => 0) (fun _ : list nat => 0)
    (fun _ : list nat => 0) (indicator idx) (data b idx).
  rewrite S5. exact Hidx.
Qed.

End LstmSequenceGradients.

(** X21: for [x] of shape [(N, T, D)] with [T >= 1], [h0] of shape [(N, H)],
    [Wx] of shape [(D, 4H)], [Wh] of shape [(H, 4H)] and [b] of shape
    [(4H,)], [lstm_forward] returns [h] of shape [(N, T, H)] and keeps the
    cell states [c] of the same shape in its cache; the first step starts
    from [h0] and a zero cell state, and step [t >= 1] is the LSTM step on
    [x[:,t,:]], [h[:,t-1,:]] and [c[:,t-1,:]].  For every [dh] of shape
    [(N, T, H)], [lstm_backward] applied to [dh] and the forward cache
    returns the gradients of [np.sum(dh * h)] with respect to [x], [h0],
    [Wx], [Wh] and [b]. *)
Theorem lstm_forward_backward_correct (N T D H : nat) (x h0 Wx Wh b : ndarray) :
  (1 <= T)%nat ->
  shape x = [N; T; D] -> shape h0 = [N; H] -> shape Wx = [D; (4 * H)%nat] ->
  shape Wh = [H; (4 * H)%nat] -> shape b = [(4 * H)%nat] ->
  exists h c,
    lstm_forward x h0 Wx Wh b = Ok (h, (x, h0, Wx, Wh, b, h, c)) /\
    shape h = [N; T; H] /\ shape c = [N; T; H] /\
    (forall n k, (n < N)%nat -> (k < H)%nat ->
       let x0 := getitem x [IAll; IInt 0; IAll] in
       data c [n; 0%nat; k] = lstm_cell_value D H x0 h0 (zeros [N; H]) Wx Wh b n k /\
       data h [n; 0%nat; k] = lstm_hidden_value D H x0 h0 (zeros [N; H]) Wx Wh b n k) /\
    (forall n t k, (n < N)%nat -> (1 <= t < T)%nat -> (k < H)%nat ->
       let xt := getitem x [IAll; IInt (Z.of_nat t); IAll] in
       let hp := getitem h [IAll; IInt (Z.of_nat t - 1); IAll] in
       let cp := getitem c [IAll; IInt (Z.of_nat t - 1); IAll] in
       data c [n; t; k] = lstm_cell_value D H xt hp cp Wx Wh b n k /\
       data h [n; t; k] = lstm_hidden_value D H xt hp cp Wx Wh b n k) /\
    forall dh, shape dh = [N; T; H] ->
      exists dx dh0 dWx dWh db,
        lstm_backward dh (x, h0, Wx, Wh, b, h, c) = Ok (dx, dh0, dWx, dWh, db) /\
        let loss := lstm_loss dh in
        gradient_at (fun x' => loss (lstm_forward x' h0 Wx Wh b)) x dx /\
        gradient_at (fun h' => loss (lstm_forward x h' Wx Wh b)) h0 dh0 /\
        gradient_at (fun W' => loss (lstm_forward x h0 W' Wh b)) Wx dWx /\
        gradient_at (fun W' => loss (lstm_forward x h0 Wx W' b)) Wh dWh /\
        gradient_at (fun b' => loss (lstm_forward x h0 Wx Wh b')) b db.
Proof.
  intros HT Hx Hh0 HWx HWh Hb.
  destruct (lstm_forward_value N T D H x h0 Wx Wh b Hx Hh0 HWx HWh Hb HT)
    as (h & c & Hfw & Sh & Sc & Vhc).
  exists h, c.
  split; [exact Hfw|]. split; [exact Sh|]. split; [exact Sc|]. split; [|split].
  - intros n k Hn Hk. cbn zeta.
    destruct (Vhc n 0%nat k Hn HT Hk) as [Eh Ec]. rewrite Eh, Ec. split; reflexivity.
  - intros n t k Hn Ht Hk. cbn zeta.
    destruct (Vhc n t k Hn (proj2 Ht) Hk) as [Eh Ec]. rewrite Eh, Ec.
    destruct t as [|t]; [lia|].
    replace (Z.of_nat (S t) - 1)%Z with (Z.of_nat t) by lia.
    assert (Ht' : (t < T)%nat) by lia.
    destruct (np_getitem_step N T H h t Sh Ht') as (_ & _ & V1).
    destruct (np_getitem_step N T H c t Sc Ht') as (_ & _ & V2).
    cbn [lstm_states fst snd data nth].
    split.
    + apply (lstm_cell_value_ext N).
      * intros j Hj. rewrite V1. symmetry. apply (Vhc n t j Hn Ht' Hj).
      * rewrite V2. symmetry. apply (Vhc n t k Hn Ht' Hk).
    + apply (lstm_hidden_value_ext N).
      * intros j Hj. rewrite V1. symmetry. apply (Vhc n t j Hn Ht' Hj).
      * rewrite V2. symmetry. apply (Vhc n t k Hn Ht' Hk).
  - intros dh Hdh.
    destruct (lstm_backward_value N T D H
                (fun _ => x) (fun _ => h0) (fun _ => Wx) (fun _ => Wh) (fun _ => b)
                (fun _ => 0) (fun _ => 0) (fun _ => 0) (fun _ => 0) (fun _ => 0) 0
                (tangent_const x 0) (tangent_const h0 0) (tangent_const Wx 0)
                (tangent_const Wh 0) (tangent_const b 0)
                Hx Hh0 HWx HWh Hb HT dh h c Hdh Sh Sc
                (fun n t k Hn Ht Hk => proj1 (Vhc n t k Hn Ht Hk))
                (fun n t k Hn Ht Hk => proj2 (Vhc n t k Hn Ht Hk)))
      as (dx & dh0' & dWx & dWh & db & Hbw & _).
    cbn beta in Hbw.
    exists dx, dh0', dWx, dWh, db. split; [exact Hbw|]. cbn zeta.
    split; [|split; [|split; [|split]]].
    + apply (lstm_seq_gradient_x N T D H x h0 Wx Wh b dh Hx Hh0 HWx HWh Hb HT Hdh
               h dx dh0' dWx dWh db _ Hfw Hbw).
    + apply (lstm_seq_gradient_h0 N T D H x h0 Wx Wh b dh Hx Hh0 HWx HWh Hb HT Hdh
               h dx dh0' dWx dWh db _ Hfw Hbw).
    + apply (lstm_seq_gradient_Wx N T D H x h0 Wx Wh b dh Hx Hh0 HWx HWh Hb HT Hdh
               h dx dh0' dWx dWh db _ Hfw Hbw).
    + apply (lstm_seq_gradient_Wh N T D H x h0 Wx Wh b dh Hx Hh0 HWx HWh Hb HT Hdh
               h dx dh0' dWx dWh db _ Hfw Hbw).
    + apply (lstm_seq_gradient_b N T D H x h0 Wx Wh b dh Hx Hh0 HWx HWh Hb HT Hdh
               h dx dh0' dWx dWh db _ Hfw Hbw).
Qed.

Definition lstm_seq_x0 : ndarray :=
  {| shape := [1; 2; 1]%nat; data := fun idx => INR (nth 1 idx 0%nat) + 1 |}.
Definition lstm_seq_h0 : ndarray := matrix_of 1 1 (fun _ _ => 1).
Definition lstm_seq_Wx0 : ndarray := matrix_of 1 4 (fun _ k => 1 - INR k).
Definition lstm_seq_Wh0 : ndarray := matrix_of 1 4 (fun _ k => INR k).
Definition lstm_seq_b0 : ndarray := {| shape := [4%nat]; data := fun _ => 0 |}.

Lemma lstm_forward_backward_correct_witness :
  exists h c,
    lstm_forward lstm_seq_x0 lstm_seq_h0 lstm_seq_Wx0 lstm_seq_Wh0 lstm_seq_b0 =
      Ok (h, (lstm_seq_x0, lstm_seq_h0, lstm_seq_Wx0, lstm_seq_Wh0, lstm_seq_b0, h, c)) /\
    shape h = [1; 2; 1]%nat /\
    forall dh, shape dh = [1; 2; 1]%nat ->
      exists dx dh0 dWx dWh db,
        lstm_backward dh
          (lstm_seq_x0, lstm_seq_h0, lstm_seq_Wx0, lstm_seq_Wh0, lstm_seq_b0, h, c) =
          Ok (dx, dh0, dWx, dWh, db) /\
        gradient_at
          (fun W' => lstm_loss dh
                       (lstm_forward lstm_seq_x0 lstm_seq_h0 lstm_seq_Wx0 W' lstm_seq_b0))
          lstm_seq_Wh0 dWh.
Proof.
  destruct (lstm_forward_backward_correct 1 2 1 1
              lstm_seq_x0 lstm_seq_h0 lstm_seq_Wx0 lstm_seq_Wh0 lstm_seq_b0)
    as (h & c & Hfw & Sh & _ & _ & _ & Hbw);
    [lia | reflexivity | reflexivity | reflexivity | reflexivity | reflexivity |].
  exists h, c. split; [exact Hfw|]. split; [exact Sh|].
  intros dh Hdh. destruct (Hbw dh Hdh) as (dx & dh0 & dWx & dWh & db & E & _ & _ & _ & G & _).
  exists dx, dh0, dWx, dWh, db. split; [exact E|exact G].
Defined.

(** ** Spatial batch normalisation *)

(** [N, C, H, W = a.shape] *)
Definition shape4 (a : ndarray) : res (nat * nat * nat * nat) :=
  match shape a with
  | [n; c; h; w] => Ok (n, c, h, w)
  | _ => Raise (ValueError "wrong number of values to unpack")
  end.

Definition spatial_batchnorm_backward (dout : ndarray) (cache : bn_cache)
  : res (ndarray * ndarray * ndarray) :=
  let* nchw := shape4 dout in
  let '(N, C, H, W) := nchw in
  let* dout1 := reshape (transpose_axes dout [0; 2; 3; 1]%nat) [-1; Z.of_nat C]%Z in
  let* r := batchnorm_backward dout1 cache in
  let '(dx, dgamma, dbeta) := r in
  let* dx := reshape dx [Z.of_nat N; Z.of_nat H; Z.of_nat W; Z.of_nat C] in
  let dx := transpose_axes dx [0; 3; 1; 2]%nat in
  Ok (dx, dgamma, dbeta).

(** *** Rows of the flattened array

    Row [(n * H + h) * W + w] of [x.transpose(0,2,3,1).reshape(-1, C)] holds
    the [C] channels of [x] at position [(n, h, w)]. *)

Lemma spatial_row_split (H W n h w : nat) :
  (h < H)%nat -> (w < W)%nat ->
  let r := ((n * H + h) * W + w)%nat in
  (r / W / H = n /\ (r / W) mod H = h /\ r mod W = w)%nat.
Proof.
  intros Hh Hw r.
  assert (E1 : (r / W = n * H + h)%nat).
  { unfold r. rewrite Nat.div_add_l by lia. rewrite (Nat.div_small w W) by lia. lia. }
  assert (E2 : (r mod W = w)%nat).
  { unfold r. rewrite Nat.add_comm, Nat.Div0.mod_add. apply Nat.mod_small. exact Hw. }
  rewrite E1. split; [|split; [|exact E2]].
  - rewrite Nat.div_add_l by lia. rewrite (Nat.div_small h H) by lia. lia.
  - rewrite Nat.add_comm, Nat.Div0.mod_add. apply Nat.mod_small. exact Hh.
Qed.

Lemma spatial_row_join (H W r : nat) :
  (1 <= H)%nat -> (1 <= W)%nat ->
  (((r / W / H) * H + (r / W) mod H) * W + r mod W = r /\
   (r / W) mod H < H /\ r mod W < W)%nat.
Proof.
  intros HH HW.
  pose proof (Nat.div_mod_eq r W) as E1.
  pose proof (Nat.div_mod_eq (r / W) H) as E2.
  pose proof (Nat.mod_upper_bound (r / W) H ltac:(lia)) as B1.
  pose proof (Nat.mod_upper_bound r W ltac:(lia)) as B2.
  split; [|split; assumption].
  rewrite (Nat.mul_comm (r / W / H) H), <- E2. rewrite (Nat.mul_comm (r / W) W), <- E1.
  reflexivity.
Qed.

Lemma spatial_row_lt (N H W n h w : nat) :
  (n < N)%nat -> (h < H)%nat -> (w < W)%nat -> ((n * H + h) * W + w < N * H * W)%nat.
Proof.
  intros Hn Hh Hw.
  assert (A : (n * H + h + 1 <= N * H)%nat) by nia.
  pose proof (Nat.mul_le_mono_r _ _ W A) as B. lia.
Qed.

Lemma unravel_quad (d1 d2 d3 d4 i j k l : nat) :
  (j < d2)%nat -> (k < d3)%nat -> (l < d4)%nat ->
  unravel [d1; d2; d3; d4] (((i * d2 + j) * d3 + k) * d4 + l) = [i; j; k; l].
Proof.
  intros Hj Hk Hl.
  assert (E : size_of [d2; d3; d4] = (d2 * d3 * d4)%nat) by (simpl; lia).
  replace (((i * d2 + j) * d3 + k) * d4 + l)%nat
    with (i * size_of [d2; d3; d4] + ((j * d3 + k) * d4 + l))%nat by (rewrite E; lia).
  rewrite unravel_cons by (rewrite E; apply spatial_row_lt; assumption).
  rewrite unravel_triple by assumption. reflexivity.
Qed.

Lemma ravel_quad (d1 d2 d3 d4 i j k l : nat) :
  ravel [d1; d2; d3; d4] [i; j; k; l] = (((i * d2 + j) * d3 + k) * d4 + l)%nat.
Proof. simpl. lia. Qed.

(** Three nested sums as one sum over the rows. *)
Lemma rsum_rows (N H W : nat) (f : nat -> nat -> nat -> R) :
  rsum N (fun n => rsum H (fun h => rsum W (fun w => f n h w))) =
  rsum (N * H * W) (fun r => f (r / W / H)%nat ((r / W) mod H)%nat (r mod W)%nat).
Proof.
  rewrite (rsum_mul (N * H) W (fun q w => f (q / H)%nat (q mod H)%nat w)).
  rewrite (rsum_mul N H (fun n h => rsum W (fun w => f n h w))).
  reflexivity.
Qed.

(** Channel [c] of [a], one entry per row of the flattened array. *)
Definition spatial_column (a : ndarray) (H W c : nat) : nat -> R :=
  fun r => data a [(r / W / H)%nat; c; ((r / W) mod H)%nat; (r mod W)%nat].

Lemma spatial_column_row (a : ndarray) (H W c n h w : nat) :
  (h < H)%nat -> (w < W)%nat ->
  spatial_column a H W c ((n * H + h) * W + w) = data a [n; c; h; w].
Proof.
  intros Hh Hw. unfold spatial_column.
  destruct (spatial_row_split H W n h w Hh Hw) as (-> & -> & ->). reflexivity.
Qed.

(** [a.transpose(0,2,3,1).reshape(-1, C)] *)
Lemma spatial_flatten (a : ndarray) (N C H W : nat) :
  shape a = [N; C; H; W] -> (1 <= C)%nat -> (1 <= H)%nat -> (1 <= W)%nat ->
  exists a1,
    reshape (transpose_axes a [0; 2; 3; 1]%nat) [-1; Z.of_nat C]%Z = Ok a1 /\
    shape a1 = [(N * H * W)%nat; C] /\
    forall c, (c < C)%nat -> column a1 c = spatial_column a H W c.
Proof.
  intros Ha HC HH HW.
  assert (Hs : shape (transpose_axes a [0; 2; 3; 1]%nat) = [N; H; W; C]).
  { unfold transpose_axes. cbn [shape map]. rewrite Ha. reflexivity. }
  eexists. split; [|split].
  - apply (reshape_cols _ (N * H * W) C); [rewrite Hs; simpl; lia|lia].
  - reflexivity.
  - intros c Hc. apply functional_extensionality. intros r.
    unfold column. cbn [data]. rewrite Hs, ravel_pair.
    destruct (spatial_row_join H W r HH HW) as (Er & B1 & B2).
    rewrite <- Er at 1. rewrite unravel_quad by assumption.
    unfold transpose_axes, spatial_column. cbn [data length seq map position Nat.eqb nth].
    reflexivity.
Qed.

(** [a1.reshape(N, H, W, C).transpose(0,3,1,2)] *)
Lemma spatial_unflatten (a1 : ndarray) (N C H W : nat) :
  shape a1 = [(N * H * W)%nat; C] ->
  exists a4,
    reshape a1 [Z.of_nat N; Z.of_nat H; Z.of_nat W; Z.of_nat C] = Ok a4 /\
    shape (transpose_axes a4 [0; 3; 1; 2]%nat) = [N; C; H; W] /\
    forall n c h w, (h < H)%nat -> (w < W)%nat -> (c < C)%nat ->
      data (transpose_axes a4 [0; 3; 1; 2]%nat) [n; c; h; w] =
      data a1 [((n * H + h) * W + w)%nat; c].
Proof.
  intros Ha. eexists. split; [|split].
  - apply (reshape_exact a1 [N; H; W; C]). rewrite Ha. simpl. lia.
  - reflexivity.
  - intros n c h w Hh Hw Hc. unfold transpose_axes.
    cbn [data length seq map position Nat.eqb nth].
    rewrite Ha, ravel_quad, unravel_pair by exact Hc. reflexivity.
Qed.

(** *** The training-time forward pass *)

(** The mean and the (uncorrected) variance of channel [c] over the batch
    and all spatial positions. *)
Definition channel_mean (x : ndarray) (N H W c : nat) : R :=
  rsum N (fun n => rsum H (fun h => rsum W (fun w => data x [n; c; h; w]))) / INR (N * H * W).

Definition channel_var (x : ndarray) (N H W c : nat) : R :=
  rsum N (fun n => rsum H (fun h => rsum W (fun w =>
    (data x [n; c; h; w] - channel_mean x N H W c) ^ 2))) / INR (N * H * W).

Lemma channel_mean_column (x : ndarray) (N H W c : nat) :
  col_mean (N * H * W) (spatial_column x H W c) = channel_mean x N H W c.
Proof.
  unfold col_mean, channel_mean.
  rewrite (rsum_rows N H W (fun n h w => data x [n; c; h; w])). reflexivity.
Qed.

Lemma channel_var_column (x : ndarray) (N H W c : nat) :
  col_var (N * H * W) (spatial_column x H W c) = channel_var x N H W c.
Proof.
  unfold col_var, channel_var. rewrite channel_mean_column.
  rewrite (rsum_rows N H W (fun n h w => (data x [n; c; h; w] - channel_mean x N H W c) ^ 2)).
  reflexivity.
Qed.

Lemma spatial_batchnorm_forward_train_run (N C H W : nat) (x gamma beta : ndarray) (bn : nat)
      (st : store) (mode : pyval) :
  shape x = [N; C; H; W] -> shape gamma = [C] -> shape beta = [C] ->
  (1 <= C)%nat -> (1 <= H)%nat -> (1 <= W)%nat ->
  the_dict st bn !! "mode" = Some mode -> eq_str mode "train" = true ->
  bn_param_wf C (the_dict st bn) ->
  let e := float_entry (the_dict st bn) "eps" (1 / 100000) in
  let M := (N * H * W)%nat in
  exists out x1 mn sd st',
    spatial_batchnorm_forward x gamma beta bn st =
    (Ok (out, <["x" := PArr x1]> (<["std" := PArr sd]> (<["mean" := PArr mn]>
                (<["beta" := PArr beta]> (<["gamma" := PArr gamma]> ∅))))), st') /\
    shape x1 = [M; C] /\
    (forall c, (c < C)%nat -> column x1 c = spatial_column x H W c) /\
    shape out = [N; C; H; W] /\ shape mn = [1%nat; C] /\ shape sd = [1%nat; C] /\
    (forall n c h w, (n < N)%nat -> (c < C)%nat -> (h < H)%nat -> (w < W)%nat ->
       data out [n; c; h; w] =
       data gamma [c] * (data x [n; c; h; w] - col_mean M (spatial_column x H W c))
       / sqrt (col_var M (spatial_column x H W c) + e) + data beta [c]) /\
    (forall c, (c < C)%nat ->
       data mn [0%nat; c] = col_mean M (spatial_column x H W c) /\
       data sd [0%nat; c] = sqrt (col_var M (spatial_column x H W c) + e)).
Proof.
  intros Hx Hg Hb HC HH HW Hmode Htrain Hok e M.
  destruct (spatial_flatten x N C H W Hx HC HH HW) as (x1 & E1 & S1 & V1).
  destruct (batchnorm_forward_train_run M C x1 gamma beta bn st mode S1 Hg Hb Hmode Htrain Hok)
    as (out1 & mn & sd & rm' & rv' & Run & Sout & Smn & Ssd & _ & _ & Vout & Vst).
  fold e in Vout, Vst.
  destruct (spatial_unflatten out1 N C H W Sout) as (o4 & E4 & S4 & V4).
  unfold spatial_batchnorm_forward, dim. rewrite Hx. cbn [nth]. cbn zeta.
  unfold py_bind at 1. unfold lift at 1. rewrite E1.
  unfold py_bind at 1. rewrite Run.
  unfold py_bind, lift, py_ret. rewrite E4.
  eexists. exists x1, mn, sd. eexists. split; [reflexivity|].
  split; [exact S1|]. split; [exact V1|]. split; [exact S4|].
  split; [exact Smn|]. split; [exact Ssd|]. split.
  - intros n c h w Hn Hc Hh Hw. rewrite V4 by assumption.
    rewrite Vout by (try apply spatial_row_lt; assumption).
    change (batch_mean x1 M c) with (col_mean M (column x1 c)).
    change (batch_var x1 M c) with (col_var M (column x1 c)).
    change (data x1 [((n * H + h) * W + w)%nat; c])
      with (column x1 c ((n * H + h) * W + w)%nat).
    rewrite (V1 c Hc), spatial_column_row by assumption. reflexivity.
  - intros c Hc. destruct (Vst c Hc) as (Vmn & Vsd & _).
    rewrite Vmn, Vsd.
    change (batch_mean x1 M c) with (col_mean M (column x1 c)).
    change (batch_var x1 M c) with (col_var M (column x1 c)).
    rewrite (V1 c Hc). split; reflexivity.
Qed.

(** X22: in training mode, for [x] of shape [(N, C, H, W)] with
    [N, C, H, W >= 1], [gamma] and [beta] of shape [(C,)] and a [bn_param]
    whose optional entries are well formed ([eps] and [momentum], when
    present, floats; [running_mean] and [running_var], when present, arrays
    of shape [(C,)] or [(1, C)]) with a positive [eps],
    [spatial_batchnorm_forward] returns an array of the shape of [x] in
    which every channel is normalised with its own statistics:
    [out[n,c,h,w] = gamma[c] * (x[n,c,h,w] - mu_c) / sqrt(var_c + eps) +
    beta[c]], where [mu_c] and [var_c] are the mean and the variance of
    channel [c] over the batch and all spatial positions. *)
Theorem spatial_batchnorm_forward_train_normalizes
      (N C H W : nat) (x gamma beta : ndarray) (bn : nat) (st : store) (mode : pyval) :
  shape x = [N; C; H; W] -> shape gamma = [C] -> shape beta = [C] ->
  (1 <= N)%nat -> (1 <= C)%nat -> (1 <= H)%nat -> (1 <= W)%nat ->
  the_dict st bn !! "mode" = Some mode -> eq_str mode "train" = true ->
  bn_param_wf C (the_dict st bn) ->
  0 < float_entry (the_dict st bn) "eps" (1 / 100000) ->
  exists out cache st',
    spatial_batchnorm_forward x gamma beta bn st = (Ok (out, cache), st') /\
    shape out = [N; C; H; W] /\
    forall n c h w, (n < N)%nat -> (c < C)%nat -> (h < H)%nat -> (w < W)%nat ->
      data out [n; c; h; w] =
      data gamma [c] * (data x [n; c; h; w] - channel_mean x N H W c)
      / sqrt (channel_var x N H W c + float_entry (the_dict st bn) "eps" (1 / 100000))
      + data beta [c].
Proof.
  intros Hx Hg Hb _ HC HH HW Hmode Htrain Hok _.
  destruct (spatial_batchnorm_forward_train_run N C H W x gamma beta bn st mode
              Hx Hg Hb HC HH HW Hmode Htrain Hok)
    as (out & x1 & mn & sd & st' & Run & _ & _ & Sout & _ & _ & Vout & _).
  eexists. eexists. eexists. split; [exact Run|]. split; [exact Sout|].
  intros n c h w Hn Hc Hh Hw. rewrite (Vout n c h w Hn Hc Hh Hw).
  rewrite channel_mean_column, channel_var_column. reflexivity.
Qed.

Definition sbn_x0 : ndarray :=
  {| shape := [2; 2; 1; 2]%nat;
     data := fun idx => INR (nth 0 idx 0%nat) + 2 * INR (nth 1 idx 0%nat) * INR (nth 3 idx 0%nat) |}.

Lemma spatial_batchnorm_forward_train_normalizes_witness :
  exists out cache st',
    spatial_batchnorm_forward sbn_x0 bn_train_gamma0 bn_train_beta0 0 bn_row_store0 =
      (Ok (out, cache), st') /\
    shape out = [2; 2; 1; 2]%nat /\
    forall n c h w, (n < 2)%nat -> (c < 2)%nat -> (h < 1)%nat -> (w < 2)%nat ->
      data out [n; c; h; w] =
      data bn_train_gamma0 [c] * (data sbn_x0 [n; c; h; w] - channel_mean sbn_x0 2 1 2 c)
      / sqrt (channel_var sbn_x0 2 1 2 c +
              float_entry (the_dict bn_row_store0 0) "eps" (1 / 100000))
      + data bn_train_beta0 [c].
Proof.
  apply (spatial_batchnorm_forward_train_normalizes 2 2 1 2 sbn_x0 bn_train_gamma0
           bn_train_beta0 0 bn_row_store0 (PStr "train")).
  - reflexivity.
  - reflexivity.
  - reflexivity.
  - lia.
  - lia.
  - lia.
  - lia.
  - reflexivity.
  - reflexivity.
  - exact bn_row_store0_wf.
  - rewrite bn_row_store0_eps. lra.
Defined.

(** *** The backward pass *)

Lemma spatial_column_set_entry_same (x : ndarray) (H W n0 c0 h0 w0 : nat) (t : R) :
  (1 <= H)%nat -> (1 <= W)%nat -> (h0 < H)%nat -> (w0 < W)%nat ->
  spatial_column (set_entry x [n0; c0; h0; w0] t) H W c0 =
  upd (spatial_column x H W c0) ((n0 * H + h0) * W + w0) t.
Proof.
  intros HH HW Hh0 Hw0. apply functional_extensionality. intros r.
  unfold spatial_column, set_entry, upd. cbn [data].
  destruct (Nat.eqb_spec r ((n0 * H + h0) * W + w0)) as [->|Hne].
  - destruct (spatial_row_split H W n0 h0 w0 Hh0 Hw0) as (-> & -> & ->).
    rewrite decide_True by reflexivity. reflexivity.
  - rewrite decide_False; [reflexivity|]. intros E. apply Hne.
    destruct (spatial_row_join H W r HH HW) as (Er & _ & _).
    injection E as E1 E2 E3. rewrite <- Er, E1, E2, E3. reflexivity.
Qed.

Lemma spatial_column_set_entry_other (x : ndarray) (H W n0 c0 h0 w0 c : nat) (t : R) :
  c <> c0 ->
  spatial_column (set_entry x [n0; c0; h0; w0] t) H W c = spatial_column x H W c.
Proof.
  intros Hne. apply functional_extensionality. intros r.
  unfold spatial_column, set_entry. cbn [data].
  rewrite decide_False by congruence. reflexivity.
Qed.

Section SpatialBatchnormLoss.

Variables (N C H W : nat) (dout : ndarray) (bn : nat) (st : store) (mode : pyval).
Hypothesis Hdout : shape dout = [N; C; H; W].
Hypothesis HC : (1 <= C)%nat.
Hypothesis HH : (1 <= H)%nat.
Hypothesis HW : (1 <= W)%nat.
Hypothesis Hmode : the_dict st bn !! "mode" = Some mode.
Hypothesis Htrain : eq_str mode "train" = true.
Hypothesis Hok : bn_param_wf C (the_dict st bn).

Let e : R := float_entry (the_dict st bn) "eps" (1 / 100000).

Lemma spatial_batchnorm_loss_value (x gamma beta : ndarray) :
  shape x = [N; C; H; W] -> shape gamma = [C] -> shape beta = [C] ->
  upstream_loss_in dout (spatial_batchnorm_forward x gamma beta bn st) =
  rsum C (fun c => bn_col_loss (N * H * W) (spatial_column x H W c) (spatial_column dout H W c)
                     (data gamma [c]) (data beta [c]) e).
Proof.
  intros Hx Hg Hb.
  destruct (spatial_batchnorm_forward_train_run N C H W x gamma beta bn st mode
              Hx Hg Hb HC HH HW Hmode Htrain Hok)
    as (out & x1 & mn & sd & st' & Run & _ & _ & Sout & _ & _ & Vout & _).
  fold e in Vout.
  rewrite Run. unfold upstream_loss_in, upstream_loss, sum, mul, map2. cbn [fst shape data].
  rewrite Hdout, Sout. np_unfold. rewrite !bdim_diag. cbn [sum_over].
  rewrite (rsum_swap N C).
  apply rsum_ext. intros c Hc. unfold bn_col_loss.
  rewrite (rsum_ext N _ (fun n => rsum H (fun h => rsum W (fun w =>
             data dout [n; c; h; w] *
             (data gamma [c] * (data x [n; c; h; w] -
                                col_mean (N * H * W) (spatial_column x H W c))
              / sqrt (col_var (N * H * W) (spatial_column x H W c) + e) + data beta [c]))))).
  - rewrite (rsum_rows N H W (fun n h w =>
               data dout [n; c; h; w] *
               (data gamma [c] * (data x [n; c; h; w] -
                                  col_mean (N * H * W) (spatial_column x H W c))
                / sqrt (col_var (N * H * W) (spatial_column x H W c) + e) + data beta [c]))).
    reflexivity.
  - intros n Hn. apply rsum_ext. intros h Hh. apply rsum_ext. intros w Hw.
    bidx_simpl. rewrite Vout by assumption. reflexivity.
Qed.

End SpatialBatchnormLoss.

(** X23: in training mode, for [x] and [dout] of shape [(N, C, H, W)] with
    [N, C, H, W >= 1], [gamma] and [beta] of shape [(C,)] and a [bn_param]
    whose optional entries are well formed ([eps] and [momentum], when
    present, floats; [running_mean] and [running_var], when present, arrays
    of shape [(C,)] or [(1, C)]) with a positive [eps],
    [spatial_batchnorm_backward] applied to [dout] and the cache of
    [spatial_batchnorm_forward] returns the gradients of
    [np.sum(dout * out)] with respect to [x], [gamma] and [beta]. *)
Theorem spatial_batchnorm_forward_backward_correct
      (N C H W : nat) (x gamma beta dout : ndarray) (bn : nat) (st : store) (mode : pyval) :
  shape x = [N; C; H; W] -> shape gamma = [C] -> shape beta = [C] ->
  shape dout = [N; C; H; W] ->
  (1 <= N)%nat -> (1 <= C)%nat -> (1 <= H)%nat -> (1 <= W)%nat ->
  the_dict st bn !! "mode" = Some mode -> eq_str mode "train" = true ->
  bn_param_wf C (the_dict st bn) ->
  0 < float_entry (the_dict st bn) "eps" (1 / 100000) ->
  exists out cache st' dx dgamma dbeta,
    spatial_batchnorm_forward x gamma beta bn st = (Ok (out, cache), st') /\
    spatial_batchnorm_backward dout cache = Ok (dx, dgamma, dbeta) /\
    gradient_at
      (fun x' => upstream_loss_in dout (spatial_batchnorm_forward x' gamma beta bn st)) x dx /\
    gradient_at
      (fun g' => upstream_loss_in dout (spatial_batchnorm_forward x g' beta bn st))
      gamma dgamma /\
    gradient_at
      (fun b' => upstream_loss_in dout (spatial_batchnorm_forward x gamma b' bn st))
      beta dbeta.
Proof.
  intros Hx Hg Hb Hd _ HC HH HW Hmode Htrain Hok He.
  destruct (spatial_batchnorm_forward_train_run N C H W x gamma beta bn st mode
              Hx Hg Hb HC HH HW Hmode Htrain Hok)
    as (out & x1 & mn & sd & st' & Run & Sx1 & Vx1 & Sout & Smn & Ssd & _ & Vst).
  destruct (spatial_flatten dout N C H W Hd HC HH HW) as (dout1 & Ed1 & Sd1 & Vd1).
  destruct (batchnorm_backward_value (N * H * W) C dout1 x1 mn sd gamma (PArr beta) _
              Sd1 Sx1 Smn Ssd Hg eq_refl)
    as (dx1 & dgamma & dbeta & Back & Sdx1 & Sdg & Sdb & Vdx & Vdg & Vdb).
  destruct (spatial_unflatten dx1 N C H W Sdx1) as (dx4 & E4 & S4 & V4).
  set (e := float_entry (the_dict st bn) "eps" (1 / 100000)) in *.
  set (M := (N * H * W)%nat) in *.
  eexists. eexists. eexists. exists (transpose_axes dx4 [0; 3; 1; 2]%nat), dgamma, dbeta.
  split; [exact Run|]. split.
  { unfold spatial_batchnorm_backward, shape4. rewrite Hd. cbn [res_bind].
    rewrite Ed1. cbn [res_bind]. rewrite Back. cbn [res_bind]. rewrite E4. reflexivity. }
  assert (Hloss := spatial_batchnorm_loss_value N C H W dout bn st mode
                     Hd HC HH HW Hmode Htrain Hok).
  fold e in Hloss. fold M in Hloss.
  split; [|split].
  - split; [congruence|]. rewrite Hx. intros idx Hidx.
    destruct (in_bounds_4 _ _ _ _ _ Hidx) as (n0 & c0 & h0 & w0 & -> & Hn0 & Hc0 & Hh0 & Hw0).
    destruct (Vst c0 Hc0) as (Vmn & Vsd).
    set (r0 := ((n0 * H + h0) * W + w0)%nat).
    assert (Hr0 : (r0 < M)%nat) by (apply spatial_row_lt; assumption).
    assert (Ex0 : spatial_column x H W c0 r0 = data x [n0; c0; h0; w0])
      by (apply spatial_column_row; assumption).
    eapply (dlim_eq (fun t => rsum C (fun c =>
              bn_col_loss M (spatial_column (set_entry x [n0; c0; h0; w0] t) H W c)
                (spatial_column dout H W c) (data gamma [c]) (data beta [c]) e))).
    + apply (dlim_rsum C
               (fun c t => bn_col_loss M
                             (spatial_column (set_entry x [n0; c0; h0; w0] t) H W c)
                             (spatial_column dout H W c) (data gamma [c]) (data beta [c]) e)
               (fun c => if (c =? c0)%nat
                         then data (transpose_axes dx4 [0; 3; 1; 2]%nat) [n0; c0; h0; w0]
                         else 0)).
      intros c Hcc. destruct (Nat.eqb_spec c c0) as [->|Hne].
      * rewrite <- Ex0.
        eapply dlim_ext;
          [| |exact (bn_column_dlim M (spatial_column x H W c0) (spatial_column dout H W c0)
                      r0 e (data gamma [c0]) (data beta [c0]) Hr0 He)].
        -- intros t. cbv beta.
           rewrite spatial_column_set_entry_same by assumption. reflexivity.
        -- rewrite V4 by assumption. fold r0. rewrite Vdx, Vmn, Vsd by assumption.
           rewrite <- (Vx1 c0 Hc0), <- (Vd1 c0 Hc0). reflexivity.
      * eapply dlim_ext; [| |apply (derivable_pt_lim_const
                                     (bn_col_loss M (spatial_column x H W c)
                                        (spatial_column dout H W c)
                                        (data gamma [c]) (data beta [c]) e))].
        -- intros t. cbv beta.
           rewrite spatial_column_set_entry_other by exact Hne. reflexivity.
        -- reflexivity.
    + intros t. apply Hloss; [rewrite <- Hx; reflexivity|exact Hg|exact Hb].
    + rewrite (rsum_single C c0 _ Hc0).
      * rewrite Nat.eqb_refl. reflexivity.
      * intros k _ Hk. destruct (Nat.eqb_spec k c0); [contradiction|reflexivity].
  - split; [congruence|]. rewrite Hg. intros idx Hidx.
    destruct (in_bounds_1 _ _ Hidx) as (c0 & -> & Hc0).
    destruct (Vst c0 Hc0) as (Vmn & Vsd).
    eapply (dlim_eq (fun t => rsum C (fun c =>
              bn_col_loss M (spatial_column x H W c) (spatial_column dout H W c)
                (data (set_entry gamma [c0] t) [c]) (data beta [c]) e))).
    + apply (dlim_rsum C
               (fun c t => bn_col_loss M (spatial_column x H W c) (spatial_column dout H W c)
                             (data (set_entry gamma [c0] t) [c]) (data beta [c]) e)
               (fun c => if (c =? c0)%nat then data dgamma [c0] else 0)).
      intros c Hcc. destruct (Nat.eqb_spec c c0) as [->|Hne].
      * eapply dlim_ext;
          [| |exact (bn_col_loss_gamma_dlim M (spatial_column x H W c0)
                      (spatial_column dout H W c0) (data beta [c0]) e (data gamma [c0]))].
        -- intros t. cbv beta. rewrite vector_set_entry, Nat.eqb_refl. reflexivity.
        -- rewrite Vdg, Vmn, Vsd by assumption.
           rewrite <- (Vx1 c0 Hc0), <- (Vd1 c0 Hc0). reflexivity.
      * eapply dlim_ext; [| |apply (derivable_pt_lim_const
                                     (bn_col_loss M (spatial_column x H W c)
                                        (spatial_column dout H W c)
                                        (data gamma [c]) (data beta [c]) e))].
        -- intros t. cbv beta. rewrite vector_set_entry.
           destruct (Nat.eqb_spec c c0); [contradiction|reflexivity].
        -- reflexivity.
    + intros t. apply Hloss; [exact Hx|rewrite <- Hg; reflexivity|exact Hb].
    + rewrite (rsum_single C c0 _ Hc0).
      * rewrite Nat.eqb_refl. reflexivity.
      * intros k _ Hk. destruct (Nat.eqb_spec k c0); [contradiction|reflexivity].
  - split; [congruence|]. rewrite Hb. intros idx Hidx.
    destruct (in_bounds_1 _ _ Hidx) as (c0 & -> & Hc0).
    eapply (dlim_eq (fun t => rsum C (fun c =>
              bn_col_loss M (spatial_column x H W c) (spatial_column dout H W c)
                (data gamma [c]) (data (set_entry beta [c0] t) [c]) e))).
    + apply (dlim_rsum C
               (fun c t => bn_col_loss M (spatial_column x H W c) (spatial_column dout H W c)
                             (data gamma [c]) (data (set_entry beta [c0] t) [c]) e)
               (fun c => if (c =? c0)%nat then data dbeta [c0] else 0)).
      intros c Hcc. destruct (Nat.eqb_spec c c0) as [->|Hne].
      * eapply dlim_ext;
          [| |exact (bn_col_loss_beta_dlim M (spatial_column x H W c0)
                      (spatial_column dout H W c0) (data gamma [c0]) e (data beta [c0]))].
        -- intros t. cbv beta. rewrite vector_set_entry, Nat.eqb_refl. reflexivity.
        -- rewrite Vdb by assumption. rewrite <- (Vd1 c0 Hc0). reflexivity.
      * eapply dlim_ext; [| |apply (derivable_pt_lim_const
                                     (bn_col_loss M (spatial_column x H W c)
                                        (spatial_column dout H W c)
                                        (data gamma [c]) (data beta [c]) e))].
        -- intros t. cbv beta. rewrite vector_set_entry.
           destruct (Nat.eqb_spec c c0); [contradiction|reflexivity].
        -- reflexivity.
    + intros t. apply Hloss; [exact Hx|exact Hg|rewrite <- Hb; reflexivity].
    + rewrite (rsum_single C c0 _ Hc0).
      * rewrite Nat.eqb_refl. reflexivity.
      * intros k _ Hk. destruct (Nat.eqb_spec k c0); [contradiction|reflexivity].
Qed.

Lemma spatial_batchnorm_forward_backward_correct_witness :
  exists out cache st' dx dgamma dbeta,
    spatial_batchnorm_forward sbn_x0 bn_train_gamma0 bn_train_beta0 0 bn_row_store0 =
      (Ok (out, cache), st') /\
    spatial_batchnorm_backward sbn_x0 cache = Ok (dx, dgamma, dbeta) /\
    gradient_at
      (fun x' => upstream_loss_in sbn_x0
                   (spatial_batchnorm_forward x' bn_train_gamma0 bn_train_beta0 0
                      bn_row_store0))
      sbn_x0 dx /\
    gradient_at
      (fun g' => upstream_loss_in sbn_x0
                   (spatial_batchnorm_forward sbn_x0 g' bn_train_beta0 0 bn_row_store0))
      bn_train_gamma0 dgamma /\
    gradient_at
      (fun b' => upstream_loss_in sbn_x0
                   (spatial_batchnorm_forward sbn_x0 bn_train_gamma0 b' 0 bn_row_store0))
      bn_train_beta0 dbeta.
Proof.
  apply (spatial_batchnorm_forward_backward_correct 2 2 1 2 sbn_x0 bn_train_gamma0
           bn_train_beta0 sbn_x0 0 bn_row_store0 (PStr "train")).
  - reflexivity.
  - reflexivity.
  - reflexivity.
  - reflexivity.
  - lia.
  - lia.
  - lia.
  - lia.
  - reflexivity.
  - reflexivity.
  - exact bn_row_store0_wf.
  - rewrite bn_row_store0_eps. lra.
Defined.
